(** * The ConvFinQA evaluation harness ([src/main.py]), embedded and verified

    The development follows the layout of the script: the Python builtins
    the script relies on (text operations, binary64 arithmetic, [float()],
    [str()], [json.loads]) are modelled first, then [ConversationMemory],
    [DialogueProcessor.extract_dialogue_id], [normalize_answer],
    [answers_match], [parse_llm_response] and the per-turn scoring loop of
    [FinancialReasoningEvaluator.evaluate_dialogue]; then the records of the
    dataset, the other methods of [DialogueProcessor] and of
    [ConversationMemory], [EvaluationResults], and [process_dialogue],
    [evaluate_dialogue] and [evaluate] of [FinancialReasoningEvaluator] with
    the chat API and the prompt file as parameters; the theorems come last.

    Text.  A Python [str] is a sequence of code points.  Here it is a Rocq
    [string] whose characters are the code points U+0000..U+00FF, and the
    character classes of the builtins ([str.strip], [str.lower],
    [str.isdigit], [float]) are the ones Python has on that range.

    Numbers.  A Python [float] is an IEEE 754 binary64 value: Rocq's
    primitive [float], with the same rounding.  A Python [int] is a [Z].
    Conversions between [int] and [str] have CPython's limit on the number
    of digits: [sys.int_info.default_max_str_digits], 4300.  They raise
    [ValueError] beyond it, in [str()] and [repr()] as in [json.loads].

    Recursion.  The decoder of [json.loads] enters one level of the
    interpreter's recursion for each container it is in.  How many levels
    are left when [json.loads] is called depends on the call stack and on
    the version of the interpreter: it is a parameter, [depth].  The
    recursion of [repr()] on nested lists and dictionaries is not bounded
    here.

    Output.  [print] appends a line to the standard output, which takes
    every text of the model.

    Objects.  Where the script shares mutable objects (the message list of
    a [ConversationMemory] and the dictionaries in it), the model has a
    store of objects addressed by references. *)

From Stdlib Require Import Ascii String ZArith Floats Lia Sorted Permutation.
From stdpp Require Import base gmap strings list.

Local Open Scope string_scope.
Local Open Scope list_scope.

Set Warnings "-register-all,-inexact-float".


(** ** Python text builtins on the code points U+0000..U+00FF *)

Module PyStr.

Definition code (c : ascii) : N := N_of_ascii c.

(** The double quote, U+0022. *)
Definition dquote : ascii := Eval cbv in ascii_of_N 34.

Definition in_range (lo hi : N) (c : ascii) : bool :=
  ((lo <=? code c) && (code c <=? hi))%N.

(** [str.isspace] for one character: TAB..CR, FS..US, SPACE, NEL, NBSP. *)
Definition is_space (c : ascii) : bool :=
  in_range 9 13 c || in_range 28 32 c
  || (code c =? 133)%N || (code c =? 160)%N.

(** ['0'..'9']: the only decimal digits below U+0100. *)
Definition is_decimal (c : ascii) : bool := in_range 48 57 c.

(** [str.isdigit] for one character: the decimal digits and the
    superscripts U+00B2, U+00B3, U+00B9 (Numeric_Type=Digit). *)
Definition is_digit (c : ascii) : bool :=
  is_decimal c || (code c =? 178)%N || (code c =? 179)%N || (code c =? 185)%N.

(** [str.lower] for one character: A..Z and the capital letters
    U+00C0..U+00DE (the multiplication sign U+00D7 is not a letter). *)
Definition lower_char (c : ascii) : ascii :=
  if in_range 65 90 c || (in_range 192 222 c && negb (code c =? 215)%N)
  then ascii_of_N (code c + 32)
  else c.

Fixpoint lower (s : string) : string :=
  match s with
  | EmptyString => EmptyString
  | String c s' => String (lower_char c) (lower s')
  end.

Fixpoint rev_onto (s acc : string) : string :=
  match s with
  | EmptyString => acc
  | String c s' => rev_onto s' (String c acc)
  end.

Definition reverse (s : string) : string := rev_onto s EmptyString.

Fixpoint lstrip (s : string) : string :=
  match s with
  | EmptyString => EmptyString
  | String c s' => if is_space c then lstrip s' else s
  end.

Definition rstrip (s : string) : string := reverse (lstrip (reverse s)).

(** [s.strip()] *)
Definition strip (s : string) : string := lstrip (rstrip s).

(** [s.replace(old, new)] for a one-character [old]. *)
Fixpoint replace (old : ascii) (new : string) (s : string) : string :=
  match s with
  | EmptyString => EmptyString
  | String c s' =>
      if Ascii.eqb c old then new +:+ replace old new s'
      else String c (replace old new s')
  end.

(** [s.startswith(p)] *)
Fixpoint startswith (p s : string) : bool :=
  match p, s with
  | EmptyString, _ => true
  | String a p', String b s' => Ascii.eqb a b && startswith p' s'
  | String _ _, EmptyString => false
  end.

(** [s.endswith(p)] *)
Definition endswith (p s : string) : bool :=
  startswith (reverse p) (reverse s).

(** [s[n:]] *)
Fixpoint drop_prefix (n : nat) (s : string) : string :=
  match n, s with
  | O, _ => s
  | S n', String _ s' => drop_prefix n' s'
  | S _, EmptyString => EmptyString
  end.

(** [s[:n]] for [n >= 0] *)
Fixpoint take_prefix (n : nat) (s : string) : string :=
  match n, s with
  | S n', String c s' => String c (take_prefix n' s')
  | _, _ => EmptyString
  end.

(** [s[:-n]] for [n > 0]: everything but the last [n] characters. *)
Definition drop_suffix (n : nat) (s : string) : string :=
  take_prefix (String.length s - n) s.

(** [s.split(sep)] for a one-character [sep]: never the empty list. *)
Fixpoint split (sep : ascii) (s : string) : list string :=
  match s with
  | EmptyString => [EmptyString]
  | String c s' =>
      if Ascii.eqb c sep then EmptyString :: split sep s'
      else match split sep s' with
           | p :: ps => String c p :: ps
           | [] => [String c EmptyString]
           end
  end.

(** [sep.join(parts)] *)
Fixpoint join (sep : string) (parts : list string) : string :=
  match parts with
  | [] => EmptyString
  | [p] => p
  | p :: ps => p +:+ sep +:+ join sep ps
  end.

Fixpoint all_chars (f : ascii -> bool) (s : string) : bool :=
  match s with
  | EmptyString => true
  | String c s' => f c && all_chars f s'
  end.

(** [s.isdigit()]: at least one character, and all of them digits. *)
Definition isdigit (s : string) : bool :=
  match s with
  | EmptyString => false
  | _ => all_chars is_digit s
  end.

(** [c in s] for a character [c]. *)
Fixpoint has_char (c : ascii) (s : string) : bool :=
  match s with
  | EmptyString => false
  | String d s' => Ascii.eqb c d || has_char c s'
  end.

(** A text written with ['] where it has a double quote. *)
Definition quoted (s : string) : string :=
  replace "'" (String dquote EmptyString) s.

(** [needle in s] for strings: substring test. *)
Fixpoint contains (needle s : string) : bool :=
  startswith needle s
  || match s with
     | EmptyString => false
     | String _ s' => contains needle s'
     end.

End PyStr.

(** ** [DialogueProcessor] *)

Module DialogueProcessor.
Import PyStr.

(** [parts[-1]]; [split] never returns the empty list. *)
Definition last_part (parts : list string) : string := List.last parts EmptyString.

(** [parts[:-1]] *)
Definition but_last (parts : list string) : list string := List.removelast parts.

Definition extract_dialogue_id (full_id : string) : string :=
  let parts := split "_" full_id in
  if isdigit (last_part parts)
  then join "_" (but_last parts)
  else full_id.

End DialogueProcessor.

(** ** Python floats: arithmetic, [float(str)] and [repr(float)] *)

Module PyFloat.
Import PyStr.

Local Open Scope Z_scope.

Definition zero : float := 0%float.
Definition neg_zero : float := (-0)%float.

(** The binary64 value nearest to [(-1)^neg * n / d], ties to even:
    one correctly rounded division of two exact integers. *)
Definition round_ratio (neg : bool) (n d : positive) : float :=
  SF2Prim (SFdiv prec emax (S754_finite neg n 0) (S754_finite false d 0)).

(** The binary64 value nearest to [(-1)^neg * m * 10^e]: what CPython's
    correctly rounded [strtod] returns for the digits [m] and the decimal
    exponent [e]; overflow gives an infinity, underflow a zero. *)
Definition of_decimal (neg : bool) (m e : Z) : float :=
  match m with
  | Zpos p =>
      if 0 <=? e then round_ratio neg (p * Z.to_pos (10 ^ e)) 1
      else round_ratio neg p (Z.to_pos (10 ^ (- e)))
  | _ => if neg then neg_zero else zero
  end.

Definition digit_value (c : ascii) : Z := Z.of_N (code c) - 48.

(** A maximal run of decimal digits: its value on top of [acc], the
    number of digits read, and the rest of the text. *)
Fixpoint read_digits (s : string) (acc : Z) (n : Z) : Z * Z * string :=
  match s with
  | String c s' =>
      if is_decimal c then read_digits s' (10 * acc + digit_value c) (n + 1)
      else (acc, n, s)
  | EmptyString => (acc, n, s)
  end.

(** An optional sign: [true] for ['-']. *)
Definition read_sign (s : string) : bool * string :=
  match s with
  | String "-" s' => (true, s')
  | String "+" s' => (false, s')
  | _ => (false, s)
  end.

(** The exponent part: [e] or [E], an optional sign and at least one digit.
    [None] when the text is not an exponent part followed by nothing. *)
Definition read_exponent (s : string) : option Z :=
  match s with
  | EmptyString => Some 0
  | String c s' =>
      if Ascii.eqb (lower_char c) "e" then
        let '(neg, s1) := read_sign s' in
        match read_digits s1 0 0 with
        | (v, n, EmptyString) =>
            if 0 <? n then Some (if neg then - v else v) else None
        | _ => None
        end
      else None
  end.

(** The whitespace [float()] removes at both ends: TAB..CR and SPACE, and
    the whitespace above U+007F (NEL, NBSP); FS..US are not removed. *)
Definition is_float_space (c : ascii) : bool :=
  in_range 9 13 c || (code c =? 32)%N || (code c =? 133)%N || (code c =? 160)%N.

Fixpoint lstrip_float (s : string) : string :=
  match s with
  | EmptyString => EmptyString
  | String c s' => if is_float_space c then lstrip_float s' else s
  end.

Definition strip_float (s : string) : string :=
  lstrip_float (reverse (lstrip_float (reverse s))).

(** PEP 515 grouping: an underscore is accepted only between two decimal
    digits, and is then dropped.  [prev] is the character before [s]. *)
Fixpoint drop_underscores (prev : option ascii) (s : string) : option string :=
  match s with
  | EmptyString => Some EmptyString
  | String c s' =>
      if Ascii.eqb c "_" then
        match prev, s' with
        | Some p, String d _ =>
            if is_decimal p && is_decimal d then drop_underscores (Some c) s'
            else None
        | _, _ => None
        end
      else option_map (String c) (drop_underscores (Some c) s')
  end.

(** [float(s)] for a string [s]: [None] stands for [ValueError]. *)
Definition py_float (s : string) : option float :=
  match drop_underscores None (strip_float s) with
  | None => None
  | Some t =>
      let '(neg, u) := read_sign t in
      let w := lower u in
      if String.eqb w "inf" || String.eqb w "infinity" then
        Some (if neg then neg_infinity else infinity)
      else if String.eqb w "nan" then Some nan
      else
        let '(ip, ni, r1) := read_digits u 0 0 in
        let '(m, nf, r2) :=
          match r1 with
          | String "." r => read_digits r ip 0
          | _ => (ip, 0, r1)
          end in
        if 0 <? ni + nf then
          match read_exponent r2 with
          | Some e => Some (of_decimal neg m (e - nf))
          | None => None
          end
        else None
  end.

(** *** Arithmetic and comparisons, as the operators do them *)

Definition py_abs (x : float) : float := PrimFloat.abs x.
Definition py_sub (x y : float) : float := PrimFloat.sub x y.
Definition py_le (x y : float) : bool := PrimFloat.leb x y.
Definition py_gt (x y : float) : bool := PrimFloat.ltb y x.

(** [x / y]: [None] stands for [ZeroDivisionError], raised for a zero
    divisor of either sign. *)
Definition py_truediv (x y : float) : option float :=
  if PrimFloat.eqb y zero then None else Some (PrimFloat.div x y).

(** [max(a, b)]: the second argument replaces the first only when it
    compares greater. *)
Definition py_max (a b : float) : float := if py_gt b a then b else a.

End PyFloat.

(** ** Exceptions *)

(** The exceptions the modelled code can raise.  [OutsideLatin1] is not a
    Python exception: it marks a JSON escape [\uXXXX] for a code point
    above U+00FF, text this development does not represent. *)
Inductive exn : Type :=
| ValueError
| ZeroDivisionError
| TypeError
| AttributeError
| RecursionError
| JSONDecodeError
| JSONParsingError
| OutsideLatin1.

(** A call either returns a value or raises. *)
Inductive res (A : Type) : Type :=
| Ok (a : A)
| Raise (e : exn).

Arguments Ok {A} a.
Arguments Raise {A} e.

Definition exn_eqb (a b : exn) : bool :=
  match a, b with
  | ValueError, ValueError | ZeroDivisionError, ZeroDivisionError
  | TypeError, TypeError | AttributeError, AttributeError
  | RecursionError, RecursionError | JSONDecodeError, JSONDecodeError
  | JSONParsingError, JSONParsingError | OutsideLatin1, OutsideLatin1 => true
  | _, _ => false
  end.

(** ** Python values, [repr()] and [str()] *)

(** The values [json.loads] builds, which are also the values the
    evaluator passes around.  A [PyDict] lists its items in insertion
    order, with distinct keys. *)
Inductive pyobj : Type :=
| PyNone
| PyBool (b : bool)
| PyInt (n : Z)
| PyFloat (f : float)
| PyStr (s : string)
| PyList (items : list pyobj)
| PyDict (entries : list (string * pyobj)).

Module PyRepr.
Import PyStr PyFloat.

Local Open Scope Z_scope.

Definition digit_char (d : Z) : ascii := ascii_of_N (Z.to_N (48 + d)).

Fixpoint digits_onto (fuel : nat) (n : Z) (acc : string) : string :=
  match fuel with
  | O => acc
  | S fuel' =>
      if n <? 10 then String (digit_char n) acc
      else digits_onto fuel' (n / 10) (String (digit_char (n mod 10)) acc)
  end.

(** The decimal digits of [n >= 0]. *)
Definition decimal (n : Z) : string :=
  digits_onto (S (Z.to_nat (Z.log2 n))) n EmptyString.

(** The text of an [int]: a minus sign when negative, and its decimal
    digits. *)
Definition int_digits (n : Z) : string :=
  if n <? 0 then String "-" (decimal (- n)) else decimal n.

(** [sys.int_info.default_max_str_digits] *)
Definition max_str_digits : Z := 4300.

(** An [int] whose text has at most [max_str_digits] digits, the sign not
    counted. *)
Definition within_digit_limit (n : Z) : bool := Z.abs n <? 10 ^ max_str_digits.

(** [repr(n)] for an [int]: [ValueError] when the text would exceed the
    limit on digits. *)
Definition int_repr (n : Z) : res string :=
  if within_digit_limit n then Ok (int_digits n) else Raise ValueError.

Fixpoint zeros (n : nat) : string :=
  match n with
  | O => EmptyString
  | S n' => String "0" (zeros n')
  end.

(** [num / den < 10 ^ d] *)
Definition below_pow10 (num den d : Z) : bool :=
  if 0 <=? d then num <? den * 10 ^ d else num * 10 ^ (- d) <? den.

(** The least [d], counting up from [d0], with [num / den < 10 ^ d]. *)
Fixpoint decimal_point (fuel : nat) (num den d0 : Z) : Z :=
  match fuel with
  | O => d0
  | S fuel' =>
      if below_pow10 num den d0 then d0
      else decimal_point fuel' num den (d0 + 1)
  end.

(** The shortest decimal [(D, k)], meaning [D * 10 ^ k], that [float()]
    reads back as the positive finite [f = num / den]; among the
    candidates of that length, the one nearest to [f], and of two equally
    near the one whose last digit is even.  [n] is the number of digits
    tried, [decpt] the position of the decimal point. *)
Fixpoint shortest_from (fuel : nat) (f : float) (num den decpt n : Z) : Z * Z :=
  let k := decpt - n in
  let a := if 0 <=? k then num else num * 10 ^ (- k) in
  let b := if 0 <=? k then den * 10 ^ k else den in
  let lo := a / b in
  let hi := lo + 1 in
  let lo_ok := PrimFloat.eqb (of_decimal false lo k) f in
  let hi_ok := PrimFloat.eqb (of_decimal false hi k) f in
  match fuel with
  | O => (lo, k)
  | S fuel' =>
      if lo_ok && hi_ok then
        (if 2 * (a mod b) <? b then lo
         else if b <? 2 * (a mod b) then hi
         else if Z.even lo then lo else hi, k)
      else if lo_ok then (lo, k)
      else if hi_ok then (hi, k)
      else shortest_from fuel' f num den decpt (n + 1)
  end.

Fixpoint strip_zeros (fuel : nat) (D k : Z) : Z * Z :=
  match fuel with
  | O => (D, k)
  | S fuel' =>
      if (D mod 10 =? 0) && (0 <? D) then strip_zeros fuel' (D / 10) (k + 1)
      else (D, k)
  end.

(** The exponent of the scientific form: a sign and at least two digits. *)
Definition exponent_repr (e : Z) : string :=
  let sign : ascii := if e <? 0 then "-"%char else "+"%char in
  let d := decimal (Z.abs e) in
  String "e" (String sign (if (String.length d <? 2)%nat then String "0" d else d)).

(** Format code ['r'] on the digit string [ds] with the decimal point
    after [decpt] digits: scientific form when [decpt <= -4] or
    [decpt > 16], else positional with at least one fractional digit. *)
Definition format_r (ds : string) (decpt : Z) : string :=
  let nd := Z.of_nat (String.length ds) in
  if (decpt <=? -4) || (16 <? decpt) then
    match ds with
    | String d EmptyString => String d (exponent_repr (decpt - 1))
    | String d rest => String d (String "." (rest +:+ exponent_repr (decpt - 1)))
    | EmptyString => EmptyString
    end
  else if decpt <=? 0 then "0." +:+ zeros (Z.to_nat (- decpt)) +:+ ds
  else if nd <=? decpt then ds +:+ zeros (Z.to_nat (decpt - nd)) +:+ ".0"
  else take_prefix (Z.to_nat decpt) ds +:+ "." +:+ drop_prefix (Z.to_nat decpt) ds.

(** [repr(f)] for a [float]: the shortest digits that read back as [f]. *)
Definition float_repr (f : float) : string :=
  match Prim2SF f with
  | S754_nan => "nan"
  | S754_infinity s => if s then "-inf" else "inf"
  | S754_zero s => if s then "-0.0" else "0.0"
  | S754_finite s m e =>
      let num := if 0 <=? e then Zpos m * 2 ^ e else Zpos m in
      let den := if 0 <=? e then 1 else 2 ^ (- e) in
      let decpt := decimal_point 640 num den (-323) in
      let '(D0, k0) := shortest_from 17 (PrimFloat.abs f) num den decpt 1 in
      let '(D, k) := strip_zeros 17 D0 k0 in
      let ds := decimal D in
      let body := format_r ds (k + Z.of_nat (String.length ds)) in
      if s then String "-" body else body
  end.

Definition hex_digit (d : N) : ascii :=
  ascii_of_N (if (d <? 10)%N then 48 + d else 87 + d).

(** [str.isprintable] for one character. *)
Definition is_printable (c : ascii) : bool :=
  in_range 32 126 c || (in_range 161 255 c && negb (code c =? 173)%N).

(** One character of [repr(s)] inside the quote character [q]. *)
Definition char_repr (q c : ascii) : string :=
  if Ascii.eqb c q || Ascii.eqb c "\" then String "\" (String c EmptyString)
  else if (code c =? 9)%N then "\t"
  else if (code c =? 10)%N then "\n"
  else if (code c =? 13)%N then "\r"
  else if is_printable c then String c EmptyString
  else String "\" (String "x" (String (hex_digit (code c / 16))
         (String (hex_digit (code c mod 16)) EmptyString))).

Fixpoint chars_repr (q : ascii) (s : string) : string :=
  match s with
  | EmptyString => EmptyString
  | String c s' => char_repr q c +:+ chars_repr q s'
  end.

(** [repr(s)] for a [str]: single quotes, unless the text has a single
    quote and no double quote. *)
Definition str_repr (s : string) : string :=
  let q : ascii := if has_char "'" s && negb (has_char dquote s) then dquote else "'"%char in
  String q (chars_repr q s +:+ String q EmptyString).

(** The texts of the items of a container, up to the first that raises. *)
Fixpoint all_texts (parts : list (res string)) : res (list string) :=
  match parts with
  | [] => Ok []
  | Raise e :: _ => Raise e
  | Ok p :: rest =>
      match all_texts rest with
      | Ok ps => Ok (p :: ps)
      | Raise e => Raise e
      end
  end.

(** [repr(x)]: it raises when the [repr] of an [int] in [x] raises. *)
Fixpoint py_repr (x : pyobj) : res string :=
  match x with
  | PyNone => Ok "None"
  | PyBool true => Ok "True"
  | PyBool false => Ok "False"
  | PyInt n => int_repr n
  | PyFloat f => Ok (float_repr f)
  | PyStr s => Ok (str_repr s)
  | PyList items =>
      match all_texts (List.map py_repr items) with
      | Ok parts => Ok ("[" +:+ join ", " parts +:+ "]")
      | Raise e => Raise e
      end
  | PyDict entries =>
      match all_texts
              (List.map (fun kv =>
                           match py_repr (snd kv) with
                           | Ok v => Ok (str_repr (fst kv) +:+ ": " +:+ v)
                           | Raise e => Raise e
                           end) entries) with
      | Ok parts => Ok ("{" +:+ join ", " parts +:+ "}")
      | Raise e => Raise e
      end
  end.

(** [str(x)] *)
Definition py_str (x : pyobj) : res string :=
  match x with
  | PyStr s => Ok s
  | _ => py_repr x
  end.

(** *** Words for the statements *)

(** A value with no [int] beyond the limit on digits in it. *)
Fixpoint printable (x : pyobj) : bool :=
  match x with
  | PyInt n => within_digit_limit n
  | PyList items => forallb printable items
  | PyDict entries => forallb (fun kv => printable (snd kv)) entries
  | _ => true
  end.

(** A value that is no list and no dictionary. *)
Definition scalar (x : pyobj) : bool :=
  match x with
  | PyList _ | PyDict _ => false
  | _ => true
  end.

End PyRepr.

(** ** Python dictionaries with string keys, in insertion order *)

Module PyDictOps.

Definition dict : Type := list (string * pyobj).

(** [d[k] = v]: a key already present keeps its place. *)
Fixpoint dict_set (k : string) (v : pyobj) (d : dict) : dict :=
  match d with
  | [] => [(k, v)]
  | (k', v') :: d' =>
      if String.eqb k' k then (k', v) :: d' else (k', v') :: dict_set k v d'
  end.

(** [d.get(k)], [None] when the key is missing. *)
Fixpoint dict_get (k : string) (d : dict) : option pyobj :=
  match d with
  | [] => None
  | (k', v') :: d' => if String.eqb k' k then Some v' else dict_get k d'
  end.

(** [k in d] *)
Definition dict_contains (k : string) (d : dict) : bool :=
  match dict_get k d with
  | Some _ => true
  | None => false
  end.

End PyDictOps.

(** ** [json.loads], as CPython's decoder scans a text *)

Module Json.
Import PyStr PyFloat PyRepr PyDictOps.

(** JSON whitespace: space, TAB, LF, CR. *)
Definition is_ws (c : ascii) : bool :=
  (code c =? 32)%N || (code c =? 9)%N || (code c =? 10)%N || (code c =? 13)%N.

Fixpoint skip_ws (s : string) : string :=
  match s with
  | EmptyString => EmptyString
  | String c s' => if is_ws c then skip_ws s' else s
  end.

Definition hex_value (c : ascii) : option N :=
  if in_range 48 57 c then Some (code c - 48)%N
  else if in_range 97 102 c then Some (code c - 87)%N
  else if in_range 65 70 c then Some (code c - 55)%N
  else None.

(** The code point of the four hex digits of a [\uXXXX] escape. *)
Definition hex4 (a b c d : ascii) : option N :=
  match hex_value a, hex_value b, hex_value c, hex_value d with
  | Some x, Some y, Some z, Some w => Some (((x * 16 + y) * 16 + z) * 16 + w)%N
  | _, _, _, _ => None
  end.

(** The one-letter escapes. *)
Definition backslash (e : ascii) : option ascii :=
  if Ascii.eqb e dquote then Some dquote
  else if Ascii.eqb e "\" then Some "\"%char
  else if Ascii.eqb e "/" then Some "/"%char
  else if Ascii.eqb e "b" then Some (ascii_of_N 8)
  else if Ascii.eqb e "f" then Some (ascii_of_N 12)
  else if Ascii.eqb e "n" then Some (ascii_of_N 10)
  else if Ascii.eqb e "r" then Some (ascii_of_N 13)
  else if Ascii.eqb e "t" then Some (ascii_of_N 9)
  else None.

(** [scanstring] in strict mode, from just after the opening quote: the
    decoded string and the text after the closing quote.  [acc] holds the
    characters decoded so far, last first. *)
Fixpoint scanstring (s : string) (acc : string) : res (string * string) :=
  match s with
  | EmptyString => Raise JSONDecodeError
  | String c s1 =>
      if Ascii.eqb c dquote then Ok (reverse acc, s1)
      else if Ascii.eqb c "\" then
        match s1 with
        | EmptyString => Raise JSONDecodeError
        | String e s2 =>
            if Ascii.eqb e "u" then
              match s2 with
              | String h1 (String h2 (String h3 (String h4 s3))) =>
                  match hex4 h1 h2 h3 h4 with
                  | Some uni =>
                      if (uni <? 256)%N then scanstring s3 (String (ascii_of_N uni) acc)
                      else Raise OutsideLatin1
                  | None => Raise JSONDecodeError
                  end
              | _ => Raise JSONDecodeError
              end
            else
              match backslash e with
              | Some ch => scanstring s2 (String ch acc)
              | None => Raise JSONDecodeError
              end
        end
      else if (code c <? 32)%N then Raise JSONDecodeError
      else scanstring s1 (String c acc)
  end.

(** The longest prefix of decimal digits, and the rest. *)
Fixpoint span_digits (s : string) : string * string :=
  match s with
  | String c s' =>
      if is_decimal c then let '(ds, r) := span_digits s' in (String c ds, r)
      else (EmptyString, s)
  | EmptyString => (EmptyString, EmptyString)
  end.

(** The integer part of a number: ['0'] alone, or a non-zero digit and
    any digits. *)
Definition match_integer (s : string) : option (string * string) :=
  match s with
  | String c s' =>
      if Ascii.eqb c "0" then Some ("0", s')
      else if in_range 49 57 c then
        let '(ds, r) := span_digits s' in Some (String c ds, r)
      else None
  | EmptyString => None
  end.

(** The fraction: a point and at least one digit, else nothing. *)
Definition match_frac (s : string) : string * string :=
  match s with
  | String "." s' =>
      match span_digits s' with
      | (EmptyString, _) => (EmptyString, s)
      | (ds, r) => (String "." ds, r)
      end
  | _ => (EmptyString, s)
  end.

(** The exponent: [e] or [E], an optional sign and at least one digit,
    else nothing. *)
Definition match_exp (s : string) : string * string :=
  match s with
  | String c s' =>
      if Ascii.eqb c "e" || Ascii.eqb c "E" then
        let '(sign, s1) :=
          match s' with
          | String "-" r => ("-", r)
          | String "+" r => ("+", r)
          | _ => (EmptyString, s')
          end in
        match span_digits s1 with
        | (EmptyString, _) => (EmptyString, s)
        | (ds, r) => (String c (sign +:+ ds), r)
        end
      else (EmptyString, s)
  | EmptyString => (EmptyString, s)
  end.

(** The value of a text made of an optional minus sign and decimal
    digits. *)
Definition int_of_text (text : string) : Z :=
  let '(neg, ds) := read_sign text in
  let '(v, _, _) := read_digits ds 0%Z 0%Z in
  if neg then (- v)%Z else v.

(** [int(text)] for such a text with the digits [digits]: [ValueError]
    when there are more digits than the limit allows. *)
Definition py_int (text digits : string) : res Z :=
  if (Z.of_nat (String.length digits) <=? max_str_digits)%Z
  then Ok (int_of_text text)
  else Raise ValueError.

(** A number at the head of [s]: a [float] when it has a fraction or an
    exponent, an [int] otherwise.  [None] when no number starts here. *)
Definition match_number (s : string) : option (res pyobj * string) :=
  let '(sign, s0) :=
    match s with
    | String "-" r => ("-", r)
    | _ => (EmptyString, s)
    end in
  match match_integer s0 with
  | None => None
  | Some (ip, s1) =>
      let '(frac, s2) := match_frac s1 in
      let '(ex, s3) := match_exp s2 in
      let integer := sign +:+ ip in
      match frac, ex with
      | EmptyString, EmptyString =>
          match py_int integer ip with
          | Ok n => Some (Ok (PyInt n), s3)
          | Raise e => Some (Raise e, s3)
          end
      | _, _ =>
          match py_float (integer +:+ frac +:+ ex) with
          | Some f => Some (Ok (PyFloat f), s3)
          | None => Some (Raise ValueError, s3)
          end
      end
  end.

Section Containers.

(** [scan_once], handed to [JSONObject] and [JSONArray] as in CPython. *)
Variable scan : string -> res (pyobj * string).

(** The items of an array, from the first character of an item.  Every
    item takes at least one character, so the length of the text bounds
    the number of items: [fuel] is never what ends the loop. *)
Fixpoint array_items (fuel : nat) (s : string) (acc : list pyobj)
  : res (pyobj * string) :=
  match fuel with
  | O => Raise JSONDecodeError
  | S fuel' =>
      match scan s with
      | Raise e => Raise e
      | Ok (v, s1) =>
          match skip_ws s1 with
          | String "]" s2 => Ok (PyList (List.rev (v :: acc)), s2)
          | String "," s2 => array_items fuel' (skip_ws s2) (v :: acc)
          | _ => Raise JSONDecodeError
          end
      end
  end.

(** [JSONArray], from just after the opening bracket. *)
Definition JSONArray (s : string) : res (pyobj * string) :=
  match skip_ws s with
  | String "]" s1 => Ok (PyList [], s1)
  | s1 => array_items (S (String.length s1)) s1 []
  end.

(** The members of an object, from just after the opening quote of a key. *)
Fixpoint object_items (fuel : nat) (s : string) (acc : dict)
  : res (pyobj * string) :=
  match fuel with
  | O => Raise JSONDecodeError
  | S fuel' =>
      match scanstring s EmptyString with
      | Raise e => Raise e
      | Ok (key, s1) =>
          match skip_ws s1 with
          | String ":" s2 =>
              match scan (skip_ws s2) with
              | Raise e => Raise e
              | Ok (value, s3) =>
                  let acc' := dict_set key value acc in
                  match skip_ws s3 with
                  | String "}" s4 => Ok (PyDict acc', s4)
                  | String "," s4 =>
                      match skip_ws s4 with
                      | String q s5 =>
                          if Ascii.eqb q dquote then object_items fuel' s5 acc'
                          else Raise JSONDecodeError
                      | EmptyString => Raise JSONDecodeError
                      end
                  | _ => Raise JSONDecodeError
                  end
              end
          | _ => Raise JSONDecodeError
          end
      end
  end.

(** [JSONObject], from just after the opening brace. *)
Definition JSONObject (s : string) : res (pyobj * string) :=
  match skip_ws s with
  | String c s1 =>
      if Ascii.eqb c "}" then Ok (PyDict [], s1)
      else if Ascii.eqb c dquote then object_items (S (String.length s1)) s1 []
      else Raise JSONDecodeError
  | EmptyString => Raise JSONDecodeError
  end.

End Containers.

(** Two scanners, the second returning whatever the first returns. *)
Definition scan_le (scan1 scan2 : string -> res (pyobj * string)) : Prop :=
  forall s x, scan1 s = Ok x -> scan2 s = Ok x.

(** A scanner that, when it returns, leaves less text than it was given. *)
Definition consuming (scan : string -> res (pyobj * string)) : Prop :=
  forall s v r, scan s = Ok (v, r) -> String.length r < String.length s.

(** The exceptions that leave the decoder. *)
Definition decoder_exn (e : exn) : Prop :=
  e = JSONDecodeError \/ e = RecursionError \/ e = OutsideLatin1 \/ e = ValueError.

(** The value of a number match, or "Expecting value". *)
Definition number_or_fail (s : string) : res (pyobj * string) :=
  match match_number s with
  | Some (Ok v, r) => Ok (v, r)
  | Some (Raise e, _) => Raise e
  | None => Raise JSONDecodeError
  end.

(** [scan_once].  [constants] is the [parse_constant] hook: [true] is the
    default, which reads [NaN], [Infinity] and [-Infinity] as floats;
    [false] is a hook that rejects them.  Each container is scanned one
    level of recursion further down ([Py_EnterRecursiveCall]); [depth] is
    the number of levels left, and a container met when none is left
    raises [RecursionError]. *)
Fixpoint scan_once (constants : bool) (depth : nat) (s : string)
  : res (pyobj * string) :=
  match s with
  | EmptyString => Raise JSONDecodeError
  | String c s' =>
      if Ascii.eqb c dquote then
        match scanstring s' EmptyString with
        | Ok (str, r) => Ok (PyStr str, r)
        | Raise e => Raise e
        end
      else if Ascii.eqb c "{" then
        match depth with
        | O => Raise RecursionError
        | S d => JSONObject (scan_once constants d) s'
        end
      else if Ascii.eqb c "[" then
        match depth with
        | O => Raise RecursionError
        | S d => JSONArray (scan_once constants d) s'
        end
      else if startswith "null" s then Ok (PyNone, drop_prefix 4 s)
      else if startswith "true" s then Ok (PyBool true, drop_prefix 4 s)
      else if startswith "false" s then Ok (PyBool false, drop_prefix 5 s)
      else if constants && startswith "NaN" s then Ok (PyFloat nan, drop_prefix 3 s)
      else if constants && startswith "Infinity" s then
        Ok (PyFloat infinity, drop_prefix 8 s)
      else if constants && startswith "-Infinity" s then
        Ok (PyFloat neg_infinity, drop_prefix 9 s)
      else number_or_fail s
  end.

(** [JSONDecoder.decode]: one value, whitespace around it, nothing else. *)
Definition decode (constants : bool) (depth : nat) (s : string) : res pyobj :=
  match scan_once constants depth (skip_ws s) with
  | Raise e => Raise e
  | Ok (v, r) =>
      match skip_ws r with
      | EmptyString => Ok v
      | _ => Raise JSONDecodeError
      end
  end.

(** [json.loads(s)] with the default hooks, called where the interpreter
    has [depth] levels of recursion left for the decoder. *)
Definition loads (depth : nat) (s : string) : res pyobj := decode true depth s.

End Json.

(** ** JSON texts: the grammar of RFC 8259

    The grammar is written down from the RFC, with the value each text
    stands for; the decoder above is not used.  [extended] adds the three
    names [NaN], [Infinity] and [-Infinity], which the RFC does not have.
    Strings are the ones whose characters and escapes stay below U+0100. *)

Module JsonText.
Import PyStr PyFloat PyDictOps.

(** [ws]: space, horizontal tab, line feed, carriage return. *)
Definition ws_char (c : ascii) : Prop :=
  code c = 32%N \/ code c = 9%N \/ code c = 10%N \/ code c = 13%N.

Inductive ws : string -> Prop :=
| ws_nil : ws EmptyString
| ws_cons (c : ascii) (w : string) : ws_char c -> ws w -> ws (String c w).

(** [escape]: the letter after the backslash, and the character meant. *)
Inductive escape : ascii -> ascii -> Prop :=
| escape_quote : escape dquote dquote
| escape_backslash : escape "\" "\"
| escape_slash : escape "/" "/"
| escape_b : escape "b" (ascii_of_N 8)
| escape_f : escape "f" (ascii_of_N 12)
| escape_n : escape "n" (ascii_of_N 10)
| escape_r : escape "r" (ascii_of_N 13)
| escape_t : escape "t" (ascii_of_N 9).

(** [unescaped]: any character but the quote, the backslash and the
    control characters below U+0020. *)
Definition unescaped (c : ascii) : Prop :=
  (32 <= code c)%N /\ c <> dquote /\ c <> "\"%char.

(** The characters between the quotes of a string, and the text they
    stand for. *)
Inductive chars : string -> string -> Prop :=
| chars_nil : chars EmptyString EmptyString
| chars_plain (c : ascii) (t d : string) :
    unescaped c -> chars t d -> chars (String c t) (String c d)
| chars_escape (e c : ascii) (t d : string) :
    escape e c -> chars t d -> chars (String "\" (String e t)) (String c d)
| chars_hex (h1 h2 h3 h4 : ascii) (uni : N) (t d : string) :
    Json.hex4 h1 h2 h3 h4 = Some uni -> (uni < 256)%N -> chars t d ->
    chars (String "\" (String "u" (String h1 (String h2 (String h3 (String h4 t))))))
      (String (ascii_of_N uni) d).

Definition digit (c : ascii) : Prop := (48 <= code c <= 57)%N.

Definition digit1_9 (c : ascii) : Prop := (49 <= code c <= 57)%N.

(** [*DIGIT] *)
Inductive digit_run : string -> Prop :=
| run_nil : digit_run EmptyString
| run_cons (c : ascii) (ds : string) : digit c -> digit_run ds -> digit_run (String c ds).

(** [int = zero / ( digit1-9 *DIGIT )] *)
Inductive int_part : string -> Prop :=
| int_zero : int_part "0"
| int_nonzero (c : ascii) (ds : string) : digit1_9 c -> digit_run ds -> int_part (String c ds).

(** [[ minus ]] *)
Inductive opt_minus : string -> Prop :=
| no_minus : opt_minus EmptyString
| a_minus : opt_minus "-".

(** [[ frac ]], with [frac = decimal-point 1*DIGIT] *)
Inductive opt_frac : string -> Prop :=
| no_frac : opt_frac EmptyString
| a_frac (c : ascii) (ds : string) :
    digit c -> digit_run ds -> opt_frac (String "." (String c ds)).

(** [[ minus / plus ]] *)
Inductive opt_sign : string -> Prop :=
| no_sign : opt_sign EmptyString
| minus_sign : opt_sign "-"
| plus_sign : opt_sign "+".

(** [[ exp ]], with [exp = e [ minus / plus ] 1*DIGIT] *)
Inductive opt_exp : string -> Prop :=
| no_exp : opt_exp EmptyString
| an_exp (e c : ascii) (sg ds : string) :
    e = "e"%char \/ e = "E"%char -> opt_sign sg -> digit c -> digit_run ds ->
    opt_exp (String e (sg +:+ String c ds)).

(** [number = [ minus ] int [ frac ] [ exp ]].  Without fraction and
    exponent it stands for the [int] its text denotes, else for the
    [float] that [float()] makes of its text. *)
Inductive number : string -> pyobj -> Prop :=
| number_int (m ip : string) :
    opt_minus m -> int_part ip ->
    number (m +:+ ip) (PyInt (Json.int_of_text (m +:+ ip)))
| number_float (m ip fr ex : string) (f : float) :
    opt_minus m -> int_part ip -> opt_frac fr -> opt_exp ex ->
    fr +:+ ex <> EmptyString ->
    py_float (m +:+ ip +:+ fr +:+ ex) = Some f ->
    number (m +:+ ip +:+ fr +:+ ex) (PyFloat f).

(** [value], [value *( value-separator value )] and
    [member *( value-separator member )].  The members of an object fill
    a dictionary from left to right, on top of [acc]. *)
Inductive value (extended : bool) : string -> pyobj -> Prop :=
| value_null : value extended "null" PyNone
| value_true : value extended "true" (PyBool true)
| value_false : value extended "false" (PyBool false)
| value_nan : extended = true -> value extended "NaN" (PyFloat nan)
| value_infinity : extended = true -> value extended "Infinity" (PyFloat infinity)
| value_neg_infinity :
    extended = true -> value extended "-Infinity" (PyFloat neg_infinity)
| value_number (t : string) (v : pyobj) : number t v -> value extended t v
| value_string (t d : string) :
    chars t d ->
    value extended (String dquote (t +:+ String dquote EmptyString)) (PyStr d)
| value_empty_array (w : string) :
    ws w -> value extended ("[" +:+ w +:+ "]") (PyList [])
| value_array (body : string) (vs : list pyobj) :
    elements extended body vs -> value extended ("[" +:+ body +:+ "]") (PyList vs)
| value_empty_object (w : string) :
    ws w -> value extended ("{" +:+ w +:+ "}") (PyDict [])
| value_object (body : string) (d : dict) :
    members extended body [] d -> value extended ("{" +:+ body +:+ "}") (PyDict d)
with elements (extended : bool) : string -> list pyobj -> Prop :=
| elements_last (w1 t w2 : string) (v : pyobj) :
    ws w1 -> value extended t v -> ws w2 ->
    elements extended (w1 +:+ t +:+ w2) [v]
| elements_more (w1 t w2 rest : string) (v : pyobj) (vs : list pyobj) :
    ws w1 -> value extended t v -> ws w2 -> elements extended rest vs ->
    elements extended (w1 +:+ t +:+ w2 +:+ "," +:+ rest) (v :: vs)
with members (extended : bool) : string -> dict -> dict -> Prop :=
| members_last (w1 k w2 w3 t w4 key : string) (v : pyobj) (acc : dict) :
    ws w1 -> chars k key -> ws w2 -> ws w3 -> value extended t v -> ws w4 ->
    members extended
      (w1 +:+ String dquote (k +:+ String dquote (w2 +:+ ":" +:+ w3 +:+ t +:+ w4)))
      acc (dict_set key v acc)
| members_more (w1 k w2 w3 t w4 rest key : string) (v : pyobj) (acc d : dict) :
    ws w1 -> chars k key -> ws w2 -> ws w3 -> value extended t v -> ws w4 ->
    members extended rest (dict_set key v acc) d ->
    members extended
      (w1 +:+ String dquote (k +:+ String dquote
                (w2 +:+ ":" +:+ w3 +:+ t +:+ w4 +:+ "," +:+ rest)))
      acc d.

(** [JSON-text = ws value ws] *)
Definition json_text (extended : bool) (s : string) (v : pyobj) : Prop :=
  exists w1 t w2, s = w1 +:+ t +:+ w2 /\ ws w1 /\ value extended t v /\ ws w2.

(** A text of the grammar of the RFC. *)
Definition valid_json (s : string) : Prop := exists v, json_text false s v.

(** A text of the grammar with the three names. *)
Definition extended_json (s : string) : Prop := exists v, json_text true s v.

(** The number of opening brackets and braces in a text: no value in it
    is nested deeper. *)
Fixpoint opens (s : string) : nat :=
  match s with
  | EmptyString => 0
  | String c s' =>
      (if Ascii.eqb c "[" || Ascii.eqb c "{" then 1 else 0) + opens s'
  end.

(** *** Words for the statements *)

(** A text with no decimal digit at its head. *)
Definition no_digit_head (s : string) : Prop :=
  match s with
  | EmptyString => True
  | String c _ => is_decimal c = false
  end.

(** A text that does not go on with a fraction: it starts with no digit
    and no point. *)
Definition no_frac_head (s : string) : Prop :=
  match s with
  | EmptyString => True
  | String c _ => is_decimal c = false /\ c <> "."%char
  end.

(** A text that does not go on with a number: it starts with no digit, no
    point and no exponent letter. *)
Definition follow (s : string) : Prop :=
  match s with
  | EmptyString => True
  | String c _ =>
      is_decimal c = false /\ c <> "."%char /\ c <> "e"%char /\ c <> "E"%char
  end.

(** A scanner that returns values of the grammar: the text it took, the
    value of that text, and no [int] beyond the limit on digits in it. *)
Definition sound_scan (extended : bool) (scan : string -> res (pyobj * string)) : Prop :=
  forall s v r,
    scan s = Ok (v, r) ->
    exists t, s = t +:+ r /\ value extended t v /\ PyRepr.printable v = true.

(** The two exceptions of the limits. *)
Definition limit_exn (e : exn) : Prop := e = RecursionError \/ e = ValueError.

(** A call that returns [a] unless a limit is met. *)
Definition returns_within_limits {A} (x : res A) (a : A) : Prop :=
  x = Ok a \/ exists e, limit_exn e /\ x = Raise e.

(** What the text must be like for [e] to be raised with [depth] levels
    left: more containers than levels for [RecursionError], more
    characters than an [int] may have digits for [ValueError]. *)
Definition blame (depth : nat) (e : exn) (s : string) : Prop :=
  match e with
  | RecursionError => depth < opens s
  | ValueError => (PyRepr.max_str_digits < Z.of_nat (String.length s))%Z
  | _ => True
  end.

End JsonText.

(** ** Calls that change a state and may raise *)

Module Effects.

(** A call: from the state before to an outcome and the state after.  A
    call that raises leaves the state as it was when the exception left
    the call. *)
Definition M (S A : Type) : Type := S -> res A * S.

Definition ret {S A} (a : A) : M S A := fun st => (Ok a, st).

Definition raise {S A} (e : exn) : M S A := fun st => (Raise e, st).

Definition bind {S A B} (m : M S A) (k : A -> M S B) : M S B :=
  fun st =>
    match m st with
    | (Ok a, st') => k a st'
    | (Raise e, st') => (Raise e, st')
    end.

(** [try: body / except E: handler], for one exception class [E]. *)
Definition try_except {S A} (body : M S A) (E : exn) (handler : M S A) : M S A :=
  fun st =>
    match body st with
    | (Raise e, st') => if exn_eqb e E then handler st' else (Raise e, st')
    | r => r
    end.

(** A builtin that returns or raises [E]. *)
Definition or_raise {S A} (E : exn) (o : option A) : M S A :=
  match o with
  | Some a => ret a
  | None => raise E
  end.

(** A call that leaves the state alone. *)
Definition lift {S A} (r : res A) : M S A := fun st => (r, st).

Definition get {S} : M S S := fun st => (Ok st, st).

(** What [print] has written so far, one entry per call. *)
Definition stdout : Type := list string.

(** [print(line)] *)
Definition print (line : string) : M stdout unit :=
  fun out => (Ok tt, out ++ [line]).

End Effects.

Notation "x <- m ;; k" := (Effects.bind m (fun x => k))
  (at level 100, m at next level, right associativity).
Notation "m ;;; k" := (Effects.bind m (fun _ => k))
  (at level 100, right associativity).

(** ** Configuration *)

Record Config : Type := {
  relative_tolerance : float;
  absolute_tolerance : float
}.

(** The defaults of the [Config] dataclass. *)
Definition default_config : Config :=
  {| relative_tolerance := 1e-3; absolute_tolerance := 1e-4 |}.

(** ** Answer comparison, response parsing and per-turn scoring *)

Module Evaluator.
Import PyStr PyFloat PyRepr PyDictOps Effects.

(** [str(x)] is evaluated before the [try]: what it raises leaves the
    function. *)
Definition normalize_answer (x : pyobj) : M stdout float :=
  match x with
  | PyNone => ret zero
  | _ =>
      text <- lift (py_str x) ;;
      let x_str := lower (strip text) in
      let x_str := replace "%" "" (replace "$" "" (replace " " "" x_str)) in
      try_except (or_raise ValueError (py_float x_str))
        ValueError
        (print ("Warning: Could not convert '" +:+ text +:+ "'") ;;;
         ret zero)
  end.

(** The floor under [|gold|] in the relative difference. *)
Definition floor_constant : float := 1e-10.

Definition answers_match (pred gold : pyobj)
    (relative_tolerance absolute_tolerance : float) : M stdout bool :=
  pred_num <- normalize_answer pred ;;
  gold_num <- normalize_answer gold ;;
  let abs_diff := py_abs (py_sub pred_num gold_num) in
  rel_diff <- or_raise ZeroDivisionError
                (py_truediv abs_diff (py_max (py_abs gold_num) floor_constant)) ;;
  ret (py_le abs_diff absolute_tolerance || py_le rel_diff relative_tolerance).

(** The acceptance rule on two numbers: the absolute difference is at
    most the absolute tolerance, or the absolute difference divided by the
    larger of [|gold_num|] and the floor is at most the relative
    tolerance. *)
Definition within_tolerance (relative_tolerance absolute_tolerance : float)
    (pred_num gold_num : float) : bool :=
  let abs_diff := PrimFloat.abs (PrimFloat.sub pred_num gold_num) in
  let larger :=
    if PrimFloat.ltb (PrimFloat.abs gold_num) floor_constant then floor_constant
    else PrimFloat.abs gold_num in
  PrimFloat.leb abs_diff absolute_tolerance
  || PrimFloat.leb (PrimFloat.div abs_diff larger) relative_tolerance.

(** The text handed to [json.loads]: the stripped reply without its
    opening and closing fences. *)
Definition unfence (response_text : string) : string :=
  let cleaned := strip response_text in
  let cleaned := if startswith "```json" cleaned then drop_prefix 7 cleaned else cleaned in
  let cleaned := if startswith "```" cleaned then drop_prefix 3 cleaned else cleaned in
  let cleaned := if endswith "```" cleaned then drop_suffix 3 cleaned else cleaned in
  strip cleaned.

(** [depth]: the levels of recursion left for the decoder at the call of
    [json.loads]. *)
Definition parse_llm_response (depth : nat) (response_text : string) : res pyobj :=
  match Json.loads depth (unfence response_text) with
  | Raise JSONDecodeError => Raise JSONParsingError
  | r => r
  end.

(** ["error" in response] *)
Definition has_error (response : pyobj) : res bool :=
  match response with
  | PyDict d => Ok (dict_contains "error" d)
  | PyList items =>
      Ok (existsb (fun x => match x with
                            | PyStr s => String.eqb s "error"
                            | _ => false
                            end) items)
  | PyStr s => Ok (contains "error" s)
  | _ => Raise TypeError
  end.

(** [response.get("answer", "")] *)
Definition get_answer (response : pyobj) : res pyobj :=
  match response with
  | PyDict d =>
      match dict_get "answer" d with
      | Some v => Ok v
      | None => Ok (PyStr EmptyString)
      end
  | _ => Raise AttributeError
  end.

(** The counters of [evaluate_dialogue]. *)
Record tally : Type := {
  dialogue_correct : Z;
  dialogue_errors : Z
}.

(** One pass of the scoring loop of [evaluate_dialogue]. *)
Definition score_turn (config : Config) (response : pyobj) (gold : string)
    (t : tally) : M stdout tally :=
  is_error <- lift (has_error response) ;;
  if is_error : bool then
    ret {| dialogue_correct := dialogue_correct t;
           dialogue_errors := dialogue_errors t + 1 |}
  else
    pred <- lift (get_answer response) ;;
    matched <- answers_match pred (PyStr gold)
                 (relative_tolerance config) (absolute_tolerance config) ;;
    if matched : bool then
      ret {| dialogue_correct := dialogue_correct t + 1;
             dialogue_errors := dialogue_errors t |}
    else ret t.

(** The scoring loop over [zip(responses, gold_answers)]. *)
Fixpoint score_turns (config : Config) (responses : list pyobj)
    (gold_answers : list string) (t : tally) : M stdout tally :=
  match responses, gold_answers with
  | response :: responses', gold :: gold_answers' =>
      t' <- score_turn config response gold t ;;
      score_turns config responses' gold_answers' t'
  | _, _ => ret t
  end.

Definition score_dialogue (config : Config) (responses : list pyobj)
    (gold_answers : list string) : M stdout tally :=
  score_turns config responses gold_answers
    {| dialogue_correct := 0; dialogue_errors := 0 |}.

End Evaluator.

(** ** [ConversationMemory], with the objects it shares *)

Module Memory.
Import Effects.

(** The identity of a Python object. *)
Definition loc : Type := positive.

(** The mutable objects the class handles: lists of references and the
    message dictionaries, which map strings to strings. *)
Inductive object : Type :=
| ListObj (items : list loc)
| DictObj (entries : list (string * string)).

(** The attributes of one [ConversationMemory] instance. *)
Record ConversationMemory : Type := {
  _messages : loc;
  _system_prompt : option string
}.

(** The store and the instance the methods are called on. *)
Record state : Type := {
  heap : gmap loc object;
  self : ConversationMemory
}.

(** A new object: a reference no object has yet. *)
Definition alloc (o : object) (h : gmap loc object) : loc * gmap loc object :=
  let l := fresh (dom h) in (l, <[l := o]> h).

Definition new (o : object) : M state loc :=
  fun st =>
    let '(l, h) := alloc o (heap st) in
    (Ok l, {| heap := h; self := self st |}).

(** The items of the list [l]. *)
Definition list_items (l : loc) : M state (list loc) :=
  fun st =>
    match heap st !! l with
    | Some (ListObj xs) => (Ok xs, st)
    | _ => (Raise AttributeError, st)
    end.

Definition list_store (l : loc) (xs : list loc) : M state unit :=
  fun st => (Ok tt, {| heap := <[l := ListObj xs]> (heap st); self := self st |}).

(** [l.append(x)], in place. *)
Definition list_append (l x : loc) : M state unit :=
  xs <- list_items l ;; list_store l (xs ++ [x]).

(** [l.clear()], in place. *)
Definition list_clear (l : loc) : M state unit :=
  _xs <- list_items l ;; list_store l [].

(** [a + b]: a new list. *)
Definition list_concat (a b : loc) : M state loc :=
  xs <- list_items a ;; ys <- list_items b ;; new (ListObj (xs ++ ys)).

Definition set_prompt (p : option string) : M state unit :=
  fun st =>
    (Ok tt, {| heap := heap st;
               self := {| _messages := _messages (self st); _system_prompt := p |} |}).

(** The dictionary literal [{"role": role, "content": content}]. *)
Definition message (role content : string) : list (string * string) :=
  [("role", role); ("content", content)].

(** [ConversationMemory(system_prompt)] in the store [h]. *)
Definition __init__ (system_prompt : option string) (h : gmap loc object) : state :=
  let '(l, h') := alloc (ListObj []) h in
  {| heap := h'; self := {| _messages := l; _system_prompt := system_prompt |} |}.

Definition set_system_prompt (prompt : string) : M state unit :=
  set_prompt (Some prompt).

(** [role in ("user", "assistant", "system")] *)
Definition valid_role (role : string) : bool :=
  String.eqb role "user" || String.eqb role "assistant" || String.eqb role "system".

Definition add_message (role content : string) : M state unit :=
  if negb (valid_role role) then raise ValueError
  else
    st <- get ;;
    d <- new (DictObj (message role content)) ;;
    list_append (_messages (self st)) d.

Definition add_user_message (message : string) : M state unit :=
  add_message "user" message.

Definition add_assistant_message (message : string) : M state unit :=
  add_message "assistant" message.

(** The truth value of an optional string: [None] and [""] are false. *)
Definition truthy (p : option string) : bool :=
  match p with
  | None | Some EmptyString => false
  | Some _ => true
  end.

Definition get_conversation_history : M state loc :=
  history <- new (ListObj []) ;;
  st <- get ;;
  (if truthy (_system_prompt (self st)) then
     d <- new (DictObj (message "system" (default EmptyString (_system_prompt (self st))))) ;;
     list_append history d
   else ret tt) ;;;
  list_concat history (_messages (self st)).

Definition clear : M state unit :=
  st <- get ;;
  list_clear (_messages (self st)) ;;;
  set_prompt None.

Definition __len__ : M state nat :=
  st <- get ;;
  xs <- list_items (_messages (self st)) ;;
  ret (length xs).

(** *** Reading objects back as values *)

Definition read_dict (h : gmap loc object) (l : loc) : option (list (string * string)) :=
  match h !! l with
  | Some (DictObj e) => Some e
  | _ => None
  end.

(** The list at [l], each item read through its reference. *)
Definition read_list (h : gmap loc object) (l : loc)
  : option (list (list (string * string))) :=
  match h !! l with
  | Some (ListObj xs) => mapM (read_dict h) xs
  | _ => None
  end.

(** The messages of the instance, read through the store. *)
Definition messages_of (st : state) : option (list (list (string * string))) :=
  read_list (heap st) (_messages (self st)).

(** What a caller of [get_conversation_history] then reads in the list it
    was given. *)
Definition history (st : state) : option (list (list (string * string))) :=
  match get_conversation_history st with
  | (Ok r, st') => read_list (heap st') r
  | (Raise _, _) => None
  end.

(** What a caller of [len(memory)] gets. *)
Definition size (st : state) : option nat :=
  match __len__ st with
  | (Ok n, _) => Some n
  | (Raise _, _) => None
  end.

(** The entry [get_conversation_history] puts first. *)
Definition system_part (p : option string) : list (list (string * string)) :=
  if truthy p then [message "system" (default EmptyString p)] else [].

(** [h'] keeps every object of [h] other than [l]. *)
Definition frame (l : loc) (h h' : gmap loc object) : Prop :=
  forall x o, x <> l -> h !! x = Some o -> h' !! x = Some o.

(** *** Sequences of calls *)

Inductive call : Type :=
| Call_set_system_prompt (prompt : string)
| Call_add_message (role content : string)
| Call_add_user_message (message : string)
| Call_add_assistant_message (message : string)
| Call_get_conversation_history
| Call_clear
| Call_len.

(** The state a call leaves, whether it returns or raises. *)
Definition exec (c : call) (st : state) : state :=
  match c with
  | Call_set_system_prompt p => snd (set_system_prompt p st)
  | Call_add_message role content => snd (add_message role content st)
  | Call_add_user_message m => snd (add_user_message m st)
  | Call_add_assistant_message m => snd (add_assistant_message m st)
  | Call_get_conversation_history => snd (get_conversation_history st)
  | Call_clear => snd (clear st)
  | Call_len => snd (__len__ st)
  end.

Definition run (calls : list call) (st : state) : state :=
  fold_left (fun st c => exec c st) calls st.

(** The messages a call leaves in memory, given those before it. *)
Definition messages_after (c : call) (ms : list (list (string * string)))
  : list (list (string * string)) :=
  match c with
  | Call_add_message role content =>
      if valid_role role then ms ++ [message role content] else ms
  | Call_add_user_message m => ms ++ [message "user" m]
  | Call_add_assistant_message m => ms ++ [message "assistant" m]
  | Call_clear => []
  | _ => ms
  end.

(** The system prompt a call leaves, given the one before it. *)
Definition prompt_after (c : call) (p : option string) : option string :=
  match c with
  | Call_set_system_prompt q => Some q
  | Call_clear => None
  | _ => p
  end.

(** The messages appended and kept, after [calls] on a new memory. *)
Definition appended (calls : list call) : list (list (string * string)) :=
  fold_left (fun ms c => messages_after c ms) calls [].

(** The system prompt in force after [calls] on a memory built with [p]. *)
Definition prompt_in_force (p : option string) (calls : list call) : option string :=
  fold_left (fun p c => prompt_after c p) calls p.

(** A call other than [clear()] and [add_message("system", ...)]. *)
Definition ordinary (c : call) : bool :=
  match c with
  | Call_clear => false
  | Call_add_message role _ => negb (String.eqb role "system")
  | _ => true
  end.

(** The messages with a role other than ["system"] that [calls] append. *)
Definition non_system_appends (calls : list call) : nat :=
  length (List.filter (fun c => match c with
                           | Call_add_message role _ =>
                               String.eqb role "user" || String.eqb role "assistant"
                           | Call_add_user_message _
                           | Call_add_assistant_message _ => true
                           | _ => false
                           end) calls).

End Memory.

(** ** The dataset, as the script reads it *)

Module Dataset.

(** The records of [dev_turn.json], with the fields the script reads and
    the types they have in the ConvFinQA data.  A record that lacks one of
    these fields other than the two optional texts, or has it with another
    type, makes the script raise; such records are not represented.

    The [annotation] block of a record.  [amt_pre_text] and
    [amt_post_text] may be missing. *)
Record Annotation : Type := {
  turn_ind : Z;
  dialogue_break : list string;
  exe_ans : pyobj;
  amt_table : string;
  amt_pre_text : option string;
  amt_post_text : option string
}.

(** One record of the dataset: [item["id"]] and [item["annotation"]]. *)
Record Turn : Type := {
  turn_id : string;
  annotation : Annotation
}.

(** A record of a dialogue with two questions, for the examples. *)
Definition sample (id : string) (ind : Z) : Turn :=
  {| turn_id := id;
     annotation :=
       {| turn_ind := ind;
          dialogue_break := ["what was the revenue in 2009?"; "and in 2008?"];
          exe_ans := PyFloat 1.5;
          amt_table := "<table></table>";
          amt_pre_text := Some "Revenue rose.";
          amt_post_text := None |} |}.

End Dataset.

(** ** What a call of the script ends with *)

(** What the script sees raised: the exceptions of the builtins
    modelled above, and the others its own code can meet.  [APIFailure]
    stands for any exception of the OpenAI client. *)
Inductive raised : Type :=
| Builtin (e : exn)
| IndexError
| KeyError
| OverflowError
| FileNotFoundError
| RuntimeError
| APIFailure.

Inductive outcome (A : Type) : Type :=
| Returned (a : A)
| Failed (e : raised).

Arguments Returned {A} a.
Arguments Failed {A} e.

Definition of_res {A} (r : res A) : outcome A :=
  match r with
  | Ok a => Returned a
  | Raise e => Failed (Builtin e)
  end.

(** ** [DialogueProcessor], the other static methods *)

Module Processor.
Import PyStr Dataset.

(** The dialogue a record belongs to. *)
Definition dialogue_of (item : Turn) : string :=
  DialogueProcessor.extract_dialogue_id (turn_id item).

(** A [defaultdict(list)] with string keys: its items in insertion order. *)
Definition groups : Type := list (string * list Turn).

(** [dialogues[key].append(item)] on a [defaultdict(list)]: a missing key
    is added at the end with a new list. *)
Fixpoint group_append (key : string) (item : Turn) (d : groups) : groups :=
  match d with
  | [] => [(key, [item])]
  | (k, items) :: d' =>
      if String.eqb k key then (k, items ++ [item]) :: d'
      else (k, items) :: group_append key item d'
  end.

(** [d[key]]; [None] stands for [KeyError]. *)
Fixpoint group_get (key : string) (d : groups) : option (list Turn) :=
  match d with
  | [] => None
  | (k, items) :: d' => if String.eqb k key then Some items else group_get key d'
  end.

(** The sort key [x["annotation"]["turn_ind"]]. *)
Definition sort_key (x : Turn) : Z := turn_ind (annotation x).

(** Where a record goes among records already sorted: before the first
    one whose key is not smaller. *)
Fixpoint insert_sorted (x : Turn) (l : list Turn) : list Turn :=
  match l with
  | [] => [x]
  | y :: l' =>
      if (sort_key x <=? sort_key y)%Z then x :: y :: l'
      else y :: insert_sorted x l'
  end.

(** [items.sort(key=...)]: Python's sort is stable, and a stable sort has
    one result, the one of this insertion sort. *)
Fixpoint sort_by_turn (items : list Turn) : list Turn :=
  match items with
  | [] => []
  | x :: items' => insert_sorted x (sort_by_turn items')
  end.

(** The first loop of [group_by_dialogue]. *)
Definition collect (data : list Turn) (d : groups) : groups :=
  fold_left (fun d item => group_append (dialogue_of item) item d) data d.

Definition group_by_dialogue (data : list Turn) : groups :=
  List.map (fun kv => (fst kv, sort_by_turn (snd kv))) (collect data []).

(** Sixteen spaces: the indentation inside the template. *)
Definition indent : string := "                ".

(** The line feed, U+000A. *)
Definition LF : string := String (ascii_of_N 10) EmptyString.

(** The f-string of [extract_document_context], before [.strip()]. *)
Definition context_template (pre_text table_html post_text : string) : string :=
  "Text before table:" +:+ LF +:+ indent +:+ pre_text +:+ LF +:+ LF
  +:+ indent +:+ "HTML Table:" +:+ LF +:+ indent +:+ table_html +:+ LF +:+ LF
  +:+ indent +:+ "Text after table:" +:+ LF +:+ indent +:+ post_text.

Definition extract_document_context (turn_data : Turn) : string :=
  let annotation := annotation turn_data in
  let table_html := amt_table annotation in
  let pre_text := default EmptyString (amt_pre_text annotation) in
  let post_text := default EmptyString (amt_post_text annotation) in
  strip (context_template pre_text table_html post_text).

(** [l[i]]: a negative index counts from the end; [None] stands for
    [IndexError]. *)
Definition py_getitem {A} (l : list A) (i : Z) : option A :=
  let n := Z.of_nat (length l) in
  if (0 <=? i)%Z then nth_error l (Z.to_nat i)
  else if (- n <=? i)%Z then nth_error l (Z.to_nat (n + i))
  else None.

(** The loop of [extract_questions_and_answers], on the lists built so
    far.  The question is read first: [IndexError] when [turn_ind] is no
    index of [dialogue_break]; then [str()] of the answer, which may
    raise. *)
Fixpoint questions_and_answers (dialogue_turns : list Turn)
    (questions gold_answers : list string) : outcome (list string * list string) :=
  match dialogue_turns with
  | [] => Returned (questions, gold_answers)
  | turn :: rest =>
      let turn_annotation := annotation turn in
      match py_getitem (dialogue_break turn_annotation) (turn_ind turn_annotation) with
      | None => Failed IndexError
      | Some question =>
          match PyRepr.py_str (exe_ans turn_annotation) with
          | Raise e => Failed (Builtin e)
          | Ok gold =>
              questions_and_answers rest (questions ++ [question])
                (gold_answers ++ [gold])
          end
      end
  end.

Definition extract_questions_and_answers (dialogue_turns : list Turn)
  : outcome (list string * list string) :=
  questions_and_answers dialogue_turns [] [].

(** *** Words for the statements *)

(** The order of the sort: by [turn_ind]. *)
Definition turn_le (x y : Turn) : Prop := (sort_key x <= sort_key y)%Z.

(** The records of [l] with the key [i], in their order in [l]. *)
Definition with_key (i : Z) (l : list Turn) : list Turn :=
  List.filter (fun x => (sort_key x =? i)%Z) l.

(** The template up to the label of its last part. *)
Definition context_head (pre_text table_html : string) : string :=
  "Text before table:" +:+ LF +:+ indent +:+ pre_text +:+ LF +:+ LF
  +:+ indent +:+ "HTML Table:" +:+ LF +:+ indent +:+ table_html +:+ LF +:+ LF
  +:+ indent +:+ "Text after table:".

(** [i] is an index of [l]: [-len(l) <= i < len(l)]. *)
Definition in_index_range {A} (l : list A) (i : Z) : Prop :=
  (- Z.of_nat (length l) <= i < Z.of_nat (length l))%Z.

(** [dialogue_break[turn_ind]] of a turn. *)
Definition question_of (t : Turn) : option string :=
  py_getitem (dialogue_break (annotation t)) (turn_ind (annotation t)).

(** [str(exe_ans)] of a turn. *)
Definition gold_of (t : Turn) : res string := PyRepr.py_str (exe_ans (annotation t)).

(** A turn whose answer has no [int] beyond the limit on digits in it, as
    in every record that [json.load] returned. *)
Definition answerable (t : Turn) : Prop :=
  PyRepr.printable (exe_ans (annotation t)) = true.

(** A turn whose [turn_ind] is an index of its [dialogue_break]. *)
Definition indexed (t : Turn) : Prop :=
  in_index_range (dialogue_break (annotation t)) (turn_ind (annotation t)).

(** The keys of a [defaultdict] filled in the order of [keys]. *)
Definition first_seen (keys : list string) : list string :=
  fold_left (fun acc k => if existsb (String.eqb k) acc then acc else acc ++ [k]) keys [].

(** The records of [data] that belong to the dialogue [key]. *)
Definition members (key : string) (data : list Turn) : list Turn :=
  List.filter (fun item => String.eqb (dialogue_of item) key) data.

(** The records of [data] whose dialogue is one of [ids]. *)
Definition of_dialogues (ids : list string) (data : list Turn) : list Turn :=
  List.filter (fun item => existsb (String.eqb (dialogue_of item)) ids) data.

(** The number of turns of the dialogues [ids]. *)
Definition turns_in (dialogues : groups) (ids : list string) : nat :=
  sum_list (List.map (fun id => length (default [] (group_get id dialogues))) ids).

End Processor.

(** ** [ConversationMemory], what is left of the class *)

Module MemoryView.
Import PyRepr Effects Memory.

(** [repr(memory)]: the flag tests [is not None], not the truth value.
    The length of a list is below 2^63: its text is far from the limit on
    digits. *)
Definition __repr__ : M state string :=
  st <- get ;;
  xs <- list_items (_messages (self st)) ;;
  ret ("ConversationMemory(messages=" +:+ int_digits (Z.of_nat (length xs))
       +:+ ", has_system_prompt="
       +:+ (match _system_prompt (self st) with
            | Some _ => "True"
            | None => "False"
            end)
       +:+ ")").

(** The calls that only read the memory. *)
Definition reads_only (c : call) : bool :=
  match c with
  | Call_get_conversation_history | Call_len => true
  | _ => false
  end.

(** [calls] without the calls that only read. *)
Definition writes (calls : list call) : list call :=
  List.filter (fun c => negb (reads_only c)) calls.

End MemoryView.

(** ** Finite floats *)

Module FloatClass.

(** [math.isfinite(x)]: neither an infinity nor a NaN. *)
Definition is_finite (x : float) : bool :=
  match Prim2SF x with
  | S754_zero _ | S754_finite _ _ _ => true
  | _ => false
  end.

End FloatClass.

(** ** Scoring, by the kind of value a response is *)

Module Scoring.
Import PyStr PyDictOps Evaluator.

(** [isinstance(v, dict)] *)
Definition is_dict (v : pyobj) : bool :=
  match v with
  | PyDict _ => true
  | _ => false
  end.

(** The responses the scoring loop can handle: a dictionary with the key
    ["error"], or whose answer has no [int] beyond the limit on digits in
    it; or a string or a list for which ["error" in response] holds. *)
Definition scorable (response : pyobj) : bool :=
  match response with
  | PyDict d =>
      dict_contains "error" d
      || match dict_get "answer" d with
         | Some pred => PyRepr.printable pred
         | None => true
         end
  | PyStr s => contains "error" s
  | PyList items =>
      existsb (fun x => match x with
                        | PyStr s => String.eqb s "error"
                        | _ => false
                        end) items
  | _ => false
  end.

(** The responses the scoring loop counts as errors. *)
Definition counts_as_error (response : pyobj) : bool :=
  match has_error response with
  | Ok b => b
  | Raise _ => false
  end.

(** The responses that [zip(responses, gold_answers)] pairs with an answer. *)
Definition zipped (responses : list pyobj) (gold_answers : list string) : list pyobj :=
  firstn (length gold_answers) responses.

End Scoring.

(** ** The run: results, the client, and the three loops

    The calls of the logger and [time.sleep] are left out of the three
    loops: with the configuration of the script they return, and they change
    nothing the loops read.  The one expression evaluated only to be logged
    that can raise, the quotient at the end of [evaluate_dialogue], is
    kept, and so is the [accuracy] logged at the end of [evaluate]. *)

Module Harness.
Import PyStr PyFloat PyDictOps Effects Dataset Processor Evaluator.

(** *** [EvaluationResults] *)

(** [a / b] on two integers: the quotient correctly rounded to binary64. *)
Definition int_truediv (a b : Z) : outcome float :=
  if (b =? 0)%Z then Failed (Builtin ZeroDivisionError)
  else
    let negate := xorb (a <? 0)%Z (b <? 0)%Z in
    match a with
    | Z0 => Returned (if negate then neg_zero else zero)
    | _ =>
        match SFdiv prec emax (S754_finite negate (Z.to_pos (Z.abs a)) 0)
                (S754_finite false (Z.to_pos (Z.abs b)) 0) with
        | S754_infinity _ => Failed OverflowError
        | q => Returned (SF2Prim q)
        end
    end.

(** [a / b if b > 0 else 0.0] *)
Definition ratio_or_zero (a b : Z) : outcome float :=
  if (0 <? b)%Z then int_truediv a b else Returned zero.

(** One entry of [dialogue_results]. *)
Record DialogueResult : Type := {
  dialogue_id : string;
  correct : Z;
  total : Z;
  errors : Z;
  dialogue_accuracy : float
}.

Record EvaluationResults : Type := {
  total_correct : Z;
  total_questions : Z;
  total_errors : Z;
  dialogue_results : list DialogueResult
}.

(** [EvaluationResults()] *)
Definition new_results : EvaluationResults :=
  {| total_correct := 0; total_questions := 0; total_errors := 0;
     dialogue_results := [] |}.

(** The property [accuracy]. *)
Definition accuracy (self : EvaluationResults) : outcome float :=
  ratio_or_zero (total_correct self) (total_questions self).

(** [add_dialogue_result]: the outcome and the object after the call.  The
    three totals are updated before the entry is built. *)
Definition add_dialogue_result (id : string) (correct total errors : Z)
    (self : EvaluationResults) : outcome unit * EvaluationResults :=
  let self' :=
    {| total_correct := total_correct self + correct;
       total_questions := total_questions self + total;
       total_errors := total_errors self + errors;
       dialogue_results := dialogue_results self |} in
  match ratio_or_zero correct total with
  | Returned a =>
      (Returned tt,
       {| total_correct := total_correct self';
          total_questions := total_questions self';
          total_errors := total_errors self';
          dialogue_results :=
            dialogue_results self'
            ++ [{| dialogue_id := id; correct := correct; total := total;
                   errors := errors; dialogue_accuracy := a |}] |})
  | Failed e => (Failed e, self')
  end.

(** The arguments of one call of [add_dialogue_result]. *)
Record Addition : Type := {
  new_id : string;
  new_correct : Z;
  new_total : Z;
  new_errors : Z
}.

(** The object after the calls [calls], one after the other, whether they
    returned or raised. *)
Definition add_each (calls : list Addition) (self : EvaluationResults)
  : EvaluationResults :=
  fold_left (fun r c => snd (add_dialogue_result (new_id c) (new_correct c)
                               (new_total c) (new_errors c) r)) calls self.

(** The arguments an entry of [dialogue_results] was made from. *)
Definition addition_of (r : DialogueResult) : Addition :=
  {| new_id := dialogue_id r; new_correct := correct r; new_total := total r;
     new_errors := errors r |}.

Definition Z_sum (l : list Z) : Z := fold_right Z.add 0%Z l.

(** What [evaluate] keeps true of its results from one dialogue to the
    next. *)
Definition sound (results : EvaluationResults) : Prop :=
  (0 <= total_correct results)%Z /\ (0 <= total_errors results)%Z
  /\ (total_correct results + total_errors results <= total_questions results)%Z.

(** *** The world of a run *)

(** A request to the chat API: the messages sent. *)
Definition request : Type := list (list (string * string)).

(** What a request gets back: the [content] of the first choice, which
    may be [None]; or an exception. *)
Inductive reply : Type :=
| Content (text : option string)
| Refused.

(** What reading [system_prompt.txt] gives. *)
Inductive file : Type :=
| Contents (text : string)
| Missing
| Unreadable.

(** The store with the [ConversationMemory] in use, what was printed, the
    requests made so far, and the list [responses] of the dialogue being
    processed. *)
Record world : Type := {
  store : Memory.state;
  output : stdout;
  requests : list request;
  responses : list pyobj
}.

(** The world before a run: an empty store, nothing printed, no request. *)
Definition start : world :=
  {| store := Memory.__init__ None ∅; output := []; requests := []; responses := [] |}.

(** A call of the harness. *)
Definition H (A : Type) : Type := world -> outcome A * world.

#[global] Instance H_ret : MRet H := fun A a w => (Returned a, w).

#[global] Instance H_bind : MBind H := fun A B k m w =>
  match m w with
  | (Returned a, w') => k a w'
  | (Failed e, w') => (Failed e, w')
  end.

Definition fail {A} (e : raised) : H A := fun w => (Failed e, w).

(** [try: body / except ...: handler] *)
Definition catch {A} (body : H A) (handler : raised -> H A) : H A :=
  fun w =>
    match body w with
    | (Failed e, w') => handler e w'
    | r => r
    end.

Definition or_fail {A} (e : raised) (o : option A) : H A :=
  match o with
  | Some a => mret a
  | None => fail e
  end.

(** A computation that leaves the world alone. *)
Definition pure {A} (o : outcome A) : H A := fun w => (o, w).

Definition from_res {A} (r : res A) : H A := pure (of_res r).

Definition this_world : H world := fun w => (Returned w, w).

(** The world with another store. *)
Definition with_store (st : Memory.state) (w : world) : world :=
  {| store := st; output := output w; requests := requests w; responses := responses w |}.

(** The world after one more request. *)
Definition with_request (messages : request) (w : world) : world :=
  {| store := store w; output := output w; requests := requests w ++ [messages];
     responses := responses w |}.

(** A method of the memory. *)
Definition on_memory {A} (m : M Memory.state A) : H A :=
  fun w => let '(r, st) := m (store w) in (of_res r, with_store st w).

(** A function that prints. *)
Definition on_output {A} (m : M stdout A) : H A :=
  fun w =>
    let '(r, out) := m (output w) in
    (of_res r, {| store := store w; output := out;
                  requests := requests w; responses := responses w |}).

(** [memory = ConversationMemory()] *)
Definition new_memory : H unit :=
  fun w =>
    (Returned tt, with_store (Memory.__init__ None (Memory.heap (store w))) w).

(** [responses = []] *)
Definition new_responses : H unit :=
  fun w =>
    (Returned tt, {| store := store w; output := output w;
                     requests := requests w; responses := [] |}).

(** [responses.append(r)] *)
Definition append_response (r : pyobj) : H unit :=
  fun w =>
    (Returned tt, {| store := store w; output := output w;
                     requests := requests w; responses := responses w ++ [r] |}).

(** The messages in the list at [messages], as the client reads them. *)
Definition read_messages (messages : Memory.loc) : H request :=
  fun w =>
    match Memory.read_list (Memory.heap (store w)) messages with
    | Some sent => (Returned sent, w)
    | None => (Failed (Builtin AttributeError), w)
    end.

Section Run.

(** The tolerances, the levels of recursion left for the decoder where
    [process_dialogue] calls [parse_llm_response], the prompt file, the
    chat API and the text of an exception.  The reply to a request may
    depend on the request and on how many were made before it; the text
    [str(e)] on the exception and on the number of requests made. *)
Variable config : Config.
Variable depth : nat.
Variable prompt_file : file.
Variable client : nat -> request -> reply.
Variable describe : nat -> raised -> string.

Definition load_system_prompt : H string :=
  match prompt_file with
  | Contents text => mret (strip text)
  | Missing => fail FileNotFoundError
  | Unreadable => fail RuntimeError
  end.

(** The f-string of [build_system_prompt]. *)
Definition prompt_with (system_prompt_template document_context : string) : string :=
  system_prompt_template +:+ LF +:+ LF
  +:+ "Financial Document Content:" +:+ LF
  +:+ document_context +:+ LF +:+ LF
  +:+ "I will ask you multiple questions about this document. Please answer each question with the specified JSON format.".

Definition build_system_prompt (document_context : string) : H string :=
  system_prompt_template ← load_system_prompt;
  mret (prompt_with system_prompt_template document_context).

(** [client.chat.completions.create(...)] and the access to the content
    of the first choice. *)
Definition create (messages : request) : H (option string) :=
  fun w =>
    match client (length (requests w)) messages with
    | Content text => (Returned text, with_request messages w)
    | Refused => (Failed APIFailure, with_request messages w)
    end.

Definition question_text (question : string) : string :=
  "Question: " +:+ question +:+ LF +:+ LF +:+ "Return only JSON:".

(** The body of the [try] in the loop of [process_dialogue]. *)
Definition ask (i : nat) (question : string) (gold_answers : list string) : H unit :=
  on_memory (Memory.add_user_message (question_text question));;
  messages ← on_memory Memory.get_conversation_history;
  sent ← read_messages messages;
  response_text ← create sent;
  response_text ← match response_text with
                   | None | Some EmptyString => fail (Builtin ValueError)
                   | Some text => mret text
                   end;
  result ← from_res (parse_llm_response depth response_text);
  append_response result;;
  on_memory (Memory.add_assistant_message response_text);;
  pred ← from_res (get_answer result);
  gold ← or_fail IndexError (gold_answers !! i);
  _is_correct ← on_output (answers_match pred (PyStr gold)
                             (relative_tolerance config) (absolute_tolerance config));
  mret tt.

(** [{"error": str(e)}], after [n] requests. *)
Definition error_response (n : nat) (e : raised) : pyobj :=
  PyDict [("error", PyStr (describe n e))].

(** [f"Error: {str(e)}"] *)
Definition error_message (n : nat) (e : raised) : string :=
  "Error: " +:+ describe n e.

(** What both [except] clauses do. *)
Definition record_error (e : raised) : H unit :=
  w ← this_world;
  append_response (error_response (length (requests w)) e);;
  on_memory (Memory.add_assistant_message (error_message (length (requests w)) e)).

(** [except JSONParsingError] and then [except Exception].  The marker
    [OutsideLatin1] is no exception: it ends the run. *)
Definition handler (e : raised) : H unit :=
  match e with
  | Builtin OutsideLatin1 => fail e
  | Builtin JSONParsingError => record_error e
  | _ => record_error e
  end.

(** The loop of [process_dialogue], from index [i]. *)
Fixpoint ask_all (i : nat) (questions gold_answers : list string) : H unit :=
  match questions with
  | [] => mret tt
  | question :: rest =>
      catch (ask i question gold_answers) handler;;
      ask_all (S i) rest gold_answers
  end.

(** [process_dialogue]: the memory and the list of responses are new
    objects of each call. *)
Definition process_dialogue (document_context : string)
    (questions gold_answers : list string) : H (list pyobj) :=
  new_memory;;
  system_prompt ← build_system_prompt document_context;
  on_memory (Memory.set_system_prompt system_prompt);;
  new_responses;;
  ask_all 0 questions gold_answers;;
  on_memory Memory.clear;;
  w ← this_world;
  mret (responses w).

(** [evaluate_dialogue]: the counts [(dialogue_correct, dialogue_errors)]. *)
Definition evaluate_dialogue (dialogue_id : string) (dialogue_turns : list Turn)
  : H (Z * Z) :=
  first ← or_fail IndexError (head dialogue_turns);
  let document_context := extract_document_context first in
  qa ← pure (extract_questions_and_answers dialogue_turns);
  let questions := fst qa in
  let gold_answers := snd qa in
  responses ← process_dialogue document_context questions gold_answers;
  t ← on_output (score_dialogue config responses gold_answers);
  _logged ← pure (int_truediv (dialogue_correct t) (Z.of_nat (length questions)));
  mret (dialogue_correct t, dialogue_errors t).

(** *** How a turn ends *)

(** The value [parse_llm_response] returns for a reply, if the reply has a
    text and the text parses. *)
Definition parsed (r : reply) : option pyobj :=
  match r with
  | Content (Some (String c s)) =>
      match parse_llm_response depth (String c s) with
      | Ok v => Some v
      | Raise _ => None
      end
  | _ => None
  end.

(** A reply whose text has no escape outside the texts modelled. *)
Definition in_model (r : reply) : Prop :=
  forall text,
    r = Content (Some text) -> parse_llm_response depth text <> Raise OutsideLatin1.

(** The three ways a turn ends, by the reply [r] to its request: what it
    appends to [responses], and the texts of the assistant messages it adds
    to the memory.  [n] is the number of requests made so far. *)
Inductive turn_end (i : nat) (gold_answers : list string) (n : nat) (r : reply)
  : list pyobj -> list string -> Prop :=
| end_error (e : raised) :
    parsed r = None ->
    turn_end i gold_answers n r [error_response n e] [error_message n e]
| end_answer (text : string) (d : list (string * pyobj)) (gold : string) :
    r = Content (Some text) -> parsed r = Some (PyDict d) ->
    gold_answers !! i = Some gold ->
    turn_end i gold_answers n r [PyDict d] [text]
| end_both (text : string) (result : pyobj) (e : raised) :
    r = Content (Some text) -> parsed r = Some result ->
    Scoring.is_dict result = false \/ gold_answers !! i = None ->
    turn_end i gold_answers n r [result; error_response n e] [text; error_message n e].

(** The turns of a dialogue, one after the other.  With the system prompt
    [p], the messages [v] in memory and [n] requests made, asking the
    questions from index [i] on makes the requests [reqs], appends [news]
    to [responses] and leaves the messages [v'] in memory. *)
Inductive turns (p : option string) (gold_answers : list string)
  : nat -> nat -> request -> list string -> list request -> list pyobj -> request -> Prop :=
| turns_nil (i n : nat) (v : request) :
    turns p gold_answers i n v [] [] [] v
| turns_cons (i n : nat) (v : request) (question : string) (rest : list string)
    (new : list pyobj) (said : list string)
    (reqs : list request) (news : list pyobj) (v' : request) :
    turn_end i gold_answers (S n)
      (client n (Memory.system_part p ++ v
                 ++ [Memory.message "user" (question_text question)])) new said ->
    turns p gold_answers (S i) (S n)
      (v ++ Memory.message "user" (question_text question)
         :: List.map (Memory.message "assistant") said)
      rest reqs news v' ->
    turns p gold_answers i n v (question :: rest)
      ((Memory.system_part p ++ v
        ++ [Memory.message "user" (question_text question)]) :: reqs)
      (new ++ news) v'.

(** [l[:n]] *)
Definition slice_to {A} (n : Z) (l : list A) : list A :=
  if (0 <=? n)%Z then firstn (Z.to_nat n) l
  else firstn (length l - Z.to_nat (- n)) l.

(** The loop of [evaluate] over the dialogue identifiers. *)
Fixpoint evaluate_each (dialogues : groups) (dialogue_ids : list string)
    (results : EvaluationResults) : H EvaluationResults :=
  match dialogue_ids with
  | [] => mret results
  | dialogue_id :: rest =>
      dialogue_turns ← or_fail KeyError (group_get dialogue_id dialogues);
      counts ← evaluate_dialogue dialogue_id dialogue_turns;
      results ← pure (match add_dialogue_result dialogue_id (fst counts)
                              (Z.of_nat (length dialogue_turns)) (snd counts) results with
                      | (Returned _, results') => Returned results'
                      | (Failed e, _) => Failed e
                      end);
      evaluate_each dialogues rest results
  end.

(** [evaluate], on the data [load_data] returned; [max_dialogues] is the
    field of the configuration. *)
Definition evaluate (data : list Turn) (max_dialogues : option Z) : H EvaluationResults :=
  let dialogues := group_by_dialogue data in
  let dialogue_ids := List.map fst dialogues in
  let dialogue_ids :=
    match max_dialogues with
    | Some n => slice_to n dialogue_ids
    | None => dialogue_ids
    end in
  results ← evaluate_each dialogues dialogue_ids new_results;
  _logged ← (if (0 <? total_questions results)%Z
             then pure (accuracy results)
             else mret zero);
  mret results.

End Run.

End Harness.

(** * Theorems *)

(** The 256 cases of a character. *)
Ltac case_char c := destruct c as [[] [] [] [] [] [] [] []].

(** ** Text builtins *)

Section TextFacts.
Import PyStr.

Lemma split_not_nil (sep : ascii) (s : string) : split sep s <> [].
Proof.
  destruct s as [|c s]; simpl; [discriminate|].
  destruct (Ascii.eqb c sep); [discriminate|].
  destruct (split sep s); discriminate.
Qed.

(** Joining the parts of a split with the separator gives the text back. *)
Lemma join_split (sep : ascii) (s : string) :
  join (String sep EmptyString) (split sep s) = s.
Proof.
  induction s as [|c s IH]; simpl; [reflexivity|].
  destruct (Ascii.eqb_spec c sep) as [->|Hne].
  - pose proof (split_not_nil sep s) as Hnil.
    destruct (split sep s) as [|p ps]; [contradiction|].
    simpl in *. now rewrite IH.
  - pose proof (split_not_nil sep s) as Hnil.
    destruct (split sep s) as [|p ps]; [contradiction|].
    destruct ps as [|q qs]; simpl in *; now rewrite <- IH.
Qed.

(** A split ends with a last part. *)
Lemma split_last (sep : ascii) (s : string) :
  exists parts last_seg, split sep s = parts ++ [last_seg].
Proof.
  destruct (exists_last (split_not_nil sep s)) as (parts & last_seg & E).
  now exists parts, last_seg.
Qed.

Lemma split_no_sep (sep : ascii) (d : string) :
  has_char sep d = false -> split sep d = [d].
Proof.
  induction d as [|c d IH]; simpl; [reflexivity|].
  intros H. apply orb_false_iff in H as [Hc Hd].
  rewrite Ascii.eqb_sym, Hc. now rewrite (IH Hd).
Qed.

(** Splitting a text that ends with the separator and a part without it. *)
Lemma split_app_sep (sep : ascii) (base d : string) :
  has_char sep d = false ->
  split sep (base +:+ String sep d) = split sep base ++ [d].
Proof.
  intros Hd. induction base as [|c base IH]; simpl.
  - now rewrite Ascii.eqb_refl, (split_no_sep sep d Hd).
  - rewrite IH. destruct (Ascii.eqb c sep); [reflexivity|].
    pose proof (split_not_nil sep base) as Hnil.
    destruct (split sep base) as [|p ps]; [contradiction|reflexivity].
Qed.

Lemma isdigit_no_underscore (d : string) :
  isdigit d = true -> has_char "_" d = false.
Proof.
  intros H. assert (Hall : all_chars is_digit d = true) by (destruct d; [discriminate|exact H]).
  clear H. induction d as [|c d IH]; cbn [has_char all_chars] in *; [reflexivity|].
  apply andb_true_iff in Hall as [Hc Hd]. rewrite (IH Hd), orb_false_r.
  destruct (Ascii.eqb_spec "_" c) as [<-|]; [discriminate|reflexivity].
Qed.

End TextFacts.

(** ** [DialogueProcessor.extract_dialogue_id] *)

(** C8: the identifier is split on ['_'] into segments that, joined by
    ['_'], give the identifier back; when the last segment is all digits
    ([str.isdigit]) the result is the other segments joined by ['_'], and
    otherwise the identifier unchanged.  ["abc_3"] gives ["abc"] and
    ["abc_def"] gives ["abc_def"]. *)
Theorem extract_dialogue_id_spec :
  (forall full_id : string,
     exists (parts : list string) (last_seg : string),
       PyStr.split "_" full_id = parts ++ [last_seg]
       /\ PyStr.join "_" (parts ++ [last_seg]) = full_id
       /\ DialogueProcessor.extract_dialogue_id full_id
          = if PyStr.isdigit last_seg then PyStr.join "_" parts else full_id)
  /\ DialogueProcessor.extract_dialogue_id "abc_3" = "abc"
  /\ DialogueProcessor.extract_dialogue_id "abc_def" = "abc_def".
Proof.
  split; [|split; reflexivity].
  intros full_id.
  destruct (split_last "_" full_id) as (parts & last_seg & E).
  exists parts, last_seg. split; [exact E|]. split.
  - rewrite <- E. apply join_split.
  - unfold DialogueProcessor.extract_dialogue_id,
      DialogueProcessor.last_part, DialogueProcessor.but_last.
    rewrite E, last_last, removelast_last. reflexivity.
Qed.

(** A numeric suffix after the last ['_'] is removed with that ['_']. *)
Lemma extract_dialogue_id_suffix (base d : string) :
  PyStr.isdigit d = true ->
  DialogueProcessor.extract_dialogue_id (base +:+ String "_" d) = base.
Proof.
  intros Hd. unfold DialogueProcessor.extract_dialogue_id,
    DialogueProcessor.last_part, DialogueProcessor.but_last.
  rewrite (split_app_sep "_" base d (isdigit_no_underscore d Hd)).
  rewrite last_last, removelast_last, Hd. apply join_split.
Qed.

(** ** The models of the builtins on known values *)

Example py_float_known :
  PyFloat.py_float "0.1" = Some 0x1.999999999999ap-4%float
  /\ PyFloat.py_float " 1_000.5e-1 " = Some 100.05%float
  /\ PyFloat.py_float "1e23" = Some 0x1.52d02c7e14af6p+76%float
  /\ PyFloat.py_float "9007199254740993" = Some 9007199254740992%float
  /\ PyFloat.py_float "1e400" = Some infinity
  /\ PyFloat.py_float "-Infinity" = Some neg_infinity
  /\ PyFloat.py_float "1e" = None
  /\ PyFloat.py_float "1 2" = None
  /\ PyFloat.py_float "0x10" = None.
Proof. repeat split; vm_compute; reflexivity. Qed.

Example float_repr_known :
  PyRepr.float_repr 100.05 = "100.05"
  /\ PyRepr.float_repr 100 = "100.0"
  /\ PyRepr.float_repr 0x1.999999999999ap-4 = "0.1"
  /\ PyRepr.float_repr 1e16 = "1e+16"
  /\ PyRepr.float_repr 0.00001 = "1e-05"
  /\ PyRepr.float_repr 0x1p-1074 = "5e-324"
  /\ PyRepr.float_repr 0x1.fffffffffffffp+1023 = "1.7976931348623157e+308"
  /\ PyRepr.float_repr (-0) = "-0.0"
  /\ PyRepr.float_repr 1234567890123456.75 = "1234567890123456.8"
  /\ PyRepr.float_repr 1234567890123456.25 = "1234567890123456.2"
  /\ PyRepr.float_repr 0.5 = "0.5"
  /\ PyRepr.float_repr 2.5e-5 = "2.5e-05".
Proof. repeat apply conj; vm_compute; reflexivity. Qed.

Example py_str_known :
  PyRepr.py_str (PyInt (-42)) = Ok "-42"
  /\ PyRepr.py_str (PyStr "a b") = Ok "a b"
  /\ PyRepr.py_str (PyList [PyInt 1; PyStr "x"; PyNone; PyBool true; PyFloat 2.5])
     = Ok "[1, 'x', None, True, 2.5]"
  /\ PyRepr.py_str (PyDict [("k", PyList [])]) = Ok "{'k': []}"
  /\ PyRepr.py_str (PyInt 123456789012345678901234567890)
     = Ok "123456789012345678901234567890".
Proof. repeat split; vm_compute; reflexivity. Qed.

(** The least [int] beyond the limit on digits, and its opposite. *)
Lemma beyond_digit_limit :
  PyRepr.within_digit_limit (10 ^ 4300) = false
  /\ PyRepr.within_digit_limit (- 10 ^ 4300) = false.
Proof.
  assert (H : (0 <= 10 ^ 4300)%Z) by (apply Z.pow_nonneg; discriminate).
  unfold PyRepr.within_digit_limit, PyRepr.max_str_digits.
  split; apply Z.ltb_ge; [|rewrite Z.abs_opp]; rewrite (Z.abs_eq _ H); apply Z.le_refl.
Qed.

Lemma py_str_beyond_limit :
  PyRepr.py_str (PyInt (10 ^ 4300)) = Raise ValueError
  /\ PyRepr.py_str (PyInt (- 10 ^ 4300)) = Raise ValueError
  /\ PyRepr.py_str (PyList [PyInt 1; PyInt (10 ^ 4300)]) = Raise ValueError.
Proof.
  destruct beyond_digit_limit as [H1 H2].
  cbn [PyRepr.py_str PyRepr.py_repr List.map PyRepr.all_texts]. unfold PyRepr.int_repr.
  rewrite H1, H2. repeat split.
Qed.

Example loads_known :
  Json.loads 2 (PyStr.quoted "{'a': [1, 2.5, 'x', null, true], 'a': -0}")
  = Ok (PyDict [("a", PyInt 0)])
  /\ Json.loads 1 "[1,]" = Raise JSONDecodeError
  /\ Json.loads 0 "01" = Raise JSONDecodeError
  /\ Json.loads 0 (PyStr.quoted "'\u00e9'")
     = Ok (PyStr (String (ascii_of_N 233) EmptyString))
  /\ Json.loads 0 (PyStr.quoted "'\u0100'") = Raise OutsideLatin1
  /\ Json.loads 3 "[[[]]]" = Ok (PyList [PyList [PyList []]])
  /\ Json.loads 2 "[[[]]]" = Raise RecursionError
  /\ Json.loads 0 "123456789012345678901234567890"
     = Ok (PyInt 123456789012345678901234567890)
  /\ Json.loads 0 (String "1" (PyRepr.zeros 4300)) = Raise ValueError
  /\ Json.loads 0 (String "-" (String "1" (PyRepr.zeros 4300))) = Raise ValueError
  /\ Json.loads 0 "1e400" = Ok (PyFloat infinity).
Proof. repeat split; vm_compute; reflexivity. Qed.

(** ** [ConversationMemory] *)

Section MemoryFacts.
Import Memory Effects.

Implicit Types (h : gmap loc object) (st : state) (l r x : loc).
Implicit Types (v : list (list (string * string))).

Lemma frame_refl l h : frame l h h.
Proof. intros x o _ H. exact H. Qed.

Lemma frame_trans l h1 h2 h3 : frame l h1 h2 -> frame l h2 h3 -> frame l h1 h3.
Proof. intros H12 H23 x o Hx H. apply H23, H12; assumption. Qed.

Lemma subseteq_frame l h h' : h ⊆ h' -> frame l h h'.
Proof. intros Hsub x o _ H. eapply lookup_weaken; eassumption. Qed.

Lemma fresh_lookup h : h !! fresh (dom h) = None.
Proof. apply not_elem_of_dom, is_fresh. Qed.

Lemma fresh_ne h x o : h !! x = Some o -> x <> fresh (dom h).
Proof. intros H ->. rewrite fresh_lookup in H. discriminate. Qed.

Lemma read_dict_frame l h h' xs x e :
  frame l h h' -> h !! l = Some (ListObj xs) ->
  read_dict h x = Some e -> read_dict h' x = Some e.
Proof.
  unfold read_dict. intros Hf Hl Hx.
  destruct (h !! x) as [[|e']|] eqn:E; try discriminate.
  assert (x <> l) by (intros ->; congruence).
  rewrite (Hf x _ H E). exact Hx.
Qed.

Lemma read_items_frame l h h' xs items v :
  frame l h h' -> h !! l = Some (ListObj xs) ->
  mapM (read_dict h) items = Some v -> mapM (read_dict h') items = Some v.
Proof.
  intros Hf Hl. rewrite !mapM_Some. intros HF.
  eapply Forall2_impl; [exact HF|].
  intros x e. eapply read_dict_frame; eassumption.
Qed.

(** A list other than the message list reads the same after a change
    that only touches the message list and new objects. *)
Lemma read_list_frame l h h' xs r v :
  frame l h h' -> h !! l = Some (ListObj xs) -> r <> l ->
  read_list h r = Some v -> read_list h' r = Some v.
Proof.
  unfold read_list. intros Hf Hl Hr Hv.
  destruct (h !! r) as [[items|]|] eqn:E; try discriminate.
  rewrite (Hf r _ Hr E). eapply read_items_frame; eassumption.
Qed.

Lemma messages_of_inv st v :
  messages_of st = Some v ->
  exists xs, heap st !! _messages (self st) = Some (ListObj xs)
             /\ mapM (read_dict (heap st)) xs = Some v.
Proof.
  unfold messages_of, read_list. intros H.
  destruct (heap st !! _messages (self st)) as [[xs|]|]; try discriminate.
  now exists xs.
Qed.

(** What a successful [add_message] does to the store. *)
Lemma add_message_valid st role content xs :
  valid_role role = true ->
  heap st !! _messages (self st) = Some (ListObj xs) ->
  let d := fresh (dom (heap st)) in
  add_message role content st
  = (Ok tt,
     {| heap := <[_messages (self st) := ListObj (xs ++ [d])]>
                  (<[d := DictObj (message role content)]> (heap st));
        self := self st |}).
Proof.
  intros Hrole Hl d. unfold add_message. rewrite Hrole. simpl.
  unfold bind, get, new, alloc, list_append, list_items, list_store, bind. simpl.
  fold d. rewrite lookup_insert_ne by (symmetry; eapply fresh_ne; eassumption).
  rewrite Hl. reflexivity.
Qed.

Lemma add_message_invalid st role content :
  valid_role role = false ->
  add_message role content st = (Raise ValueError, st).
Proof. intros Hrole. unfold add_message. rewrite Hrole. reflexivity. Qed.

Lemma add_message_messages st role content v :
  valid_role role = true -> messages_of st = Some v ->
  let st' := snd (add_message role content st) in
  fst (add_message role content st) = Ok tt
  /\ self st' = self st
  /\ messages_of st' = Some (v ++ [message role content])
  /\ frame (_messages (self st)) (heap st) (heap st').
Proof.
  intros Hrole Hv. destruct (messages_of_inv _ _ Hv) as (xs & Hl & Hxs).
  rewrite (add_message_valid st role content xs Hrole Hl). simpl.
  set (l := _messages (self st)) in *. set (d := fresh (dom (heap st))).
  assert (Hdl : d <> l) by (symmetry; eapply fresh_ne; eassumption).
  assert (Hf : frame l (heap st)
                 (<[l := ListObj (xs ++ [d])]> (<[d := DictObj (message role content)]> (heap st)))).
  { intros x o Hx Ho. rewrite lookup_insert_ne by congruence.
    rewrite lookup_insert_ne by (symmetry; eapply fresh_ne; eassumption). exact Ho. }
  repeat split; [|exact Hf].
  unfold messages_of, read_list. simpl. fold l. rewrite lookup_insert_eq.
  apply mapM_Some, Forall2_app.
  - apply mapM_Some. eapply read_items_frame; eassumption.
  - constructor; [|constructor]. unfold read_dict.
    rewrite lookup_insert_ne by congruence. now rewrite lookup_insert_eq.
Qed.

Lemma read_dict_subseteq h h' x e :
  h ⊆ h' -> read_dict h x = Some e -> read_dict h' x = Some e.
Proof.
  unfold read_dict. intros Hsub Hx.
  destruct (h !! x) as [o|] eqn:E; [|discriminate].
  now rewrite (lookup_weaken _ _ _ _ E Hsub).
Qed.

Lemma read_items_subseteq h h' items v :
  h ⊆ h' -> mapM (read_dict h) items = Some v -> mapM (read_dict h') items = Some v.
Proof.
  intros Hsub. rewrite !mapM_Some. intros HF.
  eapply Forall2_impl; [exact HF|].
  intros x e. now apply read_dict_subseteq.
Qed.

Lemma read_list_subseteq h h' r v :
  h ⊆ h' -> read_list h r = Some v -> read_list h' r = Some v.
Proof.
  unfold read_list. intros Hsub Hv.
  destruct (h !! r) as [o|] eqn:E; [|discriminate].
  rewrite (lookup_weaken _ _ _ _ E Hsub). destruct o; [|discriminate].
  now apply read_items_subseteq with h.
Qed.

(** [get_conversation_history] returns a new list: the system entry, when
    the prompt is a non-empty string, and the messages; the objects that
    were there are left as they were. *)
Lemma get_conversation_history_spec st v :
  messages_of st = Some v ->
  exists r h',
    get_conversation_history st = (Ok r, {| heap := h'; self := self st |})
    /\ heap st !! r = None
    /\ heap st ⊆ h'
    /\ read_list h' r = Some (system_part (_system_prompt (self st)) ++ v).
Proof.
  intros Hv. destruct (messages_of_inv _ _ Hv) as (xs & Hl & Hxs).
  destruct st as [h [l p]]. simpl in *.
  unfold get_conversation_history, system_part, bind, get, new, alloc,
    list_append, list_concat, list_items, list_store, ret, bind. simpl.
  set (hl := fresh (dom h)).
  set (h1 := <[hl := ListObj []]> h).
  assert (Hhl : h !! hl = None) by apply fresh_lookup.
  assert (H01 : h ⊆ h1) by now apply insert_subseteq.
  destruct (truthy p) eqn:Hp; simpl.
  - set (d := fresh (dom h1)).
    set (h2 := <[d := DictObj (message "system" (default EmptyString p))]> h1).
    assert (Hd : h1 !! d = None) by apply fresh_lookup.
    assert (H12 : h1 ⊆ h2) by now apply insert_subseteq.
    assert (Hdhl : d <> hl).
    { intros E. rewrite E in Hd. unfold h1 in Hd. now rewrite lookup_insert_eq in Hd. }
    assert (H2hl : h2 !! hl = Some (ListObj [])).
    { unfold h2. rewrite lookup_insert_ne by congruence. apply lookup_insert_eq. }
    rewrite H2hl. simpl.
    set (h3 := <[hl := ListObj [d]]> h2).
    assert (H03 : h ⊆ h3).
    { apply insert_subseteq_r; [exact Hhl|]. now transitivity h1. }
    assert (H3hl : h3 !! hl = Some (ListObj [d])) by apply lookup_insert_eq.
    rewrite H3hl. simpl.
    rewrite (lookup_weaken _ _ _ _ Hl H03). unfold new, alloc. simpl.
    set (r := fresh (dom h3)).
    assert (Hr : h3 !! r = None) by apply fresh_lookup.
    exists r, (<[r := ListObj (d :: xs)]> h3). repeat split.
    + eapply lookup_weaken_None; eassumption.
    + transitivity h3; [exact H03|now apply insert_subseteq].
    + unfold read_list. rewrite lookup_insert_eq.
      apply mapM_Some. constructor.
      * assert (H3d : h3 !! d = Some (DictObj (message "system" (default EmptyString p)))).
        { unfold h3. rewrite lookup_insert_ne by congruence. apply lookup_insert_eq. }
        unfold read_dict.
        rewrite lookup_insert_ne by (symmetry; eapply fresh_ne; exact H3d).
        now rewrite H3d.
      * apply mapM_Some. eapply read_items_subseteq; [|exact Hxs].
        transitivity h3; [exact H03|now apply insert_subseteq].
  - assert (H1hl : h1 !! hl = Some (ListObj [])) by apply lookup_insert_eq.
    rewrite H1hl. simpl.
    rewrite (lookup_weaken _ _ _ _ Hl H01). unfold new, alloc. simpl.
    set (r := fresh (dom h1)).
    assert (Hr : h1 !! r = None) by apply fresh_lookup.
    exists r, (<[r := ListObj xs]> h1). repeat split.
    + eapply lookup_weaken_None; eassumption.
    + transitivity h1; [exact H01|now apply insert_subseteq].
    + unfold read_list. rewrite lookup_insert_eq.
      eapply read_items_subseteq; [|exact Hxs].
      transitivity h1; [exact H01|now apply insert_subseteq].
Qed.

Lemma len_spec st v :
  messages_of st = Some v -> __len__ st = (Ok (length v), st).
Proof.
  intros Hv. destruct (messages_of_inv _ _ Hv) as (xs & Hl & Hxs).
  unfold __len__, bind, get, list_items, ret. simpl. rewrite Hl.
  now rewrite (length_mapM _ _ _ Hxs).
Qed.

Lemma clear_spec st v :
  messages_of st = Some v ->
  clear st
  = (Ok tt,
     {| heap := <[_messages (self st) := ListObj []]> (heap st);
        self := {| _messages := _messages (self st); _system_prompt := None |} |}).
Proof.
  intros Hv. destruct (messages_of_inv _ _ Hv) as (xs & Hl & Hxs).
  unfold clear, bind, get, list_clear, list_items, list_store, set_prompt, bind.
  simpl. now rewrite Hl.
Qed.

(** One call, on a memory whose messages read as [v]: the message list
    stays the same object, the prompt and the messages change as
    [prompt_after] and [messages_after] say, and no other object that was
    there is touched. *)
Lemma exec_spec c st v :
  messages_of st = Some v ->
  _messages (self (exec c st)) = _messages (self st)
  /\ _system_prompt (self (exec c st)) = prompt_after c (_system_prompt (self st))
  /\ messages_of (exec c st) = Some (messages_after c v)
  /\ frame (_messages (self st)) (heap st) (heap (exec c st)).
Proof.
  intros Hv.
  assert (Hadd : forall role content,
    _messages (self (snd (add_message role content st))) = _messages (self st)
    /\ _system_prompt (self (snd (add_message role content st)))
       = _system_prompt (self st)
    /\ messages_of (snd (add_message role content st))
       = Some (if valid_role role then v ++ [message role content] else v)
    /\ frame (_messages (self st)) (heap st) (heap (snd (add_message role content st)))).
  { intros role content. destruct (valid_role role) eqn:Hrole.
    - destruct (add_message_messages st role content v Hrole Hv) as (_ & Hs & Hm & Hf).
      rewrite Hs. auto.
    - rewrite (add_message_invalid st role content Hrole). simpl.
      auto using frame_refl. }
  destruct c as [q|role content|m|m| | |]; simpl.
  - auto using frame_refl.
  - apply Hadd.
  - apply (Hadd "user" m).
  - apply (Hadd "assistant" m).
  - destruct (get_conversation_history_spec st v Hv) as (r & h' & E & _ & Hsub & _).
    rewrite E. simpl. repeat split; [|now apply subseteq_frame].
    unfold messages_of. simpl. now apply read_list_subseteq with (heap st).
  - rewrite (clear_spec st v Hv). simpl. repeat split.
    + unfold messages_of, read_list. simpl. now rewrite lookup_insert_eq.
    + intros x o Hx Ho. now rewrite lookup_insert_ne by congruence.
  - rewrite (len_spec st v Hv). simpl. auto using frame_refl.
Qed.

(** A sequence of calls. *)
Lemma run_spec calls : forall st v,
  messages_of st = Some v ->
  _messages (self (run calls st)) = _messages (self st)
  /\ _system_prompt (self (run calls st))
     = fold_left (fun p c => prompt_after c p) calls (_system_prompt (self st))
  /\ messages_of (run calls st)
     = Some (fold_left (fun ms c => messages_after c ms) calls v)
  /\ frame (_messages (self st)) (heap st) (heap (run calls st)).
Proof.
  induction calls as [|c calls IH]; intros st v Hv; simpl.
  - auto using frame_refl.
  - destruct (exec_spec c st v Hv) as (Hl & Hp & Hm & Hf).
    destruct (IH (exec c st) _ Hm) as (Hl' & Hp' & Hm' & Hf').
    rewrite Hl in *. rewrite Hp in *. repeat split; try assumption.
    eapply frame_trans; eassumption.
Qed.

Lemma init_messages p h : messages_of (__init__ p h) = Some [].
Proof.
  unfold __init__, alloc, messages_of, read_list. simpl.
  now rewrite lookup_insert_eq.
Qed.

(** Any memory the class can produce: built, then called any number of
    times. *)
Lemma reachable_spec p h calls :
  messages_of (run calls (__init__ p h)) = Some (appended calls)
  /\ _system_prompt (self (run calls (__init__ p h))) = prompt_in_force p calls.
Proof.
  destruct (run_spec calls _ _ (init_messages p h)) as (_ & Hp & Hm & _).
  split; [exact Hm|]. rewrite Hp. reflexivity.
Qed.

Lemma history_spec st v :
  messages_of st = Some v ->
  history st = Some (system_part (_system_prompt (self st)) ++ v).
Proof.
  intros Hv. unfold history.
  destruct (get_conversation_history_spec st v Hv) as (r & h' & E & _ & _ & Hr).
  now rewrite E.
Qed.

Lemma size_spec st v : messages_of st = Some v -> size st = Some (length v).
Proof. intros Hv. unfold size. now rewrite (len_spec st v Hv). Qed.

Lemma appended_length_ordinary (calls : list call) :
  forall ms : list (list (string * string)),
    forallb ordinary calls = true ->
    length (fold_left (fun ms c => messages_after c ms) calls ms)
    = length ms + non_system_appends calls.
Proof.
  unfold non_system_appends.
  induction calls as [|c calls IH]; intros ms; simpl; [lia|].
  intros H. apply andb_true_iff in H as [Hc Hcalls].
  rewrite (IH _ Hcalls).
  destruct c as [q|role content|m|m| | |]; simpl in *;
    try discriminate; try rewrite length_app; simpl; try lia.
  unfold valid_role. apply negb_true_iff in Hc. rewrite Hc, orb_false_r.
  destruct (String.eqb role "user" || String.eqb role "assistant");
    try rewrite length_app; simpl; lia.
Qed.

(** Without [clear()] and without messages of role ["system"], the size
    is the number of messages appended with the other two roles. *)
Lemma size_ordinary p h (calls : list call) :
  forallb ordinary calls = true ->
  size (run calls (__init__ p h)) = Some (non_system_appends calls).
Proof.
  intros H. destruct (reachable_spec p h calls) as (Hm & _).
  rewrite (size_spec _ _ Hm). unfold appended.
  now rewrite (appended_length_ordinary calls [] H).
Qed.

(** The list [get_conversation_history] returned keeps its value through
    any later calls. *)
Lemma snapshot_stable st v r st1 later :
  messages_of st = Some v ->
  get_conversation_history st = (Ok r, st1) ->
  read_list (heap (run later st1)) r = read_list (heap st1) r.
Proof.
  intros Hv E.
  destruct (get_conversation_history_spec st v Hv) as (r' & h' & E' & Hfresh & Hsub & Hr).
  rewrite E in E'. injection E' as -> ->. simpl in *.
  destruct (messages_of_inv _ _ Hv) as (xs & Hl & _).
  assert (Hv1 : messages_of {| heap := h'; self := self st |} = Some v).
  { unfold messages_of. simpl. now apply read_list_subseteq with (heap st). }
  destruct (run_spec later _ _ Hv1) as (_ & _ & _ & Hf). simpl in Hf.
  rewrite Hr. eapply read_list_frame.
  - exact Hf.
  - eapply lookup_weaken; eassumption.
  - intros ->. congruence.
  - exact Hr.
Qed.

End MemoryFacts.

(** C3, as stated, fails: a message appended with the role ["system"] is
    counted by [len(memory)]. *)
Lemma size_counts_system_role :
  Memory.size (Memory.run [Memory.Call_add_message "system" "x"]
                 (Memory.__init__ None ∅))
  = Some 1%nat
  /\ Memory.non_system_appends [Memory.Call_add_message "system" "x"] = 0%nat.
Proof. split; vm_compute; reflexivity. Qed.

(** C3, amended: after any sequence of calls on a new memory,
    [len(memory)] is the number of messages appended with any of the three
    roles (["system"] included) since the memory was built or last
    cleared; the system prompt is not counted. *)
Theorem size_is_appended_count (p : option string)
    (h : gmap Memory.loc Memory.object) (calls : list Memory.call) :
  Memory.size (Memory.run calls (Memory.__init__ p h))
  = Some (length (Memory.appended calls)).
Proof.
  destruct (reachable_spec p h calls) as (Hm & _).
  exact (size_spec _ _ Hm).
Qed.

(** C4: on any memory the class can produce, [add_message] with a role
    other than ["user"], ["assistant"] and ["system"] raises [ValueError]
    and leaves the memory as it was, so that [get_conversation_history]
    and [len] give what they gave before; with each of the three roles it
    returns and appends exactly one record, the message. *)
Theorem add_message_roles (p : option string)
    (h : gmap Memory.loc Memory.object) (calls : list Memory.call)
    (role content : string) :
  role <> "user" -> role <> "assistant" -> role <> "system" ->
  let st := Memory.run calls (Memory.__init__ p h) in
  (Memory.add_message role content st = (Raise ValueError, st)
   /\ Memory.history (snd (Memory.add_message role content st)) = Memory.history st
   /\ Memory.size (snd (Memory.add_message role content st)) = Memory.size st)
  /\ Forall (fun valid =>
       exists st',
         Memory.add_message valid content st = (Ok tt, st')
         /\ Memory.messages_of st'
            = Some (Memory.appended calls ++ [Memory.message valid content])
         /\ Memory.size st' = Some (S (length (Memory.appended calls)))
         /\ Memory.size st = Some (length (Memory.appended calls))
         /\ (exists hv, Memory.history st = Some hv
               /\ Memory.history st' = Some (hv ++ [Memory.message valid content])))
     ["user"; "assistant"; "system"].
Proof.
  intros Hu Ha Hs st.
  destruct (reachable_spec p h calls) as (Hm & Hp). fold st in Hm, Hp.
  split.
  - assert (Hrole : Memory.valid_role role = false).
    { unfold Memory.valid_role.
      destruct (String.eqb_spec role "user"); [contradiction|].
      destruct (String.eqb_spec role "assistant"); [contradiction|].
      destruct (String.eqb_spec role "system"); [contradiction|]. reflexivity. }
    rewrite (add_message_invalid st role content Hrole). simpl. auto.
  - assert (Hvalid : forall valid, Memory.valid_role valid = true ->
      exists st',
         Memory.add_message valid content st = (Ok tt, st')
         /\ Memory.messages_of st'
            = Some (Memory.appended calls ++ [Memory.message valid content])
         /\ Memory.size st' = Some (S (length (Memory.appended calls)))
         /\ Memory.size st = Some (length (Memory.appended calls))
         /\ (exists hv, Memory.history st = Some hv
               /\ Memory.history st' = Some (hv ++ [Memory.message valid content]))).
    { intros valid Hrole.
      destruct (add_message_messages st valid content _ Hrole Hm) as (Hr & Hself & Hm' & _).
      exists (snd (Memory.add_message valid content st)).
      split; [destruct (Memory.add_message valid content st) as [[[]|e] st'];
              simpl in *; congruence|].
      split; [exact Hm'|].
      split; [rewrite (size_spec _ _ Hm'), length_app; simpl; f_equal; lia|].
      split; [exact (size_spec _ _ Hm)|].
      eexists. split; [exact (history_spec _ _ Hm)|].
      rewrite (history_spec _ _ Hm'), Hself. now rewrite app_assoc. }
    repeat constructor; apply Hvalid; reflexivity.
Qed.

Lemma add_message_roles_witness :
  let st := Memory.run [] (Memory.__init__ None ∅) in
  (Memory.add_message "admin" "hello" st = (Raise ValueError, st)
   /\ Memory.history (snd (Memory.add_message "admin" "hello" st)) = Memory.history st
   /\ Memory.size (snd (Memory.add_message "admin" "hello" st)) = Memory.size st)
  /\ Forall (fun valid =>
       exists st',
         Memory.add_message valid "hello" st = (Ok tt, st')
         /\ Memory.messages_of st'
            = Some (Memory.appended [] ++ [Memory.message valid "hello"])
         /\ Memory.size st' = Some (S (length (Memory.appended [])))
         /\ Memory.size st = Some (length (Memory.appended []))
         /\ (exists hv, Memory.history st = Some hv
               /\ Memory.history st' = Some (hv ++ [Memory.message valid "hello"])))
     ["user"; "assistant"; "system"].
Proof.
  apply (add_message_roles None ∅ [] "admin" "hello"); discriminate.
Defined.

(** C5, as stated, fails: the empty string set as system prompt is left
    out of the history. *)
Lemma empty_prompt_not_first :
  Memory.prompt_in_force None
    [Memory.Call_set_system_prompt ""; Memory.Call_add_user_message "q"]
  = Some ""
  /\ Memory.history
       (Memory.run [Memory.Call_set_system_prompt ""; Memory.Call_add_user_message "q"]
          (Memory.__init__ None ∅))
     = Some [Memory.message "user" "q"].
Proof. split; vm_compute; reflexivity. Qed.

(** C5, amended: after any sequence of calls, if the system prompt in
    force is a non-empty string, [get_conversation_history] returns a list
    that no object had before, holding the system prompt first and then
    the appended messages in insertion order; whatever is called on the
    memory afterwards, that list reads the same. *)
Theorem history_system_first (p0 : option string)
    (h : gmap Memory.loc Memory.object) (calls : list Memory.call) (p : string) :
  Memory.prompt_in_force p0 calls = Some p -> p <> "" ->
  let st := Memory.run calls (Memory.__init__ p0 h) in
  exists r st1,
    Memory.get_conversation_history st = (Ok r, st1)
    /\ Memory.heap st !! r = None
    /\ Memory.read_list (Memory.heap st1) r
       = Some (Memory.message "system" p :: Memory.appended calls)
    /\ forall later : list Memory.call,
         Memory.read_list (Memory.heap (Memory.run later st1)) r
         = Some (Memory.message "system" p :: Memory.appended calls).
Proof.
  intros Hforce Hne st.
  destruct (reachable_spec p0 h calls) as (Hm & Hp). fold st in Hm, Hp.
  destruct (get_conversation_history_spec st _ Hm) as (r & h' & E & Hfresh & _ & Hr).
  rewrite Hp, Hforce in Hr.
  assert (Hsys : Memory.system_part (Some p) = [Memory.message "system" p]).
  { unfold Memory.system_part. destruct p; [contradiction|reflexivity]. }
  rewrite Hsys in Hr. simpl in Hr.
  exists r, {| Memory.heap := h'; Memory.self := Memory.self st |}.
  repeat split; try assumption.
  intros later. rewrite (snapshot_stable st _ r _ later Hm E). exact Hr.
Qed.

Lemma history_system_first_witness :
  let calls := [Memory.Call_add_user_message "q1";
                Memory.Call_set_system_prompt "context";
                Memory.Call_add_assistant_message "a1"] in
  let st := Memory.run calls (Memory.__init__ None ∅) in
  exists r st1,
    Memory.get_conversation_history st = (Ok r, st1)
    /\ Memory.heap st !! r = None
    /\ Memory.read_list (Memory.heap st1) r
       = Some (Memory.message "system" "context" :: Memory.appended calls)
    /\ forall later : list Memory.call,
         Memory.read_list (Memory.heap (Memory.run later st1)) r
         = Some (Memory.message "system" "context" :: Memory.appended calls).
Proof.
  apply (history_system_first None ∅ _ "context"); [reflexivity|discriminate].
Defined.

(** C9: when the system prompt in force is the empty string, whether it
    came from [set_system_prompt("")] or from the constructor,
    [get_conversation_history] gives the appended messages and no system
    entry. *)
Theorem empty_prompt_omitted (p0 : option string)
    (h : gmap Memory.loc Memory.object) (calls : list Memory.call) :
  Memory.prompt_in_force p0 calls = Some "" ->
  Memory.history (Memory.run calls (Memory.__init__ p0 h))
  = Some (Memory.appended calls).
Proof.
  intros Hforce.
  destruct (reachable_spec p0 h calls) as (Hm & Hp).
  rewrite (history_spec _ _ Hm), Hp, Hforce. reflexivity.
Qed.

Lemma empty_prompt_omitted_witness :
  Memory.history
    (Memory.run [Memory.Call_add_user_message "q"; Memory.Call_set_system_prompt ""]
       (Memory.__init__ None ∅))
  = Some (Memory.appended [Memory.Call_add_user_message "q"; Memory.Call_set_system_prompt ""])
  /\ Memory.history
       (Memory.run [Memory.Call_add_user_message "q"] (Memory.__init__ (Some "") ∅))
     = Some (Memory.appended [Memory.Call_add_user_message "q"]).
Proof.
  split.
  - apply (empty_prompt_omitted None ∅). reflexivity.
  - apply (empty_prompt_omitted (Some "") ∅). reflexivity.
Defined.

(** ** Floats *)

Section FloatFacts.
Import PyFloat.

(** Two floats that compare equal also compare less-or-equal. *)
Lemma eqb_leb (x y : float) : PrimFloat.eqb x y = true -> PrimFloat.leb x y = true.
Proof.
  rewrite FloatAxioms.eqb_spec, FloatAxioms.leb_spec. unfold SFeqb, SFleb.
  destruct (SFcompare _ _) as [[]|]; congruence.
Qed.

(** A float that compares equal to zero is below the floor constant. *)
Lemma zero_below_floor (a : float) :
  PrimFloat.eqb a zero = true -> PrimFloat.ltb a Evaluator.floor_constant = true.
Proof.
  rewrite FloatAxioms.eqb_spec, FloatAxioms.ltb_spec. unfold SFeqb, SFltb.
  replace (Prim2SF zero) with (S754_zero false) by (vm_compute; reflexivity).
  replace (Prim2SF Evaluator.floor_constant)
    with (S754_finite false 7737125245533627 (-86)) by (vm_compute; reflexivity).
  destruct (Prim2SF a) as [s|s| |s m e]; cbn [SFcompare]; try congruence.
  - destruct s; congruence.
  - destruct s; congruence.
Qed.

(** The divisor of the relative difference is never zero. *)
Lemma max_floor_nonzero (a : float) :
  PrimFloat.eqb (py_max a Evaluator.floor_constant) zero = false.
Proof.
  unfold py_max, py_gt.
  destruct (PrimFloat.ltb a Evaluator.floor_constant) eqn:E.
  - vm_compute. reflexivity.
  - destruct (PrimFloat.eqb a zero) eqn:Z; [|reflexivity].
    apply zero_below_floor in Z. congruence.
Qed.

End FloatFacts.

(** ** [normalize_answer] and [answers_match] *)

Section AnswerFacts.
Import PyStr PyFloat PyRepr Effects Evaluator.

Lemma is_space_lower_char (c : ascii) : is_space (lower_char c) = is_space c.
Proof.
  case_char c; reflexivity.
Qed.

Lemma lstrip_lower (s : string) : lstrip (lower s) = lower (lstrip s).
Proof.
  induction s as [|c s IH]; simpl; [reflexivity|].
  rewrite is_space_lower_char. destruct (is_space c); [exact IH|reflexivity].
Qed.

Lemma rev_onto_lower (s acc : string) :
  rev_onto (lower s) (lower acc) = lower (rev_onto s acc).
Proof.
  revert acc. induction s as [|c s IH]; intros acc; simpl; [reflexivity|].
  apply (IH (String c acc)).
Qed.

Lemma reverse_lower (s : string) : reverse (lower s) = lower (reverse s).
Proof. apply (rev_onto_lower s EmptyString). Qed.

(** Trimming and lower-casing commute. *)
Lemma strip_lower (s : string) : strip (lower s) = lower (strip s).
Proof.
  unfold strip, rstrip.
  now rewrite reverse_lower, lstrip_lower, reverse_lower, lstrip_lower.
Qed.

Lemma replace_removes (old : ascii) (s : string) :
  has_char old (replace old EmptyString s) = false.
Proof.
  induction s as [|c s IH]; simpl; [reflexivity|].
  destruct (Ascii.eqb c old) eqn:E; simpl; [exact IH|].
  rewrite Ascii.eqb_sym, E. exact IH.
Qed.

Lemma replace_keeps_absent (c old : ascii) (s : string) :
  has_char c s = false -> has_char c (replace old EmptyString s) = false.
Proof.
  induction s as [|d s IH]; simpl; [reflexivity|].
  intros H. apply orb_false_iff in H as [Hd Hs].
  destruct (Ascii.eqb d old); simpl; [now apply IH|].
  rewrite Hd. now apply IH.
Qed.

(** Induction on a value, through the items of lists and dictionaries. *)
Lemma pyobj_nested_ind (P : pyobj -> Prop) :
  P PyNone -> (forall b, P (PyBool b)) -> (forall n, P (PyInt n)) ->
  (forall f, P (PyFloat f)) -> (forall s, P (PyStr s)) ->
  (forall items, List.Forall P items -> P (PyList items)) ->
  (forall entries, List.Forall (fun kv => P (snd kv)) entries -> P (PyDict entries)) ->
  forall x, P x.
Proof.
  intros HN HB HI HF HS HL HD. fix IH 1. intros [ |b|n|f|s|items|entries].
  - exact HN.
  - apply HB.
  - apply HI.
  - apply HF.
  - apply HS.
  - apply HL. induction items as [|y items IHitems]; constructor; [apply IH|exact IHitems].
  - apply HD. induction entries as [|[k y] entries IHentries]; constructor;
      [apply IH|exact IHentries].
Qed.

Lemma all_texts_returns {A} (f : A -> res string) (g : A -> bool) (l : list A) :
  List.Forall (fun a => g a = true -> exists t, f a = Ok t) l ->
  forallb g l = true -> exists ts, all_texts (List.map f l) = Ok ts.
Proof.
  induction 1 as [|a l Ha _ IH]; cbn [forallb List.map all_texts]; [eauto|].
  intros H. apply andb_true_iff in H as [Hg Hl].
  destruct (Ha Hg) as [t ->]. destruct (IH Hl) as [ts ->]. eauto.
Qed.

Lemma all_texts_raises {A} (f : A -> res string) (g : A -> bool) (l : list A) :
  List.Forall (fun a => g a = false -> f a = Raise ValueError) l ->
  List.Forall (fun a => forall e, f a = Raise e -> e = ValueError) l ->
  forallb g l = false -> all_texts (List.map f l) = Raise ValueError.
Proof.
  induction 1 as [|a l Ha _ IH]; cbn [forallb List.map all_texts]; [discriminate|].
  intros Hall Hg. apply Forall_cons in Hall as [He Hall].
  destruct (f a) as [t|e] eqn:E.
  - destruct (g a); [|now discriminate (Ha eq_refl)].
    cbn [andb] in Hg. rewrite (IH Hall Hg). reflexivity.
  - rewrite (He e eq_refl). reflexivity.
Qed.

Lemma all_texts_exn {A} (f : A -> res string) (l : list A) (e : exn) :
  List.Forall (fun a => forall e, f a = Raise e -> e = ValueError) l ->
  all_texts (List.map f l) = Raise e -> e = ValueError.
Proof.
  induction 1 as [|a l Ha _ IH]; cbn [List.map all_texts]; [discriminate|].
  destruct (f a) as [t|e'] eqn:E.
  - destruct (all_texts (List.map f l)); [discriminate|].
    intros [= <-]. now apply IH.
  - intros [= <-]. now apply Ha.
Qed.

(** [repr(x)] raises nothing but [ValueError], and raises it exactly when
    an [int] in [x] is beyond the limit on digits. *)
Lemma py_repr_spec (x : pyobj) :
  (forall e, py_repr x = Raise e -> e = ValueError)
  /\ (printable x = true -> exists text, py_repr x = Ok text)
  /\ (printable x = false -> py_repr x = Raise ValueError).
Proof.
  induction x as [ |b|n|f|s|items IH|entries IH] using pyobj_nested_ind;
    cbn [py_repr printable].
  - repeat split; [discriminate|eauto|discriminate].
  - destruct b; (repeat split; [discriminate|eauto|discriminate]).
  - unfold int_repr. destruct (within_digit_limit n);
      (repeat split; [congruence|eauto|congruence]) || (repeat split; congruence).
  - repeat split; [discriminate|eauto|discriminate].
  - repeat split; [discriminate|eauto|discriminate].
  - repeat split.
    + intros e He.
      destruct (all_texts (List.map py_repr items)) eqn:E; [discriminate|].
      injection He as <-. apply (all_texts_exn py_repr items); [|exact E].
      eapply Forall_impl; [exact IH|]. cbv beta. tauto.
    + intros Hp. destruct (all_texts_returns py_repr printable items) as [ts ->];
        [|exact Hp|eauto].
      eapply Forall_impl; [exact IH|]. cbv beta. tauto.
    + intros Hp. rewrite (all_texts_raises py_repr printable items); [reflexivity| | |exact Hp].
      * eapply Forall_impl; [exact IH|]. cbv beta. tauto.
      * eapply Forall_impl; [exact IH|]. cbv beta. tauto.
  - set (item := fun kv : string * pyobj =>
                   match py_repr (snd kv) with
                   | Ok v => Ok (str_repr (fst kv) +:+ ": " +:+ v)
                   | Raise e => Raise e
                   end).
    assert (H1 : List.Forall (fun kv => forall e, item kv = Raise e -> e = ValueError) entries).
    { eapply Forall_impl; [exact IH|]. cbv beta. intros kv (He & _ & _) e. unfold item.
      destruct (py_repr (snd kv)); [discriminate|]. intros [= <-]. now apply He. }
    assert (H2 : List.Forall (fun kv => printable (snd kv) = true -> exists t, item kv = Ok t)
                   entries).
    { eapply Forall_impl; [exact IH|]. cbv beta. intros kv (_ & Hp & _) H. unfold item.
      destruct (Hp H) as [t ->]. eauto. }
    assert (H3 : List.Forall (fun kv => printable (snd kv) = false -> item kv = Raise ValueError)
                   entries).
    { eapply Forall_impl; [exact IH|]. cbv beta. intros kv (_ & _ & Hp) H. unfold item.
      rewrite (Hp H). reflexivity. }
    repeat split.
    + intros e He. destruct (all_texts (List.map item entries)) eqn:E; [discriminate|].
      injection He as <-. exact (all_texts_exn item entries _ H1 E).
    + intros Hp.
      destruct (all_texts_returns item (fun kv => printable (snd kv)) entries H2 Hp) as [ts ->].
      eauto.
    + intros Hp.
      rewrite (all_texts_raises item (fun kv => printable (snd kv)) entries H3 H1 Hp).
      reflexivity.
Qed.

(** [str(x)] returns exactly when no [int] in [x] is beyond the limit. *)
Lemma py_str_printable (x : pyobj) :
  printable x = true -> exists text, py_str x = Ok text.
Proof.
  intros H. destruct x; try (apply py_repr_spec; exact H). cbn. eauto.
Qed.

Lemma py_str_unprintable (x : pyobj) :
  printable x = false -> py_str x = Raise ValueError.
Proof.
  intros H. destruct x; try (apply py_repr_spec; exact H). discriminate H.
Qed.

(** [normalize_answer], call by call. *)
Lemma normalize_answer_unfold (x : pyobj) (out : stdout) :
  normalize_answer x out
  = match x with
    | PyNone => (Ok zero, out)
    | _ =>
        match py_str x with
        | Raise e => (Raise e, out)
        | Ok text =>
            match py_float (replace "%" "" (replace "$" "" (replace " " ""
                              (lower (strip text))))) with
            | Some g => (Ok g, out)
            | None => (Ok zero, out ++ ["Warning: Could not convert '" +:+ text +:+ "'"])
            end
        end
    end.
Proof.
  destruct x; try reflexivity;
    unfold normalize_answer, bind, lift;
    match goal with |- context [py_str ?v] => destruct (py_str v) as [text|e] end;
    try reflexivity;
    unfold try_except, or_raise;
    match goal with |- context [py_float ?t] => destruct (py_float t) end;
    reflexivity.
Qed.

(** [normalize_answer] returns on a value that [str()] takes. *)
Lemma normalize_answer_returns (x : pyobj) (out : stdout) :
  printable x = true -> exists f out', normalize_answer x out = (Ok f, out').
Proof.
  intros Hp. rewrite normalize_answer_unfold.
  destruct (py_str_printable x Hp) as [text ->].
  destruct x; try (now eexists _, _);
    match goal with |- context [py_float ?t] => destruct (py_float t) end;
    now eexists _, _.
Qed.

(** On any other value it raises what [str()] raises, and prints
    nothing. *)
Lemma normalize_answer_raises (x : pyobj) (out : stdout) :
  printable x = false -> normalize_answer x out = (Raise ValueError, out).
Proof.
  intros Hp. rewrite normalize_answer_unfold, (py_str_unprintable x Hp).
  destruct x; try reflexivity. discriminate Hp.
Qed.

(** [answers_match] in terms of the two normalized numbers. *)
Lemma answers_match_unfold (pred gold : pyobj) (rt at_ : float) (out out1 out2 : stdout)
    (pred_num gold_num : float) :
  normalize_answer pred out = (Ok pred_num, out1) ->
  normalize_answer gold out1 = (Ok gold_num, out2) ->
  answers_match pred gold rt at_ out
  = (Ok (within_tolerance rt at_ pred_num gold_num), out2).
Proof.
  intros Hp Hg. unfold answers_match, bind. rewrite Hp, Hg.
  unfold or_raise, py_truediv.
  rewrite max_floor_nonzero. reflexivity.
Qed.

End AnswerFacts.




(** C1, as stated, fails: on 100.0 and 100.05 with the tolerances 1e-3
    and 1e-4 the result is not [False]. *)
Lemma answers_match_100_not_false :
  fst (Evaluator.answers_match (PyFloat 100) (PyFloat 100.05) 1e-3 1e-4 [])
  <> Ok false.
Proof. vm_compute. discriminate. Qed.

(** C1, amended: [answers_match(100.0, 100.05, 1e-3, 1e-4)] returns
    [True], for the two floats as for their texts: the absolute difference
    is above the absolute tolerance 1e-4, but the relative difference,
    about 5e-4, is within the relative tolerance 1e-3. *)
Theorem answers_match_100_true :
  (forall out : Effects.stdout,
     Evaluator.answers_match (PyFloat 100) (PyFloat 100.05) 1e-3 1e-4 out
     = (Ok true, out))
  /\ (forall out : Effects.stdout,
        Evaluator.answers_match (PyStr "100.0") (PyStr "100.05") 1e-3 1e-4 out
        = (Ok true, out))
  /\ (let abs_diff := PrimFloat.abs (PrimFloat.sub 100 100.05) in
      PrimFloat.leb abs_diff 1e-4 = false
      /\ PrimFloat.leb (PrimFloat.div abs_diff 100.05) 1e-3 = true).
Proof.
  repeat split; try (intros out; vm_compute; reflexivity); vm_compute; reflexivity.
Qed.

(** C2: for every predicted and gold answer and every pair of
    tolerances, [answers_match] returns [True] if and only if
    [normalize_answer] gives a number for each of the two and the absolute
    difference of the two numbers is at most the absolute tolerance or that
    difference, divided by the larger of [|gold|] and the positive floor
    1e-10, is at most the relative tolerance.  Whenever the two answers are
    normalized, [answers_match] returns (the divisor is never zero), and it
    returns [True] when the absolute difference equals the absolute
    tolerance; an exception of [normalize_answer] is the exception of
    [answers_match]. *)
Theorem answers_match_spec (pred gold : pyobj)
    (relative_tolerance absolute_tolerance : float) (out : Effects.stdout) :
  let accepted (pred_num gold_num : float) : Prop :=
    let abs_diff := PrimFloat.abs (PrimFloat.sub pred_num gold_num) in
    let larger :=
      if PrimFloat.ltb (PrimFloat.abs gold_num) Evaluator.floor_constant
      then Evaluator.floor_constant
      else PrimFloat.abs gold_num in
    let rel_diff := PrimFloat.div abs_diff larger in
    PrimFloat.leb abs_diff absolute_tolerance = true
    \/ PrimFloat.leb rel_diff relative_tolerance = true in
  let returned := Evaluator.answers_match pred gold relative_tolerance absolute_tolerance out in
  (fst returned = Ok true
   <-> exists (pred_num gold_num : float) (out1 out2 : Effects.stdout),
         Evaluator.normalize_answer pred out = (Ok pred_num, out1)
         /\ Evaluator.normalize_answer gold out1 = (Ok gold_num, out2)
         /\ accepted pred_num gold_num)
  /\ (forall (pred_num gold_num : float) (out1 out2 : Effects.stdout),
        Evaluator.normalize_answer pred out = (Ok pred_num, out1) ->
        Evaluator.normalize_answer gold out1 = (Ok gold_num, out2) ->
        exists result : bool,
          returned = (Ok result, out2)
          /\ (result = true <-> accepted pred_num gold_num)
          /\ (PrimFloat.eqb (PrimFloat.abs (PrimFloat.sub pred_num gold_num))
                absolute_tolerance = true -> result = true))
  /\ (forall (e : exn) (out' : Effects.stdout),
        Evaluator.normalize_answer pred out = (Raise e, out')
        \/ (exists (pred_num : float) (out1 : Effects.stdout),
              Evaluator.normalize_answer pred out = (Ok pred_num, out1)
              /\ Evaluator.normalize_answer gold out1 = (Raise e, out')) ->
        returned = (Raise e, out'))
  /\ PrimFloat.ltb 0 Evaluator.floor_constant = true.
Proof.
  intros accepted returned.
  assert (Hret : forall pred_num gold_num out1 out2,
            Evaluator.normalize_answer pred out = (Ok pred_num, out1) ->
            Evaluator.normalize_answer gold out1 = (Ok gold_num, out2) ->
            returned
            = (Ok (Evaluator.within_tolerance relative_tolerance absolute_tolerance
                     pred_num gold_num), out2)
            /\ (Evaluator.within_tolerance relative_tolerance absolute_tolerance
                  pred_num gold_num = true <-> accepted pred_num gold_num)).
  { intros pred_num gold_num out1 out2 Hp Hg. split.
    - exact (answers_match_unfold _ _ _ _ _ _ _ _ _ Hp Hg).
    - unfold Evaluator.within_tolerance, accepted. cbv zeta. apply orb_true_iff. }
  assert (Hraise : forall e out',
            Evaluator.normalize_answer pred out = (Raise e, out')
            \/ (exists pred_num out1,
                  Evaluator.normalize_answer pred out = (Ok pred_num, out1)
                  /\ Evaluator.normalize_answer gold out1 = (Raise e, out')) ->
            returned = (Raise e, out')).
  { intros e out' [Hp|(pred_num & out1 & Hp & Hg)];
      unfold returned, Evaluator.answers_match, Effects.bind;
      rewrite Hp; [|rewrite Hg]; reflexivity. }
  split; [|split; [|split; [exact Hraise|vm_compute; reflexivity]]].
  - split.
    + intros Htrue.
      destruct (Evaluator.normalize_answer pred out) as [[pred_num|e] out1] eqn:Hp.
      * destruct (Evaluator.normalize_answer gold out1) as [[gold_num|e] out2] eqn:Hg.
        -- destruct (Hret _ _ _ _ eq_refl Hg) as [Hr Hacc].
           exists pred_num, gold_num, out1, out2.
           split; [reflexivity|]. split; [exact Hg|]. apply Hacc.
           rewrite Hr in Htrue. injection Htrue as ->. reflexivity.
        -- rewrite (Hraise e out2) in Htrue by (right; eauto). discriminate Htrue.
      * rewrite (Hraise e out1) in Htrue by (left; reflexivity). discriminate Htrue.
    + intros (pred_num & gold_num & out1 & out2 & Hp & Hg & Hacc).
      destruct (Hret _ _ _ _ Hp Hg) as [Hr Hiff]. rewrite Hr. cbn [fst].
      f_equal. apply Hiff. exact Hacc.
  - intros pred_num gold_num out1 out2 Hp Hg.
    destruct (Hret _ _ _ _ Hp Hg) as [Hr Hiff].
    eexists. split; [exact Hr|]. split; [exact Hiff|].
    intros E. apply Hiff. left. now apply eqb_leb.
Qed.

(** The boundary case of C2 on an input: the absolute difference of
    ["0.0001"] and ["0"] is the absolute tolerance 1e-4 itself. *)
Lemma answers_match_spec_witness :
  Evaluator.answers_match (PyStr "0.0001") (PyStr "0") 1e-3 1e-4 [] = (Ok true, []).
Proof.
  destruct (proj1 (proj2 (answers_match_spec (PyStr "0.0001") (PyStr "0") 1e-3 1e-4 []))
              0.0001%float 0%float [] [])
    as (b & Hm & _ & Heq); [vm_compute; reflexivity|vm_compute; reflexivity|].
  rewrite Hm. do 2 f_equal. apply Heq. vm_compute. reflexivity.
Defined.

(** ** The JSON decoder *)

Section JsonFacts.
Import PyStr PyFloat Json.

Lemma array_items_le scan1 scan2 :
  scan_le scan1 scan2 ->
  forall fuel s acc x,
    array_items scan1 fuel s acc = Ok x -> array_items scan2 fuel s acc = Ok x.
Proof.
  intros Hle. induction fuel as [|fuel IH]; intros s acc x; simpl; [discriminate|].
  destruct (scan1 s) as [[v s1]|e] eqn:E; [|discriminate].
  rewrite (Hle _ _ E).
  destruct (skip_ws s1) as [|c s2]; [discriminate|].
  case_char c; try discriminate; auto.
Qed.

Lemma JSONArray_le scan1 scan2 :
  scan_le scan1 scan2 -> scan_le (JSONArray scan1) (JSONArray scan2).
Proof.
  intros Hle s x. unfold JSONArray.
  destruct (skip_ws s) as [|c s1] eqn:E.
  - now apply array_items_le.
  - case_char c; try now apply array_items_le.
    auto.
Qed.

Lemma object_items_le scan1 scan2 :
  scan_le scan1 scan2 ->
  forall fuel s acc x,
    object_items scan1 fuel s acc = Ok x -> object_items scan2 fuel s acc = Ok x.
Proof.
  intros Hle. induction fuel as [|fuel IH]; intros s acc x; simpl; [discriminate|].
  destruct (scanstring s EmptyString) as [[key s1]|e]; [|discriminate].
  destruct (skip_ws s1) as [|c s2]; [discriminate|].
  case_char c; try discriminate.
  destruct (scan1 (skip_ws s2)) as [[v s3]|e] eqn:E; [|discriminate].
  rewrite (Hle _ _ E).
  destruct (skip_ws s3) as [|c s4]; [discriminate|].
  case_char c; try discriminate; auto.
  destruct (skip_ws s4) as [|q s5]; [discriminate|].
  destruct (Ascii.eqb q dquote); [apply IH|discriminate].
Qed.

Lemma JSONObject_le scan1 scan2 :
  scan_le scan1 scan2 -> scan_le (JSONObject scan1) (JSONObject scan2).
Proof.
  intros Hle s x. unfold JSONObject.
  destruct (skip_ws s) as [|c s1]; [discriminate|].
  destruct (Ascii.eqb c "}"); [auto|].
  destruct (Ascii.eqb c dquote); [|discriminate].
  now apply object_items_le.
Qed.

Lemma startswith_cons (c d : ascii) (p s : string) :
  startswith (String c p) (String d s) = true -> d = c /\ startswith p s = true.
Proof.
  change (startswith (String c p) (String d s))
    with (Ascii.eqb c d && startswith p s).
  intros H. apply andb_true_iff in H as [H1 H2].
  apply Ascii.eqb_eq in H1. now split.
Qed.

(** No number starts where a named constant starts. *)
Lemma constant_is_no_number (s : string) :
  startswith "NaN" s = true \/ startswith "Infinity" s = true
  \/ startswith "-Infinity" s = true ->
  number_or_fail s = Raise JSONDecodeError.
Proof.
  destruct s as [|c s]; [intros [H|[H|H]]; discriminate|].
  intros [H|[H|H]].
  - apply startswith_cons in H as [-> _]. reflexivity.
  - apply startswith_cons in H as [-> _]. reflexivity.
  - apply startswith_cons in H as [-> H].
    destruct s as [|d s]; [discriminate|].
    apply startswith_cons in H as [-> _]. reflexivity.
Qed.

(** [scan_once], one step unfolded. *)
Lemma scan_once_eq (constants : bool) (depth : nat) (s : string) :
  scan_once constants depth s
  = match s with
    | EmptyString => Raise JSONDecodeError
    | String c s' =>
        if Ascii.eqb c dquote then
          match scanstring s' EmptyString with
          | Ok (str, r) => Ok (PyStr str, r)
          | Raise e => Raise e
          end
        else if Ascii.eqb c "{" then
          match depth with
          | O => Raise RecursionError
          | S d => JSONObject (scan_once constants d) s'
          end
        else if Ascii.eqb c "[" then
          match depth with
          | O => Raise RecursionError
          | S d => JSONArray (scan_once constants d) s'
          end
        else if startswith "null" s then Ok (PyNone, drop_prefix 4 s)
        else if startswith "true" s then Ok (PyBool true, drop_prefix 4 s)
        else if startswith "false" s then Ok (PyBool false, drop_prefix 5 s)
        else if constants && startswith "NaN" s then Ok (PyFloat nan, drop_prefix 3 s)
        else if constants && startswith "Infinity" s then
          Ok (PyFloat infinity, drop_prefix 8 s)
        else if constants && startswith "-Infinity" s then
          Ok (PyFloat neg_infinity, drop_prefix 9 s)
        else number_or_fail s
    end.
Proof. destruct depth; reflexivity. Qed.

(** What the decoder of RFC 8259 returns, the default decoder returns. *)
Lemma scan_once_le (depth : nat) :
  scan_le (scan_once false depth) (scan_once true depth).
Proof.
  induction depth as [|d IH]; intros s x; rewrite !scan_once_eq;
    (destruct s as [|c s]; [discriminate|]);
    (destruct (Ascii.eqb c dquote); [auto|]);
    (destruct (Ascii.eqb c "{"); [first [discriminate | now apply JSONObject_le]|]);
    (destruct (Ascii.eqb c "["); [first [discriminate | now apply JSONArray_le]|]);
    (destruct (startswith "null" (String c s)); [auto|]);
    (destruct (startswith "true" (String c s)); [auto|]);
    (destruct (startswith "false" (String c s)); [auto|]);
    cbn [andb]; intros H;
    (destruct (startswith "NaN" (String c s)) eqn:E1;
      [rewrite constant_is_no_number in H by auto; discriminate|]);
    (destruct (startswith "Infinity" (String c s)) eqn:E2;
      [rewrite constant_is_no_number in H by auto; discriminate|]);
    (destruct (startswith "-Infinity" (String c s)) eqn:E3;
      [rewrite constant_is_no_number in H by auto; discriminate|]);
    exact H.
Qed.

Lemma decode_le (depth : nat) (s : string) (v : pyobj) :
  decode false depth s = Ok v -> decode true depth s = Ok v.
Proof.
  unfold decode.
  destruct (scan_once false depth (skip_ws s)) as [[v' r]|e] eqn:E; [|discriminate].
  now rewrite (scan_once_le depth _ _ E).
Qed.

End JsonFacts.

Section JsonFuel.
Import PyStr PyFloat Json.

Lemma skip_ws_length (s : string) : String.length (skip_ws s) <= String.length s.
Proof.
  induction s as [|c s IH]; simpl; [lia|].
  destruct (is_ws c); simpl; lia.
Qed.

Lemma scanstring_consumes (n : nat) : forall s acc str r,
  String.length s <= n ->
  scanstring s acc = Ok (str, r) -> String.length r < S (String.length s).
Proof.
  induction n as [|n IH]; intros s acc str r Hn.
  - destruct s; [discriminate|simpl in Hn; lia].
  - destruct s as [|c s1]; [discriminate|]. simpl in Hn.
    cbn [scanstring].
    destruct (Ascii.eqb c dquote).
    { intros [= _ ->]. simpl. lia. }
    destruct (Ascii.eqb c "\").
    + destruct s1 as [|e s2]; [discriminate|]. simpl in Hn.
      destruct (Ascii.eqb e "u").
      * destruct s2 as [|h1 [|h2 [|h3 [|h4 s3]]]]; try discriminate.
        destruct (hex4 h1 h2 h3 h4) as [uni|]; [|discriminate].
        destruct (uni <? 256)%N; [|discriminate].
        intros H. apply IH in H; simpl in *; lia.
      * destruct (backslash e); [|discriminate].
        intros H. apply IH in H; simpl in *; lia.
    + destruct (code c <? 32)%N; [discriminate|].
      intros H. apply IH in H; simpl in *; lia.
Qed.

Lemma span_digits_length (s : string) :
  String.length (fst (span_digits s)) + String.length (snd (span_digits s))
  = String.length s.
Proof.
  induction s as [|c s IH]; simpl; [reflexivity|].
  destruct (is_decimal c); [|reflexivity].
  destruct (span_digits s) as [ds r]. simpl in *. lia.
Qed.

Lemma match_integer_consumes (s ip r : string) :
  match_integer s = Some (ip, r) -> String.length r < String.length s.
Proof.
  destruct s as [|c s]; [discriminate|]. unfold match_integer.
  destruct (Ascii.eqb c "0"); [intros [= _ <-]; simpl; lia|].
  destruct (in_range 49 57 c); [|discriminate].
  pose proof (span_digits_length s) as L.
  destruct (span_digits s) as [ds r']. intros [= _ <-]. simpl in *. lia.
Qed.

Lemma match_frac_length (s : string) :
  String.length (snd (match_frac s)) <= String.length s.
Proof.
  destruct s as [|c s]; [simpl; lia|]. unfold match_frac.
  case_char c; try (simpl; lia).
  pose proof (span_digits_length s) as L.
  destruct (span_digits s) as [[|d ds] r]; simpl in *; lia.
Qed.

Lemma match_exp_length (s : string) :
  String.length (snd (match_exp s)) <= String.length s.
Proof.
  destruct s as [|c s]; [simpl; lia|]. unfold match_exp.
  destruct (Ascii.eqb c "e" || Ascii.eqb c "E"); [|simpl; lia].
  assert (H : forall sign s1, String.length s1 <= String.length s ->
    String.length (snd (match span_digits s1 with
                        | (EmptyString, _) => (EmptyString, String c s)
                        | (ds, r) => (String c (sign +:+ ds), r)
                        end)) <= String.length (String c s)).
  { intros sign s1 Hs1. pose proof (span_digits_length s1) as L.
    destruct (span_digits s1) as [[|d ds] r]; simpl in *; lia. }
  destruct s as [|d s']; [apply (H EmptyString); simpl; lia|].
  case_char d;
    first [apply (H "-"); simpl; lia | apply (H "+"); simpl; lia
          | apply (H EmptyString); simpl; lia].
Qed.

Lemma number_or_fail_consumes : consuming number_or_fail.
Proof.
  intros s v r. unfold number_or_fail, match_number.
  assert (H : forall sign s0, String.length s0 <= String.length s ->
    match
      match match_integer s0 with
      | None => None
      | Some (ip, s1) =>
          let '(frac, s2) := match_frac s1 in
          let '(ex, s3) := match_exp s2 in
          let integer := sign +:+ ip in
          match frac, ex with
          | EmptyString, EmptyString =>
              match py_int integer ip with
              | Ok n => Some (Ok (PyInt n), s3)
              | Raise e => Some (Raise e, s3)
              end
          | _, _ =>
              match py_float (integer +:+ frac +:+ ex) with
              | Some f => Some (Ok (PyFloat f), s3)
              | None => Some (Raise ValueError, s3)
              end
          end
      end
    with
    | Some (Ok v0, r0) => Ok (v0, r0)
    | Some (Raise e, _) => Raise e
    | None => Raise JSONDecodeError
    end = Ok (v, r) -> String.length r < String.length s).
  { intros sign s0 Hs0.
    destruct (match_integer s0) as [[ip s1]|] eqn:E; [|discriminate].
    apply match_integer_consumes in E.
    pose proof (match_frac_length s1) as L1.
    destruct (match_frac s1) as [frac s2]. simpl in L1.
    pose proof (match_exp_length s2) as L2.
    destruct (match_exp s2) as [ex s3]. simpl in L2.
    destruct frac, ex; cbn beta iota zeta;
      try match goal with |- context [py_float ?t] => destruct (py_float t) end;
      try match goal with |- context [py_int ?t ?d] => destruct (py_int t d) end;
      intros H; try discriminate H; injection H as _ <-; lia. }
  destruct s as [|c s']; [apply (H EmptyString); simpl; lia|].
  case_char c;
    first [apply (H "-"); simpl; lia | apply (H EmptyString); simpl; lia].
Qed.

Lemma drop_prefix_length (n : nat) (s : string) :
  n <= String.length s -> String.length (drop_prefix n s) + n = String.length s.
Proof.
  revert s. induction n as [|n IH]; intros s Hn; simpl; [lia|].
  destruct s as [|c s]; simpl in *; [lia|]. rewrite <- (IH s); lia.
Qed.

Lemma startswith_length (p s : string) :
  startswith p s = true -> String.length p <= String.length s.
Proof.
  revert s. induction p as [|a p IH]; intros s; simpl; [lia|].
  destruct s as [|b s]; [discriminate|].
  intros H. apply andb_true_iff in H as [_ H]. apply IH in H. simpl. lia.
Qed.

Lemma array_items_consumes scan :
  consuming scan ->
  forall fuel s acc v r,
    array_items scan fuel s acc = Ok (v, r) -> String.length r < String.length s.
Proof.
  intros Hc. induction fuel as [|fuel IH]; intros s acc v r; simpl; [discriminate|].
  destruct (scan s) as [[v1 s1]|e] eqn:E; [|discriminate].
  apply Hc in E. pose proof (skip_ws_length s1) as L1.
  destruct (skip_ws s1) as [|c s2]; [discriminate|]. simpl in L1.
  case_char c; try discriminate.
  - intros [= _ <-]. lia.
  - intros H. apply IH in H. pose proof (skip_ws_length s2). lia.
Qed.

Lemma JSONArray_consumes scan :
  consuming scan ->
  forall s v r, JSONArray scan s = Ok (v, r) -> String.length r < String.length s.
Proof.
  intros Hc s v r. unfold JSONArray. pose proof (skip_ws_length s) as L.
  destruct (skip_ws s) as [|c s1] eqn:E.
  - intros H. apply (array_items_consumes scan Hc) in H. simpl in *. lia.
  - simpl in L.
    case_char c;
      try (intros H; apply (array_items_consumes scan Hc) in H; simpl in *; lia).
    intros [= _ <-]. lia.
Qed.

Lemma object_items_consumes scan :
  consuming scan ->
  forall fuel s acc v r,
    object_items scan fuel s acc = Ok (v, r) -> String.length r < String.length s.
Proof.
  intros Hc. induction fuel as [|fuel IH]; intros s acc v r; simpl; [discriminate|].
  destruct (scanstring s EmptyString) as [[key s1]|e] eqn:Ek; [|discriminate].
  apply (scanstring_consumes (String.length s)) in Ek; [|lia].
  pose proof (skip_ws_length s1) as L1.
  destruct (skip_ws s1) as [|c s2]; [discriminate|]. simpl in L1.
  case_char c; try discriminate.
  destruct (scan (skip_ws s2)) as [[value s3]|e] eqn:E; [|discriminate].
  apply Hc in E. pose proof (skip_ws_length s2) as L2.
  pose proof (skip_ws_length s3) as L3.
  destruct (skip_ws s3) as [|c s4]; [discriminate|]. simpl in L3.
  case_char c; try discriminate.
  - intros [= _ <-]. lia.
  - pose proof (skip_ws_length s4) as L4.
    destruct (skip_ws s4) as [|q s5]; [discriminate|]. simpl in L4.
    destruct (Ascii.eqb q dquote); [|discriminate].
    intros H. apply IH in H. lia.
Qed.

Lemma JSONObject_consumes scan :
  consuming scan ->
  forall s v r, JSONObject scan s = Ok (v, r) -> String.length r < String.length s.
Proof.
  intros Hc s v r. unfold JSONObject. pose proof (skip_ws_length s) as L.
  destruct (skip_ws s) as [|c s1]; [discriminate|]. simpl in L.
  destruct (Ascii.eqb c "}"); [intros [= _ <-]; lia|].
  destruct (Ascii.eqb c dquote); [|discriminate].
  intros H. apply (object_items_consumes scan Hc) in H. lia.
Qed.

(** [scan_once] takes at least one character for the value it returns. *)
Lemma scan_once_consumes (constants : bool) (depth : nat) :
  consuming (scan_once constants depth).
Proof.
  induction depth as [|d IH]; intros s v r; rewrite scan_once_eq;
    (destruct s as [|c s]; [discriminate|]);
    (destruct (Ascii.eqb c dquote);
      [destruct (scanstring s EmptyString) as [[str r']|e] eqn:E; [|discriminate];
       apply (scanstring_consumes (String.length s)) in E; [|lia];
       intros [= _ <-]; simpl; lia|]);
    (destruct (Ascii.eqb c "{");
      [first [discriminate
             | intros H; apply (JSONObject_consumes _ IH) in H; simpl; lia]|]);
    (destruct (Ascii.eqb c "[");
      [first [discriminate
             | intros H; apply (JSONArray_consumes _ IH) in H; simpl; lia]|]);
    destruct constants; cbn [andb];
    repeat lazymatch goal with
    | |- (if startswith ?p ?t then Ok (_, drop_prefix ?n ?t) else _) = _ -> _ =>
        let E := fresh "E" in
        destruct (startswith p t) eqn:E;
        [apply startswith_length in E; intros [= _ <-];
         pose proof (drop_prefix_length n t); simpl in *; lia
        |clear E]
    end;
    exact (number_or_fail_consumes _ v r).
Qed.

(** On a text shorter than the fuel, the loop over the items of an array
    does not depend on the fuel: the fuel is never what ends it. *)
Lemma array_items_fuel scan :
  consuming scan ->
  forall fuel1 fuel2 s acc,
    String.length s < fuel1 -> String.length s < fuel2 ->
    array_items scan fuel1 s acc = array_items scan fuel2 s acc.
Proof.
  intros Hc. induction fuel1 as [|fuel1 IH]; intros fuel2 s acc H1 H2; [lia|].
  destruct fuel2 as [|fuel2]; [lia|]. simpl.
  destruct (scan s) as [[v s1]|e] eqn:E; [|reflexivity].
  apply Hc in E. pose proof (skip_ws_length s1) as L1.
  destruct (skip_ws s1) as [|c s2]; [reflexivity|]. simpl in L1.
  case_char c; try reflexivity.
  pose proof (skip_ws_length s2). apply IH; lia.
Qed.

(** The same for the members of an object. *)
Lemma object_items_fuel scan :
  consuming scan ->
  forall fuel1 fuel2 s acc,
    String.length s < fuel1 -> String.length s < fuel2 ->
    object_items scan fuel1 s acc = object_items scan fuel2 s acc.
Proof.
  intros Hc. induction fuel1 as [|fuel1 IH]; intros fuel2 s acc H1 H2; [lia|].
  destruct fuel2 as [|fuel2]; [lia|]. simpl.
  destruct (scanstring s EmptyString) as [[key s1]|e] eqn:Ek; [|reflexivity].
  apply (scanstring_consumes (String.length s)) in Ek; [|lia].
  pose proof (skip_ws_length s1) as L1.
  destruct (skip_ws s1) as [|c s2]; [reflexivity|]. simpl in L1.
  case_char c; try reflexivity.
  destruct (scan (skip_ws s2)) as [[value s3]|e] eqn:E; [|reflexivity].
  apply Hc in E. pose proof (skip_ws_length s2) as L2.
  pose proof (skip_ws_length s3) as L3.
  destruct (skip_ws s3) as [|c s4]; [reflexivity|]. simpl in L3.
  case_char c; try reflexivity.
  pose proof (skip_ws_length s4) as L4.
  destruct (skip_ws s4) as [|q s5]; [reflexivity|]. simpl in L4.
  destruct (Ascii.eqb q dquote); [|reflexivity].
  apply IH; lia.
Qed.

End JsonFuel.

Section JsonRaises.
Import PyStr PyFloat Json.

Lemma scanstring_raises (n : nat) : forall s acc e,
  String.length s <= n -> scanstring s acc = Raise e -> decoder_exn e.
Proof.
  unfold decoder_exn.
  induction n as [|n IH]; intros s acc e Hn.
  - destruct s; [intros [= <-]; auto|simpl in Hn; lia].
  - destruct s as [|c s1]; [intros [= <-]; auto|]. simpl in Hn.
    cbn [scanstring].
    destruct (Ascii.eqb c dquote); [discriminate|].
    destruct (Ascii.eqb c "\").
    + destruct s1 as [|x s2]; [intros [= <-]; auto|]. simpl in Hn.
      destruct (Ascii.eqb x "u").
      * destruct s2 as [|h1 [|h2 [|h3 [|h4 s3]]]]; try (intros [= <-]; auto).
        destruct (hex4 h1 h2 h3 h4) as [uni|]; [|intros [= <-]; auto].
        destruct (uni <? 256)%N; [|intros [= <-]; auto].
        apply IH. simpl in *. lia.
      * destruct (backslash x); [|intros [= <-]; auto].
        apply IH. lia.
    + destruct (code c <? 32)%N; [intros [= <-]; auto|].
      apply IH. lia.
Qed.

Lemma number_or_fail_raises (s : string) (e : exn) :
  number_or_fail s = Raise e -> decoder_exn e.
Proof.
  unfold number_or_fail, decoder_exn.
  destruct (match_number s) as [[[v|e'] r]|] eqn:E; try discriminate.
  - unfold match_number in E.
    destruct (match s with String "-" r0 => ("-", r0) | _ => (EmptyString, s) end)
      as [sign s0].
    destruct (match_integer s0) as [[ip s1]|]; [|discriminate].
    destruct (match_frac s1) as [frac s2]. destruct (match_exp s2) as [ex s3].
    destruct frac, ex;
      try match type of E with context [py_float ?t] => destruct (py_float t) end;
      try match type of E with
          | context [py_int ?t ?d] =>
              unfold py_int in E;
              destruct (Z.of_nat (String.length d) <=? PyRepr.max_str_digits)%Z
          end;
      try discriminate; injection E as <- _; intros [= <-]; auto.
  - intros [= <-]. auto.
Qed.

Lemma array_items_raises scan :
  (forall s e, scan s = Raise e -> decoder_exn e) ->
  forall fuel s acc e, array_items scan fuel s acc = Raise e -> decoder_exn e.
Proof.
  intros Hs. induction fuel as [|fuel IH]; intros s acc e; simpl.
  { intros [= <-]. left. reflexivity. }
  destruct (scan s) as [[v s1]|e'] eqn:E; [|intros [= <-]; eauto].
  destruct (skip_ws s1) as [|c s2]; [intros [= <-]; left; reflexivity|].
  case_char c;
    first [discriminate | apply IH | intros [= <-]; left; reflexivity].
Qed.

Lemma JSONArray_raises scan :
  (forall s e, scan s = Raise e -> decoder_exn e) ->
  forall s e, JSONArray scan s = Raise e -> decoder_exn e.
Proof.
  intros Hs s e. unfold JSONArray.
  destruct (skip_ws s) as [|c s1]; [now apply array_items_raises|].
  case_char c;
    first [discriminate | now apply array_items_raises].
Qed.

Lemma object_items_raises scan :
  (forall s e, scan s = Raise e -> decoder_exn e) ->
  forall fuel s acc e, object_items scan fuel s acc = Raise e -> decoder_exn e.
Proof.
  intros Hs. induction fuel as [|fuel IH]; intros s acc e; simpl.
  { intros [= <-]. left. reflexivity. }
  destruct (scanstring s EmptyString) as [[key s1]|e'] eqn:Ek;
    [|intros [= <-]; now apply (scanstring_raises (String.length s)) in Ek].
  destruct (skip_ws s1) as [|c s2]; [intros [= <-]; left; reflexivity|].
  case_char c;
    try (intros [= <-]; left; reflexivity).
  destruct (scan (skip_ws s2)) as [[value s3]|e'] eqn:E; [|intros [= <-]; eauto].
  destruct (skip_ws s3) as [|c s4]; [intros [= <-]; left; reflexivity|].
  case_char c;
    try (intros [= <-]; left; reflexivity); try discriminate.
  destruct (skip_ws s4) as [|q s5]; [intros [= <-]; left; reflexivity|].
  destruct (Ascii.eqb q dquote); [apply IH|intros [= <-]; left; reflexivity].
Qed.

Lemma JSONObject_raises scan :
  (forall s e, scan s = Raise e -> decoder_exn e) ->
  forall s e, JSONObject scan s = Raise e -> decoder_exn e.
Proof.
  intros Hs s e. unfold JSONObject.
  destruct (skip_ws s) as [|c s1]; [intros [= <-]; left; reflexivity|].
  destruct (Ascii.eqb c "}"); [discriminate|].
  destruct (Ascii.eqb c dquote); [|intros [= <-]; left; reflexivity].
  now apply object_items_raises.
Qed.

Lemma scan_once_raises (constants : bool) (depth : nat) :
  forall s e, scan_once constants depth s = Raise e -> decoder_exn e.
Proof.
  induction depth as [|d IH]; intros s e; rewrite scan_once_eq;
    (destruct s as [|c s]; [intros [= <-]; left; reflexivity|]);
    (destruct (Ascii.eqb c dquote);
      [destruct (scanstring s EmptyString) as [[str r']|e'] eqn:E; [discriminate|];
       intros [= <-]; now apply (scanstring_raises (String.length s)) in E|]);
    (destruct (Ascii.eqb c "{");
      [first [intros [= <-]; right; left; reflexivity
             | now apply JSONObject_raises]|]);
    (destruct (Ascii.eqb c "[");
      [first [intros [= <-]; right; left; reflexivity
             | now apply JSONArray_raises]|]);
    destruct constants; cbn [andb];
    repeat lazymatch goal with
    | |- (if startswith ?p ?t then _ else _) = _ -> _ =>
        destruct (startswith p t); [discriminate|]
    end;
    apply number_or_fail_raises.
Qed.

(** [json.loads] raises nothing but the decoder's own exceptions. *)
Lemma loads_raises (depth : nat) (s : string) (e : exn) :
  loads depth s = Raise e -> decoder_exn e.
Proof.
  unfold loads, decode.
  destruct (scan_once true depth (skip_ws s)) as [[v r]|e'] eqn:E.
  - destruct (skip_ws r); [discriminate|]. intros [= <-]. left. reflexivity.
  - intros [= <-]. now apply scan_once_raises in E.
Qed.

End JsonRaises.

(** ** [parse_llm_response] *)

Section ParseFacts.
Import PyStr Evaluator.

Lemma startswith_app (p q s : string) :
  startswith (p +:+ q) s
  = startswith p s && startswith q (drop_prefix (String.length p) s).
Proof.
  revert s. induction p as [|a p IH]; intros s; simpl; [reflexivity|].
  destruct s as [|b s]; [reflexivity|].
  rewrite IH. now rewrite andb_assoc.
Qed.

End ParseFacts.

(** ** Per-turn scoring *)

(** C10, as stated, fails: the reply [{"error": "x"}] parses, has no
    [answer] field, and is counted as an error, not scored, although the
    gold answer ["0"] is within the tolerances of 0.0. *)
Lemma error_field_not_scored :
  Evaluator.parse_llm_response 1 (PyStr.quoted "{'error': 'x'}")
  = Ok (PyDict [("error", PyStr "x")])
  /\ PyDictOps.dict_get "answer" [("error", PyStr "x")] = None
  /\ Evaluator.score_turn default_config (PyDict [("error", PyStr "x")]) "0"
       {| Evaluator.dialogue_correct := 0; Evaluator.dialogue_errors := 0 |} []
     = (Ok {| Evaluator.dialogue_correct := 0; Evaluator.dialogue_errors := 1 |}, [])
  /\ fst (Evaluator.answers_match (PyStr EmptyString) (PyStr "0")
            (relative_tolerance default_config) (absolute_tolerance default_config) [])
     = Ok true.
Proof. repeat split; vm_compute; reflexivity. Qed.

(** C10, amended: in the scoring loop, a response dictionary with neither
    an [error] nor an [answer] field is scored with the prediction [""],
    which [normalize_answer] turns into 0.0 (printing a warning); the turn
    adds one to the correct count exactly when the normalized gold answer
    is within the configured tolerances of 0.0, and leaves the counts as
    they are otherwise. *)
Theorem missing_answer_scored_as_zero (config : Config)
    (d : PyDictOps.dict) (gold : string) (t : Evaluator.tally)
    (out : Effects.stdout) :
  PyDictOps.dict_contains "error" d = false ->
  PyDictOps.dict_get "answer" d = None ->
  let out0 := out ++ ["Warning: Could not convert ''"] in
  exists (gold_num : float) (out' : Effects.stdout),
    Evaluator.get_answer (PyDict d) = Ok (PyStr EmptyString)
    /\ Evaluator.normalize_answer (PyStr EmptyString) out = (Ok PyFloat.zero, out0)
    /\ Evaluator.normalize_answer (PyStr gold) out0 = (Ok gold_num, out')
    /\ Evaluator.score_turn config (PyDict d) gold t out
       = (Ok (if Evaluator.within_tolerance (relative_tolerance config)
                   (absolute_tolerance config) PyFloat.zero gold_num
              then {| Evaluator.dialogue_correct := Evaluator.dialogue_correct t + 1;
                      Evaluator.dialogue_errors := Evaluator.dialogue_errors t |}
              else t),
          out').
Proof.
  intros Herr Hans out0.
  destruct (normalize_answer_returns (PyStr gold) out0 eq_refl) as (gold_num & out' & Hg).
  exists gold_num, out'.
  assert (Hget : Evaluator.get_answer (PyDict d) = Ok (PyStr EmptyString)).
  { unfold Evaluator.get_answer. now rewrite Hans. }
  assert (Hn : Evaluator.normalize_answer (PyStr EmptyString) out = (Ok PyFloat.zero, out0)).
  { reflexivity. }
  repeat split; try assumption.
  unfold Evaluator.score_turn, Effects.bind, Effects.lift. simpl.
  rewrite Herr, Hans.
  rewrite (answers_match_unfold _ _ _ _ _ _ _ _ _ Hn Hg).
  now destruct (Evaluator.within_tolerance _ _ _ _).
Qed.

Lemma missing_answer_scored_as_zero_witness :
  exists (gold_num : float) (out' : Effects.stdout),
    Evaluator.get_answer (PyDict [("reasoning", PyStr "none")]) = Ok (PyStr EmptyString)
    /\ Evaluator.normalize_answer (PyStr EmptyString) []
       = (Ok PyFloat.zero, [] ++ ["Warning: Could not convert ''"])
    /\ Evaluator.normalize_answer (PyStr "0.00005") ([] ++ ["Warning: Could not convert ''"])
       = (Ok gold_num, out')
    /\ Evaluator.score_turn default_config (PyDict [("reasoning", PyStr "none")])
         "0.00005" {| Evaluator.dialogue_correct := 0; Evaluator.dialogue_errors := 0 |} []
       = (Ok (if Evaluator.within_tolerance (relative_tolerance default_config)
                   (absolute_tolerance default_config) PyFloat.zero gold_num
              then {| Evaluator.dialogue_correct := 0 + 1;
                      Evaluator.dialogue_errors := 0 |}
              else {| Evaluator.dialogue_correct := 0; Evaluator.dialogue_errors := 0 |}),
          out').
Proof.
  apply (missing_answer_scored_as_zero default_config [("reasoning", PyStr "none")]
           "0.00005" {| Evaluator.dialogue_correct := 0; Evaluator.dialogue_errors := 0 |} []);
    reflexivity.
Defined.

(** ** [extract_document_context] and [extract_questions_and_answers] *)

Section ProcessorFacts.
Import PyStr Dataset Processor.

Lemma string_app_nil_r (s : string) : s +:+ "" = s.
Proof.
  induction s as [|c s IH]; [reflexivity|].
  change (String c (s +:+ "") = String c s). rewrite IH. reflexivity.
Qed.

Lemma string_app_cons c (a b : string) : String c a +:+ b = String c (a +:+ b).
Proof. reflexivity. Qed.

Lemma string_app_assoc' (a b c : string) : (a +:+ b) +:+ c = a +:+ (b +:+ c).
Proof.
  induction a as [|x a IH]; [reflexivity|].
  rewrite !string_app_cons, IH. reflexivity.
Qed.

Lemma rev_onto_app_acc s acc : rev_onto s acc = rev_onto s "" +:+ acc.
Proof.
  revert acc; induction s as [|c s IH]; intros acc; simpl; [reflexivity|].
  rewrite IH, (IH (String c "")), string_app_assoc'. reflexivity.
Qed.

Lemma str_reverse_cons c s : reverse (String c s) = reverse s +:+ String c "".
Proof. unfold reverse; simpl. apply rev_onto_app_acc. Qed.

Lemma str_reverse_app a b : reverse (a +:+ b) = reverse b +:+ reverse a.
Proof.
  induction a as [|c a IH].
  - change (reverse "") with "". rewrite string_app_nil_r. reflexivity.
  - rewrite string_app_cons, !str_reverse_cons, IH, string_app_assoc'. reflexivity.
Qed.

Lemma str_reverse_involutive s : reverse (reverse s) = s.
Proof.
  induction s as [|c s IH]; [reflexivity|].
  rewrite str_reverse_cons, str_reverse_app, IH. reflexivity.
Qed.

Lemma all_chars_reverse f s : all_chars f (reverse s) = all_chars f s.
Proof.
  assert (Happ : forall a b, all_chars f (a +:+ b) = all_chars f a && all_chars f b).
  { induction a as [|c a IH]; intros b; simpl; [reflexivity|].
    rewrite IH, andb_assoc. reflexivity. }
  induction s as [|c s IH]; [reflexivity|].
  rewrite str_reverse_cons, Happ, IH. simpl. rewrite andb_true_r, andb_comm. reflexivity.
Qed.

Lemma lstrip_app a b :
  lstrip (a +:+ b) = if all_chars is_space a then lstrip b else lstrip a +:+ b.
Proof.
  induction a as [|c a IH]; simpl; [reflexivity|].
  destruct (is_space c); simpl; [exact IH|reflexivity].
Qed.

Lemma rstrip_app a b :
  rstrip (a +:+ b) = if all_chars is_space b then rstrip a else a +:+ rstrip b.
Proof.
  unfold rstrip. rewrite str_reverse_app, lstrip_app, all_chars_reverse.
  destruct (all_chars is_space b); [reflexivity|].
  rewrite str_reverse_app, str_reverse_involutive. reflexivity.
Qed.

Lemma rstrip_keeps s c : is_space c = false -> rstrip (s +:+ String c "") = s +:+ String c "".
Proof.
  intros Hc. rewrite rstrip_app. cbn [all_chars]. rewrite Hc. cbn [andb].
  unfold rstrip. change (reverse (String c "")) with (String c "").
  cbn [lstrip]. rewrite Hc. reflexivity.
Qed.

Lemma lstrip_all_space s : all_chars is_space s = true -> lstrip s = "".
Proof.
  induction s as [|c s IH]; simpl; [reflexivity|].
  destruct (is_space c); simpl; [exact IH|discriminate].
Qed.

Lemma rstrip_all_space s : all_chars is_space s = true -> rstrip s = "".
Proof.
  intros H. unfold rstrip. rewrite lstrip_all_space; [reflexivity|].
  rewrite all_chars_reverse. exact H.
Qed.

Lemma context_template_head pre table post :
  context_template pre table post = context_head pre table +:+ (LF +:+ indent +:+ post).
Proof.
  unfold context_template, context_head.
  repeat rewrite string_app_assoc'. reflexivity.
Qed.

Lemma context_head_last pre table :
  exists s, context_head pre table = s +:+ ":".
Proof.
  unfold context_head.
  exists ("Text before table:" +:+ LF +:+ indent +:+ pre +:+ LF +:+ LF
  +:+ indent +:+ "HTML Table:" +:+ LF +:+ indent +:+ table +:+ LF +:+ LF
  +:+ indent +:+ "Text after table").
  repeat rewrite string_app_assoc'. reflexivity.
Qed.

Lemma all_space_tail post :
  all_chars is_space (LF +:+ indent +:+ post) = all_chars is_space post.
Proof. reflexivity. Qed.

Lemma rstrip_tail post :
  all_chars is_space post = false ->
  rstrip (LF +:+ indent +:+ post) = LF +:+ indent +:+ rstrip post.
Proof.
  intros H. rewrite <- string_app_assoc'. rewrite rstrip_app, H, string_app_assoc'. reflexivity.
Qed.

(** X1: the text [extract_document_context] returns.  The text before
    the table and the table stand in the template as they are, a missing
    text counting as empty; [strip] removes nothing at the front, and at the
    end the white space that ends the text after the table: when that text
    is missing, empty or all white space, the result ends with the label
    ["Text after table:"]. *)
Theorem extract_document_context_spec (turn_data : Turn) :
  let a := annotation turn_data in
  let pre := default "" (amt_pre_text a) in
  let post := default "" (amt_post_text a) in
  extract_document_context turn_data =
    if all_chars is_space post then context_head pre (amt_table a)
    else context_head pre (amt_table a) +:+ LF +:+ indent +:+ rstrip post.
Proof.
  intros a pre post. unfold extract_document_context. fold a. fold pre. fold post.
  unfold strip. rewrite context_template_head, rstrip_app, all_space_tail.
  destruct (context_head_last pre (amt_table a)) as [s Hs].
  destruct (all_chars is_space post) eqn:E.
  - rewrite Hs, rstrip_keeps by reflexivity. rewrite <- Hs. reflexivity.
  - rewrite rstrip_tail by exact E. reflexivity.
Qed.

(** Indexing *)

Lemma py_getitem_Some {A} (l : list A) i :
  in_index_range l i <-> exists x, py_getitem l i = Some x.
Proof.
  unfold in_index_range, py_getitem.
  destruct (Z.leb_spec 0 i).
  - split.
    + intros [_ H2]. destruct (nth_error l (Z.to_nat i)) eqn:E; [eauto|].
      apply nth_error_None in E. lia.
    + intros [x Hx]. assert (Z.to_nat i < length l)%nat.
      { apply nth_error_Some. congruence. } lia.
  - destruct (Z.leb_spec (- Z.of_nat (length l)) i).
    + split.
      * intros _. destruct (nth_error l (Z.to_nat (Z.of_nat (length l) + i))) eqn:E; [eauto|].
        apply nth_error_None in E. lia.
      * intros _. lia.
    + split; [lia|]. intros [x Hx]. discriminate.
Qed.

(** A turn has a gold answer exactly when [str()] takes its [exe_ans]. *)
Lemma gold_of_answerable (t : Turn) : answerable t <-> exists g, gold_of t = Ok g.
Proof.
  unfold answerable, gold_of. split.
  - apply py_str_printable.
  - intros [g Hg]. destruct (PyRepr.printable (exe_ans (annotation t))) eqn:E; [reflexivity|].
    rewrite (py_str_unprintable _ E) in Hg. discriminate.
Qed.

Lemma gold_of_raises (t : Turn) (e : exn) : gold_of t = Raise e -> e = ValueError.
Proof.
  unfold gold_of. destruct (exe_ans (annotation t)) eqn:E; try discriminate;
    apply py_repr_spec.
Qed.

(** The loop when it returns: one question and one answer more for each
    turn. *)
Lemma questions_and_answers_returned turns : forall qs gs qs' gs',
  questions_and_answers turns qs gs = Returned (qs', gs') ->
  exists nq ng,
    qs' = qs ++ nq /\ gs' = gs ++ ng
    /\ Forall2 (fun t q => question_of t = Some q) turns nq
    /\ Forall2 (fun t g => gold_of t = Ok g) turns ng.
Proof.
  induction turns as [|t turns IH]; intros qs gs qs' gs'.
  - intros [= <- <-]. exists [], []. rewrite !app_nil_r. repeat split; constructor.
  - cbn [questions_and_answers].
    change (py_getitem (dialogue_break (annotation t)) (turn_ind (annotation t)))
      with (question_of t).
    change (PyRepr.py_str (exe_ans (annotation t))) with (gold_of t).
    destruct (question_of t) as [q|] eqn:Eq; [|discriminate].
    destruct (gold_of t) as [g|e] eqn:Eg; [|discriminate].
    intros H. apply IH in H as (nq & ng & -> & -> & Hq & Hg).
    exists (q :: nq), (g :: ng). rewrite <- !app_assoc.
    repeat split; try reflexivity; constructor; assumption.
Qed.

(** The loop when it raises: at the first turn without a question at its
    index, or else without a string form of its answer. *)
Lemma questions_and_answers_failed turns : forall qs gs e,
  questions_and_answers turns qs gs = Failed e ->
  exists before t after,
    turns = before ++ t :: after
    /\ List.Forall indexed before /\ List.Forall answerable before
    /\ ((~ indexed t /\ e = IndexError)
        \/ (indexed t /\ ~ answerable t /\ e = Builtin ValueError)).
Proof.
  induction turns as [|t turns IH]; intros qs gs e; [discriminate|].
  cbn [questions_and_answers].
  change (py_getitem (dialogue_break (annotation t)) (turn_ind (annotation t)))
    with (question_of t).
  change (PyRepr.py_str (exe_ans (annotation t))) with (gold_of t).
  destruct (question_of t) as [q|] eqn:Eq.
  - assert (Hi : indexed t) by (apply py_getitem_Some; exists q; exact Eq).
    destruct (gold_of t) as [g|e'] eqn:Eg.
    + intros H. apply IH in H as (before & t' & after & -> & Hb1 & Hb2 & Ht).
      exists (t :: before), t', after. split; [reflexivity|].
      split; [constructor; assumption|].
      split; [constructor; [apply gold_of_answerable; eauto|assumption]|exact Ht].
    + intros [= <-]. exists [], t, turns. split; [reflexivity|].
      split; [constructor|]. split; [constructor|]. right.
      split; [exact Hi|]. split.
      * intros Ha. apply gold_of_answerable in Ha as [g Hg]. congruence.
      * rewrite (gold_of_raises t e' Eg). reflexivity.
  - intros [= <-]. exists [], t, turns. split; [reflexivity|].
    split; [constructor|]. split; [constructor|]. left. split; [|reflexivity].
    intros Hi. apply py_getitem_Some in Hi as [q Hq].
    unfold question_of in Eq. congruence.
Qed.

(** The loop returns on turns that have a question and an answer. *)
Lemma questions_and_answers_total turns : forall qs gs,
  List.Forall indexed turns -> List.Forall answerable turns ->
  exists qs' gs', questions_and_answers turns qs gs = Returned (qs', gs').
Proof.
  intros qs gs Hi Ha.
  destruct (questions_and_answers turns qs gs) as [[qs' gs']|e] eqn:E; [eauto|].
  exfalso.
  apply questions_and_answers_failed in E
    as (before & t & after & -> & _ & _ & [[Hn _]|(_ & Hn & _)]);
    apply Hn.
  - apply Forall_app in Hi as [_ Hi]. apply Forall_cons in Hi as [Hi _]. exact Hi.
  - apply Forall_app in Ha as [_ Ha]. apply Forall_cons in Ha as [Ha _]. exact Ha.
Qed.

(** X2: [extract_questions_and_answers] reads, turn by turn, the question
    at [turn_ind] in [dialogue_break], a negative index counting from the
    end, and then [str] of [exe_ans].  When every turn has a question at
    its index and an answer that [str] takes, it returns one question and
    one gold answer for each turn, in the order of the turns.  Otherwise it
    raises at the first turn that lacks one of the two: [IndexError] when
    [turn_ind] is not an index of that turn's [dialogue_break], else the
    [ValueError] of [str], which an [int] of more than 4300 digits in the
    answer raises. *)
Theorem extract_questions_and_answers_spec (dialogue_turns : list Turn) :
  match extract_questions_and_answers dialogue_turns with
  | Returned (questions, gold_answers) =>
      List.Forall indexed dialogue_turns /\ List.Forall answerable dialogue_turns
      /\ length questions = length dialogue_turns
      /\ Forall2 (fun t q => question_of t = Some q) dialogue_turns questions
      /\ Forall2 (fun t g => gold_of t = Ok g) dialogue_turns gold_answers
  | Failed e =>
      exists before t after,
        dialogue_turns = before ++ t :: after
        /\ List.Forall indexed before /\ List.Forall answerable before
        /\ ((~ indexed t /\ e = IndexError)
            \/ (indexed t /\ ~ answerable t /\ e = Builtin ValueError))
  end.
Proof.
  unfold extract_questions_and_answers.
  destruct (questions_and_answers dialogue_turns [] []) as [[qs gs]|e] eqn:E.
  - apply questions_and_answers_returned in E as (nq & ng & -> & -> & Hq & Hg).
    cbn [app].
    split; [|split; [|split; [|split]]].
    + apply List.Forall_forall. intros t Hin.
      apply list_elem_of_In, list_elem_of_lookup in Hin as [i Hi].
      destruct (Forall2_lookup_l _ _ _ _ _ Hq Hi) as (q & _ & Hq').
      apply py_getitem_Some. exists q. exact Hq'.
    + apply List.Forall_forall. intros t Hin.
      apply list_elem_of_In, list_elem_of_lookup in Hin as [i Hi].
      destruct (Forall2_lookup_l _ _ _ _ _ Hg Hi) as (g & _ & Hg').
      apply gold_of_answerable. exists g. exact Hg'.
    + symmetry. exact (Forall2_length _ _ _ Hq).
    + exact Hq.
    + exact Hg.
  - exact (questions_and_answers_failed _ _ _ _ E).
Qed.

End ProcessorFacts.

(** ** [group_by_dialogue] *)

Section GroupingFacts.
Import PyStr Dataset Processor.

Lemma group_get_append key k item d :
  group_get k (group_append key item d) =
    if String.eqb key k then Some (default [] (group_get key d) ++ [item])
    else group_get k d.
Proof.
  induction d as [|[k0 items] d IH]; simpl.
  - destruct (String.eqb_spec key k); reflexivity.
  - destruct (String.eqb_spec k0 key) as [->|Hne]; simpl.
    + destruct (String.eqb_spec key k); reflexivity.
    + destruct (String.eqb_spec k0 k) as [->|Hne'].
      * destruct (String.eqb_spec key k); [congruence|reflexivity].
      * exact IH.
Qed.

Lemma group_get_collect k data d :
  group_get k (collect data d) =
    match group_get k d, members k data with
    | None, [] => None
    | o, l => Some (default [] o ++ l)
    end.
Proof.
  revert d; induction data as [|x data IH]; intros d; simpl.
  - destruct (group_get k d); [rewrite app_nil_r|]; reflexivity.
  - unfold collect in *; simpl. rewrite IH, group_get_append.
    destruct (String.eqb_spec (dialogue_of x) k) as [->|Hne].
    + destruct (group_get k d); simpl; rewrite <- ?app_assoc; simpl;
        destruct (members k data); reflexivity.
    + reflexivity.
Qed.

Lemma keys_group_append key item d :
  List.map fst (group_append key item d) =
    if existsb (String.eqb key) (List.map fst d) then List.map fst d
    else List.map fst d ++ [key].
Proof.
  induction d as [|[k0 items] d IH]; simpl; [reflexivity|].
  rewrite (String.eqb_sym key k0).
  destruct (String.eqb k0 key); simpl; [reflexivity|].
  rewrite IH. destruct (existsb _ _); reflexivity.
Qed.

Lemma keys_collect data d :
  List.map fst (collect data d) =
    fold_left (fun acc k => if existsb (String.eqb k) acc then acc else acc ++ [k])
      (List.map dialogue_of data) (List.map fst d).
Proof.
  revert d; induction data as [|x data IH]; intros d; simpl; [reflexivity|].
  unfold collect in *; simpl. rewrite IH, keys_group_append. reflexivity.
Qed.

Lemma existsb_eqb_In k l : existsb (String.eqb k) l = true <-> In k l.
Proof.
  rewrite existsb_exists. split.
  - intros (x & Hx & He). apply String.eqb_eq in He. congruence.
  - intros H. exists k. split; [exact H | apply String.eqb_refl].
Qed.

Lemma first_seen_from_NoDup keys acc :
  NoDup acc ->
  NoDup (fold_left (fun acc k => if existsb (String.eqb k) acc then acc else acc ++ [k]) keys acc).
Proof.
  revert acc; induction keys as [|k keys IH]; intros acc Hnd; simpl; [exact Hnd|].
  apply IH. destruct (existsb (String.eqb k) acc) eqn:E; [exact Hnd|].
  apply NoDup_app. split; [exact Hnd|]. split.
  - intros x Hx Hx'. apply list_elem_of_singleton in Hx'. subst x.
    apply list_elem_of_In in Hx. apply existsb_eqb_In in Hx. congruence.
  - apply NoDup_singleton.
Qed.

Lemma first_seen_from_In keys acc k :
  In k (fold_left (fun acc k => if existsb (String.eqb k) acc then acc else acc ++ [k]) keys acc)
  <-> In k acc \/ In k keys.
Proof.
  revert acc; induction keys as [|k0 keys IH]; intros acc; simpl; [tauto|].
  rewrite IH. destruct (existsb (String.eqb k0) acc) eqn:E.
  - apply existsb_eqb_In in E. split; [tauto|]. intros [H|[<-|H]]; tauto.
  - rewrite in_app_iff; simpl. tauto.
Qed.

Lemma group_get_In k items d :
  NoDup (List.map fst d) ->
  (In (k, items) d <-> group_get k d = Some items).
Proof.
  induction d as [|[k0 items0] d IH]; simpl; intros Hnd.
  - split; [tauto|discriminate].
  - apply NoDup_cons in Hnd as [Hnotin Hnd].
    destruct (String.eqb_spec k0 k) as [->|Hne].
    + split.
      * intros [[= ->]|Hin]; [reflexivity|].
        exfalso. apply Hnotin. apply list_elem_of_In.
        change k with (fst (k, items)). apply in_map. exact Hin.
      * intros [= ->]. left; reflexivity.
    + rewrite <- (IH Hnd). split; [intros [[= ? ?]|H]; [congruence|exact H] | tauto].
Qed.

Lemma group_get_map k (f : list Turn -> list Turn) d :
  group_get k (List.map (fun kv => (fst kv, f (snd kv))) d) = f <$> group_get k d.
Proof.
  induction d as [|[k0 items] d IH]; simpl; [reflexivity|].
  destruct (String.eqb k0 k); [reflexivity|exact IH].
Qed.

Lemma keys_group_by_dialogue data :
  List.map fst (group_by_dialogue data) = first_seen (List.map dialogue_of data).
Proof.
  unfold group_by_dialogue. rewrite List.map_map. simpl.
  exact (keys_collect data []).
Qed.

Lemma keys_NoDup data : NoDup (List.map fst (group_by_dialogue data)).
Proof.
  rewrite keys_group_by_dialogue. apply first_seen_from_NoDup. apply NoDup_nil_2.
Qed.

Lemma members_nil k data :
  members k data = [] <-> ~ In k (List.map dialogue_of data).
Proof.
  induction data as [|x data IH]; simpl; [tauto|].
  destruct (String.eqb_spec (dialogue_of x) k) as [->|Hne].
  - split; [discriminate|]. intros H; exfalso; apply H; left; reflexivity.
  - rewrite IH. split; [intros H [?|?]; [congruence|tauto] | tauto].
Qed.

Lemma group_get_group_by_dialogue k data :
  group_get k (group_by_dialogue data) =
    match members k data with
    | [] => None
    | l => Some (sort_by_turn l)
    end.
Proof.
  unfold group_by_dialogue. rewrite group_get_map, group_get_collect. simpl.
  destruct (members k data); reflexivity.
Qed.

(** Sorting *)

Lemma insert_sorted_perm x l : Permutation (x :: l) (insert_sorted x l).
Proof.
  induction l as [|y l IH]; simpl; [reflexivity|].
  destruct (sort_key x <=? sort_key y)%Z; [reflexivity|].
  rewrite perm_swap. apply perm_skip. exact IH.
Qed.

Lemma sort_by_turn_perm l : Permutation l (sort_by_turn l).
Proof.
  induction l as [|x l IH]; simpl; [reflexivity|].
  rewrite <- insert_sorted_perm. apply perm_skip. exact IH.
Qed.

Lemma insert_sorted_sorted x l :
  Sorted turn_le l -> Sorted turn_le (insert_sorted x l).
Proof.
  induction l as [|y l IH]; simpl; intros Hs.
  - repeat constructor.
  - destruct (Z.leb_spec (sort_key x) (sort_key y)).
    + constructor; [exact Hs|]. constructor. exact H.
    + apply Sorted_inv in Hs as [Hs Hhd]. constructor; [apply IH; exact Hs|].
      destruct l as [|z l]; simpl.
      * constructor. unfold turn_le. lia.
      * destruct (Z.leb_spec (sort_key x) (sort_key z)).
        -- constructor. unfold turn_le. lia.
        -- constructor. apply HdRel_inv in Hhd. exact Hhd.
Qed.

Lemma sort_by_turn_sorted l : Sorted turn_le (sort_by_turn l).
Proof.
  induction l as [|x l IH]; simpl; [constructor|].
  apply insert_sorted_sorted. exact IH.
Qed.

Lemma insert_sorted_with_key i x l :
  Sorted turn_le l ->
  with_key i (insert_sorted x l) = with_key i (x :: l).
Proof.
  induction l as [|y l IH]; simpl; intros Hs; [reflexivity|].
  destruct (Z.leb_spec (sort_key x) (sort_key y)); [reflexivity|].
  apply Sorted_inv in Hs as [Hs Hhd].
  unfold with_key in *. simpl in *. rewrite (IH Hs).
  destruct (Z.eqb_spec (sort_key x) i), (Z.eqb_spec (sort_key y) i); try reflexivity.
  lia.
Qed.

Lemma sort_by_turn_with_key i l :
  with_key i (sort_by_turn l) = with_key i l.
Proof.
  induction l as [|x l IH]; simpl; [reflexivity|].
  rewrite insert_sorted_with_key by apply sort_by_turn_sorted.
  unfold with_key in *; simpl. rewrite IH. reflexivity.
Qed.

Lemma turn_le_trans : Relations_1.Transitive turn_le.
Proof. intros x y z; unfold turn_le; lia. Qed.

Lemma with_key_head x l : with_key (sort_key x) (x :: l) = x :: with_key (sort_key x) l.
Proof. unfold with_key; simpl. rewrite Z.eqb_refl. reflexivity. Qed.

Lemma with_key_In i x l : In x (with_key i l) <-> In x l /\ sort_key x = i.
Proof. unfold with_key. rewrite filter_In, Z.eqb_eq. reflexivity. Qed.

Lemma sorted_head_le x l y :
  Sorted turn_le (x :: l) -> In y l -> (sort_key x <= sort_key y)%Z.
Proof.
  intros Hs Hin. apply Sorted_StronglySorted in Hs; [|exact turn_le_trans].
  apply StronglySorted_inv in Hs as [_ Hall].
  rewrite List.Forall_forall in Hall. exact (Hall y Hin).
Qed.

(** Two sorted lists with the same records, in the same order, under each
    key are equal: a stable sort has one result. *)
Lemma stable_sorted_unique l1 l2 :
  Sorted turn_le l1 -> Sorted turn_le l2 ->
  (forall i, with_key i l1 = with_key i l2) -> l1 = l2.
Proof.
  revert l2; induction l1 as [|x l1 IH]; intros l2 Hs1 Hs2 Heq.
  - destruct l2 as [|y l2]; [reflexivity|].
    specialize (Heq (sort_key y)). rewrite with_key_head in Heq. discriminate.
  - destruct l2 as [|y l2].
    { specialize (Heq (sort_key x)). rewrite with_key_head in Heq. discriminate. }
    assert (Hk : sort_key x = sort_key y).
    { destruct (Z.eq_dec (sort_key x) (sort_key y)) as [E|Hne]; [exact E|].
      assert (Hx : In x l2).
      { assert (H : In x (with_key (sort_key x) (y :: l2))).
        { rewrite <- Heq, with_key_head. left; reflexivity. }
        apply with_key_In in H as [[->|H] _]; [congruence|exact H]. }
      assert (Hy : In y l1).
      { assert (H : In y (with_key (sort_key y) (x :: l1))).
        { rewrite Heq, with_key_head. left; reflexivity. }
        apply with_key_In in H as [[->|H] _]; [congruence|exact H]. }
      pose proof (sorted_head_le _ _ _ Hs1 Hy).
      pose proof (sorted_head_le _ _ _ Hs2 Hx). lia. }
    assert (Hxy : x = y).
    { pose proof (Heq (sort_key x)) as H. rewrite with_key_head in H.
      rewrite Hk, with_key_head in H. congruence. }
    subst y. f_equal. apply IH.
    + apply Sorted_inv in Hs1. tauto.
    + apply Sorted_inv in Hs2. tauto.
    + intros i. specialize (Heq i). unfold with_key in *. simpl in Heq.
      destruct (sort_key x =? i)%Z; congruence.
Qed.

Lemma concat_group_append key item d :
  Permutation (concat (List.map snd (group_append key item d)))
    (item :: concat (List.map snd d)).
Proof.
  induction d as [|[k0 items] d IH]; simpl; [reflexivity|].
  destruct (String.eqb k0 key); simpl.
  - rewrite <- app_assoc. simpl. symmetry. apply Permutation_middle.
  - rewrite IH. symmetry. apply Permutation_middle.
Qed.

Lemma concat_collect data d :
  Permutation (concat (List.map snd (collect data d)))
    (concat (List.map snd d) ++ data).
Proof.
  revert d; induction data as [|x data IH]; intros d; simpl.
  - rewrite app_nil_r. reflexivity.
  - unfold collect in *; simpl. rewrite IH, concat_group_append.
    simpl. apply Permutation_middle.
Qed.

(** X3: the keys of the dictionary [group_by_dialogue] returns are the
    dialogue identifiers of the records, each once, in the order of their
    first record. *)
Theorem group_by_dialogue_keys (data : list Turn) :
  List.map fst (group_by_dialogue data) = first_seen (List.map dialogue_of data) /\
  NoDup (List.map fst (group_by_dialogue data)) /\
  forall k, In k (List.map fst (group_by_dialogue data)) <->
            exists item, In item data /\ dialogue_of item = k.
Proof.
  rewrite keys_group_by_dialogue. unfold first_seen. split; [reflexivity|]. split.
  - apply first_seen_from_NoDup. apply NoDup_nil_2.
  - intros k. rewrite first_seen_from_In, in_map_iff. simpl.
    split; [intros [[]|(x & ? & ?)]; eauto | intros (x & ? & ?); right; eauto].
Qed.

(** X4: the value [group_by_dialogue] gives to a key.  The key has a
    value when some record has that dialogue identifier, and the value is
    the one list that is sorted by [turn_ind] and holds, for each
    [turn_ind], the records of the dialogue with it in the order they have
    in the data: the sort is stable. *)
Theorem group_by_dialogue_groups (data : list Turn) (k : string) (items : list Turn) :
  In (k, items) (group_by_dialogue data) <->
  members k data <> [] /\ Sorted turn_le items /\
  forall i, with_key i items = with_key i (members k data).
Proof.
  rewrite group_get_In by apply keys_NoDup.
  rewrite group_get_group_by_dialogue.
  destruct (members k data) as [|x l] eqn:E.
  - split; [discriminate|]. intros [H _]. congruence.
  - split.
    + intros [= <-]. split; [discriminate|].
      split; [exact (sort_by_turn_sorted (x :: l))|].
      intros i. exact (sort_by_turn_with_key i (x :: l)).
    + intros (_ & Hs & Hst). f_equal. symmetry. apply stable_sorted_unique.
      * exact Hs.
      * exact (sort_by_turn_sorted (x :: l)).
      * intros i. rewrite Hst. symmetry. exact (sort_by_turn_with_key i (x :: l)).
Qed.

(** X5: [group_by_dialogue] loses and repeats no record: the groups
    together are a permutation of the data, and each record is in the group
    of its own dialogue identifier. *)
Theorem group_by_dialogue_partition (data : list Turn) :
  Permutation (concat (List.map snd (group_by_dialogue data))) data /\
  forall k items item,
    In (k, items) (group_by_dialogue data) -> In item items -> dialogue_of item = k.
Proof.
  split.
  - unfold group_by_dialogue. rewrite List.map_map. simpl.
    transitivity (concat (List.map snd (collect data []))).
    + induction (collect data []) as [|[k0 items] d IH]; simpl; [reflexivity|].
      rewrite IH, <- sort_by_turn_perm. reflexivity.
    + rewrite concat_collect. reflexivity.
  - intros k items item Hin Hitem.
    apply group_get_In in Hin; [|apply keys_NoDup].
    rewrite group_get_group_by_dialogue in Hin.
    destruct (members k data) as [|x l] eqn:E; [discriminate|].
    injection Hin as <-.
    apply (Permutation_in _ (Permutation_sym (sort_by_turn_perm (x :: l)))) in Hitem.
    rewrite <- E in Hitem. unfold members in Hitem.
    apply filter_In in Hitem as [_ H]. apply String.eqb_eq in H. exact H.
Qed.
End GroupingFacts.

(** ** [extract_dialogue_id], once more *)

Section IdFacts.
Import PyStr.

Lemma join_snoc (sep : string) (parts : list string) (x : string) :
  parts <> [] -> join sep (parts ++ [x]) = join sep parts +:+ sep +:+ x.
Proof.
  induction parts as [|p [|q r] IH]; intros Hne; [contradiction|reflexivity|].
  change (join sep ((p :: q :: r) ++ [x]))
    with (p +:+ sep +:+ join sep ((q :: r) ++ [x])).
  rewrite IH by discriminate.
  change (join sep (p :: q :: r)) with (p +:+ sep +:+ join sep (q :: r)).
  rewrite !string_app_assoc'. reflexivity.
Qed.

End IdFacts.

(** X6: what [extract_dialogue_id] removes.  Either it returns the
    identifier as it is; or the identifier is the result followed by ['_']
    and a run of digits; or the identifier is nothing but digits, and the
    result is the empty string. *)
Theorem extract_dialogue_id_removes (full_id : string) :
  DialogueProcessor.extract_dialogue_id full_id = full_id
  \/ exists d, PyStr.isdigit d = true
       /\ (full_id = DialogueProcessor.extract_dialogue_id full_id +:+ String "_" d
           \/ (full_id = d /\ DialogueProcessor.extract_dialogue_id full_id = "")).
Proof.
  unfold DialogueProcessor.extract_dialogue_id, DialogueProcessor.last_part,
    DialogueProcessor.but_last.
  destruct (split_last "_" full_id) as (parts & d & Hsplit).
  pose proof (join_split "_" full_id) as Hjoin.
  rewrite Hsplit in *. rewrite last_last, removelast_last.
  destruct (PyStr.isdigit d) eqn:Hd; [|left; reflexivity].
  right. exists d. split; [exact Hd|].
  destruct parts as [|p parts].
  - right. split; [symmetry; exact Hjoin|reflexivity].
  - left. rewrite join_snoc in Hjoin by discriminate.
    symmetry. exact Hjoin.
Qed.

(** X7: a record whose identifier is [base], ['_'] and a run of digits is
    put in the dialogue [base]: [group_by_dialogue] has a group with that
    key, and the record is in it. *)
Theorem numbered_turn_is_grouped (data : list Dataset.Turn) (item : Dataset.Turn)
    (base d : string) :
  In item data ->
  Dataset.turn_id item = base +:+ String "_" d ->
  PyStr.isdigit d = true ->
  exists items,
    In (base, items) (Processor.group_by_dialogue data) /\ In item items.
Proof.
  intros Hin Hid Hd.
  assert (Hkey : Processor.dialogue_of item = base).
  { unfold Processor.dialogue_of. rewrite Hid.
    exact (extract_dialogue_id_suffix base d Hd). }
  assert (Hmem : In item (Processor.members base data)).
  { unfold Processor.members. apply filter_In. split; [exact Hin|].
    rewrite Hkey. apply String.eqb_refl. }
  pose proof (group_get_group_by_dialogue base data) as Hget.
  destruct (Processor.members base data) as [|x l] eqn:E; [contradiction|].
  exists (Processor.sort_by_turn (x :: l)). split.
  - apply group_get_In; [apply keys_NoDup|exact Hget].
  - exact (Permutation_in _ (sort_by_turn_perm (x :: l)) Hmem).
Qed.

Lemma numbered_turn_is_grouped_witness :
  let t0 := {| Dataset.turn_id := "Single_JKHY/2009/page_28.pdf-3_0";
               Dataset.annotation :=
                 {| Dataset.turn_ind := 0; Dataset.dialogue_break := ["q0"; "q1"];
                    Dataset.exe_ans := PyFloat 1.5; Dataset.amt_table := "<table/>";
                    Dataset.amt_pre_text := None; Dataset.amt_post_text := None |} |} in
  exists items,
    In ("Single_JKHY/2009/page_28.pdf-3", items) (Processor.group_by_dialogue [t0])
    /\ In t0 items.
Proof.
  intros t0.
  apply (numbered_turn_is_grouped [t0] t0 "Single_JKHY/2009/page_28.pdf-3" "0").
  - left. reflexivity.
  - reflexivity.
  - reflexivity.
Defined.

(** ** [ConversationMemory], once more *)

Section MemoryViewFacts.
Import Memory Effects MemoryView.

Lemma appended_app (calls later : list call) :
  appended (calls ++ later)
  = fold_left (fun ms c => messages_after c ms) later (appended calls).
Proof. unfold appended. apply fold_left_app. Qed.

Lemma prompt_in_force_app p (calls later : list call) :
  prompt_in_force p (calls ++ later)
  = prompt_in_force (prompt_in_force p calls) later.
Proof. unfold prompt_in_force. apply fold_left_app. Qed.

Lemma reachable_history p h calls :
  history (run calls (__init__ p h))
  = Some (system_part (prompt_in_force p calls) ++ appended calls).
Proof.
  destruct (reachable_spec p h calls) as [Hm Hp].
  rewrite (history_spec _ _ Hm), Hp. reflexivity.
Qed.

Lemma reachable_size p h calls :
  size (run calls (__init__ p h)) = Some (length (appended calls)).
Proof.
  destruct (reachable_spec p h calls) as [Hm _].
  exact (size_spec _ _ Hm).
Qed.

Lemma messages_after_writes (calls : list call) ms :
  fold_left (fun ms c => messages_after c ms) (writes calls) ms
  = fold_left (fun ms c => messages_after c ms) calls ms.
Proof.
  revert ms; induction calls as [|c calls IH]; intros ms; [reflexivity|].
  destruct c; simpl; apply IH.
Qed.

Lemma prompt_after_writes (calls : list call) p :
  fold_left (fun p c => prompt_after c p) (writes calls) p
  = fold_left (fun p c => prompt_after c p) calls p.
Proof.
  revert p; induction calls as [|c calls IH]; intros p; [reflexivity|].
  destruct c; simpl; apply IH.
Qed.

End MemoryViewFacts.

(** X8: [clear()] forgets everything, the system prompt included: after it
    the history and the size are those of a memory built without a prompt,
    whatever was done before. *)
Theorem clear_forgets (p0 : option string) (h h' : gmap Memory.loc Memory.object)
    (calls later : list Memory.call) :
  Memory.history (Memory.run (calls ++ Memory.Call_clear :: later) (Memory.__init__ p0 h))
  = Memory.history (Memory.run later (Memory.__init__ None h'))
  /\ Memory.size (Memory.run (calls ++ Memory.Call_clear :: later) (Memory.__init__ p0 h))
     = Memory.size (Memory.run later (Memory.__init__ None h')).
Proof.
  rewrite !reachable_history, !reachable_size.
  rewrite appended_app, prompt_in_force_app. simpl.
  split; reflexivity.
Qed.

(** X9: the history has one entry more than [len(memory)] when the system
    prompt in force is a non-empty string, and as many otherwise. *)
Theorem history_length (p0 : option string) (h : gmap Memory.loc Memory.object)
    (calls : list Memory.call) :
  exists hs n,
    Memory.history (Memory.run calls (Memory.__init__ p0 h)) = Some hs
    /\ Memory.size (Memory.run calls (Memory.__init__ p0 h)) = Some n
    /\ length hs
       = (if Memory.truthy (Memory.prompt_in_force p0 calls) then S n else n).
Proof.
  rewrite reachable_history, reachable_size.
  eexists _, _. split; [reflexivity|]. split; [reflexivity|].
  rewrite length_app. unfold Memory.system_part.
  destruct (Memory.truthy _); reflexivity.
Qed.

(** X10: [get_conversation_history()] and [len()] leave the memory as it
    is: what the memory returns after a sequence of calls is what it returns
    after the same sequence without them. *)
Theorem reads_change_nothing (p0 : option string) (h h' : gmap Memory.loc Memory.object)
    (calls : list Memory.call) :
  Memory.history (Memory.run calls (Memory.__init__ p0 h))
  = Memory.history (Memory.run (MemoryView.writes calls) (Memory.__init__ p0 h'))
  /\ Memory.size (Memory.run calls (Memory.__init__ p0 h))
     = Memory.size (Memory.run (MemoryView.writes calls) (Memory.__init__ p0 h')).
Proof.
  rewrite !reachable_history, !reachable_size.
  unfold Memory.appended, Memory.prompt_in_force.
  rewrite messages_after_writes, prompt_after_writes. split; reflexivity.
Qed.

(** X11: [repr(memory)] on a memory built and then used: it returns, changes
    nothing, counts the appended messages, and reports a system prompt
    whenever one is set, the empty string included. *)
Theorem repr_spec (p0 : option string) (h : gmap Memory.loc Memory.object)
    (calls : list Memory.call) :
  let st := Memory.run calls (Memory.__init__ p0 h) in
  MemoryView.__repr__ st
  = (Ok ("ConversationMemory(messages="
         +:+ PyRepr.int_digits (Z.of_nat (length (Memory.appended calls)))
         +:+ ", has_system_prompt="
         +:+ (if Memory.prompt_in_force p0 calls is Some _ then "True" else "False")
         +:+ ")"), st).
Proof.
  intros st. destruct (reachable_spec p0 h calls) as [Hm Hp].
  fold st in Hm, Hp.
  destruct (messages_of_inv _ _ Hm) as (xs & Hxs & Hread).
  unfold MemoryView.__repr__, Effects.bind, Effects.get, Memory.list_items, Effects.ret.
  rewrite Hxs, Hp. apply length_mapM in Hread. rewrite Hread. reflexivity.
Qed.

(** ** Answers that are not finite numbers, answers that are equal *)

Section ToleranceFacts.
Import PyFloat Effects Evaluator FloatClass.

Lemma floor_constant_SF :
  Prim2SF floor_constant = S754_finite false 7737125245533627 (-86).
Proof. vm_compute. reflexivity. Qed.

(** The divisor of the relative difference in the binary representation. *)
Lemma larger_SF (g : float) :
  let larger := if PrimFloat.ltb (PrimFloat.abs g) floor_constant
                then floor_constant else PrimFloat.abs g in
  match Prim2SF g with
  | S754_nan => Prim2SF larger = S754_nan
  | S754_infinity _ => Prim2SF larger = S754_infinity false
  | _ => exists m e, Prim2SF larger = S754_finite false m e
  end.
Proof.
  intros larger. subst larger.
  pose proof (FloatAxioms.abs_spec g) as Habs.
  rewrite FloatAxioms.ltb_spec, Habs, floor_constant_SF.
  unfold SFltb.
  destruct (Prim2SF g) as [s|s| |s m e]; cbn [SFabs SFcompare] in *.
  - rewrite floor_constant_SF. eauto.
  - exact Habs.
  - exact Habs.
  - match goal with |- context [if ?b then _ else _] => destruct b end.
    + rewrite floor_constant_SF. eauto.
    + rewrite Habs. eauto.
Qed.

Lemma within_tolerance_non_finite (rt at_ p g : float) :
  is_finite rt = true -> is_finite at_ = true ->
  is_finite p = false \/ is_finite g = false ->
  within_tolerance rt at_ p g = false.
Proof.
  unfold is_finite, within_tolerance. intros Hrt Hat Hpg.
  pose proof (larger_SF g) as HL. cbv zeta in HL.
  set (larger := if PrimFloat.ltb (PrimFloat.abs g) floor_constant
                 then floor_constant else PrimFloat.abs g) in *.
  rewrite !FloatAxioms.leb_spec, FloatAxioms.div_spec, !FloatAxioms.abs_spec,
    FloatAxioms.sub_spec.
  unfold SFleb, SF64div, SF64sub.
  destruct (Prim2SF rt) as [srt|srt| |srt mrt ert]; try discriminate Hrt;
  destruct (Prim2SF at_) as [sat|sat| |sat mat eat]; try discriminate Hat;
  destruct (Prim2SF p) as [sp|sp| |sp mp ep];
  destruct (Prim2SF g) as [sg|sg| |sg mg eg];
  try (destruct Hpg; discriminate);
  try destruct HL as (ml & el & HL); rewrite HL;
  repeat match goal with s : bool |- _ => destruct s end;
  reflexivity.
Qed.

Lemma sub_same_SF (v : float) :
  is_finite v = true -> Prim2SF (PrimFloat.abs (PrimFloat.sub v v)) = S754_zero false.
Proof.
  unfold is_finite. intros Hv.
  rewrite FloatAxioms.abs_spec, FloatAxioms.sub_spec. unfold SF64sub.
  destruct (Prim2SF v) as [s|s| |s m e]; try discriminate Hv.
  - destruct s; reflexivity.
  - unfold SFsub. rewrite Z.sub_diag. reflexivity.
Qed.

Lemma within_tolerance_same (rt at_ v : float) :
  PrimFloat.leb zero at_ = true -> is_finite v = true ->
  within_tolerance rt at_ v v = true.
Proof.
  intros Hat Hv. unfold within_tolerance.
  apply orb_true_iff. left.
  rewrite FloatAxioms.leb_spec in *. rewrite (sub_same_SF v Hv).
  exact Hat.
Qed.

(** [answers_match] returns on two values that [str()] takes. *)
Lemma answers_match_returns (pred gold : pyobj) (rt at_ : float) (out : stdout) :
  PyRepr.printable pred = true -> PyRepr.printable gold = true ->
  exists b out', answers_match pred gold rt at_ out = (Ok b, out').
Proof.
  intros Hpp Hpg.
  destruct (normalize_answer_returns pred out Hpp) as (p & out1 & Hp).
  destruct (normalize_answer_returns gold out1 Hpg) as (g & out2 & Hg).
  rewrite (answers_match_unfold _ _ _ _ _ _ _ _ _ Hp Hg). eauto.
Qed.

(** It raises [ValueError] on a predicted value that [str()] refuses. *)
Lemma answers_match_raises (pred gold : pyobj) (rt at_ : float) (out : stdout) :
  PyRepr.printable pred = false ->
  answers_match pred gold rt at_ out = (Raise ValueError, out).
Proof.
  intros Hp. unfold answers_match, bind.
  rewrite (normalize_answer_raises pred out Hp). reflexivity.
Qed.

End ToleranceFacts.

(** X12: an answer that normalizes to an infinity or a NaN is never
    accepted, on either side: under finite tolerances [answers_match]
    returns [False] as soon as the predicted or the gold value is not
    finite, also when the two are the same infinity or both NaN. *)
Theorem non_finite_never_matches (pred gold : pyobj) (rt at_ : float)
    (out out1 out2 : Effects.stdout) (pred_num gold_num : float) :
  Evaluator.normalize_answer pred out = (Ok pred_num, out1) ->
  Evaluator.normalize_answer gold out1 = (Ok gold_num, out2) ->
  FloatClass.is_finite rt = true -> FloatClass.is_finite at_ = true ->
  FloatClass.is_finite pred_num = false \/ FloatClass.is_finite gold_num = false ->
  Evaluator.answers_match pred gold rt at_ out = (Ok false, out2).
Proof.
  intros Hp Hg Hrt Hat Hpg.
  rewrite (answers_match_unfold _ _ _ _ _ _ _ _ _ Hp Hg).
  rewrite (within_tolerance_non_finite _ _ _ _ Hrt Hat Hpg). reflexivity.
Qed.

Lemma non_finite_never_matches_witness :
  Evaluator.answers_match (PyStr "inf") (PyFloat infinity) 1e-3 1e-4 [] = (Ok false, [])
  /\ Evaluator.answers_match (PyStr "NaN") (PyStr "nan") 1e-3 1e-4 [] = (Ok false, []).
Proof.
  split.
  - apply (non_finite_never_matches _ _ _ _ [] [] [] infinity infinity);
      try (vm_compute; reflexivity).
    left. vm_compute. reflexivity.
  - apply (non_finite_never_matches _ _ _ _ [] [] [] nan nan);
      try (vm_compute; reflexivity).
    left. vm_compute. reflexivity.
Defined.

(** X13: two answers that normalize to the same finite number always
    match, whatever the relative tolerance, as soon as the absolute
    tolerance is not negative. *)
Theorem same_value_matches (pred gold : pyobj) (rt at_ : float)
    (out out1 out2 : Effects.stdout) (v : float) :
  Evaluator.normalize_answer pred out = (Ok v, out1) ->
  Evaluator.normalize_answer gold out1 = (Ok v, out2) ->
  PrimFloat.leb PyFloat.zero at_ = true ->
  FloatClass.is_finite v = true ->
  Evaluator.answers_match pred gold rt at_ out = (Ok true, out2).
Proof.
  intros Hp Hg Hat Hv.
  rewrite (answers_match_unfold _ _ _ _ _ _ _ _ _ Hp Hg).
  rewrite (within_tolerance_same _ _ _ Hat Hv). reflexivity.
Qed.

Lemma same_value_matches_witness :
  Evaluator.answers_match (PyStr "$1,5") (PyStr "abc") 1e-3 0 []
  = (Ok true, ["Warning: Could not convert '$1,5'"; "Warning: Could not convert 'abc'"])
  /\ Evaluator.answers_match (PyStr " 12.50% ") (PyFloat 12.5) 1e-3 1e-4 [] = (Ok true, []).
Proof.
  split.
  - apply (same_value_matches _ _ _ _ [] ["Warning: Could not convert '$1,5'"] _ 0%float);
      vm_compute; reflexivity.
  - apply (same_value_matches _ _ _ _ [] [] [] 12.5%float); vm_compute; reflexivity.
Defined.

(** ** Fenced replies *)

Section FenceFacts.
Import PyStr Processor Evaluator.

Lemma length_string_app (a b : string) :
  String.length (a +:+ b) = (String.length a + String.length b)%nat.
Proof.
  induction a as [|c a IH]; [reflexivity|].
  rewrite string_app_cons. cbn [String.length]. rewrite IH. reflexivity.
Qed.

Lemma take_prefix_app (a b : string) : take_prefix (String.length a) (a +:+ b) = a.
Proof.
  induction a as [|c a IH].
  - destruct b; reflexivity.
  - rewrite string_app_cons. cbn [String.length take_prefix]. rewrite IH. reflexivity.
Qed.

Lemma drop_suffix_app (a b : string) : drop_suffix (String.length b) (a +:+ b) = a.
Proof.
  unfold drop_suffix. rewrite length_string_app.
  replace (String.length a + String.length b - String.length b)%nat
    with (String.length a) by lia.
  apply take_prefix_app.
Qed.

Lemma endswith_app (a b : string) : endswith b (a +:+ b) = true.
Proof.
  unfold endswith. rewrite str_reverse_app.
  generalize (reverse b) (reverse a). intros p q.
  induction p as [|c p IH]; [reflexivity|].
  rewrite string_app_cons. cbn [startswith]. rewrite Ascii.eqb_refl. exact IH.
Qed.

Lemma strip_between_newlines (t : string) : strip (LF +:+ t +:+ LF) = strip t.
Proof.
  unfold strip. rewrite <- string_app_assoc', rstrip_app.
  change (all_chars is_space LF) with true. cbv iota.
  rewrite rstrip_app.
  destruct (all_chars is_space t) eqn:E.
  - rewrite (rstrip_all_space t E). reflexivity.
  - reflexivity.
Qed.

(** The text between a fence and its closing fence, each on a line of its own. *)
Lemma unfence_body (t : string) :
  (if endswith "```" (LF +:+ t +:+ LF +:+ "```")
   then drop_suffix 3 (LF +:+ t +:+ LF +:+ "```")
   else LF +:+ t +:+ LF +:+ "```") = LF +:+ t +:+ LF.
Proof.
  replace (LF +:+ t +:+ LF +:+ "```") with ((LF +:+ t +:+ LF) +:+ "```")
    by (rewrite !string_app_assoc'; reflexivity).
  rewrite endswith_app. exact (drop_suffix_app (LF +:+ t +:+ LF) "```").
Qed.

Lemma strip_fenced (opening t : string) (c : ascii) :
  is_space c = false ->
  strip (String c opening +:+ LF +:+ t +:+ LF +:+ "```")
  = String c opening +:+ LF +:+ t +:+ LF +:+ "```".
Proof.
  intros Hc. unfold strip.
  replace (String c opening +:+ LF +:+ t +:+ LF +:+ "```")
    with ((String c opening +:+ LF +:+ t +:+ LF +:+ "``") +:+ "`")
    by (rewrite !string_app_assoc'; reflexivity).
  rewrite rstrip_keeps by reflexivity.
  rewrite !string_app_cons. cbn [lstrip]. rewrite Hc. reflexivity.
Qed.

Lemma unfence_tagged (t : string) :
  unfence ("```json" +:+ LF +:+ t +:+ LF +:+ "```") = strip t.
Proof.
  unfold unfence. rewrite (strip_fenced "``json" t "`") by reflexivity.
  change (startswith "```json" ("```json" +:+ LF +:+ t +:+ LF +:+ "```")) with true.
  cbv iota.
  change (drop_prefix 7 ("```json" +:+ LF +:+ t +:+ LF +:+ "```"))
    with (LF +:+ t +:+ LF +:+ "```").
  change (startswith "```" (LF +:+ t +:+ LF +:+ "```")) with false.
  cbv iota. rewrite unfence_body. apply strip_between_newlines.
Qed.

Lemma unfence_bare (t : string) :
  unfence ("```" +:+ LF +:+ t +:+ LF +:+ "```") = strip t.
Proof.
  unfold unfence. rewrite (strip_fenced "``" t "`") by reflexivity.
  change (startswith "```json" ("```" +:+ LF +:+ t +:+ LF +:+ "```")) with false.
  cbv iota.
  change (startswith "```" ("```" +:+ LF +:+ t +:+ LF +:+ "```")) with true.
  cbv iota.
  change (drop_prefix 3 ("```" +:+ LF +:+ t +:+ LF +:+ "```"))
    with (LF +:+ t +:+ LF +:+ "```").
  rewrite unfence_body. apply strip_between_newlines.
Qed.

End FenceFacts.

(** X14: a reply whose JSON text stands between an opening fence, tagged
    [json] or bare, and a closing fence, each on a line of its own, is
    parsed as the trimmed text between the fences, whatever that text is. *)
Theorem fenced_reply_is_its_body (depth : nat) (t : string) :
  let body := match Json.loads depth (PyStr.strip t) with
              | Raise JSONDecodeError => Raise JSONParsingError
              | r => r
              end in
  Evaluator.parse_llm_response depth
    ("```json" +:+ Processor.LF +:+ t +:+ Processor.LF +:+ "```") = body
  /\ Evaluator.parse_llm_response depth
       ("```" +:+ Processor.LF +:+ t +:+ Processor.LF +:+ "```") = body.
Proof.
  intros body. unfold Evaluator.parse_llm_response.
  rewrite unfence_tagged, unfence_bare. split; reflexivity.
Qed.

(** ** The scoring loop *)

Section ScoringFacts.
Import PyDictOps Effects Evaluator Scoring.

(** One pass of the scoring loop on a response it can handle. *)
Lemma score_turn_scorable config response gold t out :
  scorable response = true ->
  exists t' out',
    score_turn config response gold t out = (Ok t', out')
    /\ dialogue_errors t'
       = (dialogue_errors t + if counts_as_error response then 1 else 0)%Z
    /\ (dialogue_correct t <= dialogue_correct t'
        <= dialogue_correct t + if counts_as_error response then 0 else 1)%Z.
Proof.
  intros Hs. unfold score_turn, bind, lift, counts_as_error.
  destruct response as [| | | |s|items|d]; try discriminate Hs; cbn [has_error scorable] in *.
  - rewrite Hs. eexists _, _. split; [reflexivity|]. simpl. lia.
  - rewrite Hs. eexists _, _. split; [reflexivity|]. simpl. lia.
  - destruct (dict_contains "error" d).
    + eexists _, _. split; [reflexivity|]. simpl. lia.
    + cbn [orb get_answer] in *. destruct (dict_get "answer" d) as [pred|];
      match goal with |- context [answers_match ?p ?g ?a ?b out] =>
        destruct (answers_match_returns p g a b out) as (m & out' & ->);
          [first [exact Hs | reflexivity]|reflexivity|]
      end.
      all: destruct m; eexists _, _; (split; [reflexivity|]); simpl; lia.
Qed.

(** One pass on a response it cannot handle. *)
Lemma score_turn_unscorable config response gold t out :
  scorable response = false ->
  exists e,
    score_turn config response gold t out = (Raise e, out)
    /\ (e = TypeError \/ e = AttributeError \/ e = ValueError)
    /\ (is_dict response = false -> e = TypeError \/ e = AttributeError).
Proof.
  intros Hs. unfold score_turn, bind, lift.
  destruct response as [| | | |s|items|d]; try discriminate Hs;
    cbn [has_error scorable get_answer is_dict] in *;
    try (try rewrite Hs; eexists; split; [reflexivity|]; split; [auto|auto]; fail).
  apply orb_false_iff in Hs as [He Hs]. rewrite He.
  destruct (dict_get "answer" d) as [pred|]; [|discriminate Hs].
  rewrite (answers_match_raises pred _ _ _ out Hs).
  exists ValueError. split; [reflexivity|]. split; [auto|discriminate].
Qed.

Lemma score_turns_outcome config responses gold_answers : forall t out,
  if forallb scorable (zipped responses gold_answers) then
    exists t' out',
      score_turns config responses gold_answers t out = (Ok t', out')
      /\ dialogue_errors t'
         = (dialogue_errors t
            + Z.of_nat (length (List.filter counts_as_error (zipped responses gold_answers))))%Z
      /\ (dialogue_correct t <= dialogue_correct t')%Z
      /\ (dialogue_correct t' + dialogue_errors t'
          <= dialogue_correct t + dialogue_errors t
             + Z.of_nat (length (zipped responses gold_answers)))%Z
  else
    exists e out',
      score_turns config responses gold_answers t out = (Raise e, out')
      /\ (e = TypeError \/ e = AttributeError \/ e = ValueError)
      /\ (forallb (fun r => negb (is_dict r) || scorable r)
            (zipped responses gold_answers) = true ->
          e = TypeError \/ e = AttributeError).
Proof.
  unfold zipped. revert gold_answers.
  induction responses as [|r responses IH]; intros gold_answers t out.
  - rewrite firstn_nil. simpl. eexists _, _. split; [reflexivity|]. lia.
  - destruct gold_answers as [|g gold_answers].
    + simpl. eexists _, _. split; [reflexivity|]. lia.
    + cbn [length firstn forallb score_turns].
      destruct (scorable r) eqn:Hr; cbn [andb].
      * destruct (score_turn_scorable config r g t out Hr) as (t1 & out1 & Hst & He & Hc).
        assert (Heq : (t' <- score_turn config r g t ;;
                       score_turns config responses gold_answers t') out
                      = score_turns config responses gold_answers t1 out1)
          by (unfold bind; rewrite Hst; reflexivity).
        rewrite Heq. specialize (IH gold_answers t1 out1).
        destruct (forallb scorable (firstn (length gold_answers) responses)).
        -- destruct IH as (t' & out' & Hrun & He' & Hc' & Hsum).
           exists t', out'. split; [exact Hrun|].
           cbn [List.filter]. destruct (counts_as_error r); cbn [length]; lia.
        -- destruct IH as (e & out' & Hrun & He' & Hd). exists e, out'.
           split; [exact Hrun|]. split; [exact He'|]. intros Hall. apply Hd.
           now apply andb_true_iff in Hall as [_ Hall].
      * destruct (score_turn_unscorable config r g t out Hr) as (e & Hst & He & Hd).
        unfold bind. rewrite Hst. exists e, out. split; [reflexivity|].
        split; [exact He|]. intros Hall. apply Hd.
        apply andb_true_iff in Hall as [Hall _]. rewrite orb_false_r in Hall.
        now apply negb_true_iff in Hall.
Qed.

End ScoringFacts.

(** X15: the scoring loop of [evaluate_dialogue] over the pairs of
    [zip(responses, gold_answers)].  When every paired response is a
    dictionary with the key ["error"] or with an answer that [str] takes,
    or a string or list that contains ["error"], the loop returns: the
    errors are the paired responses with ["error"] in them, and correct
    answers and errors together are at most the pairs.  Any other paired
    response makes it raise: [TypeError] or [AttributeError] on a number, a
    boolean, [None], a string or list without ["error"]; [ValueError] on a
    dictionary whose answer holds an [int] of more than 4300 digits, and
    only on such a dictionary. *)
Theorem score_dialogue_outcome (config : Config) (responses : list pyobj)
    (gold_answers : list string) (out : Effects.stdout) :
  if forallb Scoring.scorable (Scoring.zipped responses gold_answers) then
    exists t out',
      Evaluator.score_dialogue config responses gold_answers out = (Ok t, out')
      /\ Evaluator.dialogue_errors t
         = Z.of_nat (length (List.filter Scoring.counts_as_error
                               (Scoring.zipped responses gold_answers)))
      /\ (0 <= Evaluator.dialogue_correct t)%Z
      /\ (Evaluator.dialogue_correct t + Evaluator.dialogue_errors t
          <= Z.of_nat (Nat.min (length gold_answers) (length responses)))%Z
  else
    exists e out',
      Evaluator.score_dialogue config responses gold_answers out = (Raise e, out')
      /\ (e = TypeError \/ e = AttributeError \/ e = ValueError)
      /\ (forallb (fun r => negb (Scoring.is_dict r) || Scoring.scorable r)
            (Scoring.zipped responses gold_answers) = true ->
          e = TypeError \/ e = AttributeError).
Proof.
  unfold Evaluator.score_dialogue.
  pose proof (score_turns_outcome config responses gold_answers
                {| Evaluator.dialogue_correct := 0; Evaluator.dialogue_errors := 0 |} out) as H.
  destruct (forallb Scoring.scorable (Scoring.zipped responses gold_answers)).
  - destruct H as (t & out' & Hrun & He & Hc & Hsum). exists t, out'.
    split; [exact Hrun|]. simpl in *. split; [lia|]. split; [lia|].
    unfold Scoring.zipped in Hsum. rewrite length_firstn in Hsum. lia.
  - exact H.
Qed.

(** ** Division of integers *)

Section DivisionFacts.
Import Harness.
Local Open Scope Z_scope.

Lemma shr_1_m (mrs : shr_record) :
  0 <= shr_m mrs -> shr_m (shr_1 mrs) = shr_m mrs / 2.
Proof.
  destruct mrs as [m r s]. cbn [shr_m shr_1]. intros Hm.
  destruct m as [|p|p]; [reflexivity| |lia].
  rewrite <- Z.div2_div. destruct p; reflexivity.
Qed.

Lemma iter_shr_1_m (p : positive) : forall mrs,
  0 <= shr_m mrs -> shr_m (SpecFloat.iter_pos shr_1 p mrs) = shr_m mrs / 2 ^ Zpos p.
Proof.
  induction p as [p IH|p IH|]; intros mrs Hm; cbn [SpecFloat.iter_pos].
  - assert (H1 : 0 <= shr_m (shr_1 mrs)) by (rewrite shr_1_m by exact Hm; apply Z.div_pos; lia).
    assert (H2 : 0 <= shr_m (SpecFloat.iter_pos shr_1 p (shr_1 mrs)))
      by (rewrite IH by exact H1; apply Z.div_pos; [exact H1|apply Z.pow_pos_nonneg; lia]).
    rewrite IH by exact H2. rewrite IH by exact H1. rewrite shr_1_m by exact Hm.
    assert (Hp : 0 < 2 ^ Zpos p) by (apply Z.pow_pos_nonneg; lia).
    rewrite !Z.div_div by lia.
    replace (Zpos p~1) with (1 + Zpos p + Zpos p) by lia.
    rewrite !Z.pow_add_r by lia. rewrite Z.pow_1_r. f_equal. lia.
  - assert (H2 : 0 <= shr_m (SpecFloat.iter_pos shr_1 p mrs))
      by (rewrite IH by exact Hm; apply Z.div_pos; [exact Hm|apply Z.pow_pos_nonneg; lia]).
    rewrite IH by exact H2. rewrite IH by exact Hm.
    assert (Hp : 0 < 2 ^ Zpos p) by (apply Z.pow_pos_nonneg; lia).
    rewrite !Z.div_div by lia.
    replace (Zpos p~0) with (Zpos p + Zpos p) by lia.
    rewrite !Z.pow_add_r by lia. f_equal.
  - rewrite shr_1_m by exact Hm. reflexivity.
Qed.

(** A right shift: the exponent it gives and the mantissa it leaves. *)
Lemma shr_spec (mrs : shr_record) (e n : Z) :
  0 <= shr_m mrs ->
  snd (shr mrs e n) = Z.max e (e + n)
  /\ shr_m (fst (shr mrs e n)) = shr_m mrs / 2 ^ (Z.max 0 n).
Proof.
  intros Hm. destruct n as [|p|p]; cbn [shr fst snd].
  - split; [lia|]. rewrite Z.max_id, Z.pow_0_r, Z.div_1_r. reflexivity.
  - split; [lia|]. rewrite iter_shr_1_m by exact Hm. reflexivity.
  - split; [lia|]. replace (Z.max 0 (Zneg p)) with 0 by lia.
    rewrite Z.pow_0_r, Z.div_1_r. reflexivity.
Qed.

Lemma digits2_pos_lower (p : positive) : 2 ^ (Zpos (digits2_pos p) - 1) <= Zpos p.
Proof.
  induction p as [p IH|p IH|]; cbn [digits2_pos].
  - rewrite Pos2Z.inj_succ. replace (Z.succ (Zpos (digits2_pos p)) - 1)
      with (1 + (Zpos (digits2_pos p) - 1)) by lia.
    rewrite Z.pow_add_r by lia. lia.
  - rewrite Pos2Z.inj_succ. replace (Z.succ (Zpos (digits2_pos p)) - 1)
      with (1 + (Zpos (digits2_pos p) - 1)) by lia.
    rewrite Z.pow_add_r by lia. lia.
  - reflexivity.
Qed.

(** A number of at most [k] bits, or the power [2 ^ k], has at most [k + 1]
    binary digits. *)
Lemma Zdigits2_upper (m k : Z) : 0 <= k -> 0 <= m <= 2 ^ k -> Zdigits2 m <= k + 1.
Proof.
  intros Hk [Hm Hmk]. destruct m as [|p|p]; cbn [Zdigits2]; [lia| |lia].
  pose proof (digits2_pos_lower p) as Hl.
  destruct (Z.le_gt_cases (Zpos (digits2_pos p)) (k + 1)) as [H|H]; [exact H|].
  exfalso. assert (2 ^ (k + 1) <= 2 ^ (Zpos (digits2_pos p) - 1))
    by (apply Z.pow_le_mono_r; lia).
  rewrite Z.pow_add_r in H0 by lia. 
  assert (0 < 2 ^ k) by (apply Z.pow_pos_nonneg; lia). lia.
Qed.

Lemma shr_record_of_loc_m (m : Z) (l : location) : shr_m (shr_record_of_loc m l) = m.
Proof. destruct l as [|[]]; reflexivity. Qed.

Lemma round_nearest_even_bounds (m : Z) (l : location) :
  0 <= m -> m <= round_nearest_even m l <= m + 1.
Proof.
  intros Hm. destruct l as [|[]]; cbn [round_nearest_even]; try lia.
  destruct (Z.even m); lia.
Qed.

(** The exponent and the mantissa after [shr_fexp], for a quotient at most
    [2 ^ k] held with an exponent [e] that is not positive. *)
Lemma shr_fexp_small (m e k : Z) (l : location) :
  0 <= k -> e + k <= 2 -> e <= 0 -> 0 <= m <= 2 ^ k ->
  let r := shr_fexp prec emax m e l in
  e <= snd r <= 0
  /\ 0 <= shr_m (fst r) <= 2 ^ (Z.max 0 (k - (snd r - e))).
Proof.
  intros Hk Hek He Hm r. subst r. unfold shr_fexp.
  pose proof (Zdigits2_upper m k Hk Hm) as Hd.
  set (n := SpecFloat.fexp prec emax (Zdigits2 m + e) - e).
  assert (Hn : e + n <= 0).
  { subst n. unfold SpecFloat.fexp, SpecFloat.emin.
    change prec with 53. change emax with 1024. lia. }
  destruct (shr_spec (shr_record_of_loc m l) e n) as [Hs Hsm];
    [rewrite shr_record_of_loc_m; lia|].
  rewrite shr_record_of_loc_m in Hsm. rewrite Hs, Hsm.
  split; [lia|].
  assert (Hp : 0 < 2 ^ Z.max 0 n) by (apply Z.pow_pos_nonneg; lia).
  split; [apply Z.div_pos; lia|].
  replace (Z.max e (e + n) - e) with (Z.max 0 n) by lia.
  destruct (Z.le_gt_cases (Z.max 0 n) k) as [Hle|Hgt].
  - replace (Z.max 0 (k - Z.max 0 n)) with (k - Z.max 0 n) by lia.
    apply Z.div_le_upper_bound; [exact Hp|].
    rewrite <- Z.pow_add_r by lia. replace (Z.max 0 n + (k - Z.max 0 n)) with k by lia.
    lia.
  - replace (Z.max 0 (k - Z.max 0 n)) with 0 by lia. rewrite Z.pow_0_r.
    apply Z.div_le_upper_bound; [exact Hp|].
    assert (2 ^ k <= 2 ^ Z.max 0 n) by (apply Z.pow_le_mono_r; lia). lia.
Qed.

(** Rounding a quotient that is at most one never overflows. *)
Lemma binary_round_aux_no_overflow (sx s : bool) (q e : Z) (l : location) :
  e <= 0 -> 0 <= q <= 2 ^ (- e) ->
  binary_round_aux prec emax sx q e l <> S754_infinity s.
Proof.
  intros He Hq. unfold binary_round_aux.
  pose proof (shr_fexp_small q e (- e) l ltac:(lia) ltac:(lia) He Hq) as H1.
  cbv zeta in H1.
  destruct (shr_fexp prec emax q e l) as [mrs1 e1]. cbn [fst snd] in H1.
  destruct H1 as [He1 Hm1].
  replace (Z.max 0 (- e - (e1 - e))) with (- e1) in Hm1 by lia.
  set (m1 := round_nearest_even (shr_m mrs1) (loc_of_shr_record mrs1)).
  pose proof (round_nearest_even_bounds (shr_m mrs1) (loc_of_shr_record mrs1)
                ltac:(lia)) as Hr. fold m1 in Hr.
  assert (Hm1' : 0 <= m1 <= 2 ^ (- e1 + 1)).
  { rewrite Z.pow_add_r by lia. rewrite Z.pow_1_r.
    assert (0 < 2 ^ (- e1)) by (apply Z.pow_pos_nonneg; lia). lia. }
  pose proof (shr_fexp_small m1 e1 (- e1 + 1) loc_Exact ltac:(lia) ltac:(lia)
                ltac:(lia) Hm1') as H2.
  cbv zeta in H2.
  destruct (shr_fexp prec emax m1 e1 loc_Exact) as [mrs2 e2]. cbn [fst snd] in H2.
  destruct H2 as [He2 _].
  destruct (shr_m mrs2); [discriminate| |discriminate].
  replace (e2 <=? emax - prec) with true; [discriminate|].
  symmetry. apply Z.leb_le. change emax with 1024. change prec with 53. lia.
Qed.

(** The quotient of two positive integers, the first at most the second,
    is never rounded to an infinity. *)
Lemma SFdiv_no_overflow (sx s : bool) (n d : positive) :
  (n <= d)%positive ->
  SFdiv prec emax (S754_finite sx n 0) (S754_finite false d 0) <> S754_infinity s.
Proof.
  intros Hnd. unfold SFdiv, SFdiv_core_binary.
  set (e' := Z.min (SpecFloat.fexp prec emax
                      (Zdigits2 (Zpos n) + 0 - (Zdigits2 (Zpos d) + 0))) (0 - 0)).
  assert (He' : e' <= 0) by (subst e'; lia).
  set (m' := match 0 - 0 - e' with
             | 0 => Zpos n
             | Zpos _ => Z.shiftl (Zpos n) (0 - 0 - e')
             | Zneg _ => 0
             end).
  assert (Hm' : m' = Zpos n * 2 ^ (- e')).
  { subst m'. replace (0 - 0 - e') with (- e') by lia.
    destruct (- e') as [|p|p] eqn:E; [rewrite Z.pow_0_r; lia| |lia].
    rewrite Z.shiftl_mul_pow2 by lia. reflexivity. }
  destruct (Z.div_eucl m' (Zpos d)) as [q r] eqn:Ed.
  assert (Hq : q = m' / Zpos d) by (unfold Z.div; rewrite Ed; reflexivity).
  apply binary_round_aux_no_overflow; [exact He'|].
  assert (Hp : 0 < 2 ^ (- e')) by (apply Z.pow_pos_nonneg; lia).
  subst q. rewrite Hm'. split.
  - apply Z.div_pos; lia.
  - apply Z.div_le_upper_bound; [lia|].
    apply Z.mul_le_mono_nonneg_r; lia.
Qed.

(** [a / b] returns for [0 <= a <= b] and [b > 0]. *)
Lemma int_truediv_returns (a b : Z) :
  0 <= a <= b -> 0 < b -> exists q, int_truediv a b = Returned q.
Proof.
  intros Ha Hb. unfold int_truediv.
  replace (b =? 0) with false by (symmetry; apply Z.eqb_neq; lia).
  destruct a as [|p|p]; [eauto| |lia].
  pose proof (SFdiv_no_overflow (xorb (Zpos p <? 0) (b <? 0))) as H.
  specialize (fun s => H s (Z.to_pos (Z.abs (Zpos p))) (Z.to_pos (Z.abs b))).
  destruct (SFdiv prec emax _ _) as [z|z| |z m e]; eauto.
  exfalso. apply (H z); [|reflexivity].
  destruct b as [|pb|pb]; lia.
Qed.

Lemma ratio_or_zero_returns (a b : Z) :
  0 <= a <= b -> exists q, ratio_or_zero a b = Returned q.
Proof.
  intros Ha. unfold ratio_or_zero. destruct (Z.ltb_spec 0 b); [|eauto].
  apply int_truediv_returns; assumption.
Qed.

End DivisionFacts.

(** ** [EvaluationResults] *)

Section ResultsFacts.
Import Harness.
Local Open Scope Z_scope.

(** The division on known values: correct rounding, the sign of a zero
    quotient, underflow to zero, and the two exceptions. *)
Example int_truediv_known :
  int_truediv 1 3 = Returned 0x1.5555555555555p-2%float
  /\ int_truediv 7 10 = Returned 0.7%float
  /\ int_truediv (-2) 3 = Returned (-0x1.5555555555555p-1)%float
  /\ int_truediv 9007199254740993 1 = Returned 9007199254740992%float
  /\ int_truediv 0 (-5) = Returned (-0)%float
  /\ int_truediv 1 (10 ^ 400) = Returned 0%float
  /\ int_truediv (10 ^ 400) (10 ^ 399) = Returned 10%float
  /\ int_truediv (10 ^ 400) 1 = Failed OverflowError
  /\ int_truediv 1 0 = Failed (Builtin ZeroDivisionError).
Proof. repeat split; vm_compute; reflexivity. Qed.

Lemma add_dialogue_result_totals id c t e self :
  let self' := snd (add_dialogue_result id c t e self) in
  total_correct self' = total_correct self + c
  /\ total_questions self' = total_questions self + t
  /\ total_errors self' = total_errors self + e
  /\ (dialogue_results self' = dialogue_results self
      \/ exists a, dialogue_results self'
                   = dialogue_results self
                     ++ [{| dialogue_id := id; correct := c; total := t;
                            errors := e; dialogue_accuracy := a |}]).
Proof.
  unfold add_dialogue_result. destruct (ratio_or_zero c t) as [a|ex]; cbn; eauto 10.
Qed.

Lemma add_each_totals calls : forall self,
  total_correct (add_each calls self)
  = total_correct self + Z_sum (List.map new_correct calls)
  /\ total_questions (add_each calls self)
     = total_questions self + Z_sum (List.map new_total calls)
  /\ total_errors (add_each calls self)
     = total_errors self + Z_sum (List.map new_errors calls)
  /\ (length (dialogue_results (add_each calls self))
      <= length (dialogue_results self) + length calls)%nat.
Proof.
  induction calls as [|c calls IH]; intros self; [cbn; lia|].
  cbn [add_each fold_left List.map Z_sum fold_right length].
  destruct (add_dialogue_result_totals (new_id c) (new_correct c) (new_total c)
              (new_errors c) self) as (H1 & H2 & H3 & H4).
  cbv zeta in *.
  destruct (IH (snd (add_dialogue_result (new_id c) (new_correct c) (new_total c)
                       (new_errors c) self))) as (I1 & I2 & I3 & I4).
  unfold add_each in *. rewrite I1, I2, I3, H1, H2, H3.
  fold (Z_sum (List.map new_correct calls)) (Z_sum (List.map new_total calls))
    (Z_sum (List.map new_errors calls)).
  repeat split; try lia.
  destruct H4 as [H4|[a H4]]; rewrite H4 in I4; [lia|].
  rewrite length_app in I4. cbn [length] in I4. lia.
Qed.

Lemma add_each_entries calls : forall self,
  Forall (fun c => 0 <= new_correct c <= new_total c) calls ->
  List.map addition_of (dialogue_results (add_each calls self))
  = List.map addition_of (dialogue_results self) ++ calls.
Proof.
  induction calls as [|c calls IH]; intros self Hall; [cbn; rewrite app_nil_r; reflexivity|].
  apply Forall_cons in Hall as [Hc Hall].
  cbn [add_each fold_left]. fold (add_each calls).
  rewrite IH by exact Hall.
  unfold add_dialogue_result.
  destruct (ratio_or_zero_returns (new_correct c) (new_total c) Hc) as [a ->].
  cbn [snd dialogue_results]. rewrite List.map_app, <- app_assoc.
  destruct c; reflexivity.
Qed.

End ResultsFacts.

(** X16: the totals of [EvaluationResults] count every call of
    [add_dialogue_result], the calls that raised included: they are updated
    before the entry is built, and a call adds one entry at most. *)
Theorem totals_count_every_call (calls : list Harness.Addition) :
  let results := Harness.add_each calls Harness.new_results in
  Harness.total_correct results
  = Harness.Z_sum (List.map Harness.new_correct calls)
  /\ Harness.total_questions results
     = Harness.Z_sum (List.map Harness.new_total calls)
  /\ Harness.total_errors results
     = Harness.Z_sum (List.map Harness.new_errors calls)
  /\ length (Harness.dialogue_results results) <= length calls.
Proof.
  intros results. subst results.
  destruct (add_each_totals calls Harness.new_results) as (H1 & H2 & H3 & H4).
  cbn in H1, H2, H3, H4. repeat split; assumption.
Qed.

(** X17: when each call gives a number of correct answers between zero and
    its number of questions, no call raises: [dialogue_results] has one
    entry for each call, in the order of the calls, with the arguments of
    the call. *)
Theorem results_keep_every_dialogue (calls : list Harness.Addition) :
  Forall (fun c => (0 <= Harness.new_correct c <= Harness.new_total c)%Z) calls ->
  List.map Harness.addition_of
    (Harness.dialogue_results (Harness.add_each calls Harness.new_results))
  = calls.
Proof.
  intros Hall. exact (add_each_entries calls Harness.new_results Hall).
Qed.

Lemma results_keep_every_dialogue_witness :
  let calls := [ {| Harness.new_id := "a"; Harness.new_correct := 1;
                    Harness.new_total := 3; Harness.new_errors := 1 |};
                 {| Harness.new_id := "b"; Harness.new_correct := 0;
                    Harness.new_total := 0; Harness.new_errors := 0 |} ] in
  List.map Harness.addition_of
    (Harness.dialogue_results (Harness.add_each calls Harness.new_results))
  = calls.
Proof.
  intros calls. apply (results_keep_every_dialogue calls).
  repeat constructor; cbn; lia.
Defined.

(** X18: the property [accuracy] returns a float whenever the number of
    correct answers is between zero and the number of questions: the
    division is guarded against zero, and a quotient that is at most one is
    never too large for a float. *)
Theorem accuracy_returns (results : Harness.EvaluationResults) :
  (0 <= Harness.total_correct results <= Harness.total_questions results)%Z ->
  exists a, Harness.accuracy results = Returned a.
Proof.
  intros H. unfold Harness.accuracy, Harness.ratio_or_zero.
  destruct (Z.ltb_spec 0 (Harness.total_questions results)) as [Hpos|Hzero].
  - apply int_truediv_returns; assumption.
  - exists PyFloat.zero. reflexivity.
Qed.

Lemma accuracy_returns_witness :
  exists a,
    Harness.accuracy {| Harness.total_correct := 2; Harness.total_questions := 3; Harness.total_errors := 1;
                Harness.dialogue_results := [] |} = Returned a.
Proof.
  apply (accuracy_returns {| Harness.total_correct := 2; Harness.total_questions := 3;
                             Harness.total_errors := 1; Harness.dialogue_results := [] |}).
  cbn. lia.
Defined.

(** ** The decoder and the grammar *)

Lemma string_app_nil_l (s : string) : EmptyString +:+ s = s.
Proof. reflexivity. Qed.

(** Appends to the right, characters to the front. *)
Ltac assoc_right :=
  repeat first [rewrite string_app_assoc' | rewrite string_app_cons
               | rewrite string_app_nil_l].

Section GrammarWords.
Import PyStr PyFloat Json JsonText.

Lemma ws_char_is_ws (c : ascii) : ws_char c <-> is_ws c = true.
Proof.
  unfold ws_char, is_ws. rewrite !orb_true_iff, !N.eqb_eq. tauto.
Qed.

Lemma skip_ws_app (w s : string) : ws w -> skip_ws (w +:+ s) = skip_ws s.
Proof.
  induction 1 as [|c w Hc _ IH]; [reflexivity|].
  rewrite string_app_cons. cbn [skip_ws]. apply ws_char_is_ws in Hc. rewrite Hc. exact IH.
Qed.

Lemma skip_ws_split (s : string) : exists w, ws w /\ s = w +:+ skip_ws s.
Proof.
  induction s as [|c s (w & Hw & IH)].
  - exists EmptyString. split; [constructor|reflexivity].
  - cbn [skip_ws]. destruct (is_ws c) eqn:E.
    + exists (String c w). split; [constructor; [apply ws_char_is_ws|]; assumption|].
      rewrite string_app_cons, <- IH. reflexivity.
    + exists EmptyString. split; [constructor|reflexivity].
Qed.

Lemma skip_ws_head (c : ascii) (s : string) :
  is_ws c = false -> skip_ws (String c s) = String c s.
Proof. intros H. cbn [skip_ws]. rewrite H. reflexivity. Qed.

Lemma skip_ws_all (w : string) : ws w -> skip_ws w = EmptyString.
Proof.
  induction 1 as [|c w Hc _ IH]; [reflexivity|].
  cbn [skip_ws]. apply ws_char_is_ws in Hc. rewrite Hc. exact IH.
Qed.

Lemma skip_ws_empty (s : string) : skip_ws s = EmptyString -> ws s.
Proof.
  destruct (skip_ws_split s) as (w & Hw & Hs). intros E.
  rewrite E, string_app_nil_r in Hs. subst s. exact Hw.
Qed.

Lemma startswith_split (p s : string) :
  startswith p s = true -> s = p +:+ drop_prefix (String.length p) s.
Proof.
  revert s. induction p as [|a p IH]; intros s; [reflexivity|].
  destruct s as [|b s]; [discriminate|].
  intros H. apply startswith_cons in H as [-> H].
  rewrite string_app_cons. cbn [String.length drop_prefix]. rewrite <- (IH s H). reflexivity.
Qed.

Lemma startswith_prefix (p s : string) : startswith p (p +:+ s) = true.
Proof.
  induction p as [|a p IH]; [reflexivity|].
  rewrite string_app_cons. cbn [startswith]. rewrite Ascii.eqb_refl. exact IH.
Qed.

Lemma drop_prefix_app (p s : string) : drop_prefix (String.length p) (p +:+ s) = s.
Proof. induction p as [|a p IH]; [reflexivity|exact IH]. Qed.

Lemma is_decimal_digit (c : ascii) : is_decimal c = true <-> digit c.
Proof.
  unfold is_decimal, in_range, digit. rewrite andb_true_iff, !N.leb_le. tauto.
Qed.

Lemma in_range_digit1_9 (c : ascii) : in_range 49 57 c = true <-> digit1_9 c.
Proof.
  unfold in_range, digit1_9. rewrite andb_true_iff, !N.leb_le. tauto.
Qed.

Lemma digit1_9_digit (c : ascii) : digit1_9 c -> digit c.
Proof. unfold digit1_9, digit. lia. Qed.

(** The letter of an escape is not [u]. *)
Lemma backslash_escape (e c : ascii) : backslash e = Some c <-> escape e c.
Proof.
  split.
  - unfold backslash.
    repeat match goal with
           | |- context [Ascii.eqb e ?x] =>
               destruct (Ascii.eqb_spec e x) as [->|?]; [intros [= <-]; constructor|]
           end.
    discriminate.
  - destruct 1; reflexivity.
Qed.

Lemma escape_not_u (e c : ascii) : escape e c -> Ascii.eqb e "u" = false.
Proof. destruct 1; reflexivity. Qed.

End GrammarWords.

(** *** What the decoder returns is a text of the grammar *)

Section DecoderSound.
Import PyStr PyFloat PyRepr PyDictOps Json JsonText.

Lemma scanstring_sound (n : nat) : forall s acc d r,
  String.length s <= n ->
  scanstring s acc = Ok (d, r) ->
  exists t d', s = t +:+ String dquote r /\ chars t d' /\ d = reverse acc +:+ d'.
Proof.
  induction n as [|n IH]; intros s acc d r Hn.
  - destruct s; [discriminate|simpl in Hn; lia].
  - destruct s as [|c s1]; [discriminate|]. simpl in Hn.
    cbn [scanstring].
    destruct (Ascii.eqb_spec c dquote) as [->|Hq].
    { intros [= <- <-]. exists EmptyString, EmptyString.
      split; [reflexivity|]. split; [constructor|]. now rewrite string_app_nil_r. }
    destruct (Ascii.eqb_spec c "\") as [->|Hb].
    + destruct s1 as [|e s2]; [discriminate|]. simpl in Hn.
      destruct (Ascii.eqb_spec e "u") as [->|Hu].
      * destruct s2 as [|h1 [|h2 [|h3 [|h4 s3]]]]; try discriminate.
        destruct (hex4 h1 h2 h3 h4) as [uni|] eqn:Ehex; [|discriminate].
        destruct (N.ltb_spec uni 256) as [Hlt|]; [|discriminate].
        intros H. apply IH in H as (t & d' & -> & Hc & ->); [|simpl in *; lia].
        eexists (String "\" (String "u" (String h1 (String h2 (String h3 (String h4 t)))))),
                (String (ascii_of_N uni) d').
        split; [reflexivity|]. split; [now apply (chars_hex h1 h2 h3 h4 uni)|].
        rewrite str_reverse_cons. assoc_right. reflexivity.
      * destruct (backslash e) as [ch|] eqn:Eb; [|discriminate].
        intros H. apply IH in H as (t & d' & -> & Hc & ->); [|lia].
        exists (String "\" (String e t)), (String ch d').
        split; [reflexivity|]. split; [apply chars_escape; [now apply backslash_escape|exact Hc]|].
        rewrite str_reverse_cons. assoc_right. reflexivity.
    + destruct (N.ltb_spec (code c) 32) as [|Hge]; [discriminate|].
      intros H. apply IH in H as (t & d' & -> & Hc & ->); [|lia].
      exists (String c t), (String c d').
      split; [reflexivity|]. split; [apply chars_plain; [repeat split; assumption|exact Hc]|].
      rewrite str_reverse_cons. assoc_right. reflexivity.
Qed.

Lemma span_digits_sound (s ds r : string) :
  span_digits s = (ds, r) -> s = ds +:+ r /\ digit_run ds /\ no_digit_head r.
Proof.
  revert ds r. induction s as [|c s IH]; intros ds r; cbn [span_digits].
  - intros [= <- <-]. repeat split. constructor.
  - destruct (is_decimal c) eqn:E.
    + destruct (span_digits s) as [ds' r'] eqn:Es. intros [= <- <-].
      destruct (IH _ _ eq_refl) as (-> & Hd & Hr).
      repeat split; [constructor; [now apply is_decimal_digit|exact Hd]|exact Hr].
    + intros [= <- <-]. repeat split; [constructor|exact E].
Qed.

Lemma match_integer_sound (s ip r : string) :
  match_integer s = Some (ip, r) -> s = ip +:+ r /\ int_part ip.
Proof.
  destruct s as [|c s]; [discriminate|]. unfold match_integer.
  destruct (Ascii.eqb_spec c "0") as [->|_].
  { intros [= <- <-]. split; [reflexivity|constructor]. }
  destruct (in_range 49 57 c) eqn:E; [|discriminate].
  destruct (span_digits s) as [ds r'] eqn:Es. intros [= <- <-].
  apply span_digits_sound in Es as (-> & Hd & _).
  split; [reflexivity|]. constructor; [now apply in_range_digit1_9|exact Hd].
Qed.

Lemma match_frac_sound (s fr r : string) :
  match_frac s = (fr, r) -> s = fr +:+ r /\ opt_frac fr.
Proof.
  unfold match_frac. destruct s as [|c s]; [intros [= <- <-]; split; [reflexivity|constructor]|].
  destruct (Ascii.eqb_spec c ".") as [->|Hc].
  - destruct (span_digits s) as [[|d ds] r'] eqn:Es.
    + intros [= <- <-]. split; [reflexivity|constructor].
    + intros [= <- <-]. apply span_digits_sound in Es as (-> & Hd & _).
      split; [reflexivity|]. inversion Hd; subst. now constructor.
  - assert (H : match_frac (String c s) = (EmptyString, String c s)).
    { unfold match_frac. revert Hc. case_char c; try reflexivity. intros Hc. now elim Hc. }
    unfold match_frac in H. rewrite H. intros [= <- <-]. split; [reflexivity|constructor].
Qed.

Lemma match_exp_sound (s ex r : string) :
  match_exp s = (ex, r) -> s = ex +:+ r /\ opt_exp ex.
Proof.
  unfold match_exp. destruct s as [|c s]; [intros [= <- <-]; split; [reflexivity|constructor]|].
  destruct (Ascii.eqb c "e" || Ascii.eqb c "E") eqn:Ee;
    [|intros [= <- <-]; split; [reflexivity|constructor]].
  assert (He : c = "e"%char \/ c = "E"%char).
  { apply orb_true_iff in Ee as [H|H]; apply Ascii.eqb_eq in H; auto. }
  assert (H : forall sg s1, opt_sign sg -> s = sg +:+ s1 ->
            match span_digits s1 with
            | (EmptyString, _) => (EmptyString, String c s)
            | (ds, r0) => (String c (sg +:+ ds), r0)
            end = (ex, r) -> String c s = ex +:+ r /\ opt_exp ex).
  { intros sg s1 Hsg ->. destruct (span_digits s1) as [[|d ds] r'] eqn:Es.
    - intros [= <- <-]. split; [reflexivity|constructor].
    - intros [= <- <-]. apply span_digits_sound in Es as (-> & Hd & _).
      split; [now assoc_right|].
      inversion Hd; subst. now constructor. }
  destruct s as [|d s']; [apply (H EmptyString EmptyString); [constructor|reflexivity]|].
  destruct (Ascii.eqb_spec d "-") as [->|Hm]; [apply (H "-" s'); [constructor|reflexivity]|].
  destruct (Ascii.eqb_spec d "+") as [->|Hp]; [apply (H "+" s'); [constructor|reflexivity]|].
  assert (Hd : (let '(sign, s1) := match String d s' with
                                  | String "-" r0 => ("-", r0)
                                  | String "+" r0 => ("+", r0)
                                  | _ => (EmptyString, String d s')
                                  end in
               match span_digits s1 with
               | (EmptyString, _) => (EmptyString, String c (String d s'))
               | (ds, r0) => (String c (sign +:+ ds), r0)
               end)
              = match span_digits (String d s') with
                | (EmptyString, _) => (EmptyString, String c (String d s'))
                | (ds, r0) => (String c (EmptyString +:+ ds), r0)
                end).
  { revert Hm Hp. case_char d; try reflexivity; intros Hm Hp; [now elim Hp|now elim Hm]. }
  rewrite Hd. apply (H EmptyString (String d s')); [constructor|reflexivity].
Qed.


Lemma digit_value_range (c : ascii) :
  is_decimal c = true -> (0 <= digit_value c <= 9)%Z.
Proof.
  unfold is_decimal, in_range, digit_value. rewrite andb_true_iff, !N.leb_le. lia.
Qed.

(** The digits read stay below the power of ten of their number. *)
Lemma read_digits_bound (s : string) : forall acc n,
  (0 <= acc)%Z ->
  (0 <= fst (fst (read_digits s acc n))
   < (acc + 1) * 10 ^ Z.of_nat (String.length s))%Z.
Proof.
  induction s as [|c s IH]; intros acc n Hacc; cbn [read_digits String.length].
  - cbn [fst]. change (10 ^ Z.of_nat 0)%Z with 1%Z. lia.
  - assert (Hpow : (0 < 10 ^ Z.of_nat (String.length s))%Z) by (apply Z.pow_pos_nonneg; lia).
    rewrite Nat2Z.inj_succ, Z.pow_succ_r by lia.
    destruct (is_decimal c) eqn:E; cbn [fst]; [|nia].
    pose proof (digit_value_range c E) as Hd.
    specialize (IH (10 * acc + digit_value c)%Z (n + 1)%Z ltac:(lia)). nia.
Qed.

Lemma int_part_head (ip : string) :
  int_part ip -> exists c ds, ip = String c ds /\ is_decimal c = true.
Proof.
  destruct 1 as [|c ds Hc Hd]; [exists "0"%char, EmptyString; split; reflexivity|].
  exists c, ds. split; [reflexivity|]. apply is_decimal_digit, digit1_9_digit, Hc.
Qed.

Lemma read_sign_digit (c : ascii) (s : string) :
  is_decimal c = true -> read_sign (String c s) = (false, String c s).
Proof. case_char c; try discriminate; reflexivity. Qed.

(** An [int] literal within the limit on digits denotes an [int] within
    it. *)
Lemma int_of_text_within (m ip : string) :
  opt_minus m -> int_part ip ->
  (Z.of_nat (String.length ip) <= max_str_digits)%Z ->
  within_digit_limit (int_of_text (m +:+ ip)) = true.
Proof.
  intros Hm Hip Hlen. unfold within_digit_limit. apply Z.ltb_lt.
  pose proof (read_digits_bound ip 0 0 ltac:(lia)) as Hb.
  assert (Hle : (10 ^ Z.of_nat (String.length ip) <= 10 ^ max_str_digits)%Z)
    by (apply Z.pow_le_mono_r; [lia|exact Hlen]).
  destruct (int_part_head ip Hip) as (c & ds & Hc & Hdec).
  unfold int_of_text.
  destruct Hm; assoc_right.
  - rewrite Hc, read_sign_digit by exact Hdec. rewrite <- Hc.
    destruct (read_digits ip 0 0) as [[v n] r]. cbn [fst] in Hb.
    revert Hle Hb. generalize (10 ^ max_str_digits)%Z (10 ^ Z.of_nat (String.length ip))%Z.
    intros; lia.
  - cbn [read_sign].
    destruct (read_digits ip 0 0) as [[v n] r]. cbn [fst] in Hb.
    revert Hle Hb. generalize (10 ^ max_str_digits)%Z (10 ^ Z.of_nat (String.length ip))%Z.
    intros; lia.
Qed.

Lemma number_or_fail_sound (s : string) (v : pyobj) (r : string) :
  number_or_fail s = Ok (v, r) ->
  exists t, s = t +:+ r /\ number t v /\ printable v = true.
Proof.
  unfold number_or_fail, match_number.
  assert (H : forall m s0, opt_minus m -> s = m +:+ s0 ->
    match
      match match_integer s0 with
      | None => None
      | Some (ip, s1) =>
          let '(frac, s2) := match_frac s1 in
          let '(ex, s3) := match_exp s2 in
          let integer := m +:+ ip in
          match frac, ex with
          | EmptyString, EmptyString =>
              match py_int integer ip with
              | Ok n => Some (Ok (PyInt n), s3)
              | Raise e => Some (Raise e, s3)
              end
          | _, _ =>
              match py_float (integer +:+ frac +:+ ex) with
              | Some f => Some (Ok (PyFloat f), s3)
              | None => Some (Raise ValueError, s3)
              end
          end
      end
    with
    | Some (Ok v0, r0) => Ok (v0, r0)
    | Some (Raise e, _) => Raise e
    | None => Raise JSONDecodeError
    end = Ok (v, r) ->
    exists t, s = t +:+ r /\ number t v /\ printable v = true).
  { intros m s0 Hm ->.
    destruct (match_integer s0) as [[ip s1]|] eqn:Ei; [|discriminate].
    apply match_integer_sound in Ei as (-> & Hip).
    destruct (match_frac s1) as [fr s2] eqn:Ef.
    apply match_frac_sound in Ef as (-> & Hfr).
    destruct (match_exp s2) as [ex s3] eqn:Ee.
    apply match_exp_sound in Ee as (-> & Hex).
    cbv zeta.
    assert (Hfloat : fr +:+ ex <> EmptyString ->
              match
                match py_float ((m +:+ ip) +:+ fr +:+ ex) with
                | Some f => Some (Ok (PyFloat f), s3)
                | None => Some (Raise ValueError, s3)
                end
              with
              | Some (Ok v0, r0) => Ok (v0, r0)
              | Some (Raise e, _) => Raise e
              | None => Raise JSONDecodeError
              end = Ok (v, r) ->
              exists t, m +:+ ip +:+ fr +:+ ex +:+ s3 = t +:+ r
                        /\ number t v /\ printable v = true).
    { intros Hne. rewrite string_app_assoc'.
      destruct (py_float (m +:+ ip +:+ fr +:+ ex)) as [f|] eqn:Epf; [|discriminate].
      intros [= <- <-]. exists (m +:+ ip +:+ fr +:+ ex).
      split; [now assoc_right|]. split; [now constructor|reflexivity]. }
    destruct fr as [|cf fr'].
    - destruct ex as [|ce ex'].
      + unfold py_int.
        destruct (Z.leb_spec (Z.of_nat (String.length ip)) max_str_digits) as [Hlen|];
          [|discriminate].
        intros [= <- <-]. exists (m +:+ ip). assoc_right.
        split; [reflexivity|]. split; [now constructor|].
        cbn [printable]. now apply int_of_text_within.
      + intros H. destruct (Hfloat ltac:(discriminate) H) as (t & Ht & Hn & Hp).
        exists t. auto.
    - intros H. apply Hfloat; [discriminate|]. destruct ex; exact H. }
  destruct s as [|c s']; [apply (H EmptyString EmptyString); [constructor|reflexivity]|].
  destruct (Ascii.eqb_spec c "-") as [->|Hc].
  - apply (H "-" s'); [constructor|reflexivity].
  - assert (Hs : match String c s' with
                 | String "-" r0 => ("-", r0)
                 | _ => (EmptyString, String c s')
                 end = (EmptyString, String c s')).
    { revert Hc. case_char c; try reflexivity. intros Hc. now elim Hc. }
    rewrite Hs. apply (H EmptyString (String c s')); [constructor|reflexivity].
Qed.


(** The loops of the decoder, one step unfolded, with tests on the
    character met. *)
Lemma array_items_eq scan (fuel : nat) (s : string) (acc : list pyobj) :
  array_items scan (S fuel) s acc
  = match scan s with
    | Raise e => Raise e
    | Ok (v, s1) =>
        match skip_ws s1 with
        | EmptyString => Raise JSONDecodeError
        | String ch s2 =>
            if Ascii.eqb ch "]" then Ok (PyList (List.rev (v :: acc)), s2)
            else if Ascii.eqb ch "," then array_items scan fuel (skip_ws s2) (v :: acc)
            else Raise JSONDecodeError
        end
    end.
Proof.
  cbn [array_items]. destruct (scan s) as [[v s1]|e]; [|reflexivity].
  destruct (skip_ws s1) as [|ch s2]; [reflexivity|]. case_char ch; reflexivity.
Qed.

Lemma JSONArray_eq scan (s : string) :
  JSONArray scan s
  = match skip_ws s with
    | EmptyString => array_items scan 1 EmptyString []
    | String ch s1 =>
        if Ascii.eqb ch "]" then Ok (PyList [], s1)
        else array_items scan (S (String.length (String ch s1))) (String ch s1) []
    end.
Proof.
  unfold JSONArray. destruct (skip_ws s) as [|ch s1]; [reflexivity|].
  case_char ch; reflexivity.
Qed.

Lemma object_items_eq scan (fuel : nat) (s : string) (acc : dict) :
  object_items scan (S fuel) s acc
  = match scanstring s EmptyString with
    | Raise e => Raise e
    | Ok (key, s1) =>
        match skip_ws s1 with
        | EmptyString => Raise JSONDecodeError
        | String colon s2 =>
            if Ascii.eqb colon ":" then
              match scan (skip_ws s2) with
              | Raise e => Raise e
              | Ok (value, s3) =>
                  match skip_ws s3 with
                  | EmptyString => Raise JSONDecodeError
                  | String ch s4 =>
                      if Ascii.eqb ch "}" then Ok (PyDict (dict_set key value acc), s4)
                      else if Ascii.eqb ch "," then
                        match skip_ws s4 with
                        | String q s5 =>
                            if Ascii.eqb q dquote
                            then object_items scan fuel s5 (dict_set key value acc)
                            else Raise JSONDecodeError
                        | EmptyString => Raise JSONDecodeError
                        end
                      else Raise JSONDecodeError
                  end
              end
            else Raise JSONDecodeError
        end
    end.
Proof.
  cbn [object_items]. destruct (scanstring s EmptyString) as [[key s1]|e]; [|reflexivity].
  destruct (skip_ws s1) as [|colon s2]; [reflexivity|].
  case_char colon; try reflexivity.
  destruct (scan (skip_ws s2)) as [[value s3]|e]; [|reflexivity].
  destruct (skip_ws s3) as [|ch s4]; [reflexivity|]. case_char ch; reflexivity.
Qed.

Lemma dict_set_printable (key : string) (v : pyobj) (acc : dict) :
  printable v = true ->
  forallb (fun kv => printable (snd kv)) acc = true ->
  forallb (fun kv => printable (snd kv)) (dict_set key v acc) = true.
Proof.
  intros Hv. induction acc as [|[k' v'] acc IH]; cbn [dict_set forallb snd].
  - intros _. now rewrite Hv.
  - intros H. apply andb_true_iff in H as [H1 H2].
    destruct (String.eqb k' key); cbn [forallb snd].
    + now rewrite Hv, H2.
    + now rewrite H1, (IH H2).
Qed.

Section ContainersSound.

Variable extended : bool.
Variable scan : string -> res (pyobj * string).
Hypothesis scan_sound : sound_scan extended scan.

Lemma array_items_sound : forall fuel s acc v r,
  array_items scan fuel s acc = Ok (v, r) ->
  exists body vs,
    s = body +:+ String "]" r
    /\ (forall w, ws w -> elements extended (w +:+ body) vs)
    /\ v = PyList (List.rev acc ++ vs)
    /\ forallb printable vs = true.
Proof.
  induction fuel as [|fuel IH]; intros s acc v r; [discriminate|].
  rewrite array_items_eq.
  destruct (scan s) as [[v1 s1]|e] eqn:E; [|discriminate].
  apply scan_sound in E as (t & -> & Hv & Hp).
  destruct (skip_ws_split s1) as (w2 & Hw2 & Hs1).
  destruct (skip_ws s1) as [|ch s2]; [discriminate|].
  destruct (Ascii.eqb_spec ch "]") as [->|_].
  - intros [= <- <-]. exists (t +:+ w2), [v1]. rewrite Hs1.
    split; [now assoc_right|]. split; [|split; [reflexivity|cbn; now rewrite Hp]].
    intros w Hw. now apply elements_last.
  - destruct (Ascii.eqb_spec ch ",") as [->|_]; [|discriminate].
    intros H. apply IH in H as (body & vs & Hb & He & -> & Hps).
    destruct (skip_ws_split s2) as (w3 & Hw3 & Hs2). rewrite Hb in Hs2.
    exists (t +:+ w2 +:+ "," +:+ w3 +:+ body), (v1 :: vs). rewrite Hs1, Hs2.
    split; [now assoc_right|]. split; [|split].
    + intros w Hw. apply elements_more; auto.
    + cbn [List.rev]. now rewrite <- app_assoc.
    + cbn [forallb]. now rewrite Hp, Hps.
Qed.

Lemma JSONArray_sound (s : string) (v : pyobj) (r : string) :
  JSONArray scan s = Ok (v, r) ->
  exists t, String "[" s = t +:+ r /\ value extended t v /\ printable v = true.
Proof.
  rewrite JSONArray_eq. destruct (skip_ws_split s) as (w & Hw & Hs).
  assert (H : forall fuel,
            array_items scan fuel (skip_ws s) [] = Ok (v, r) ->
            exists t, String "[" s = t +:+ r /\ value extended t v /\ printable v = true).
  { intros fuel H. apply array_items_sound in H as (body & vs & Hb & He & -> & Hps).
    rewrite Hb in Hs. exists ("[" +:+ (w +:+ body) +:+ "]"). rewrite Hs.
    split; [now assoc_right|]. split; [apply value_array; now apply He|exact Hps]. }
  destruct (skip_ws s) as [|ch s1] eqn:E; [apply H|].
  destruct (Ascii.eqb_spec ch "]") as [->|_]; [|apply H].
  intros [= <- <-]. exists ("[" +:+ w +:+ "]"). rewrite Hs.
  split; [now assoc_right|]. split; [now apply value_empty_array|reflexivity].
Qed.

Lemma object_items_sound : forall fuel s acc v r,
  forallb (fun kv => printable (snd kv)) acc = true ->
  object_items scan fuel s acc = Ok (v, r) ->
  exists body d,
    s = body +:+ String "}" r
    /\ (forall w, ws w -> members extended (w +:+ String dquote body) acc d)
    /\ v = PyDict d
    /\ forallb (fun kv => printable (snd kv)) d = true.
Proof.
  induction fuel as [|fuel IH]; intros s acc v r Hacc; [discriminate|].
  rewrite object_items_eq.
  destruct (scanstring s EmptyString) as [[key s1]|e] eqn:Ek; [|discriminate].
  apply (scanstring_sound (String.length s)) in Ek as (k & key' & -> & Hk & ->); [|lia].
  change (reverse EmptyString +:+ key') with key'.
  destruct (skip_ws_split s1) as (w2 & Hw2 & Hs1).
  destruct (skip_ws s1) as [|colon s2]; [discriminate|].
  destruct (Ascii.eqb_spec colon ":") as [->|_]; [|discriminate].
  destruct (skip_ws_split s2) as (w3 & Hw3 & Hs2).
  destruct (scan (skip_ws s2)) as [[v1 s3]|e] eqn:E; [|discriminate].
  apply scan_sound in E as (t & Ht & Hv & Hp). rewrite Ht in Hs2.
  destruct (skip_ws_split s3) as (w4 & Hw4 & Hs3).
  destruct (skip_ws s3) as [|ch s4]; [discriminate|].
  pose proof (dict_set_printable key' v1 acc Hp Hacc) as Hacc'.
  destruct (Ascii.eqb_spec ch "}") as [->|_].
  - intros [= <- <-].
    exists (k +:+ String dquote (w2 +:+ ":" +:+ w3 +:+ t +:+ w4)), (dict_set key' v1 acc).
    rewrite Hs1, Hs2, Hs3.
    split; [now assoc_right|]. split; [|split; [reflexivity|exact Hacc']].
    intros w Hw. eapply members_last; eassumption.
  - destruct (Ascii.eqb_spec ch ",") as [->|_]; [|discriminate].
    destruct (skip_ws_split s4) as (w5 & Hw5 & Hs4).
    destruct (skip_ws s4) as [|q s5]; [discriminate|].
    destruct (Ascii.eqb_spec q dquote) as [->|_]; [|discriminate].
    intros H. apply IH in H as (body & d & Hb & Hm & -> & Hd); [|exact Hacc'].
    exists (k +:+ String dquote (w2 +:+ ":" +:+ w3 +:+ t +:+ w4 +:+ ","
                                  +:+ w5 +:+ String dquote body)), d.
    rewrite Hs1, Hs2, Hs3, Hs4, Hb.
    split; [now assoc_right|]. split; [|split; [reflexivity|exact Hd]].
    intros w Hw. eapply members_more; eauto.
Qed.

Lemma JSONObject_sound (s : string) (v : pyobj) (r : string) :
  JSONObject scan s = Ok (v, r) ->
  exists t, String "{" s = t +:+ r /\ value extended t v /\ printable v = true.
Proof.
  unfold JSONObject. destruct (skip_ws_split s) as (w & Hw & Hs).
  destruct (skip_ws s) as [|ch s1]; [discriminate|].
  destruct (Ascii.eqb_spec ch "}") as [->|_].
  - intros [= <- <-]. exists ("{" +:+ w +:+ "}"). rewrite Hs.
    split; [now assoc_right|]. split; [now apply value_empty_object|reflexivity].
  - destruct (Ascii.eqb_spec ch dquote) as [->|_]; [|discriminate].
    intros H. apply object_items_sound in H as (body & d & Hb & Hm & -> & Hd); [|reflexivity].
    exists ("{" +:+ (w +:+ String dquote body) +:+ "}"). rewrite Hs, Hb.
    split; [now assoc_right|]. split; [apply value_object; now apply Hm|exact Hd].
Qed.

End ContainersSound.

(** A name at the head of the text. *)
Lemma literal_sound (extended : bool) (p : string) (x : pyobj) (s : string)
    (other : res (pyobj * string)) (v : pyobj) (r : string) :
  value extended p x -> printable x = true ->
  (other = Ok (v, r) ->
   exists t, s = t +:+ r /\ value extended t v /\ printable v = true) ->
  (if startswith p s then Ok (x, drop_prefix (String.length p) s) else other) = Ok (v, r) ->
  exists t, s = t +:+ r /\ value extended t v /\ printable v = true.
Proof.
  intros Hv Hp Hother. destruct (startswith p s) eqn:E; [|exact Hother].
  apply startswith_split in E. intros [= <- <-]. exists p. auto.
Qed.

(** [scan_once] returns a value of the grammar, which is the extended one
    when the hook for the three names is the default. *)
Lemma scan_once_sound (constants : bool) (depth : nat) :
  sound_scan constants (scan_once constants depth).
Proof.
  induction depth as [|d IH]; intros s v r; rewrite scan_once_eq;
    (destruct s as [|c s]; [discriminate|]);
    (destruct (Ascii.eqb_spec c dquote) as [->|_];
      [destruct (scanstring s EmptyString) as [[str r']|e] eqn:E; [|discriminate];
       apply (scanstring_sound (String.length s)) in E as (t & d' & -> & Hc & ->); [|lia];
       intros [= <- <-]; exists (String dquote (t +:+ String dquote EmptyString));
       split; [now assoc_right|]; split; [now apply value_string|reflexivity]|]);
    (destruct (Ascii.eqb_spec c "{") as [->|_];
      [first [discriminate | now apply JSONObject_sound]|]);
    (destruct (Ascii.eqb_spec c "[") as [->|_];
      [first [discriminate | now apply JSONArray_sound]|]);
    (apply (literal_sound constants "null"); [constructor|reflexivity|]);
    (apply (literal_sound constants "true"); [constructor|reflexivity|]);
    (apply (literal_sound constants "false"); [constructor|reflexivity|]);
    (destruct constants; cbn [andb];
     [apply (literal_sound true "NaN"); [now constructor|reflexivity|];
      apply (literal_sound true "Infinity"); [now constructor|reflexivity|];
      apply (literal_sound true "-Infinity"); [now constructor|reflexivity|]
     |]);
    intros H; apply number_or_fail_sound in H as (t & Ht & Hn & Hp);
    exists t; (split; [exact Ht|]); (split; [now apply value_number|exact Hp]).
Qed.

(** [JSONDecoder.decode] returns the value of a JSON text. *)
Lemma decode_sound (constants : bool) (depth : nat) (s : string) (v : pyobj) :
  decode constants depth s = Ok v -> json_text constants s v /\ printable v = true.
Proof.
  unfold decode. destruct (skip_ws_split s) as (w1 & Hw1 & Hs).
  destruct (scan_once constants depth (skip_ws s)) as [[v' r]|e] eqn:E; [|discriminate].
  apply scan_once_sound in E as (t & Ht & Hv & Hp). rewrite Ht in Hs.
  destruct (skip_ws r) as [|ch r'] eqn:Er; [|discriminate].
  intros [= <-]. split; [|exact Hp].
  exists w1, t, r. split; [exact Hs|]. split; [exact Hw1|]. split; [exact Hv|].
  now apply skip_ws_empty.
Qed.

End DecoderSound.

(** *** The decoder returns the value of a text of the grammar, unless a
    limit is met *)

Section DecoderComplete.
Import PyStr PyFloat PyRepr PyDictOps Json JsonText.

Lemma chars_complete (t d : string) :
  chars t d ->
  forall acc r, scanstring (t +:+ String dquote r) acc = Ok (reverse acc +:+ d, r).
Proof.
  induction 1 as [|c t d (Hge & Hq & Hb) _ IH|e c t d He _ IH
                  |h1 h2 h3 h4 uni t d Hhex Hlt _ IH]; intros acc r.
  - rewrite string_app_nil_l, string_app_nil_r. cbn [scanstring].
    now rewrite Ascii.eqb_refl.
  - rewrite string_app_cons. cbn [scanstring].
    apply Ascii.eqb_neq in Hq, Hb. rewrite Hq, Hb.
    apply N.ltb_ge in Hge. rewrite Hge, IH, str_reverse_cons. now assoc_right.
  - rewrite !string_app_cons. cbn [scanstring].
    change (Ascii.eqb "\" dquote) with false. change (Ascii.eqb "\" "\") with true.
    cbv iota. rewrite (escape_not_u e c He).
    apply backslash_escape in He. rewrite He, IH, str_reverse_cons. now assoc_right.
  - rewrite !string_app_cons. cbn [scanstring].
    change (Ascii.eqb "\" dquote) with false. change (Ascii.eqb "\" "\") with true.
    change (Ascii.eqb "u" "u") with true. cbv iota.
    apply N.ltb_lt in Hlt. rewrite Hhex, Hlt, IH, str_reverse_cons. now assoc_right.
Qed.

Lemma span_digits_complete (ds r : string) :
  digit_run ds -> no_digit_head r -> span_digits (ds +:+ r) = (ds, r).
Proof.
  intros Hd Hr. induction Hd as [|c ds Hc _ IH].
  - rewrite string_app_nil_l. destruct r as [|c r]; [reflexivity|].
    cbn [span_digits]. cbn in Hr. now rewrite Hr.
  - rewrite string_app_cons. cbn [span_digits].
    apply is_decimal_digit in Hc. now rewrite Hc, IH.
Qed.

Lemma follow_no_frac (r : string) : follow r -> no_frac_head r.
Proof. destruct r; [trivial|]. cbn. tauto. Qed.

Lemma no_frac_no_digit (r : string) : no_frac_head r -> no_digit_head r.
Proof. destruct r; [trivial|]. cbn. tauto. Qed.

Lemma match_integer_complete (ip r : string) :
  int_part ip -> no_digit_head r -> match_integer (ip +:+ r) = Some (ip, r).
Proof.
  intros [|c ds Hc Hd] Hr; [reflexivity|].
  rewrite string_app_cons. unfold match_integer.
  assert (H0 : Ascii.eqb c "0" = false).
  { apply Ascii.eqb_neq. intros ->. unfold digit1_9 in Hc. cbn in Hc. lia. }
  apply in_range_digit1_9 in Hc. rewrite H0, Hc, (span_digits_complete ds r Hd Hr).
  reflexivity.
Qed.

Lemma match_frac_none (s : string) : no_frac_head s -> match_frac s = (EmptyString, s).
Proof.
  destruct s as [|c s]; [reflexivity|]. intros [_ Hc]. unfold match_frac.
  revert Hc. case_char c; try reflexivity. intros Hc. now elim Hc.
Qed.

Lemma match_frac_complete (fr r : string) :
  opt_frac fr -> no_frac_head r -> match_frac (fr +:+ r) = (fr, r).
Proof.
  intros [|c ds Hc Hd] Hr.
  - rewrite string_app_nil_l. now apply match_frac_none.
  - rewrite !string_app_cons. unfold match_frac.
    rewrite <- string_app_cons.
    rewrite (span_digits_complete (String c ds) r);
      [reflexivity|now constructor|now apply no_frac_no_digit].
Qed.

Lemma match_exp_none (s : string) :
  match s with
  | EmptyString => True
  | String c _ => c <> "e"%char /\ c <> "E"%char
  end ->
  match_exp s = (EmptyString, s).
Proof.
  destruct s as [|c s]; [reflexivity|]. intros [H1 H2]. unfold match_exp.
  apply Ascii.eqb_neq in H1, H2. now rewrite H1, H2.
Qed.

Lemma sign_of_text (sg : string) (c : ascii) (x : string) :
  opt_sign sg -> digit c ->
  match sg +:+ String c x with
  | String "-" r0 => ("-", r0)
  | String "+" r0 => ("+", r0)
  | _ => (EmptyString, sg +:+ String c x)
  end = (sg, String c x).
Proof.
  intros [ | | ] Hc; try reflexivity.
  rewrite string_app_nil_l. apply is_decimal_digit in Hc. revert Hc.
  case_char c; try discriminate; reflexivity.
Qed.

Lemma match_exp_complete (ex r : string) :
  opt_exp ex -> follow r -> match_exp (ex +:+ r) = (ex, r).
Proof.
  intros [|e c sg ds He Hsg Hc Hd] Hr.
  - rewrite string_app_nil_l. apply match_exp_none. destruct r; [trivial|]. cbn in Hr. tauto.
  - assert (Hrun : span_digits (String c (ds +:+ r)) = (String c ds, r)).
    { rewrite <- string_app_cons. apply span_digits_complete; [now constructor|].
      destruct r; [trivial|]. cbn in Hr. cbn. tauto. }
    assert (Hee : Ascii.eqb e "e" || Ascii.eqb e "E" = true).
    { destruct He as [-> | ->]; reflexivity. }
    rewrite string_app_cons, string_app_assoc', string_app_cons.
    unfold match_exp. rewrite Hee, (sign_of_text sg c (ds +:+ r) Hsg Hc), Hrun.
    reflexivity.
Qed.

Lemma opt_exp_no_frac (ex r : string) : opt_exp ex -> follow r -> no_frac_head (ex +:+ r).
Proof.
  intros [|e c sg ds He _ _ _] Hr.
  - rewrite string_app_nil_l. now apply follow_no_frac.
  - rewrite string_app_cons. cbn. destruct He as [-> | ->]; split; (reflexivity || discriminate).
Qed.

Lemma opt_frac_no_digit (fr x : string) :
  opt_frac fr -> no_frac_head x -> no_digit_head (fr +:+ x).
Proof.
  intros [|c ds _ _] Hx.
  - rewrite string_app_nil_l. now apply no_frac_no_digit.
  - rewrite string_app_cons. reflexivity.
Qed.

Lemma minus_of_digit (c : ascii) (s : string) :
  is_decimal c = true ->
  match String c s with
  | String "-" r => ("-", r)
  | _ => (EmptyString, String c s)
  end = (EmptyString, String c s).
Proof. case_char c; try discriminate; reflexivity. Qed.

(** The scan of a number of the grammar, followed by a text that does not
    go on with a number. *)
Lemma match_number_complete (m ip fr ex r : string) :
  opt_minus m -> int_part ip -> opt_frac fr -> opt_exp ex -> follow r ->
  match_number (m +:+ ip +:+ fr +:+ ex +:+ r)
  = match fr, ex with
    | EmptyString, EmptyString =>
        match py_int (m +:+ ip) ip with
        | Ok n => Some (Ok (PyInt n), r)
        | Raise e => Some (Raise e, r)
        end
    | _, _ =>
        match py_float ((m +:+ ip) +:+ fr +:+ ex) with
        | Some f => Some (Ok (PyFloat f), r)
        | None => Some (Raise ValueError, r)
        end
    end.
Proof.
  intros Hm Hip Hfr Hex Hr. unfold match_number.
  assert (Hsign : match m +:+ ip +:+ fr +:+ ex +:+ r with
                  | String "-" r0 => ("-", r0)
                  | _ => (EmptyString, m +:+ ip +:+ fr +:+ ex +:+ r)
                  end = (m, ip +:+ fr +:+ ex +:+ r)).
  { destruct Hm; assoc_right; [|reflexivity].
    destruct (int_part_head ip Hip) as (c & ds & -> & Hc).
    rewrite string_app_cons. now apply minus_of_digit. }
  rewrite Hsign.
  rewrite (match_integer_complete ip (fr +:+ ex +:+ r) Hip)
    by (apply opt_frac_no_digit; [exact Hfr|now apply opt_exp_no_frac]).
  rewrite (match_frac_complete fr (ex +:+ r) Hfr) by now apply opt_exp_no_frac.
  rewrite (match_exp_complete ex r Hex Hr). reflexivity.
Qed.

Lemma number_complete (t : string) (v : pyobj) :
  number t v ->
  forall r, follow r -> returns_within_limits (number_or_fail (t +:+ r)) (v, r).
Proof.
  intros [m ip Hm Hip|m ip fr ex f Hm Hip Hfr Hex Hne Hf] r Hr; unfold number_or_fail.
  - pose proof (match_number_complete m ip EmptyString EmptyString r Hm Hip
                  no_frac no_exp Hr) as H.
    rewrite !string_app_nil_l in H. rewrite string_app_assoc', H.
    unfold py_int. destruct (Z.of_nat (String.length ip) <=? max_str_digits)%Z.
    + left. reflexivity.
    + right. exists ValueError. split; [right; reflexivity|reflexivity].
  - pose proof (match_number_complete m ip fr ex r Hm Hip Hfr Hex Hr) as H.
    rewrite !string_app_assoc', H. rewrite string_app_assoc', Hf.
    left. destruct fr; [destruct ex; [now elim Hne|reflexivity]|reflexivity].
Qed.


Lemma digit_no_ws (c : ascii) :
  is_decimal c = true -> is_ws c = false /\ c <> "]"%char.
Proof. case_char c; try discriminate; intros _; split; (reflexivity || discriminate). Qed.

(** A value starts with a character that is no white space and no closing
    bracket. *)
Lemma value_head (extended : bool) (t : string) (v : pyobj) :
  value extended t v ->
  exists ch t', t = String ch t' /\ is_ws ch = false /\ ch <> "]"%char.
Proof.
  assert (Hlit : forall ch t', is_ws ch = false -> ch <> "]"%char ->
            exists ch0 t0, String ch t' = String ch0 t0 /\ is_ws ch0 = false /\ ch0 <> "]"%char)
    by (intros ch t' H1 H2; exists ch, t'; auto).
  destruct 1 as [ | | | | | |t v Hn|t d _|w _|body vs _|w _|body d _];
    try (apply Hlit; [reflexivity|discriminate]).
  assert (Hnum : forall m ip x, opt_minus m -> int_part ip ->
            exists ch t', m +:+ ip +:+ x = String ch t' /\ is_ws ch = false /\ ch <> "]"%char).
  { intros m ip x [|] Hip.
    - destruct (int_part_head ip Hip) as (c & ds & -> & Hc). assoc_right.
      exists c, (ds +:+ x). split; [reflexivity|]. now apply digit_no_ws.
    - assoc_right. apply Hlit; [reflexivity|discriminate]. }
  destruct Hn as [m ip Hm Hip|m ip fr ex f Hm Hip _ _ _ _].
  - rewrite <- (string_app_nil_r ip). now apply Hnum.
  - now apply Hnum.
Qed.

Lemma ws_char_follow (c : ascii) :
  ws_char c -> is_decimal c = false /\ c <> "."%char /\ c <> "e"%char /\ c <> "E"%char.
Proof.
  intros Hc. apply ws_char_is_ws in Hc. revert Hc.
  case_char c; try discriminate; intros _; repeat split; discriminate.
Qed.

(** White space, and then a separator, do not go on with a number. *)
Lemma follow_ws (w x : string) : ws w -> follow x -> follow (w +:+ x).
Proof.
  intros [|c w' Hc _] Hx; [exact Hx|].
  rewrite string_app_cons. cbn. now apply ws_char_follow.
Qed.

Lemma follow_separator (ch : ascii) (x : string) :
  ch = "]"%char \/ ch = ","%char \/ ch = "}"%char -> follow (String ch x).
Proof. intros [-> | [-> | ->]]; cbn; repeat split; discriminate. Qed.

(** Where a number starts, [scan_once] reads a number. *)
Lemma scan_once_number (constants : bool) (depth : nat) (m ip x : string) :
  opt_minus m -> int_part ip ->
  scan_once constants depth (m +:+ ip +:+ x) = number_or_fail (m +:+ ip +:+ x).
Proof.
  intros Hm Hip. destruct (int_part_head ip Hip) as (c & ds & -> & Hc).
  rewrite scan_once_eq. destruct Hm; assoc_right; generalize (ds +:+ x); intros y;
    revert Hc; case_char c; try discriminate; intros _;
    destruct depth, constants; reflexivity.
Qed.

(** The length of a text, part by part. *)
Ltac len_norm :=
  repeat first [progress rewrite length_string_app in *
               | progress cbn [String.length] in *].

Scheme value_mind := Minimality for JsonText.value Sort Prop
  with elements_mind := Minimality for JsonText.elements Sort Prop
  with members_mind := Minimality for JsonText.members Sort Prop.

Combined Scheme grammar_mind from value_mind, elements_mind, members_mind.

(** A limit met by a part is met by the whole. *)
Lemma limit_raised {A B} (x : res A) (a : A) (k : res A -> res B) :
  returns_within_limits x a ->
  (forall e, k (Raise e) = Raise e) ->
  forall b, (x = Ok a -> returns_within_limits (k x) b) ->
  returns_within_limits (k x) b.
Proof.
  intros [Hx|(e & He & Hx)] Hk b Hok; [now apply Hok|].
  right. exists e. split; [exact He|]. now rewrite Hx, Hk.
Qed.

Lemma is_ws_dquote : is_ws dquote = false.
Proof. reflexivity. Qed.

(** The first character after the white space in front of the first
    element. *)
Lemma elements_head (extended : bool) (body : string) (vs : list pyobj) (z : string) :
  elements extended body vs ->
  exists ch x, skip_ws (body +:+ z) = String ch x /\ ch <> "]"%char.
Proof.
  intros [w1 t w2 v Hw1 Hv Hw2|w1 t w2 rest v vs' Hw1 Hv Hw2 _];
    destruct (value_head _ _ _ Hv) as (ch & t' & -> & Hws & Hch);
    assoc_right; rewrite (skip_ws_app _ _ Hw1), (skip_ws_head _ _ Hws); eauto.
Qed.

Lemma grammar_complete (extended : bool) :
  (forall t v,
     value extended t v ->
     forall depth r,
       follow r ->
       returns_within_limits (scan_once extended depth (t +:+ r)) (v, r))
  /\ (forall body vs,
        elements extended body vs ->
        forall depth r acc fuel,
          String.length (skip_ws (body +:+ String "]" r)) < fuel ->
          returns_within_limits
            (array_items (scan_once extended depth) fuel
               (skip_ws (body +:+ String "]" r)) acc)
            (PyList (List.rev acc ++ vs), r))
  /\ (forall body acc d,
        members extended body acc d ->
        forall depth r,
        exists body',
          skip_ws (body +:+ String "}" r) = String dquote body'
          /\ forall fuel,
               String.length body' < fuel ->
               returns_within_limits
                 (object_items (scan_once extended depth) fuel body' acc)
                 (PyDict d, r)).
Proof.
  apply grammar_mind.
  - (* null *)
    intros depth r _. left. assoc_right. destruct depth; reflexivity.
  - intros depth r _. left. assoc_right. destruct depth; reflexivity.
  - intros depth r _. left. assoc_right. destruct depth; reflexivity.
  - intros -> depth r _. left. assoc_right. destruct depth; reflexivity.
  - intros -> depth r _. left. assoc_right. destruct depth; reflexivity.
  - intros -> depth r _. left. assoc_right. destruct depth; reflexivity.
  - (* number *)
    intros t v Hn depth r Hr.
    assert (Hscan : scan_once extended depth (t +:+ r) = number_or_fail (t +:+ r)).
    { destruct Hn as [m ip Hm Hip|m ip fr ex f Hm Hip _ _ _ _].
      - rewrite string_app_assoc'. now apply scan_once_number.
      - rewrite !string_app_assoc'. now apply scan_once_number. }
    rewrite Hscan. now apply number_complete.
  - (* string *)
    intros t d Hc depth r _. left. rewrite scan_once_eq. assoc_right.
    rewrite Ascii.eqb_refl, (chars_complete t d Hc EmptyString r). reflexivity.
  - (* empty array *)
    intros w Hw depth r _. rewrite scan_once_eq. assoc_right.
    change (Ascii.eqb "[" dquote) with false. cbv iota.
    change (Ascii.eqb "[" "{") with false. change (Ascii.eqb "[" "[") with true. cbv iota.
    destruct depth as [|depth];
      [right; exists RecursionError; split; [left|]; reflexivity|].
    left. rewrite JSONArray_eq, (skip_ws_app _ _ Hw). reflexivity.
  - (* array *)
    intros body vs He IH depth r _. rewrite scan_once_eq. assoc_right.
    change (Ascii.eqb "[" dquote) with false. cbv iota.
    change (Ascii.eqb "[" "{") with false. change (Ascii.eqb "[" "[") with true. cbv iota.
    destruct depth as [|depth];
      [right; exists RecursionError; split; [left|]; reflexivity|].
    rewrite JSONArray_eq.
    specialize (IH depth r [] (S (String.length (skip_ws (body +:+ String "]" r))))
                  ltac:(lia)).
    destruct (elements_head _ _ _ (String "]" r) He) as (ch & x & Hsk & Hch).
    rewrite Hsk in *. apply Ascii.eqb_neq in Hch. rewrite Hch. exact IH.
  - (* empty object *)
    intros w Hw depth r _. rewrite scan_once_eq. assoc_right.
    change (Ascii.eqb "{" dquote) with false. cbv iota.
    change (Ascii.eqb "{" "{") with true. cbv iota.
    destruct depth as [|depth];
      [right; exists RecursionError; split; [left|]; reflexivity|].
    left. unfold JSONObject. rewrite (skip_ws_app _ _ Hw). reflexivity.
  - (* object *)
    intros body d Hm IH depth r _. rewrite scan_once_eq. assoc_right.
    change (Ascii.eqb "{" dquote) with false. cbv iota.
    change (Ascii.eqb "{" "{") with true. cbv iota.
    destruct depth as [|depth];
      [right; exists RecursionError; split; [left|]; reflexivity|].
    destruct (IH depth r) as (body' & Hsk & Hrun).
    unfold JSONObject. rewrite Hsk.
    change (Ascii.eqb dquote "}") with false. rewrite Ascii.eqb_refl. cbv iota.
    apply Hrun. lia.
  - (* the last element *)
    intros w1 t w2 v Hw1 Hv IH Hw2 depth r acc fuel Hfuel.
    destruct (value_head _ _ _ Hv) as (ch & t' & Ht & Hws & _).
    assert (Hsk : skip_ws ((w1 +:+ t +:+ w2) +:+ String "]" r)
                  = t +:+ w2 +:+ String "]" r).
    { assoc_right. rewrite (skip_ws_app _ _ Hw1), Ht. assoc_right.
      now apply skip_ws_head. }
    rewrite Hsk in *. destruct fuel as [|fuel]; [lia|].
    rewrite array_items_eq.
    specialize (IH depth (w2 +:+ String "]" r)
                  (follow_ws _ _ Hw2 (follow_separator "]" r (or_introl eq_refl)))).
    destruct IH as [IH|(e & He & IH)]; rewrite IH;
      [|right; exists e; split; [exact He|reflexivity]].
    left. rewrite (skip_ws_app _ _ Hw2). cbn [skip_ws].
    change (is_ws "]") with false. cbv iota. rewrite Ascii.eqb_refl. reflexivity.
  - (* an element and more *)
    intros w1 t w2 rest v vs Hw1 Hv IH Hw2 Hrest IHrest depth r acc fuel Hfuel.
    destruct (value_head _ _ _ Hv) as (ch & t' & Ht & Hws & _).
    assert (Hsk : skip_ws ((w1 +:+ t +:+ w2 +:+ "," +:+ rest) +:+ String "]" r)
                  = t +:+ w2 +:+ String "," (rest +:+ String "]" r)).
    { assoc_right. rewrite (skip_ws_app _ _ Hw1), Ht. assoc_right.
      now apply skip_ws_head. }
    rewrite Hsk in *. destruct fuel as [|fuel]; [lia|].
    rewrite array_items_eq.
    specialize (IH depth (w2 +:+ String "," (rest +:+ String "]" r))
                  (follow_ws _ _ Hw2
                     (follow_separator "," _ (or_intror (or_introl eq_refl))))).
    destruct IH as [IH|(e & He & IH)]; rewrite IH;
      [|right; exists e; split; [exact He|reflexivity]].
    rewrite (skip_ws_app _ _ Hw2). cbn [skip_ws].
    change (is_ws ",") with false. cbv iota.
    change (Ascii.eqb "," "]") with false. rewrite Ascii.eqb_refl. cbv iota.
    assert (Hlen : String.length (skip_ws (rest +:+ String "]" r)) < fuel).
    { pose proof (skip_ws_length (rest +:+ String "]" r)) as L.
      rewrite Ht in Hfuel. clear - L Hfuel. len_norm. lia. }
    specialize (IHrest depth r (v :: acc) fuel Hlen).
    cbn [List.rev] in IHrest. rewrite <- app_assoc in IHrest. exact IHrest.
  - (* the last member *)
    intros w1 k w2 w3 t w4 key v acc Hw1 Hk Hw2 Hw3 Hv IH Hw4 depth r.
    destruct (value_head _ _ _ Hv) as (ch & t' & Ht & Hws & _).
    exists (k +:+ String dquote (w2 +:+ String ":" (w3 +:+ t +:+ w4 +:+ String "}" r))).
    split.
    { assoc_right. rewrite (skip_ws_app _ _ Hw1). now rewrite (skip_ws_head _ _ is_ws_dquote). }
    intros fuel Hfuel. destruct fuel as [|fuel]; [lia|].
    rewrite object_items_eq, (chars_complete k key Hk EmptyString).
    rewrite (skip_ws_app _ _ Hw2). cbn [skip_ws].
    change (is_ws ":") with false. cbv iota. rewrite Ascii.eqb_refl.
    rewrite (skip_ws_app _ _ Hw3), Ht. assoc_right. rewrite (skip_ws_head _ _ Hws).
    rewrite <- string_app_cons, <- Ht.
    specialize (IH depth (w4 +:+ String "}" r)
                  (follow_ws _ _ Hw4
                     (follow_separator "}" r (or_intror (or_intror eq_refl))))).
    destruct IH as [IH|(e & He & IH)]; rewrite IH;
      [|right; exists e; split; [exact He|reflexivity]].
    left. rewrite (skip_ws_app _ _ Hw4). cbn [skip_ws].
    change (is_ws "}") with false. cbv iota. rewrite Ascii.eqb_refl. reflexivity.
  - (* a member and more *)
    intros w1 k w2 w3 t w4 rest key v acc d Hw1 Hk Hw2 Hw3 Hv IH Hw4 Hrest IHrest depth r.
    destruct (value_head _ _ _ Hv) as (ch & t' & Ht & Hws & _).
    destruct (IHrest depth r) as (body' & Hsk' & Hrun).
    exists (k +:+ String dquote
              (w2 +:+ String ":" (w3 +:+ t +:+ w4 +:+ String "," (rest +:+ String "}" r)))).
    split.
    { assoc_right. rewrite (skip_ws_app _ _ Hw1). now rewrite (skip_ws_head _ _ is_ws_dquote). }
    intros fuel Hfuel. destruct fuel as [|fuel]; [lia|].
    rewrite object_items_eq, (chars_complete k key Hk EmptyString).
    rewrite (skip_ws_app _ _ Hw2). cbn [skip_ws].
    change (is_ws ":") with false. cbv iota. rewrite Ascii.eqb_refl.
    rewrite (skip_ws_app _ _ Hw3), Ht. assoc_right. rewrite (skip_ws_head _ _ Hws).
    rewrite <- string_app_cons, <- Ht.
    specialize (IH depth (w4 +:+ String "," (rest +:+ String "}" r))
                  (follow_ws _ _ Hw4
                     (follow_separator "," _ (or_intror (or_introl eq_refl))))).
    destruct IH as [IH|(e & He & IH)]; rewrite IH;
      [|right; exists e; split; [exact He|reflexivity]].
    rewrite (skip_ws_app _ _ Hw4). cbn [skip_ws].
    change (is_ws ",") with false. cbv iota.
    change (Ascii.eqb "," "}") with false. rewrite Ascii.eqb_refl. cbv iota.
    rewrite Hsk', Ascii.eqb_refl.
    apply Hrun.
    pose proof (skip_ws_length (rest +:+ String "}" r)) as L. rewrite Hsk' in L.
    clear - L Hfuel. len_norm. lia.
Qed.

(** [JSONDecoder.decode] on a JSON text: the value of the text, unless a
    limit is met. *)
Lemma decode_complete (constants : bool) (depth : nat) (s : string) (v : pyobj) :
  json_text constants s v -> returns_within_limits (decode constants depth s) v.
Proof.
  intros (w1 & t & w2 & -> & Hw1 & Hv & Hw2). unfold decode.
  destruct (value_head _ _ _ Hv) as (ch & t' & Ht & Hws & _).
  rewrite (skip_ws_app _ _ Hw1), Ht. assoc_right. rewrite (skip_ws_head _ _ Hws).
  rewrite <- string_app_cons, <- Ht.
  destruct (proj1 (grammar_complete constants) t v Hv depth w2) as [H|(e & He & H)].
  - rewrite <- (string_app_nil_r w2). apply follow_ws; [exact Hw2|exact I].
  - rewrite H, (skip_ws_all _ Hw2). left. reflexivity.
  - rewrite H. right. exists e. split; [exact He|reflexivity].
Qed.

End DecoderComplete.

(** *** [float()] takes every number of the grammar *)

Section FloatLiterals.
Import PyStr PyFloat PyRepr Json JsonText.

Lemma all_chars_app (f : ascii -> bool) (a b : string) :
  all_chars f (a +:+ b) = all_chars f a && all_chars f b.
Proof.
  induction a as [|c a IH]; [reflexivity|].
  rewrite string_app_cons. cbn [all_chars]. now rewrite IH, andb_assoc.
Qed.

Lemma lstrip_float_plain (f : ascii -> bool) (s : string) :
  (forall c, f c = true -> is_float_space c = false) ->
  all_chars f s = true -> lstrip_float s = s.
Proof.
  intros Hf. destruct s as [|c s]; [reflexivity|]. cbn [all_chars lstrip_float].
  intros H. apply andb_true_iff in H as [H _]. now rewrite (Hf c H).
Qed.

Lemma strip_float_plain (f : ascii -> bool) (s : string) :
  (forall c, f c = true -> is_float_space c = false) ->
  all_chars f s = true -> strip_float s = s.
Proof.
  intros Hf Hs. unfold strip_float.
  rewrite (lstrip_float_plain f (reverse s) Hf) by now rewrite all_chars_reverse.
  rewrite str_reverse_involutive. now apply (lstrip_float_plain f).
Qed.

Lemma drop_underscores_plain (f : ascii -> bool) (s : string) :
  (forall c, f c = true -> Ascii.eqb c "_" = false) ->
  all_chars f s = true -> forall prev, drop_underscores prev s = Some s.
Proof.
  intros Hf. induction s as [|c s IH]; intros Hs prev; [reflexivity|].
  cbn [all_chars] in Hs. apply andb_true_iff in Hs as [Hc Hs].
  cbn [drop_underscores]. rewrite (Hf c Hc), (IH Hs). reflexivity.
Qed.

(** The characters of a number. *)
Lemma digit_run_chars (f : ascii -> bool) (ds : string) :
  (forall c, is_decimal c = true -> f c = true) ->
  digit_run ds -> all_chars f ds = true.
Proof.
  intros Hf. induction 1 as [|c ds Hc _ IH]; [reflexivity|].
  cbn [all_chars]. apply is_decimal_digit in Hc. now rewrite (Hf c Hc), IH.
Qed.

Lemma int_part_run (ip : string) :
  int_part ip -> digit_run ip /\ ip <> EmptyString.
Proof.
  intros [|c ds Hc Hd].
  - split; [|discriminate]. constructor; [|constructor]. unfold digit. cbn. lia.
  - split; [|discriminate]. constructor; [now apply digit1_9_digit|exact Hd].
Qed.

Lemma number_chars (m ip fr ex : string) :
  opt_minus m -> int_part ip -> opt_frac fr -> opt_exp ex ->
  all_chars (fun c => is_decimal c || Ascii.eqb c "-" || Ascii.eqb c "+"
                      || Ascii.eqb c "." || Ascii.eqb c "e" || Ascii.eqb c "E")
    (m +:+ ip +:+ fr +:+ ex) = true.
Proof.
  intros Hm Hip Hfr Hex. set (f := fun c : ascii => _).
  assert (Hf : forall c, is_decimal c = true -> f c = true)
    by (intros c Hc; unfold f; now rewrite Hc).
  rewrite !all_chars_app.
  assert (H1 : all_chars f m = true) by (destruct Hm; reflexivity).
  assert (H2 : all_chars f ip = true)
    by (apply digit_run_chars; [exact Hf|now apply int_part_run]).
  assert (H3 : all_chars f fr = true).
  { destruct Hfr as [|c ds Hc Hd]; [reflexivity|].
    cbn [all_chars]. apply is_decimal_digit in Hc.
    now rewrite (Hf c Hc), (digit_run_chars f ds Hf Hd). }
  assert (H4 : all_chars f ex = true).
  { destruct Hex as [|e c sg ds He Hsg Hc Hd]; [reflexivity|].
    cbn [all_chars]. rewrite all_chars_app. cbn [all_chars].
    apply is_decimal_digit in Hc.
    rewrite (Hf c Hc), (digit_run_chars f ds Hf Hd).
    assert (Hs : all_chars f sg = true) by (destruct Hsg; reflexivity).
    rewrite Hs. destruct He as [-> | ->]; reflexivity. }
  now rewrite H1, H2, H3, H4.
Qed.

Lemma number_char_plain (c : ascii) :
  is_decimal c || Ascii.eqb c "-" || Ascii.eqb c "+"
  || Ascii.eqb c "." || Ascii.eqb c "e" || Ascii.eqb c "E" = true ->
  is_float_space c = false /\ Ascii.eqb c "_" = false.
Proof. case_char c; try discriminate; intros _; split; reflexivity. Qed.

Lemma read_digits_run (ds rest : string) :
  digit_run ds -> no_digit_head rest ->
  forall acc n,
  exists v, read_digits (ds +:+ rest) acc n = (v, (n + Z.of_nat (String.length ds))%Z, rest).
Proof.
  intros Hd Hr. induction Hd as [|c ds Hc _ IH]; intros acc n.
  - rewrite string_app_nil_l. exists acc. cbn [String.length]. rewrite Z.add_0_r.
    destruct rest as [|c rest]; [reflexivity|]. cbn [read_digits]. cbn in Hr. now rewrite Hr.
  - rewrite string_app_cons. cbn [read_digits String.length].
    apply is_decimal_digit in Hc. rewrite Hc.
    destruct (IH (10 * acc + digit_value c)%Z (n + 1)%Z) as [v ->]. exists v.
    do 2 f_equal. lia.
Qed.

Lemma digit_is_no_name (c : ascii) (x : string) :
  is_decimal c = true ->
  String.eqb (lower (String c x)) "inf" || String.eqb (lower (String c x)) "infinity" = false
  /\ String.eqb (lower (String c x)) "nan" = false.
Proof. case_char c; try discriminate; intros _; split; reflexivity. Qed.

Lemma opt_exp_no_digit (ex : string) : opt_exp ex -> no_digit_head ex.
Proof. intros [|e c sg ds [-> | ->] _ _ _]; reflexivity || exact I. Qed.

Lemma read_exponent_exp (ex : string) : opt_exp ex -> exists e, read_exponent ex = Some e.
Proof.
  intros [|e c sg ds He Hsg Hc Hd]; [exists 0%Z; reflexivity|].
  unfold read_exponent.
  assert (Hl : Ascii.eqb (lower_char e) "e" = true) by (destruct He as [-> | ->]; reflexivity).
  rewrite Hl.
  assert (Hsign : exists neg, read_sign (sg +:+ String c ds) = (neg, String c ds)).
  { destruct Hsg; [|exists true; reflexivity|exists false; reflexivity].
    exists false. rewrite string_app_nil_l. apply read_sign_digit.
    now apply is_decimal_digit. }
  destruct Hsign as [neg ->].
  destruct (read_digits_run (String c ds) EmptyString ltac:(now constructor) I 0%Z 0%Z)
    as [v Hv].
  rewrite string_app_nil_r in Hv. rewrite Hv.
  assert (Hpos : (0 <? 0 + Z.of_nat (String.length (String c ds)))%Z = true)
    by (apply Z.ltb_lt; cbn [String.length]; lia).
  rewrite Hpos. eauto.
Qed.

Lemma frac_digits (fr ex : string) (ipv : Z) :
  opt_frac fr -> opt_exp ex ->
  exists mv nf,
    match fr +:+ ex with
    | String "." r => read_digits r ipv 0
    | _ => (ipv, 0%Z, fr +:+ ex)
    end = (mv, nf, ex) /\ (0 <= nf)%Z.
Proof.
  intros [|c ds Hc Hd] Hex.
  - rewrite string_app_nil_l. exists ipv, 0%Z. split; [|lia].
    destruct Hex as [|e c sg ds [-> | ->] _ _ _]; reflexivity.
  - rewrite string_app_cons.
    destruct (read_digits_run (String c ds) ex ltac:(now constructor)
                (opt_exp_no_digit ex Hex) ipv 0%Z) as [v Hv].
    exists v, (0 + Z.of_nat (String.length (String c ds)))%Z. split; [exact Hv|lia].
Qed.

(** [float()] does not raise on the text of a number of the grammar. *)
Lemma py_float_number (m ip fr ex : string) :
  opt_minus m -> int_part ip -> opt_frac fr -> opt_exp ex ->
  exists f, py_float (m +:+ ip +:+ fr +:+ ex) = Some f.
Proof.
  intros Hm Hip Hfr Hex. unfold py_float.
  pose proof (number_chars m ip fr ex Hm Hip Hfr Hex) as Hchars.
  rewrite (strip_float_plain _ _ (fun c H => proj1 (number_char_plain c H)) Hchars).
  rewrite (drop_underscores_plain _ _ (fun c H => proj2 (number_char_plain c H)) Hchars).
  destruct (int_part_head ip Hip) as (c & ds & Hc & Hdec).
  assert (Hsign : exists neg, read_sign (m +:+ ip +:+ fr +:+ ex) = (neg, ip +:+ fr +:+ ex)).
  { destruct Hm; [|exists true; reflexivity].
    exists false. rewrite string_app_nil_l, Hc, string_app_cons. now apply read_sign_digit. }
  destruct Hsign as [neg ->].
  assert (Hname : String.eqb (lower (ip +:+ fr +:+ ex)) "inf"
                  || String.eqb (lower (ip +:+ fr +:+ ex)) "infinity" = false
                  /\ String.eqb (lower (ip +:+ fr +:+ ex)) "nan" = false).
  { rewrite Hc, string_app_cons. now apply digit_is_no_name. }
  destruct Hname as [-> ->].
  destruct (int_part_run ip Hip) as [Hrun Hne].
  assert (Hnf : no_frac_head ex).
  { rewrite <- (string_app_nil_r ex). now apply opt_exp_no_frac. }
  destruct (read_digits_run ip (fr +:+ ex) Hrun (opt_frac_no_digit fr ex Hfr Hnf) 0%Z 0%Z)
    as [ipv Hipv].
  rewrite Hipv.
  destruct (frac_digits fr ex ipv Hfr Hex) as (mv & nf & Hfrac & Hnfpos).
  rewrite Hfrac.
  assert (Hpos : (0 <? 0 + Z.of_nat (String.length ip) + nf)%Z = true).
  { apply Z.ltb_lt. rewrite Hc. cbn [String.length]. lia. }
  rewrite Hpos.
  destruct (read_exponent_exp ex Hex) as [e ->]. eauto.
Qed.

End FloatLiterals.

(** *** Where the limits are met *)

Section Limits.
Import PyStr PyFloat PyRepr PyDictOps Json JsonText.

Lemma opens_app (a b : string) : opens (a +:+ b) = opens a + opens b.
Proof.
  induction a as [|c a IH]; [reflexivity|].
  rewrite string_app_cons. cbn [opens]. rewrite IH. lia.
Qed.

(** What is to blame in a part of the text is to blame in the text. *)
Lemma blame_suffix (depth : nat) (e : exn) (t x : string) :
  blame depth e x -> blame depth e (t +:+ x).
Proof.
  destruct e; cbn [blame]; try trivial.
  - rewrite length_string_app. lia.
  - rewrite opens_app. lia.
Qed.

Lemma blame_skip_ws (depth : nat) (e : exn) (s : string) :
  blame depth e (skip_ws s) -> blame depth e s.
Proof.
  destruct (skip_ws_split s) as (w & _ & Hs). intros H. rewrite Hs.
  now apply blame_suffix.
Qed.

(** Inside a container one level is used. *)
Lemma blame_inside (depth : nat) (e : exn) (c : ascii) (s : string) :
  c = "["%char \/ c = "{"%char ->
  blame depth e s -> blame (S depth) e (String c s).
Proof.
  intros Hc. destruct e; cbn [blame opens String.length]; try trivial.
  - lia.
  - destruct Hc as [-> | ->]; cbn; lia.
Qed.

Lemma scanstring_blame (n : nat) : forall s acc e depth,
  String.length s <= n -> scanstring s acc = Raise e -> blame depth e s.
Proof.
  intros s acc e depth Hn H.
  assert (He : e = JSONDecodeError \/ e = OutsideLatin1).
  { revert s acc Hn H. induction n as [|n IH]; intros s acc Hn.
    - destruct s; [intros [= <-]; auto|simpl in Hn; lia].
    - destruct s as [|c s1]; [intros [= <-]; auto|]. simpl in Hn.
      cbn [scanstring].
      destruct (Ascii.eqb c dquote); [discriminate|].
      destruct (Ascii.eqb c "\").
      + destruct s1 as [|x s2]; [intros [= <-]; auto|]. simpl in Hn.
        destruct (Ascii.eqb x "u").
        * destruct s2 as [|h1 [|h2 [|h3 [|h4 s3]]]]; try (intros [= <-]; auto).
          destruct (hex4 h1 h2 h3 h4) as [uni|]; [|intros [= <-]; auto].
          destruct (uni <? 256)%N; [|intros [= <-]; auto].
          apply IH. simpl in *. lia.
        * destruct (backslash x); [|intros [= <-]; auto].
          apply IH. lia.
      + destruct (code c <? 32)%N; [intros [= <-]; auto|].
        apply IH. lia. }
  destruct He as [-> | ->]; exact I.
Qed.

(** A number raises [ValueError] for one reason, the digits of an
    [int]. *)
Lemma number_or_fail_blame (s : string) (e : exn) (depth : nat) :
  number_or_fail s = Raise e -> blame depth e s.
Proof.
  unfold number_or_fail, match_number.
  assert (H : forall m s0, opt_minus m -> s = m +:+ s0 ->
    match
      match match_integer s0 with
      | None => None
      | Some (ip, s1) =>
          let '(frac, s2) := match_frac s1 in
          let '(ex, s3) := match_exp s2 in
          let integer := m +:+ ip in
          match frac, ex with
          | EmptyString, EmptyString =>
              match py_int integer ip with
              | Ok n => Some (Ok (PyInt n), s3)
              | Raise e => Some (Raise e, s3)
              end
          | _, _ =>
              match py_float (integer +:+ frac +:+ ex) with
              | Some f => Some (Ok (PyFloat f), s3)
              | None => Some (Raise ValueError, s3)
              end
          end
      end
    with
    | Some (Ok v0, r0) => Ok (v0, r0)
    | Some (Raise e, _) => Raise e
    | None => Raise JSONDecodeError
    end = Raise e -> blame depth e s).
  { intros m s0 Hm ->.
    destruct (match_integer s0) as [[ip s1]|] eqn:Ei; [|intros [= <-]; exact I].
    apply match_integer_sound in Ei as (-> & Hip).
    destruct (match_frac s1) as [fr s2] eqn:Ef.
    apply match_frac_sound in Ef as (-> & Hfr).
    destruct (match_exp s2) as [ex s3] eqn:Ee.
    apply match_exp_sound in Ee as (-> & Hex).
    cbv zeta.
    destruct (py_float_number m ip fr ex Hm Hip Hfr Hex) as [f Hf].
    rewrite <- string_app_assoc' in Hf.
    destruct fr as [|cf fr'].
    - destruct ex as [|ce ex'].
      + unfold py_int.
        destruct (Z.leb_spec (Z.of_nat (String.length ip)) max_str_digits) as [|Hlen];
          [discriminate|].
        intros [= <-]. cbn [blame]. rewrite !length_string_app. lia.
      + rewrite Hf. discriminate.
    - cbv iota. rewrite Hf. discriminate. }
  destruct s as [|c s']; [apply (H EmptyString EmptyString); [constructor|reflexivity]|].
  destruct (Ascii.eqb_spec c "-") as [->|Hc].
  - apply (H "-" s'); [constructor|reflexivity].
  - assert (Hs : match String c s' with
                 | String "-" r0 => ("-", r0)
                 | _ => (EmptyString, String c s')
                 end = (EmptyString, String c s')).
    { revert Hc. case_char c; try reflexivity. intros Hc. now elim Hc. }
    rewrite Hs. apply (H EmptyString (String c s')); [constructor|reflexivity].
Qed.

Section ContainersBlame.

Variable extended : bool.
Variable depth : nat.
Variable scan : string -> res (pyobj * string).
Hypothesis scan_sound : sound_scan extended scan.
Hypothesis scan_blame : forall s e, scan s = Raise e -> blame depth e s.

Lemma array_items_blame : forall fuel s acc e,
  array_items scan fuel s acc = Raise e -> blame depth e s.
Proof.
  induction fuel as [|fuel IH]; intros s acc e; [intros [= <-]; exact I|].
  rewrite array_items_eq.
  destruct (scan s) as [[v1 s1]|e'] eqn:E; [|intros [= <-]; now apply scan_blame].
  apply scan_sound in E as (t & -> & _ & _).
  destruct (skip_ws_split s1) as (w2 & _ & Hs1).
  destruct (skip_ws s1) as [|ch s2]; [intros [= <-]; exact I|].
  destruct (Ascii.eqb ch "]"); [discriminate|].
  destruct (Ascii.eqb ch ","); [|intros [= <-]; exact I].
  intros H. apply IH, blame_skip_ws in H. rewrite Hs1.
  apply blame_suffix, blame_suffix. now apply (blame_suffix depth e (String ch EmptyString)).
Qed.

Lemma JSONArray_blame (s : string) (e : exn) :
  JSONArray scan s = Raise e -> blame depth e s.
Proof.
  rewrite JSONArray_eq. intros H. apply blame_skip_ws.
  destruct (skip_ws s) as [|ch s1]; [now apply array_items_blame in H|].
  destruct (Ascii.eqb ch "]"); [discriminate|]. now apply array_items_blame in H.
Qed.

Lemma object_items_blame : forall fuel s acc e,
  object_items scan fuel s acc = Raise e -> blame depth e s.
Proof.
  induction fuel as [|fuel IH]; intros s acc e; [intros [= <-]; exact I|].
  rewrite object_items_eq.
  destruct (scanstring s EmptyString) as [[key s1]|e'] eqn:Ek;
    [|intros [= <-]; exact (scanstring_blame _ s _ _ depth (Nat.le_refl _) Ek)].
  apply (scanstring_sound (String.length s)) in Ek as (k & key' & -> & _ & _); [|lia].
  destruct (skip_ws_split s1) as (w2 & _ & Hs1).
  destruct (skip_ws s1) as [|colon s2]; [intros [= <-]; exact I|].
  destruct (Ascii.eqb colon ":"); [|intros [= <-]; exact I].
  assert (Hin : forall x, blame depth e x -> (exists y, s2 = y +:+ x) ->
            blame depth e (k +:+ String dquote s1)).
  { intros x Hx [y Hy]. rewrite Hs1, Hy.
    apply blame_suffix. apply (blame_suffix depth e (String dquote EmptyString)).
    apply blame_suffix. apply (blame_suffix depth e (String colon EmptyString)).
    now apply blame_suffix. }
  destruct (skip_ws_split s2) as (w3 & _ & Hs2).
  destruct (scan (skip_ws s2)) as [[v1 s3]|e'] eqn:E.
  2:{ intros [= <-]. apply scan_blame in E. apply (Hin _ E). eauto. }
  apply scan_sound in E as (t & Ht & _ & _). rewrite Ht in Hs2.
  destruct (skip_ws_split s3) as (w4 & _ & Hs3).
  destruct (skip_ws s3) as [|ch s4]; [intros [= <-]; exact I|].
  destruct (Ascii.eqb ch "}"); [discriminate|].
  destruct (Ascii.eqb ch ","); [|intros [= <-]; exact I].
  destruct (skip_ws_split s4) as (w5 & _ & Hs4).
  destruct (skip_ws s4) as [|q s5]; [intros [= <-]; exact I|].
  destruct (Ascii.eqb q dquote); [|intros [= <-]; exact I].
  intros H. apply IH in H. apply (Hin _ H).
  exists (w3 +:+ t +:+ w4 +:+ String ch (w5 +:+ String q EmptyString)).
  rewrite Hs2, Hs3, Hs4. now assoc_right.
Qed.

Lemma JSONObject_blame (s : string) (e : exn) :
  JSONObject scan s = Raise e -> blame depth e s.
Proof.
  unfold JSONObject. intros H. apply blame_skip_ws.
  destruct (skip_ws s) as [|ch s1]; [injection H as <-; exact I|].
  destruct (Ascii.eqb ch "}"); [discriminate|].
  destruct (Ascii.eqb ch dquote); [|injection H as <-; exact I].
  apply object_items_blame in H. now apply (blame_suffix depth e (String ch EmptyString)).
Qed.

End ContainersBlame.

(** [scan_once] raises [RecursionError] only on a text with more
    brackets than levels are left, and [ValueError] only on a text longer
    than the limit on digits. *)
Lemma scan_once_blame (constants : bool) (depth : nat) :
  forall s e, scan_once constants depth s = Raise e -> blame depth e s.
Proof.
  induction depth as [|d IH]; intros s e; rewrite scan_once_eq;
    (destruct s as [|c s]; [intros [= <-]; exact I|]);
    (destruct (Ascii.eqb_spec c dquote) as [->|_];
      [destruct (scanstring s EmptyString) as [[str r']|e'] eqn:E; [discriminate|];
       intros [= <-]; apply (blame_suffix _ e' (String dquote EmptyString));
       exact (scanstring_blame _ s _ _ _ (Nat.le_refl _) E)|]);
    (destruct (Ascii.eqb_spec c "{") as [->|_];
      [first [intros [= <-]; cbn; lia
             | intros H; apply (JSONObject_blame constants d) in H;
               [now apply blame_inside; auto|apply scan_once_sound|exact IH]]|]);
    (destruct (Ascii.eqb_spec c "[") as [->|_];
      [first [intros [= <-]; cbn; lia
             | intros H; apply (JSONArray_blame constants d) in H;
               [now apply blame_inside; auto|apply scan_once_sound|exact IH]]|]);
    repeat lazymatch goal with
    | |- (if ?b then Ok _ else _) = _ -> _ => destruct b; [discriminate|]
    end;
    apply number_or_fail_blame.
Qed.

(** The same for [JSONDecoder.decode]. *)
Lemma decode_raises (constants : bool) (depth : nat) (s : string) (e : exn) :
  decode constants depth s = Raise e ->
  e = JSONDecodeError \/ e = OutsideLatin1
  \/ (e = RecursionError /\ depth < opens s)
  \/ (e = ValueError /\ (max_str_digits < Z.of_nat (String.length s))%Z).
Proof.
  unfold decode.
  destruct (scan_once constants depth (skip_ws s)) as [[v r]|e'] eqn:E.
  - destruct (skip_ws r); [discriminate|]. intros [= <-]. auto.
  - intros [= <-]. pose proof (scan_once_raises _ _ _ _ E) as He.
    apply scan_once_blame, blame_skip_ws in E.
    destruct He as [-> | [-> | [-> | ->]]]; auto.
Qed.

End Limits.

(** ** [parse_llm_response], once more *)

Section ParseSpec.
Import PyStr PyFloat PyRepr PyDictOps Json JsonText Evaluator.

(** A text of the grammar of the RFC is a text of the grammar with the
    three names. *)
Lemma grammar_extends :
  (forall t v, value false t v -> value true t v)
  /\ (forall body vs, elements false body vs -> elements true body vs)
  /\ (forall body acc d, members false body acc d -> members true body acc d).
Proof.
  apply grammar_mind; intros; try discriminate; try (now constructor);
    try (apply elements_more; assumption); eapply members_more; eassumption.
Qed.

Lemma valid_is_extended (s : string) (v : pyobj) :
  json_text false s v -> json_text true s v.
Proof.
  intros (w1 & t & w2 & -> & Hw1 & Hv & Hw2).
  exists w1, t, w2. repeat split; try assumption. now apply grammar_extends.
Qed.

(** A text of the grammar is decoded when it has no more brackets than
    there are levels left and is no longer than the limit on digits. *)
Lemma decode_within_limits (constants : bool) (depth : nat) (s : string) (v : pyobj) :
  json_text constants s v ->
  opens s <= depth -> (Z.of_nat (String.length s) <= max_str_digits)%Z ->
  decode constants depth s = Ok v.
Proof.
  intros Hv Ho Hl.
  destruct (decode_complete constants depth s v Hv) as [H|(e & He & H)]; [exact H|].
  apply decode_raises in H as [-> | [-> | [[_ H] | [_ H]]]];
    try (destruct He; discriminate); lia.
Qed.

(** More levels do not change what the decoder returns. *)
Lemma scan_once_deeper (constants : bool) (depth : nat) :
  scan_le (scan_once constants depth) (scan_once constants (S depth)).
Proof.
  induction depth as [|d IH]; intros s x; rewrite !(scan_once_eq _ _ s);
    (destruct s as [|c s]; [discriminate|]);
    (destruct (Ascii.eqb c dquote); [auto|]);
    (destruct (Ascii.eqb c "{"); [first [discriminate | now apply JSONObject_le]|]);
    (destruct (Ascii.eqb c "["); [first [discriminate | now apply JSONArray_le]|]);
    auto.
Qed.

Lemma decode_deeper (constants : bool) (depth more : nat) (s : string) (v : pyobj) :
  decode constants depth s = Ok v -> decode constants (more + depth) s = Ok v.
Proof.
  induction more as [|more IH]; [auto|]. intros H. specialize (IH H).
  cbn [Nat.add]. unfold decode in *.
  destruct (scan_once constants (more + depth) (skip_ws s)) as [[v' r]|e] eqn:E;
    [|discriminate].
  now rewrite (scan_once_deeper _ _ _ _ E).
Qed.

Lemma parse_deeper (depth more : nat) (text : string) (v : pyobj) :
  parse_llm_response depth text = Ok v -> parse_llm_response (more + depth) text = Ok v.
Proof.
  unfold parse_llm_response, loads. intros H.
  destruct (decode true depth (unfence text)) as [v'|e] eqn:E;
    [|destruct e; discriminate].
  injection H as ->. now rewrite (decode_deeper _ _ more _ _ E).
Qed.

(** What [parse_llm_response] returns holds no [int] beyond the limit on
    digits. *)
(** What [json.loads] returns holds no [int] beyond the limit on digits:
    [str] takes it. *)
Lemma loads_printable (depth : nat) (s : string) (v : pyobj) :
  loads depth s = Ok v -> printable v = true.
Proof. unfold loads. intros E. now apply decode_sound in E. Qed.

Lemma parse_printable (depth : nat) (text : string) (v : pyobj) :
  parse_llm_response depth text = Ok v -> printable v = true.
Proof.
  unfold parse_llm_response, loads.
  destruct (decode true depth (unfence text)) as [v'|e] eqn:E;
    [|destruct e; discriminate].
  intros [= <-]. now apply decode_sound in E.
Qed.

(** Trimming twice is trimming once. *)
Lemma lstrip_head (s : string) :
  match lstrip s with
  | EmptyString => True
  | String c _ => is_space c = false
  end.
Proof.
  induction s as [|c s IH]; [exact I|]. cbn [lstrip].
  destruct (is_space c) eqn:E; [exact IH|exact E].
Qed.

Lemma lstrip_fixed (s : string) :
  match s with
  | EmptyString => True
  | String c _ => is_space c = false
  end -> lstrip s = s.
Proof. destruct s as [|c s]; [reflexivity|]. cbn [lstrip]. now intros ->. Qed.

Lemma lstrip_lstrip (s : string) : lstrip (lstrip s) = lstrip s.
Proof. apply lstrip_fixed, lstrip_head. Qed.

Lemma rstrip_rstrip (s : string) : rstrip (rstrip s) = rstrip s.
Proof. unfold rstrip. now rewrite str_reverse_involutive, lstrip_lstrip. Qed.

Lemma rstrip_lstrip (s : string) : rstrip (lstrip s) = lstrip (rstrip s).
Proof.
  induction s as [|c s IH]; [reflexivity|].
  change (String c s) with (String c EmptyString +:+ s) at 2.
  rewrite rstrip_app. cbn [lstrip].
  destruct (is_space c) eqn:Ec.
  - destruct (all_chars is_space s) eqn:Es.
    + rewrite (lstrip_all_space s Es).
      change (rstrip (String c EmptyString)) with (reverse (lstrip (String c EmptyString))).
      cbn [lstrip]. rewrite Ec. reflexivity.
    + rewrite string_app_cons, string_app_nil_l. cbn [lstrip]. rewrite Ec. exact IH.
  - change (String c s) with (String c EmptyString +:+ s). rewrite rstrip_app.
    destruct (all_chars is_space s) eqn:Es.
    + change (rstrip (String c EmptyString)) with (reverse (lstrip (String c EmptyString))).
      cbn [lstrip]. rewrite Ec. change (reverse (String c EmptyString)) with (String c EmptyString).
      cbn [lstrip]. rewrite Ec. reflexivity.
    + rewrite string_app_cons, string_app_nil_l. cbn [lstrip]. rewrite Ec. reflexivity.
Qed.

Lemma strip_strip (s : string) : strip (strip s) = strip s.
Proof.
  unfold strip. now rewrite rstrip_lstrip, lstrip_lstrip, rstrip_rstrip.
Qed.

(** A reply without fences is decoded as it is, trimmed. *)
Lemma unfence_plain (text : string) :
  startswith "```" (strip text) = false -> endswith "```" (strip text) = false ->
  unfence text = strip text.
Proof.
  intros Hs He. unfold unfence.
  assert (Hj : startswith "```json" (strip text) = false).
  { change "```json" with ("```" +:+ "json"). rewrite startswith_app, Hs. reflexivity. }
  rewrite Hj. cbv iota zeta. rewrite Hs, He. apply strip_strip.
Qed.

End ParseSpec.




(** ** One turn of [process_dialogue] *)

Section HarnessFacts.
Import PyStr PyDictOps Effects Dataset Processor Evaluator Scoring Memory Harness.

Variable config : Config.
Variable depth : nat.
Variable prompt_file : file.
Variable client : nat -> request -> reply.
Variable describe : nat -> raised -> string.

Lemma bind_returned {A B} (m : H A) (k : A -> H B) w a w' :
  m w = (Returned a, w') -> (m ≫= k) w = k a w'.
Proof. intros E. unfold mbind, H_bind. rewrite E. reflexivity. Qed.

Lemma bind_failed {A B} (m : H A) (k : A -> H B) w e w' :
  m w = (Failed e, w') -> (m ≫= k) w = (Failed e, w').
Proof. intros E. unfold mbind, H_bind. rewrite E. reflexivity. Qed.

Lemma on_memory_add role content w v :
  valid_role role = true -> messages_of (store w) = Some v ->
  exists st,
    on_memory (add_message role content) w = (Returned tt, with_store st w)
    /\ self st = self (store w)
    /\ messages_of st = Some (v ++ [message role content]).
Proof.
  intros Hr Hv.
  destruct (add_message_messages (store w) role content v Hr Hv) as (Hok & Hself & Hm & _).
  exists (snd (add_message role content (store w))).
  unfold on_memory. destruct (add_message role content (store w)) as [r st].
  cbn [fst snd] in *. subst r. auto.
Qed.

Lemma on_memory_history w v :
  messages_of (store w) = Some v ->
  exists r st,
    on_memory get_conversation_history w = (Returned r, with_store st w)
    /\ self st = self (store w)
    /\ messages_of st = Some v
    /\ read_list (heap st) r
       = Some (system_part (_system_prompt (self (store w))) ++ v).
Proof.
  intros Hv.
  destruct (get_conversation_history_spec (store w) v Hv) as (r & h' & Hg & _ & Hsub & Hread).
  exists r, {| heap := h'; self := self (store w) |}.
  unfold on_memory. rewrite Hg. split; [reflexivity|]. split; [reflexivity|].
  split; [|exact Hread].
  unfold messages_of. cbn [heap self]. exact (read_list_subseteq _ _ _ _ Hsub Hv).
Qed.

Lemma on_output_match pred gold w :
  PyRepr.printable pred = true -> PyRepr.printable gold = true ->
  exists b out,
    on_output (answers_match pred gold (relative_tolerance config)
                 (absolute_tolerance config)) w
    = (Returned b, {| store := store w; output := out;
                      requests := requests w; responses := responses w |}).
Proof.
  intros Hp Hg.
  destruct (answers_match_returns pred gold (relative_tolerance config)
              (absolute_tolerance config) (output w) Hp Hg) as (b & out & E).
  exists b, out. unfold on_output. rewrite E. reflexivity.
Qed.

(** What the [except] clauses do to the world. *)
Lemma record_error_spec e w v :
  messages_of (store w) = Some v ->
  exists st,
    record_error describe e w
    = (Returned tt,
       {| store := st; output := output w; requests := requests w;
          responses := responses w ++ [error_response describe (length (requests w)) e] |})
    /\ self st = self (store w)
    /\ messages_of st
       = Some (v ++ [message "assistant" (error_message describe (length (requests w)) e)]).
Proof.
  intros Hv. unfold record_error.
  set (w1 := {| store := store w; output := output w; requests := requests w;
                responses := responses w ++ [error_response describe (length (requests w)) e] |}).
  destruct (on_memory_add "assistant" (error_message describe (length (requests w)) e)
              w1 v eq_refl Hv) as (st & Hrun & Hself & Hm).
  exists st. split; [|split; [exact Hself|exact Hm]].
  exact Hrun.
Qed.

Lemma handler_spec e w v :
  e <> Builtin OutsideLatin1 ->
  messages_of (store w) = Some v ->
  exists st,
    handler describe e w
    = (Returned tt,
       {| store := st; output := output w; requests := requests w;
          responses := responses w ++ [error_response describe (length (requests w)) e] |})
    /\ self st = self (store w)
    /\ messages_of st
       = Some (v ++ [message "assistant" (error_message describe (length (requests w)) e)]).
Proof.
  intros He Hv.
  replace (handler describe e) with (record_error describe e).
  - exact (record_error_spec e w v Hv).
  - destruct e as [[]| | | | | |]; try reflexivity. congruence.
Qed.

End HarnessFacts.

Section TurnFacts.
Import PyStr PyDictOps Effects Dataset Processor Evaluator Scoring Memory Harness.

Variable config : Config.
Variable depth : nat.
Variable prompt_file : file.
Variable client : nat -> request -> reply.
Variable describe : nat -> raised -> string.

Lemma read_messages_spec r w sent :
  read_list (heap (store w)) r = Some sent ->
  read_messages r w = (Returned sent, w).
Proof. intros E. unfold read_messages. rewrite E. reflexivity. Qed.

(** A turn up to the reply of the client. *)
Lemma ask_request q w v :
  messages_of (store w) = Some v ->
  let sent := system_part (_system_prompt (self (store w))) ++ v
              ++ [message "user" (question_text q)] in
  exists st,
    self st = self (store w)
    /\ messages_of st = Some (v ++ [message "user" (question_text q)])
    /\ forall k : option string -> H unit,
         (on_memory (add_user_message (question_text q));;
          messages ← on_memory get_conversation_history;
          sent ← read_messages messages;
          response_text ← create client sent;
          k response_text) w
         = match client (length (requests w)) sent with
           | Content text => k text (with_store st (with_request sent w))
           | Refused => (Failed APIFailure, with_store st (with_request sent w))
           end.
Proof.
  intros Hv sent.
  destruct (on_memory_add "user" (question_text q) w v eq_refl Hv)
    as (st1 & Hrun1 & Hself1 & Hm1).
  destruct (on_memory_history (with_store st1 w) _ Hm1)
    as (r & st2 & Hrun2 & Hself2 & Hm2 & Hread).
  cbn [store with_store] in *.
  exists st2. split; [congruence|]. split; [exact Hm2|].
  intros k.
  rewrite (bind_returned _ _ _ _ _ Hrun1).
  rewrite (bind_returned _ _ _ _ _ Hrun2).
  rewrite Hself1 in Hread. fold sent in Hread.
  rewrite (bind_returned _ _ _ _ _
             (read_messages_spec r (with_store st2 (with_store st1 w)) sent Hread)).
  unfold mbind, H_bind, create. cbn [requests with_store store output responses].
  unfold with_store, with_request. cbn [requests with_store store output responses].
  destruct (client (length (requests w)) sent); reflexivity.
Qed.

Lemma get_answer_dict result :
  match get_answer result with
  | Ok _ => is_dict result = true
  | Raise e => is_dict result = false
  end.
Proof. destruct result; cbn; try reflexivity. destruct (dict_get _ _); reflexivity. Qed.

(** The answer of a response holds no [int] beyond the limit when the
    response holds none. *)
Lemma dict_get_printable key d v :
  forallb (fun kv => PyRepr.printable (snd kv)) d = true ->
  dict_get key d = Some v -> PyRepr.printable v = true.
Proof.
  induction d as [|[k' v'] d IH]; cbn [dict_get forallb snd]; [discriminate|].
  intros H. apply andb_true_iff in H as [H1 H2].
  destruct (String.eqb k' key); [intros [= <-]; exact H1|now apply IH].
Qed.

Lemma get_answer_printable result pred :
  PyRepr.printable result = true -> get_answer result = Ok pred ->
  PyRepr.printable pred = true.
Proof.
  destruct result as [| | | | | |d]; try discriminate. cbn [PyRepr.printable get_answer].
  intros Hd. destruct (dict_get "answer" d) as [v|] eqn:E.
  - intros [= <-]. exact (dict_get_printable _ _ _ Hd E).
  - intros [= <-]. reflexivity.
Qed.

Lemma parsed_printable (r : reply) (v : pyobj) :
  parsed depth r = Some v -> PyRepr.printable v = true.
Proof.
  destruct r as [[[|c s]|]|]; try discriminate. cbn [parsed].
  destruct (parse_llm_response depth (String c s)) as [v'|e] eqn:E; [|discriminate].
  intros [= <-]. exact (parse_printable _ _ _ E).
Qed.

Lemma ret_bind {A B} (a : A) (k : A -> H B) w : (mret a ≫= k) w = k a w.
Proof. reflexivity. Qed.

Lemma fail_bind {A B} (e : raised) (k : A -> H B) w : (fail e ≫= k) w = (Failed e, w).
Proof. reflexivity. Qed.

Lemma from_res_bind {A B} (r : res A) (k : A -> H B) w :
  (from_res r ≫= k) w
  = match r with
    | Ok a => k a w
    | Raise e => (Failed (Builtin e), w)
    end.
Proof. destruct r; reflexivity. Qed.

Lemma or_fail_bind {A B} (e : raised) (o : option A) (k : A -> H B) w :
  (or_fail e o ≫= k) w
  = match o with
    | Some a => k a w
    | None => (Failed e, w)
    end.
Proof. destruct o; reflexivity. Qed.

(** One pass of the loop of [process_dialogue]: the [try] and its
    handlers. *)
Lemma turn_spec i q golds w v :
  messages_of (store w) = Some v ->
  let sent := system_part (_system_prompt (self (store w))) ++ v
              ++ [message "user" (question_text q)] in
  in_model depth (client (length (requests w)) sent) ->
  exists w' new said,
    catch (ask config depth client i q golds) (handler describe) w = (Returned tt, w')
    /\ turn_end depth describe i golds (S (length (requests w)))
         (client (length (requests w)) sent) new said
    /\ self (store w') = self (store w)
    /\ messages_of (store w')
       = Some (v ++ message "user" (question_text q)
                 :: List.map (message "assistant") said)
    /\ requests w' = requests w ++ [sent]
    /\ responses w' = responses w ++ new.
Proof.
  intros Hv sent Hmodel.
  destruct (ask_request q w v Hv) as (st & Hself & Hm & Hask). fold sent in Hask.
  unfold catch.
  destruct (ask config depth client i q golds w) as [o wb] eqn:Hbody.
  unfold ask in Hbody. rewrite Hask in Hbody. clear Hask.
  set (w1 := with_store st (with_request sent w)) in *.
  assert (Hn : length (requests w1) = S (length (requests w)))
    by (cbn; rewrite length_app; cbn; lia).
  assert (Herr : forall e, e <> Builtin OutsideLatin1 ->
            parsed depth (client (length (requests w)) sent) = None ->
            exists w' new said,
              handler describe e w1 = (Returned tt, w')
              /\ turn_end depth describe i golds (S (length (requests w)))
                   (client (length (requests w)) sent) new said
              /\ self (store w') = self (store w)
              /\ messages_of (store w')
                 = Some (v ++ message "user" (question_text q)
                           :: List.map (message "assistant") said)
              /\ requests w' = requests w ++ [sent]
              /\ responses w' = responses w ++ new).
  { intros e He Hp.
    destruct (handler_spec describe e w1 _ He Hm) as (st' & Hrun & Hself' & Hm').
    rewrite Hn in *.
    eexists _, [error_response describe (S (length (requests w))) e],
      [error_message describe (S (length (requests w))) e].
    split; [exact Hrun|]. split; [constructor; exact Hp|].
    change (store w1) with st in Hself'.
    cbn [store requests responses]. split; [congruence|].
    split; [rewrite Hm', <- app_assoc; reflexivity|]. split; reflexivity. }
  destruct (client (length (requests w)) sent) as [[text|]|] eqn:Hreply.
  - destruct text as [|c s].
    + rewrite fail_bind in Hbody. injection Hbody as <- <-.
      apply Herr; [discriminate|reflexivity].
    + set (text := String c s) in *.
      rewrite ret_bind, from_res_bind in Hbody.
      destruct (parse_llm_response depth text) as [result|e] eqn:Hparse.
      * set (w2 := {| store := store w1; output := output w1; requests := requests w1;
                      responses := responses w1 ++ [result] |}).
        destruct (on_memory_add "assistant" text w2 _ eq_refl Hm)
          as (st3 & Hrun3 & Hself3 & Hm3).
        set (w3 := with_store st3 w2) in *.
        assert (Hp : parsed depth (Content (Some text)) = Some result)
          by (unfold parsed, text; fold text; rewrite Hparse; reflexivity).
        pose proof (get_answer_dict result) as Hd.
        assert (Hboth : forall e, e <> Builtin OutsideLatin1 ->
                  is_dict result = false \/ golds !! i = None ->
                  exists w' new said,
                    handler describe e w3 = (Returned tt, w')
                    /\ turn_end depth describe i golds (S (length (requests w)))
                         (Content (Some text)) new said
                    /\ self (store w') = self (store w)
                    /\ messages_of (store w')
                       = Some (v ++ message "user" (question_text q)
                                 :: List.map (message "assistant") said)
                    /\ requests w' = requests w ++ [sent]
                    /\ responses w' = responses w ++ new).
        { intros e He Hwhy.
          destruct (handler_spec describe e w3 _ He Hm3) as (st' & Hrun & Hself' & Hm').
          change (length (requests w3)) with (length (requests w1)) in *.
          rewrite Hn in *.
          eexists _, [result; error_response describe (S (length (requests w))) e],
            [text; error_message describe (S (length (requests w))) e].
          split; [exact Hrun|].
          split; [exact (end_both depth describe i golds _ _ text result e eq_refl Hp Hwhy)|].
          change (store w3) with st3 in Hself'. change (store w2) with st in Hself3.
          cbn [store requests responses with_store w3 w2 w1 with_request].
          split; [congruence|].
          split; [rewrite Hm', <- !app_assoc; reflexivity|].
          split; [reflexivity|]. rewrite <- app_assoc. reflexivity. }
        assert (Happ : append_response result w1 = (Returned tt, w2)) by reflexivity.
        rewrite (bind_returned _ _ _ _ _ Happ) in Hbody.
        rewrite (bind_returned _ _ _ _ _ Hrun3) in Hbody.
        rewrite from_res_bind in Hbody.
        destruct (get_answer result) as [pred|e] eqn:Hget.
        -- rewrite or_fail_bind in Hbody.
           destruct (golds !! i) as [gold|] eqn:Hgold.
           ++ destruct (on_output_match config pred (PyStr gold) w3
                          (get_answer_printable _ _ (parse_printable _ _ _ Hparse) Hget)
                          eq_refl) as (b & out & Hout).
              rewrite (bind_returned _ _ _ _ _ Hout) in Hbody.
              injection Hbody as <- <-.
              destruct result as [| | | | | |d]; try discriminate Hd.
              eexists _, [PyDict d], [text].
              split; [reflexivity|].
              split; [exact (end_answer depth describe i golds _ _ text d gold eq_refl Hp Hgold)|].
              change (store w2) with st in Hself3.
              cbn [store requests responses with_store w3 w2 w1 with_request].
              split; [congruence|].
              split; [rewrite Hm3, <- app_assoc; reflexivity|].
              split; reflexivity.
           ++ injection Hbody as <- <-.
              apply Hboth; [discriminate|right; reflexivity].
        -- injection Hbody as <- <-.
           assert (He : Builtin e <> Builtin OutsideLatin1).
           { destruct result; cbn in Hget; try destruct (dict_get _ _);
               inversion Hget; discriminate. }
           apply Hboth; [exact He|left; exact Hd].
      * injection Hbody as <- <-.
        assert (He : Builtin e <> Builtin OutsideLatin1).
        { intros [= ->]. exact (Hmodel text eq_refl Hparse). }
        apply Herr; [exact He|].
        unfold parsed, text. fold text. rewrite Hparse. reflexivity.
  - rewrite fail_bind in Hbody. injection Hbody as <- <-.
    apply Herr; [discriminate|reflexivity].
  - injection Hbody as <- <-. apply Herr; [discriminate|reflexivity].
Qed.

End TurnFacts.

(** ** The loop of [process_dialogue] *)

Section LoopFacts.
Import PyStr PyDictOps Effects Dataset Processor Evaluator Scoring Memory Harness.

Variable config : Config.
Variable depth : nat.
Variable prompt_file : file.
Variable client : nat -> request -> reply.
Variable describe : nat -> raised -> string.

Hypothesis client_in_model : forall n sent, in_model depth (client n sent).

(** The loop of [process_dialogue] returns, and its turns are those of
    [turns]. *)
Lemma ask_all_spec golds qs : forall i w v,
  messages_of (store w) = Some v ->
  exists w' reqs news v',
    ask_all config depth client describe i qs golds w = (Returned tt, w')
    /\ turns depth client describe (_system_prompt (self (store w))) golds
         i (length (requests w)) v qs reqs news v'
    /\ self (store w') = self (store w)
    /\ messages_of (store w') = Some v'
    /\ requests w' = requests w ++ reqs
    /\ responses w' = responses w ++ news.
Proof.
  induction qs as [|q qs IH]; intros i w v Hv.
  - exists w, [], [], v. cbn [ask_all]. rewrite !app_nil_r.
    repeat split; try assumption. constructor.
  - destruct (turn_spec config depth client describe i q golds w v Hv (client_in_model _ _))
      as (w1 & new & said & Hrun & Hend & Hself & Hm & Hreq & Hresp).
    destruct (IH (S i) w1 _ Hm) as (w' & reqs & news & v' & Hrun' & Hturns & Hself' & Hm' & Hreq' & Hresp').
    exists w', ((system_part (_system_prompt (self (store w))) ++ v
                 ++ [message "user" (question_text q)]) :: reqs), (new ++ news), v'.
    cbn [ask_all]. rewrite (bind_returned _ _ _ _ _ Hrun).
    split; [exact Hrun'|].
    split.
    { apply turns_cons with (said := said); [exact Hend|].
      rewrite Hself, Hreq, length_app in Hturns. cbn [length] in Hturns.
      replace (length (requests w) + 1) with (S (length (requests w))) in Hturns by lia.
      exact Hturns. }
    split; [congruence|]. split; [exact Hm'|].
    split; [rewrite Hreq', Hreq, <- app_assoc; reflexivity|].
    rewrite Hresp', Hresp, <- app_assoc; reflexivity.
Qed.

Lemma messages_of_set_prompt st p v :
  messages_of st = Some v ->
  messages_of {| heap := heap st;
                 self := {| _messages := _messages (self st); _system_prompt := p |} |}
  = Some v.
Proof. intros H. exact H. Qed.

Lemma on_memory_clear w v :
  messages_of (store w) = Some v ->
  exists st,
    on_memory clear w = (Returned tt, with_store st w)
    /\ messages_of st = Some []
    /\ _system_prompt (self st) = None.
Proof.
  intros Hv. pose proof (clear_spec (store w) v Hv) as Hc.
  eexists. unfold on_memory. rewrite Hc. split; [reflexivity|].
  split; [|reflexivity].
  unfold messages_of, read_list. cbn [heap self _messages].
  rewrite lookup_insert_eq. reflexivity.
Qed.

Lemma process_dialogue_spec template ctx qs golds w :
  prompt_file = Contents template ->
  exists w' reqs news v',
    process_dialogue config depth prompt_file client describe ctx qs golds w
    = (Returned news, w')
    /\ turns depth client describe (Some (prompt_with (strip template) ctx)) golds
         0 (length (requests w)) [] qs reqs news v'
    /\ requests w' = requests w ++ reqs
    /\ messages_of (store w') = Some []
    /\ _system_prompt (self (store w')) = None.
Proof.
  intros Hfile. unfold process_dialogue, build_system_prompt, load_system_prompt.
  rewrite Hfile.
  set (st0 := __init__ None (heap (store w))).
  set (st1 := {| heap := heap st0;
                 self := {| _messages := _messages (self st0);
                            _system_prompt := Some (prompt_with (strip template) ctx) |} |}).
  set (w1 := {| store := st1; output := output w; requests := requests w;
                responses := [] |}).
  assert (Hm1 : messages_of (store w1) = Some []).
  { cbn [store w1]. apply messages_of_set_prompt. apply init_messages. }
  destruct (ask_all_spec golds qs 0 w1 [] Hm1)
    as (w2 & reqs & news & v' & Hrun & Hturns & Hself & Hm2 & Hreq & Hresp).
  destruct (on_memory_clear w2 v' Hm2) as (st3 & Hclear & Hm3 & Hp3).
  exists (with_store st3 w2), reqs, news, v'.
  split.
  - change (ask_all config depth client describe 0 qs golds w1 = (Returned tt, w2)) in Hrun.
    cbn [responses w1] in Hresp.
    transitivity ((ask_all config depth client describe 0 qs golds;;
                   on_memory clear;;
                   w ← this_world; mret (responses w)) w1); [reflexivity|].
    rewrite (bind_returned _ _ _ _ _ Hrun), (bind_returned _ _ _ _ _ Hclear).
    unfold mbind, H_bind, this_world, mret, H_ret. cbn [responses with_store].
    rewrite Hresp. reflexivity.
  - split; [exact Hturns|]. split; [exact Hreq|]. split; [exact Hm3|exact Hp3].
Qed.

Lemma process_dialogue_without_prompt ctx qs golds w :
  prompt_file <> Contents (match prompt_file with Contents t => t | _ => "" end) ->
  exists e,
    process_dialogue config depth prompt_file client describe ctx qs golds w
    = (Failed e, with_store (__init__ None (heap (store w))) w)
    /\ (e = FileNotFoundError \/ e = RuntimeError).
Proof.
  intros Hfile. unfold process_dialogue, build_system_prompt, load_system_prompt.
  destruct prompt_file; [congruence| |]; eauto.
Qed.

End LoopFacts.

Section TurnsFacts.
Import PyStr PyDictOps Effects Dataset Processor Evaluator Scoring Memory Harness.

Variable depth : nat.
Variable client : nat -> request -> reply.
Variable describe : nat -> raised -> string.

Lemma turn_end_lengths i golds n r new said :
  turn_end depth describe i golds n r new said ->
  length said = length new /\ 1 <= length new <= 2.
Proof. intros []; cbn; lia. Qed.

Lemma turn_end_scorable i golds n r new said :
  (forall v, parsed depth r = Some v -> scorable v = true) ->
  turn_end depth describe i golds n r new said ->
  forallb scorable new = true.
Proof.
  intros Hs [e Hp|text d gold Hr Hp Hg|text result e Hr Hp Hwhy]; cbn [forallb];
    try rewrite (Hs _ Hp); reflexivity.
Qed.

Lemma turn_end_object i golds n r new said :
  (forall v, parsed depth r = Some v -> is_dict v = true) ->
  is_Some (golds !! i) ->
  turn_end depth describe i golds n r new said ->
  length new = 1 /\ forallb is_dict new = true.
Proof.
  intros Hs Hg [e Hp|text d gold Hr Hp Hg'|text result e Hr Hp Hwhy]; cbn; auto.
  exfalso. destruct Hwhy as [Hd|Hn].
  - rewrite (Hs _ Hp) in Hd. discriminate.
  - rewrite Hn in Hg. destruct Hg as [? [=]].
Qed.

Lemma turn_end_first i golds n r new said result :
  parsed depth r = Some result ->
  turn_end depth describe i golds n r new said ->
  exists tail, new = result :: tail.
Proof.
  intros Hr [e Hp|text d gold _ Hp Hg|text result' e _ Hp Hwhy].
  - congruence.
  - exists []. congruence.
  - eexists. f_equal. congruence.
Qed.

Lemma turns_lengths p golds i n v qs reqs news v' :
  turns depth client describe p golds i n v qs reqs news v' ->
  length reqs = length qs
  /\ length qs <= length news <= 2 * length qs.
Proof.
  induction 1 as [|i n v q rest new said reqs news v' Hend _ IH]; [cbn; lia|].
  destruct (turn_end_lengths _ _ _ _ _ _ Hend) as [_ Hl].
  rewrite length_app. cbn [length]. lia.
Qed.

Lemma turns_scorable p golds i n v qs reqs news v' :
  (forall n sent r, parsed depth (client n sent) = Some r -> scorable r = true) ->
  turns depth client describe p golds i n v qs reqs news v' ->
  forallb scorable news = true.
Proof.
  intros Hs. induction 1 as [|i n v q rest new said reqs news v' Hend _ IH];
    [reflexivity|].
  rewrite forallb_app, IH, (turn_end_scorable _ _ _ _ _ _ (Hs _ _) Hend). reflexivity.
Qed.

Lemma turns_objects p golds i n v qs reqs news v' :
  (forall n sent r, parsed depth (client n sent) = Some r -> is_dict r = true) ->
  i + length qs <= length golds ->
  turns depth client describe p golds i n v qs reqs news v' ->
  length news = length qs /\ forallb is_dict news = true.
Proof.
  intros Hs Hlen Ht. induction Ht as [|i n v q rest new said reqs news v' Hend _ IH];
    [split; reflexivity|].
  cbn [length] in Hlen.
  destruct (turn_end_object _ _ _ _ _ _ (Hs _ _) (lookup_lt_is_Some_2 golds i ltac:(lia)) Hend)
    as [Hl Hd].
  destruct IH as [IHl IHd]; [lia|].
  rewrite length_app, forallb_app, Hl, Hd, IHl, IHd. split; reflexivity.
Qed.

Lemma turns_first p golds i n v q rest reqs news v' result :
  parsed depth (client n (system_part p ++ v ++ [message "user" (question_text q)]))
  = Some result ->
  turns depth client describe p golds i n v (q :: rest) reqs news v' ->
  exists tail, news = result :: tail.
Proof.
  intros Hp Ht. inversion Ht as [|? ? ? ? ? new said reqs' news' ? Hend _]; subst.
  destruct (turn_end_first _ _ _ _ _ _ _ Hp Hend) as [tail ->].
  eexists. reflexivity.
Qed.

(** The request of turn [j]: the system message, what the memory held
    before the dialogue's first turn and what the earlier turns added,
    then the question. *)
Lemma turns_request p golds i n v qs reqs news v' :
  turns depth client describe p golds i n v qs reqs news v' ->
  forall j q, qs !! j = Some q ->
  exists earlier,
    reqs !! j = Some (system_part p ++ (v ++ earlier)
                      ++ [message "user" (question_text q)])
    /\ 2 * j <= length earlier <= 3 * j.
Proof.
  induction 1 as [|i n v q0 rest new said reqs news v' Hend _ IH]; intros j q Hq.
  - rewrite lookup_nil in Hq. discriminate.
  - destruct j as [|j].
    + injection Hq as ->. exists []. rewrite app_nil_r. split; [reflexivity|cbn; lia].
    + destruct (IH j q Hq) as (earlier & Hreq & Hlen).
      destruct (turn_end_lengths _ _ _ _ _ _ Hend) as [Hs Hl].
      exists (message "user" (question_text q0) :: List.map (message "assistant") said ++ earlier).
      split.
      * refine (eq_trans Hreq _). do 3 f_equal. rewrite <- app_assoc. reflexivity.
      * cbn [length]. rewrite length_app, length_map. lia.
Qed.

(** Each request extends the one before it: by the assistant messages of
    the turn before, one or two, and the next question. *)
Lemma turns_extend p golds i n v qs reqs news v' :
  turns depth client describe p golds i n v qs reqs news v' ->
  forall j a b, reqs !! j = Some a -> reqs !! S j = Some b ->
  exists said q,
    b = a ++ List.map (message "assistant") said ++ [message "user" (question_text q)]
    /\ 1 <= length said <= 2.
Proof.
  induction 1 as [|i n v q0 rest new said reqs news v' Hend Ht IH]; intros j a b Ha Hb.
  - rewrite lookup_nil in Ha. discriminate.
  - destruct j as [|j].
    + injection Ha as <-. change (reqs !! 0 = Some b) in Hb.
      inversion Ht as [|? ? ? q1 ? ? ? ? ? ? _ _]; subst; [discriminate|].
      injection Hb as <-.
      destruct (turn_end_lengths _ _ _ _ _ _ Hend) as [Hs Hl].
      exists said, q1. split; [|lia].
      rewrite <- !app_assoc. reflexivity.
    + exact (IH j a b Ha Hb).
Qed.

End TurnsFacts.

(** ** [evaluate_dialogue] and [evaluate] *)

Section DialogueFacts.
Import PyStr PyDictOps Effects Dataset Processor Evaluator Scoring Memory Harness.

Variable config : Config.
Variable depth : nat.
Variable prompt_file : file.
Variable client : nat -> request -> reply.
Variable describe : nat -> raised -> string.

Hypothesis client_in_model : forall n sent, in_model depth (client n sent).
Variable template : string.
Hypothesis prompt_file_read : prompt_file = Contents template.

Lemma extract_indexed (dturns : list Turn) :
  Forall indexed dturns -> Forall answerable dturns ->
  exists qs golds,
    extract_questions_and_answers dturns = Returned (qs, golds)
    /\ length qs = length dturns /\ length golds = length dturns.
Proof.
  intros Hall Hans. unfold extract_questions_and_answers.
  destruct (questions_and_answers_total dturns [] [] Hall Hans) as (qs & golds & E).
  exists qs, golds. split; [exact E|].
  apply questions_and_answers_returned in E as (nq & ng & -> & -> & Hq & Hg).
  cbn [app]. split; symmetry; eapply Forall2_length; eassumption.
Qed.

Lemma forallb_firstn {A} (f : A -> bool) n (l : list A) :
  forallb f l = true -> forallb f (firstn n l) = true.
Proof.
  revert n; induction l as [|x l IH]; intros [|n]; cbn; try reflexivity.
  intros H. apply andb_true_iff in H as [-> H]. exact (IH n H).
Qed.

(** [evaluate_dialogue] up to the scoring loop. *)
Lemma evaluate_dialogue_run id first dturns w :
  Forall indexed (first :: dturns) -> Forall answerable (first :: dturns) ->
  exists qs golds reqs news v' w1,
    extract_questions_and_answers (first :: dturns) = Returned (qs, golds)
    /\ length qs = S (length dturns) /\ length golds = S (length dturns)
    /\ turns depth client describe
         (Some (prompt_with (strip template) (extract_document_context first)))
         golds 0 (length (requests w)) [] qs reqs news v'
    /\ requests w1 = requests w ++ reqs
    /\ evaluate_dialogue config depth prompt_file client describe id (first :: dturns) w
       = (t ← on_output (score_dialogue config news golds);
          _logged ← pure (int_truediv (dialogue_correct t) (Z.of_nat (length qs)));
          mret (dialogue_correct t, dialogue_errors t)) w1.
Proof.
  intros Hall Hans.
  destruct (extract_indexed _ Hall Hans) as (qs & golds & Hqa & Hlq & Hlg).
  destruct (process_dialogue_spec config depth prompt_file client describe client_in_model
              template (extract_document_context first) qs golds w prompt_file_read)
    as (w1 & reqs & news & v' & Hrun & Hturns & Hreq & _).
  exists qs, golds, reqs, news, v', w1.
  split; [exact Hqa|]. split; [exact Hlq|]. split; [exact Hlg|].
  split; [exact Hturns|]. split; [exact Hreq|].
  unfold evaluate_dialogue. change (head (first :: dturns)) with (Some first).
  rewrite or_fail_bind. cbv beta iota zeta. rewrite Hqa.
  rewrite (bind_returned (pure (Returned (qs, golds))) _ w (qs, golds) w eq_refl).
  cbv beta iota zeta. cbn [fst snd].
  rewrite (bind_returned _ _ _ _ _ Hrun). reflexivity.
Qed.

Hypothesis replies_scorable :
  forall n sent r, parsed depth (client n sent) = Some r -> scorable r = true.

Lemma evaluate_dialogue_spec id first dturns w :
  Forall indexed (first :: dturns) -> Forall answerable (first :: dturns) ->
  exists c e w',
    evaluate_dialogue config depth prompt_file client describe id (first :: dturns) w
    = (Returned (c, e), w')
    /\ (0 <= c)%Z /\ (0 <= e)%Z /\ (c + e <= Z.of_nat (S (length dturns)))%Z
    /\ length (requests w') = length (requests w) + S (length dturns).
Proof.
  intros Hall Hans.
  destruct (evaluate_dialogue_run id first dturns w Hall Hans)
    as (qs & golds & reqs & news & v' & w1 & Hqa & Hlq & Hlg & Hturns & Hreq & Hrun).
  rewrite Hrun. clear Hrun.
  pose proof (turns_scorable _ _ _ _ _ _ _ _ _ _ _ _ replies_scorable Hturns) as Hsc.
  destruct (turns_lengths _ _ _ _ _ _ _ _ _ _ _ _ Hturns) as [Hlr _].
  pose proof (score_turns_outcome config news golds
                {| dialogue_correct := 0; dialogue_errors := 0 |} (output w1)) as Hscore.
  unfold zipped in Hscore. rewrite (forallb_firstn _ _ _ Hsc) in Hscore.
  destruct Hscore as (t & out & Hst & He & Hc & Hsum).
  cbn [dialogue_correct dialogue_errors] in *.
  rewrite length_firstn in Hsum.
  assert (Hout : on_output (score_dialogue config news golds) w1
                 = (Returned t, {| store := store w1; output := out;
                                   requests := requests w1; responses := responses w1 |})).
  { unfold on_output, score_dialogue. rewrite Hst. reflexivity. }
  rewrite (bind_returned _ _ _ _ _ Hout).
  destruct (int_truediv_returns (dialogue_correct t) (Z.of_nat (length qs))
              ltac:(lia) ltac:(lia)) as [a Ha].
  unfold pure, mbind, H_bind, mret, H_ret. rewrite Ha.
  eexists _, _, _. split; [reflexivity|].
  cbn [requests]. rewrite Hreq, length_app, Hlr, Hlq.
  repeat split; lia.
Qed.

End DialogueFacts.

Section EvaluateFacts.
Import PyStr PyDictOps Effects Dataset Processor Evaluator Scoring Memory Harness.

Variable config : Config.
Variable depth : nat.
Variable prompt_file : file.
Variable client : nat -> request -> reply.
Variable describe : nat -> raised -> string.

Hypothesis client_in_model : forall n sent, in_model depth (client n sent).
Variable template : string.
Hypothesis prompt_file_read : prompt_file = Contents template.

(** A first reply the scoring loop cannot handle ends [evaluate_dialogue]
    with the exception of the loop. *)
Lemma evaluate_dialogue_unscorable id first dturns w result :
  Forall indexed (first :: dturns) -> Forall answerable (first :: dturns) ->
  (forall sent, parsed depth (client (length (requests w)) sent) = Some result) ->
  scorable result = false ->
  exists e w',
    evaluate_dialogue config depth prompt_file client describe id (first :: dturns) w
    = (Failed (Builtin e), w')
    /\ (e = TypeError \/ e = AttributeError).
Proof.
  intros Hall Hans Hreply Hun.
  destruct (evaluate_dialogue_run config depth prompt_file client describe client_in_model
              template prompt_file_read id first dturns w Hall Hans)
    as (qs & golds & reqs & news & v' & w1 & Hqa & Hlq & Hlg & Hturns & Hreq & Hrun).
  rewrite Hrun. clear Hrun.
  destruct qs as [|q qs]; [discriminate Hlq|].
  destruct golds as [|g golds]; [discriminate Hlg|].
  destruct (turns_first _ _ _ _ _ _ _ _ _ _ _ _ _ _ (Hreply _) Hturns) as [tail ->].
  destruct (score_turn_unscorable config result g
              {| dialogue_correct := 0; dialogue_errors := 0 |} (output w1) Hun)
    as (e & Hst & _ & He).
  exists e. eexists. split.
  - apply bind_failed. unfold on_output, score_dialogue. cbn [score_turns].
    unfold Effects.bind. rewrite Hst. reflexivity.
  - apply He. destruct result as [| | | | | |d]; try reflexivity. exfalso.
    pose proof (parsed_printable _ _ _ (Hreply [])) as Hp.
    cbn [scorable] in Hun. apply orb_false_iff in Hun as [_ Hun].
    destruct (dict_get "answer" d) as [pred|] eqn:Hget; [|discriminate Hun].
    rewrite (dict_get_printable _ _ _ Hp Hget) in Hun. discriminate Hun.
Qed.

Hypothesis replies_scorable :
  forall n sent r, parsed depth (client n sent) = Some r -> scorable r = true.

Lemma evaluate_each_spec (dialogues : groups) (ids : list string) :
  (forall id, In id ids ->
     exists first dturns, group_get id dialogues = Some (first :: dturns)
                          /\ Forall indexed (first :: dturns)
                          /\ Forall answerable (first :: dturns)) ->
  forall results w, sound results ->
  exists results' w',
    evaluate_each config depth prompt_file client describe dialogues ids results w
    = (Returned results', w')
    /\ sound results'
    /\ List.map dialogue_id (dialogue_results results')
       = List.map dialogue_id (dialogue_results results) ++ ids
    /\ total_questions results'
       = (total_questions results + Z.of_nat (turns_in dialogues ids))%Z
    /\ length (requests w') = length (requests w) + turns_in dialogues ids.
Proof.
  induction ids as [|id ids IH]; intros Hids results w Hsound.
  - exists results, w. cbn. rewrite app_nil_r. repeat split; try apply Hsound; lia.
  - destruct (Hids id (or_introl eq_refl)) as (first & dturns & Hget & Hall & Hans).
    destruct (evaluate_dialogue_spec config depth prompt_file client describe client_in_model
                template prompt_file_read replies_scorable id first dturns w Hall Hans)
      as (c & e & w1 & Hrun & Hc & He & Hce & Hreq).
    destruct Hsound as (Htc & Hte & Hsum).
    destruct (ratio_or_zero_returns c (Z.of_nat (length (first :: dturns)))
                ltac:(cbn [length]; lia)) as [a Ha].
    set (results1 :=
           {| total_correct := total_correct results + c;
              total_questions := total_questions results
                                 + Z.of_nat (length (first :: dturns));
              total_errors := total_errors results + e;
              dialogue_results :=
                dialogue_results results
                ++ [{| dialogue_id := id; correct := c;
                       total := Z.of_nat (length (first :: dturns));
                       errors := e; dialogue_accuracy := a |}] |}).
    assert (Hs1 : sound results1).
    { unfold sound, results1.
      cbn [total_correct total_errors total_questions length].
      clear - Htc Hte Hsum Hc He Hce. lia. }
    destruct (IH (fun id' H => Hids id' (or_intror H)) results1 w1 Hs1)
      as (results' & w' & Hrun' & Hsound' & Hids' & Htq & Hreq').
    exists results', w'. split.
    + cbn [evaluate_each]. rewrite Hget, or_fail_bind.
      rewrite (bind_returned _ _ _ _ _ Hrun). cbn [fst snd].
      unfold add_dialogue_result. rewrite Ha.
      exact Hrun'.
    + split; [exact Hsound'|].
      assert (Hti : turns_in dialogues (id :: ids)
                    = S (length dturns) + turns_in dialogues ids)
        by (unfold turns_in; cbn; rewrite Hget; reflexivity).
      rewrite Hti. split.
      * rewrite Hids'. unfold results1. cbn [dialogue_results].
        rewrite List.map_app, <- app_assoc. reflexivity.
      * split; [rewrite Htq; unfold results1; cbn [total_questions length]; lia|].
        rewrite Hreq', Hreq. cbn [length]. lia.
Qed.

End EvaluateFacts.

Section GroupFacts.
Import PyStr Dataset Processor Harness.

Lemma group_get_key (data : list Turn) (id : string) :
  In id (List.map fst (group_by_dialogue data)) ->
  exists first dturns,
    group_get id (group_by_dialogue data) = Some (first :: dturns)
    /\ Permutation (first :: dturns) (members id data).
Proof.
  intros Hin. rewrite keys_group_by_dialogue in Hin.
  apply first_seen_from_In in Hin as [[]|Hin].
  rewrite group_get_group_by_dialogue.
  destruct (members id data) as [|x l] eqn:E.
  - apply members_nil in E. contradiction.
  - pose proof (sort_by_turn_perm (x :: l)) as Hp.
    destruct (sort_by_turn (x :: l)) as [|first dturns] eqn:Es.
    + apply Permutation_length in Hp. discriminate.
    + exists first, dturns. split; [reflexivity|]. symmetry. exact Hp.
Qed.

Lemma members_subset id data item : In item (members id data) -> In item data.
Proof. unfold members. rewrite filter_In. tauto. Qed.

Lemma In_firstn {A} n (l : list A) x : In x (firstn n l) -> In x l.
Proof.
  revert n; induction l as [|y l IH]; intros [|n]; cbn; try tauto.
  intros [->|H]; [auto|right; exact (IH n H)].
Qed.

Lemma In_slice_to {A} n (l : list A) x : In x (slice_to n l) -> In x l.
Proof. unfold slice_to. destruct (0 <=? n)%Z; apply In_firstn. Qed.

Lemma NoDup_firstn {A} n (l : list A) : NoDup l -> NoDup (firstn n l).
Proof.
  revert n; induction l as [|y l IH]; intros [|n] Hnd; cbn; try constructor.
  - apply NoDup_cons in Hnd as [Hy Hl]. intros Hin. apply Hy.
    apply list_elem_of_In. apply list_elem_of_In in Hin. exact (In_firstn _ _ _ Hin).
  - apply NoDup_cons in Hnd as [_ Hl]. exact (IH n Hl).
Qed.

Lemma NoDup_slice_to {A} n (l : list A) : NoDup l -> NoDup (slice_to n l).
Proof. unfold slice_to. destruct (0 <=? n)%Z; apply NoDup_firstn. Qed.

Lemma of_dialogues_cons id ids data :
  ~ In id ids ->
  length (of_dialogues (id :: ids) data)
  = length (members id data) + length (of_dialogues ids data).
Proof.
  intros Hid. unfold of_dialogues, members.
  induction data as [|x data IH]; [reflexivity|].
  cbn [List.filter].
  change (existsb (String.eqb (dialogue_of x)) (id :: ids))
    with (String.eqb (dialogue_of x) id || existsb (String.eqb (dialogue_of x)) ids).
  destruct (String.eqb_spec (dialogue_of x) id) as [Heq|Hne]; cbn [orb].
  - destruct (existsb (String.eqb (dialogue_of x)) ids) eqn:E.
    + apply existsb_eqb_In in E. rewrite Heq in E. contradiction.
    + cbn [length]. rewrite IH. reflexivity.
  - destruct (existsb (String.eqb (dialogue_of x)) ids); cbn [length]; rewrite IH; lia.
Qed.

Lemma turns_in_of_dialogues (data : list Turn) (ids : list string) :
  NoDup ids ->
  (forall id, In id ids -> In id (List.map fst (group_by_dialogue data))) ->
  turns_in (group_by_dialogue data) ids = length (of_dialogues ids data).
Proof.
  induction ids as [|id ids IH]; intros Hnd Hsub.
  - unfold of_dialogues.
    replace (List.filter (fun item => existsb (String.eqb (dialogue_of item)) []) data)
      with (@nil Turn)
      by (clear; induction data as [|x data' IHd]; [reflexivity|exact IHd]).
    reflexivity.
  - apply NoDup_cons in Hnd as [Hid Hnd].
    rewrite of_dialogues_cons by (rewrite <- list_elem_of_In; exact Hid).
    rewrite <- IH by (auto using in_cons).
    destruct (group_get_key data id (Hsub id (or_introl eq_refl)))
      as (first & dturns & Hget & Hperm).
    unfold turns_in. cbn. rewrite Hget. cbn.
    apply Permutation_length in Hperm. cbn in Hperm. rewrite <- Hperm. reflexivity.
Qed.

Lemma of_dialogues_all (data : list Turn) :
  of_dialogues (first_seen (List.map dialogue_of data)) data = data.
Proof.
  unfold of_dialogues.
  assert (H : forall item, In item data ->
            existsb (String.eqb (dialogue_of item))
              (first_seen (List.map dialogue_of data)) = true).
  { intros item Hin. apply existsb_eqb_In. apply first_seen_from_In. right.
    apply in_map. exact Hin. }
  revert H. generalize (first_seen (List.map dialogue_of data)). intros ids.
  induction data as [|x data IH]; intros H; [reflexivity|].
  cbn [List.filter]. rewrite (H x (or_introl eq_refl)). f_equal.
  apply IH. intros item Hin. apply H. right. exact Hin.
Qed.

End GroupFacts.

Section RunFacts.
Import PyStr PyDictOps Effects Dataset Processor Evaluator Scoring Memory Harness.

Variable config : Config.
Variable depth : nat.
Variable prompt_file : file.
Variable client : nat -> request -> reply.
Variable describe : nat -> raised -> string.

Hypothesis client_in_model : forall n sent, in_model depth (client n sent).
Variable template : string.
Hypothesis prompt_file_read : prompt_file = Contents template.
Hypothesis replies_scorable :
  forall n sent r, parsed depth (client n sent) = Some r -> scorable r = true.

Lemma evaluate_spec (data : list Turn) (max_dialogues : option Z) (w : world) :
  Forall indexed data -> Forall answerable data ->
  let ids := match max_dialogues with
             | Some n => slice_to n (first_seen (List.map dialogue_of data))
             | None => first_seen (List.map dialogue_of data)
             end in
  exists results w',
    evaluate config depth prompt_file client describe data max_dialogues w
    = (Returned results, w')
    /\ List.map dialogue_id (dialogue_results results) = ids
    /\ total_questions results = Z.of_nat (length (of_dialogues ids data))
    /\ sound results
    /\ length (requests w') = length (requests w) + length (of_dialogues ids data).
Proof.
  intros Hall Hans ids.
  assert (Hkeys : List.map fst (group_by_dialogue data)
                  = first_seen (List.map dialogue_of data))
    by apply keys_group_by_dialogue.
  assert (Hsub : forall id, In id ids -> In id (List.map fst (group_by_dialogue data))).
  { intros id Hin. rewrite Hkeys. subst ids.
    destruct max_dialogues; [exact (In_slice_to _ _ _ Hin)|exact Hin]. }
  assert (Hnd : NoDup ids).
  { assert (NoDup (first_seen (List.map dialogue_of data)))
      by (apply first_seen_from_NoDup; apply NoDup_nil_2).
    subst ids. destruct max_dialogues; [apply NoDup_slice_to|]; assumption. }
  assert (Hgroups : forall id, In id ids ->
            exists first dturns,
              group_get id (group_by_dialogue data) = Some (first :: dturns)
              /\ Forall indexed (first :: dturns)
              /\ Forall answerable (first :: dturns)).
  { intros id Hin. destruct (group_get_key data id (Hsub id Hin))
      as (first & dturns & Hget & Hperm).
    exists first, dturns. split; [exact Hget|].
    rewrite List.Forall_forall in Hall, Hans.
    split; apply List.Forall_forall; intros x Hx; [apply Hall|apply Hans];
      apply (members_subset id); exact (Permutation_in _ Hperm Hx). }
  destruct (evaluate_each_spec config depth prompt_file client describe client_in_model
              template prompt_file_read replies_scorable
              (group_by_dialogue data) ids Hgroups new_results w)
    as (results & w' & Hrun & Hsound & Hids & Htq & Hreq);
    [unfold sound; cbn; lia|].
  rewrite (turns_in_of_dialogues data ids Hnd Hsub) in Htq, Hreq.
  exists results, w'. split.
  - unfold evaluate. rewrite Hkeys. fold ids.
    rewrite (bind_returned _ _ _ _ _ Hrun).
    destruct Hsound as (Htc & Hte & Hsum).
    destruct (0 <? total_questions results)%Z eqn:Hpos; [|reflexivity].
    destruct (ratio_or_zero_returns (total_correct results) (total_questions results)
                ltac:(lia)) as [a Ha].
    unfold accuracy, pure, mbind, H_bind. rewrite Ha. reflexivity.
  - split; [exact Hids|]. split; [rewrite Htq; cbn; lia|]. split; [exact Hsound|exact Hreq].
Qed.

End RunFacts.

Section MoreTurnsFacts.
Import PyStr PyDictOps Effects Dataset Processor Evaluator Scoring Memory Harness.

Variable depth : nat.
Variable client : nat -> request -> reply.
Variable describe : nat -> raised -> string.

Lemma turns_non_objects p golds i n v qs reqs news v' :
  (forall n sent, exists r, parsed depth (client n sent) = Some r /\ is_dict r = false) ->
  turns depth client describe p golds i n v qs reqs news v' ->
  length news = 2 * length qs.
Proof.
  intros Hs. induction 1 as [|i n v q rest new said reqs news v' Hend _ IH];
    [reflexivity|].
  rewrite length_app, IH. cbn [length].
  destruct (Hs n (system_part p ++ v ++ [message "user" (question_text q)]))
    as (r & Hr & Hd).
  destruct Hend as [e Hp|text d gold _ Hp _|text result e _ Hp _]; cbn [length].
  - congruence.
  - rewrite Hr in Hp. injection Hp as ->. discriminate Hd.
  - lia.
Qed.

Lemma prompt_with_truthy t ctx : truthy (Some (prompt_with t ctx)) = true.
Proof. destruct t; reflexivity. Qed.

Lemma system_part_prompt t ctx :
  system_part (Some (prompt_with t ctx)) = [message "system" (prompt_with t ctx)].
Proof. unfold system_part. rewrite prompt_with_truthy. reflexivity. Qed.

End MoreTurnsFacts.

(** ** The run *)

Section RunTheorems.
Import Harness.

(** X19: [process_dialogue] returns, whatever the client does.  Given
    the prompt file, every exception of a turn is caught: each question
    costs one request and leaves one or two responses, and the memory is
    empty at the end, without a system prompt. *)
Theorem process_dialogue_returns (config : Config) (depth : nat) (prompt_file : file)
    (client : nat -> request -> reply) (describe : nat -> raised -> string)
    (template document_context : string) (questions gold_answers : list string)
    (w : world) :
  (forall n sent, in_model depth (client n sent)) ->
  prompt_file = Contents template ->
  exists responses w',
    process_dialogue config depth prompt_file client describe
      document_context questions gold_answers w = (Returned responses, w')
    /\ length questions <= length responses <= 2 * length questions
    /\ length (requests w') = length (requests w) + length questions
    /\ Memory.history (store w') = Some []
    /\ Memory.size (store w') = Some 0.
Proof.
  intros Hmodel Hfile.
  destruct (process_dialogue_spec config depth prompt_file client describe Hmodel
              template document_context questions gold_answers w Hfile)
    as (w' & reqs & news & v' & Hrun & Hturns & Hreq & Hm & Hp).
  destruct (turns_lengths _ _ _ _ _ _ _ _ _ _ _ _ Hturns) as [Hlr Hln].
  exists news, w'. split; [exact Hrun|]. split; [exact Hln|].
  split; [rewrite Hreq, length_app, Hlr; reflexivity|].
  split.
  - rewrite (history_spec _ _ Hm), Hp. reflexivity.
  - rewrite (size_spec _ _ Hm). reflexivity.
Qed.

Lemma process_dialogue_returns_witness :
  exists responses w',
    process_dialogue default_config 100 (Contents "Answer in JSON.")
      (fun _ _ => Content (Some "{}")) (fun _ _ => "failed")
      "Text before table:" ["q0"; "q1"] ["1"; "2"] start = (Returned responses, w')
    /\ length ["q0"; "q1"] <= length responses <= 2 * length ["q0"; "q1"]
    /\ length (requests w') = length (requests start) + length ["q0"; "q1"]
    /\ Memory.history (store w') = Some []
    /\ Memory.size (store w') = Some 0.
Proof.
  apply (process_dialogue_returns default_config 100 (Contents "Answer in JSON.")
           (fun _ _ => Content (Some "{}")) (fun _ _ => "failed") "Answer in JSON.").
  - intros n sent text [= <-] H. vm_compute in H. discriminate H.
  - reflexivity.
Defined.

(** X20: what [process_dialogue] sends.  It makes one request for each
    question.  The request of question [j] starts with the system message
    built from the prompt file and the document, ends with the question, and
    has between them the two or three messages of each earlier question;
    and each request is the one before it, then the one or two assistant
    messages of that turn, then the next question. *)
Theorem process_dialogue_requests (config : Config) (depth : nat) (prompt_file : file)
    (client : nat -> request -> reply) (describe : nat -> raised -> string)
    (template document_context : string) (questions gold_answers : list string)
    (w : world) :
  (forall n sent, in_model depth (client n sent)) ->
  prompt_file = Contents template ->
  exists responses w' reqs,
    process_dialogue config depth prompt_file client describe
      document_context questions gold_answers w = (Returned responses, w')
    /\ requests w' = requests w ++ reqs
    /\ length reqs = length questions
    /\ (forall j q, questions !! j = Some q ->
        exists earlier,
          reqs !! j
          = Some (Memory.message "system"
                    (prompt_with (PyStr.strip template) document_context)
                  :: earlier ++ [Memory.message "user" (question_text q)])
          /\ 2 * j <= length earlier <= 3 * j)
    /\ (forall j a b, reqs !! j = Some a -> reqs !! S j = Some b ->
        exists said q,
          b = a ++ List.map (Memory.message "assistant") said
                ++ [Memory.message "user" (question_text q)]
          /\ 1 <= length said <= 2).
Proof.
  intros Hmodel Hfile.
  destruct (process_dialogue_spec config depth prompt_file client describe Hmodel
              template document_context questions gold_answers w Hfile)
    as (w' & reqs & news & v' & Hrun & Hturns & Hreq & Hm & Hp).
  destruct (turns_lengths _ _ _ _ _ _ _ _ _ _ _ _ Hturns) as [Hlr Hln].
  exists news, w', reqs. split; [exact Hrun|]. split; [exact Hreq|].
  split; [exact Hlr|]. split.
  - intros j q Hq.
    destruct (turns_request _ _ _ _ _ _ _ _ _ _ _ _ Hturns j q Hq) as (earlier & Hj & Hlen).
    exists earlier. split; [|exact Hlen].
    rewrite system_part_prompt in Hj. exact Hj.
  - exact (turns_extend _ _ _ _ _ _ _ _ _ _ _ _ Hturns).
Qed.

Lemma process_dialogue_requests_witness :
  exists responses w' reqs,
    process_dialogue default_config 100 (Contents " Answer in JSON. ")
      (fun _ _ => Content (Some "not json")) (fun _ _ => "failed")
      "Text before table:" ["q0"; "q1"] ["1"; "2"] start = (Returned responses, w')
    /\ requests w' = requests start ++ reqs
    /\ length reqs = length ["q0"; "q1"]
    /\ (forall j q, ["q0"; "q1"] !! j = Some q ->
        exists earlier,
          reqs !! j
          = Some (Memory.message "system"
                    (prompt_with (PyStr.strip " Answer in JSON. ") "Text before table:")
                  :: earlier ++ [Memory.message "user" (question_text q)])
          /\ 2 * j <= length earlier <= 3 * j)
    /\ (forall j a b, reqs !! j = Some a -> reqs !! S j = Some b ->
        exists said q,
          b = a ++ List.map (Memory.message "assistant") said
                ++ [Memory.message "user" (question_text q)]
          /\ 1 <= length said <= 2).
Proof.
  apply (process_dialogue_requests default_config 100 (Contents " Answer in JSON. ")
           (fun _ _ => Content (Some "not json")) (fun _ _ => "failed")
           " Answer in JSON. ").
  - intros n sent text [= <-] H. vm_compute in H. discriminate H.
  - reflexivity.
Defined.

(** X21: when every reply that parses is a JSON object, and there is a
    gold answer for each question, [process_dialogue] returns one response
    for each question, each of them a dictionary: the parsed reply or the
    error entry. *)
Theorem one_response_per_question (config : Config) (depth : nat) (prompt_file : file)
    (client : nat -> request -> reply) (describe : nat -> raised -> string)
    (template document_context : string) (questions gold_answers : list string)
    (w : world) :
  (forall n sent, in_model depth (client n sent)) ->
  prompt_file = Contents template ->
  (forall n sent r, parsed depth (client n sent) = Some r -> Scoring.is_dict r = true) ->
  length questions <= length gold_answers ->
  exists responses w',
    process_dialogue config depth prompt_file client describe
      document_context questions gold_answers w = (Returned responses, w')
    /\ length responses = length questions
    /\ forallb Scoring.is_dict responses = true.
Proof.
  intros Hmodel Hfile Hobj Hlen.
  destruct (process_dialogue_spec config depth prompt_file client describe Hmodel
              template document_context questions gold_answers w Hfile)
    as (w' & reqs & news & v' & Hrun & Hturns & _).
  destruct (turns_objects depth client describe _ gold_answers 0 _ _ questions _ _ _
              Hobj Hlen Hturns) as [Hl Hd].
  exists news, w'. split; [exact Hrun|]. split; [exact Hl|exact Hd].
Qed.

Lemma one_response_per_question_witness :
  exists responses w',
    process_dialogue default_config 100 (Contents "Answer in JSON.")
      (fun _ _ => Content (Some "{}")) (fun _ _ => "failed")
      "Text before table:" ["q0"; "q1"] ["1"; "2"] start = (Returned responses, w')
    /\ length responses = length ["q0"; "q1"]
    /\ forallb Scoring.is_dict responses = true.
Proof.
  apply (one_response_per_question default_config 100 (Contents "Answer in JSON.")
           (fun _ _ => Content (Some "{}")) (fun _ _ => "failed") "Answer in JSON.").
  - intros n sent text [= <-] H. vm_compute in H. discriminate H.
  - reflexivity.
  - intros n sent r H. vm_compute in H. injection H as <-. reflexivity.
  - cbn. lia.
Defined.

(** X22: a reply that parses to a value that is not a JSON object leaves
    two responses for its question, the value and an error entry: the value
    is appended before [result.get] raises.  When every reply is of this
    kind, [process_dialogue] returns twice as many responses as there are
    questions. *)
Theorem non_object_replies_add_two (config : Config) (depth : nat) (prompt_file : file)
    (client : nat -> request -> reply) (describe : nat -> raised -> string)
    (template document_context : string) (questions gold_answers : list string)
    (w : world) :
  (forall n sent, in_model depth (client n sent)) ->
  prompt_file = Contents template ->
  (forall n sent, exists r, parsed depth (client n sent) = Some r
                            /\ Scoring.is_dict r = false) ->
  exists responses w',
    process_dialogue config depth prompt_file client describe
      document_context questions gold_answers w = (Returned responses, w')
    /\ length responses = 2 * length questions.
Proof.
  intros Hmodel Hfile Hnon.
  destruct (process_dialogue_spec config depth prompt_file client describe Hmodel
              template document_context questions gold_answers w Hfile)
    as (w' & reqs & news & v' & Hrun & Hturns & _).
  exists news, w'. split; [exact Hrun|].
  exact (turns_non_objects _ _ _ _ _ _ _ _ _ _ _ _ Hnon Hturns).
Qed.

Lemma non_object_replies_add_two_witness :
  exists responses w',
    process_dialogue default_config 100 (Contents "Answer in JSON.")
      (fun _ _ => Content (Some "[1, 2]")) (fun _ _ => "failed")
      "Text before table:" ["q0"; "q1"] ["1"; "2"] start = (Returned responses, w')
    /\ length responses = 2 * length ["q0"; "q1"].
Proof.
  apply (non_object_replies_add_two default_config 100 (Contents "Answer in JSON.")
           (fun _ _ => Content (Some "[1, 2]")) (fun _ _ => "failed") "Answer in JSON.").
  - intros n sent text [= <-] H. vm_compute in H. discriminate H.
  - reflexivity.
  - intros n sent. exists (PyList [PyInt 1; PyInt 2]). split; vm_compute; reflexivity.
Defined.

(** X23: without the prompt file [process_dialogue] raises before the
    first request: [FileNotFoundError] when the file is missing,
    [RuntimeError] when it cannot be read. *)
Theorem process_dialogue_needs_prompt (config : Config) (depth : nat) (prompt_file : file)
    (client : nat -> request -> reply) (describe : nat -> raised -> string)
    (document_context : string) (questions gold_answers : list string) (w : world) :
  prompt_file = Missing \/ prompt_file = Unreadable ->
  exists w',
    process_dialogue config depth prompt_file client describe
      document_context questions gold_answers w
    = (Failed (match prompt_file with
               | Unreadable => RuntimeError
               | _ => FileNotFoundError
               end), w')
    /\ requests w' = requests w.
Proof.
  intros [-> | ->]; eexists; split; reflexivity.
Qed.

Lemma process_dialogue_needs_prompt_witness :
  exists w',
    process_dialogue default_config 100 Missing
      (fun _ _ => Content (Some "{}")) (fun _ _ => "failed")
      "Text before table:" ["q0"] ["1"] start
    = (Failed FileNotFoundError, w')
    /\ requests w' = requests start.
Proof.
  apply (process_dialogue_needs_prompt default_config 100 Missing
           (fun _ _ => Content (Some "{}")) (fun _ _ => "failed")).
  left. reflexivity.
Defined.

(** X24: [evaluate_dialogue] on a dialogue with at least one turn, each
    with a question at its [turn_ind] and an [exe_ans] that [str] takes (as
    every value is that [json.load] returned), when every reply that parses
    is a value the scoring loop can handle.  It returns, after one request
    for each turn; neither count is negative, and correct answers and errors
    together are at most the turns.  In particular [dialogue_turns[0]], the
    two indexings and the division by [len(questions)] do not raise. *)
Theorem evaluate_dialogue_returns (config : Config) (depth : nat) (prompt_file : file)
    (client : nat -> request -> reply) (describe : nat -> raised -> string)
    (template dialogue_id : string) (dialogue_turns : list Dataset.Turn) (w : world) :
  (forall n sent, in_model depth (client n sent)) ->
  prompt_file = Contents template ->
  (forall n sent r, parsed depth (client n sent) = Some r -> Scoring.scorable r = true) ->
  dialogue_turns <> [] ->
  Forall Processor.indexed dialogue_turns ->
  Forall Processor.answerable dialogue_turns ->
  exists c e w',
    evaluate_dialogue config depth prompt_file client describe dialogue_id dialogue_turns w
    = (Returned (c, e), w')
    /\ (0 <= c)%Z /\ (0 <= e)%Z /\ (c + e <= Z.of_nat (length dialogue_turns))%Z
    /\ length (requests w') = length (requests w) + length dialogue_turns.
Proof.
  intros Hmodel Hfile Hsc Hne Hall Hans.
  destruct dialogue_turns as [|first dturns]; [contradiction|].
  exact (evaluate_dialogue_spec config depth prompt_file client describe Hmodel template
           Hfile Hsc dialogue_id first dturns w Hall Hans).
Qed.

Lemma evaluate_dialogue_returns_witness :
  exists c e w',
    evaluate_dialogue default_config 100 (Contents "Answer in JSON.")
      (fun _ _ => Content (Some "{}")) (fun _ _ => "failed") "d"
      [Dataset.sample "d_0" 0; Dataset.sample "d_1" 1] start
    = (Returned (c, e), w')
    /\ (0 <= c)%Z /\ (0 <= e)%Z
    /\ (c + e <= Z.of_nat (length [Dataset.sample "d_0" 0; Dataset.sample "d_1" 1]))%Z
    /\ length (requests w')
       = length (requests start)
         + length [Dataset.sample "d_0" 0; Dataset.sample "d_1" 1].
Proof.
  apply (evaluate_dialogue_returns default_config 100 (Contents "Answer in JSON.")
           (fun _ _ => Content (Some "{}")) (fun _ _ => "failed") "Answer in JSON.").
  - intros n sent text [= <-] H. vm_compute in H. discriminate H.
  - reflexivity.
  - intros n sent r H. vm_compute in H. injection H as <-. reflexivity.
  - discriminate.
  - repeat constructor; cbn; lia.
  - repeat constructor.
Defined.

(** X25: a first reply that parses to a value the scoring loop cannot
    handle (a number, a boolean, [null], or a string or list without
    ["error"]) makes [evaluate_dialogue] raise, on a dialogue whose turns
    have a question at their [turn_ind] and an [exe_ans] that [str] takes:
    the value is the first of the responses, and the loop raises
    [TypeError] or [AttributeError] on it.  A reply that [json.loads]
    refuses, such as an integer of more than 4300 digits, is not such a
    value: it parses to nothing. *)
Theorem unscorable_reply_ends_the_run (config : Config) (depth : nat) (prompt_file : file)
    (client : nat -> request -> reply) (describe : nat -> raised -> string)
    (template dialogue_id : string) (dialogue_turns : list Dataset.Turn) (w : world)
    (result : pyobj) :
  (forall n sent, in_model depth (client n sent)) ->
  prompt_file = Contents template ->
  dialogue_turns <> [] ->
  Forall Processor.indexed dialogue_turns ->
  Forall Processor.answerable dialogue_turns ->
  (forall sent, parsed depth (client (length (requests w)) sent) = Some result) ->
  Scoring.scorable result = false ->
  exists e w',
    evaluate_dialogue config depth prompt_file client describe dialogue_id dialogue_turns w
    = (Failed (Builtin e), w')
    /\ (e = TypeError \/ e = AttributeError).
Proof.
  intros Hmodel Hfile Hne Hall Hans Hreply Hun.
  destruct dialogue_turns as [|first dturns]; [contradiction|].
  exact (evaluate_dialogue_unscorable config depth prompt_file client describe Hmodel
           template Hfile dialogue_id first dturns w result Hall Hans Hreply Hun).
Qed.

Lemma unscorable_reply_ends_the_run_witness :
  exists e w',
    evaluate_dialogue default_config 100 (Contents "Answer in JSON.")
      (fun _ _ => Content (Some "5")) (fun _ _ => "failed") "d"
      [Dataset.sample "d_0" 0; Dataset.sample "d_1" 1] start
    = (Failed (Builtin e), w')
    /\ (e = TypeError \/ e = AttributeError).
Proof.
  apply (unscorable_reply_ends_the_run default_config 100 (Contents "Answer in JSON.")
           (fun _ _ => Content (Some "5")) (fun _ _ => "failed") "Answer in JSON."
           "d" [Dataset.sample "d_0" 0; Dataset.sample "d_1" 1] start (PyInt 5)).
  - intros n sent text [= <-] H. vm_compute in H. discriminate H.
  - reflexivity.
  - discriminate.
  - repeat constructor; cbn; lia.
  - repeat constructor.
  - intros sent. vm_compute. reflexivity.
  - reflexivity.
Defined.

(** X26: [evaluate], when every record has a question at its [turn_ind]
    and an [exe_ans] that [str] takes, and every reply that parses is a
    value the scoring loop can handle.  It returns.  The dialogues evaluated are the first [max_dialogues]
    identifiers in the order of their first record, all of them without a
    limit; there is one entry for each, in that order, and one request for
    each of their records; [total_questions] is the number of these
    records, and correct answers and errors together do not exceed it. *)
Theorem evaluate_returns (config : Config) (depth : nat) (prompt_file : file)
    (client : nat -> request -> reply) (describe : nat -> raised -> string)
    (template : string) (data : list Dataset.Turn) (max_dialogues : option Z)
    (w : world) :
  (forall n sent, in_model depth (client n sent)) ->
  prompt_file = Contents template ->
  (forall n sent r, parsed depth (client n sent) = Some r -> Scoring.scorable r = true) ->
  Forall Processor.indexed data ->
  Forall Processor.answerable data ->
  let ids := match max_dialogues with
             | Some n => slice_to n
                           (Processor.first_seen (List.map Processor.dialogue_of data))
             | None => Processor.first_seen (List.map Processor.dialogue_of data)
             end in
  exists results w',
    evaluate config depth prompt_file client describe data max_dialogues w
    = (Returned results, w')
    /\ List.map dialogue_id (dialogue_results results) = ids
    /\ total_questions results = Z.of_nat (length (Processor.of_dialogues ids data))
    /\ (0 <= total_correct results)%Z /\ (0 <= total_errors results)%Z
    /\ (total_correct results + total_errors results <= total_questions results)%Z
    /\ length (requests w')
       = length (requests w) + length (Processor.of_dialogues ids data)
    /\ (max_dialogues = None -> Processor.of_dialogues ids data = data).
Proof.
  intros Hmodel Hfile Hsc Hall Hans ids.
  destruct (evaluate_spec config depth prompt_file client describe Hmodel template Hfile Hsc
              data max_dialogues w Hall Hans)
    as (results & w' & Hrun & Hids & Htq & (Htc & Hte & Hsum) & Hreq).
  exists results, w'. repeat split; try assumption.
  intros ->. apply of_dialogues_all.
Qed.

Lemma evaluate_returns_witness :
  let data := [Dataset.sample "d_0" 0; Dataset.sample "e_0" 0; Dataset.sample "d_1" 1] in
  let ids := slice_to 1 (Processor.first_seen (List.map Processor.dialogue_of data)) in
  exists results w',
    evaluate default_config 100 (Contents "Answer in JSON.")
      (fun _ _ => Content (Some "{}")) (fun _ _ => "failed") data (Some 1%Z) start
    = (Returned results, w')
    /\ List.map dialogue_id (dialogue_results results) = ids
    /\ total_questions results = Z.of_nat (length (Processor.of_dialogues ids data))
    /\ (0 <= total_correct results)%Z /\ (0 <= total_errors results)%Z
    /\ (total_correct results + total_errors results <= total_questions results)%Z
    /\ length (requests w')
       = length (requests start) + length (Processor.of_dialogues ids data)
    /\ (Some 1%Z = None -> Processor.of_dialogues ids data = data).
Proof.
  intros data.
  apply (evaluate_returns default_config 100 (Contents "Answer in JSON.")
           (fun _ _ => Content (Some "{}")) (fun _ _ => "failed") "Answer in JSON."
           data (Some 1%Z) start).
  - intros n sent text [= <-] H. vm_compute in H. discriminate H.
  - reflexivity.
  - intros n sent r H. vm_compute in H. injection H as <-. reflexivity.
  - repeat constructor; cbn; lia.
  - repeat constructor.
Defined.
End RunTheorems.

Section FirstRequest.
Import PyStr PyDictOps Effects Dataset Processor Evaluator Scoring Memory Harness.

(** Scoring and the logged quotient make no request. *)
Lemma scoring_keeps_requests {A B C} (m : M stdout A) (o : A -> outcome B)
    (k : A -> C) (w : world) :
  requests (snd ((t ← on_output m; _logged ← pure (o t); mret (k t)) w)) = requests w.
Proof.
  unfold mbind, H_bind, on_output, pure, mret, H_ret.
  destruct (m (output w)) as [[a|e] out]; cbn [of_res]; [|reflexivity].
  destruct (o a); reflexivity.
Qed.

Lemma extract_first_question first rest qs golds q :
  extract_questions_and_answers (first :: rest) = Returned (qs, golds) ->
  question_of first = Some q ->
  qs !! 0 = Some q.
Proof.
  unfold extract_questions_and_answers. intros H Hq.
  apply questions_and_answers_returned in H as (nq & ng & -> & _ & Hqs & _).
  inversion Hqs as [|? q' ? ? Hq' _]; subst. cbn. congruence.
Qed.

End FirstRequest.

Section FirstRequestTheorem.
Import Harness.

(** X27: the first request of a dialogue.  Whatever the replies are,
    [evaluate_dialogue] on a dialogue whose turns have a question at their
    [turn_ind] and an [exe_ans] that [str] takes first sends two messages: the system message, built from the
    prompt file and from the document context of the first turn alone, and
    the question of the first turn. *)
Theorem first_request_of_dialogue (config : Config) (depth : nat) (prompt_file : file)
    (client : nat -> request -> reply) (describe : nat -> raised -> string)
    (template dialogue_id : string) (first : Dataset.Turn) (rest : list Dataset.Turn)
    (q : string) (w : world) :
  (forall n sent, in_model depth (client n sent)) ->
  prompt_file = Contents template ->
  Forall Processor.indexed (first :: rest) ->
  Forall Processor.answerable (first :: rest) ->
  Processor.question_of first = Some q ->
  exists o w',
    evaluate_dialogue config depth prompt_file client describe dialogue_id (first :: rest) w
    = (o, w')
    /\ requests w' !! length (requests w)
       = Some [Memory.message "system"
                 (prompt_with (PyStr.strip template)
                    (Processor.extract_document_context first));
               Memory.message "user" (question_text q)].
Proof.
  intros Hmodel Hfile Hall Hans Hq.
  destruct (evaluate_dialogue_run config depth prompt_file client describe Hmodel template
              Hfile dialogue_id first rest w Hall Hans)
    as (qs & golds & reqs & news & v' & w1 & Hqa & _ & _ & Hturns & Hreq & Hrun).
  rewrite Hrun.
  pose proof (scoring_keeps_requests
                (Evaluator.score_dialogue config news golds)
                (fun t => int_truediv (Evaluator.dialogue_correct t)
                            (Z.of_nat (length qs)))
                (fun t => (Evaluator.dialogue_correct t, Evaluator.dialogue_errors t))
                w1) as Hkeep.
  destruct ((t ← on_output (Evaluator.score_dialogue config news golds);
             _logged ← pure (int_truediv (Evaluator.dialogue_correct t)
                               (Z.of_nat (length qs)));
             mret (Evaluator.dialogue_correct t, Evaluator.dialogue_errors t)) w1)
    as [o w'].
  exists o, w'. split; [reflexivity|].
  cbn [snd] in Hkeep. rewrite Hkeep, Hreq.
  destruct (turns_request _ _ _ _ _ _ _ _ _ _ _ _ Hturns 0 q
              (extract_first_question _ _ _ _ _ Hqa Hq)) as (earlier & H0 & Hlen).
  destruct earlier as [|m earlier]; [|cbn [length] in Hlen; lia].
  rewrite system_part_prompt in H0.
  destruct reqs as [|r0 reqs]; [discriminate H0|].
  injection H0 as ->. apply list_lookup_middle. reflexivity.
Qed.

Lemma first_request_of_dialogue_witness :
  exists o w',
    evaluate_dialogue default_config 100 (Contents "Answer in JSON.")
      (fun _ _ => Refused) (fun _ _ => "failed") "d"
      [Dataset.sample "d_0" 0; Dataset.sample "d_1" 1] start
    = (o, w')
    /\ requests w' !! length (requests start)
       = Some [Memory.message "system"
                 (prompt_with (PyStr.strip "Answer in JSON.")
                    (Processor.extract_document_context (Dataset.sample "d_0" 0)));
               Memory.message "user"
                 (question_text "what was the revenue in 2009?")].
Proof.
  apply (first_request_of_dialogue default_config 100 (Contents "Answer in JSON.")
           (fun _ _ => Refused) (fun _ _ => "failed") "Answer in JSON." "d"
           (Dataset.sample "d_0" 0) [Dataset.sample "d_1" 1]
           "what was the revenue in 2009?" start).
  - intros n sent text H. discriminate H.
  - reflexivity.
  - repeat constructor; cbn; lia.
  - repeat constructor.
  - reflexivity.
Defined.

End FirstRequestTheorem.
